(** * Pyobfuscate: a shallow embedding of the obfuscation passes

    The passes of the obfuscator are embedded as Rocq functions over a small
    Python syntax tree (module [ast]); the code the passes generate is run by
    a fuelled interpreter for that tree (section "Interpreter") or, for the
    decoders the number strategies emit as source text, translated directly
    to Rocq functions. *)

From Stdlib Require Import ZArith List String Ascii Bool Lia.
From Stdlib Require Import DecimalString DecimalZ DecimalNat DecimalPos DecimalFacts.
From stdpp Require Import base gmap strings.

Set Warnings "-register-all".

Import ListNotations.
Local Open Scope string_scope.
Local Open Scope Z_scope.

(* ===================================================================== *)
(** ** Python integers and strings *)
(* ===================================================================== *)

(** [str(i)] for an int. *)
Definition py_str (z : Z) : string := NilZero.string_of_int (Z.to_int z).

(** [int(s)] on decimal text; [None] stands for [ValueError]. *)
Definition py_int (s : string) : option Z :=
  option_map Z.of_int (NilZero.int_of_string s).

(** [ceil(p / q)] for integers [p], [q] with [q <> 0], computed exactly. *)
Definition ceil_div (p q : Z) : Z := - ((- p) / q).

(** [len(range(start, stop, step))] for [step <> 0]. *)
Definition range_len (start stop step : Z) : Z :=
  if (0 <? step) && (start <? stop) then 1 + (stop - 1 - start) / step
  else if (step <? 0) && (stop <? start) then 1 + (start - 1 - stop) / (0 - step)
  else 0.

(** The elements of [range(start, stop, step)]: [r[i] = start + step*i]. *)
Definition py_range (start stop step : Z) : list Z :=
  map (fun i => start + step * Z.of_nat i)
      (seq 0 (Z.to_nat (range_len start stop step))).

(* ===================================================================== *)
(** ** The random source *)
(* ===================================================================== *)

(** The shared pseudorandom source is a finite script of raw draws; every
    call of the [random] module consumes one draw (an exhausted script
    yields 0).  Quantifying over scripts covers every sequence of random
    choices. *)
Module random.

Definition rng := list nat.

Definition next (r : rng) : nat * rng :=
  match r with
  | [] => (0%nat, [])
  | d :: r' => (d, r')
  end.

(** [random.random()], in thousandths: a value in [0, 1000). *)
Definition random (r : rng) : Z * rng :=
  let (d, r') := next r in (Z.of_nat d mod 1000, r').

(** [random.randint(lo, hi)], both ends included. *)
Definition randint (lo hi : Z) (r : rng) : Z * rng :=
  let (d, r') := next r in (lo + Z.of_nat d mod (hi - lo + 1), r').

(** [random.getrandbits(k)]. *)
Definition getrandbits (k : Z) (r : rng) : Z * rng :=
  let (d, r') := next r in (Z.of_nat d mod 2 ^ k, r').

(** [random.choice(l)] on a non-empty list ([dflt] is never returned when
    [l] is non-empty). *)
Definition choice {A} (dflt : A) (l : list A) (r : rng) : A * rng :=
  let (d, r') := next r in (nth (d mod length l)%nat l dflt, r').

End random.

(* ===================================================================== *)
(** ** Syntax trees *)
(* ===================================================================== *)

Module ast.

Inductive constant :=
| CInt (z : Z)
| CBool (b : bool)
| CStr (s : string)
| CNone.

Inductive expr_context := Load | Store.

Inductive operator :=
| Add | Sub | Mult | FloorDiv | Mod
| BitAnd | BitOr | BitXor | LShift | RShift.

Inductive unaryop := USub | Not.

Inductive cmpop := Eq | NotEq | Lt | Gt | GtE.

(** [ast.arguments]: the three lists of parameter names (defaults are not
    modelled: every [arguments] the passes build has none). *)
Record arguments := {
  posonlyargs : list string;
  args : list string;
  kwonlyargs : list string
}.

(** Expressions.  [Compare] carries the single operator and comparator the
    passes build; [Call] carries positional arguments and keywords. *)
Inductive expr :=
| Constant (value : constant)
| Name (id : string) (ctx : expr_context)
| UnaryOp (op : unaryop) (operand : expr)
| BinOp (left : expr) (op : operator) (right : expr)
| Compare (left : expr) (ops : cmpop) (comparators : expr)
| Call (func : expr) (args : list expr) (keywords : list (string * expr))
| Lambda (args : arguments) (body : expr).

(** Statements.  [Assign] has the single target the passes build. *)
Inductive stmt :=
| FunctionDef (name : string) (args : arguments) (body : list stmt)
| ClassDef (name : string) (body : list stmt)
| Return (value : option expr)
| Assign (targets : expr) (value : expr)
| AugAssign (target : expr) (op : operator) (value : expr)
| For (target : expr) (iter : expr) (body orelse : list stmt)
| While (test : expr) (body orelse : list stmt)
| If (test : expr) (body orelse : list stmt)
| Expr (value : expr)
| Pass.

(** [ast.Module]: its body. *)
Definition Module_ := list stmt.

(** [ast.arguments(posonlyargs=[], args=[...], kwonlyargs=[], ...)]. *)
Definition plain_args (names : list string) : arguments :=
  {| posonlyargs := []; args := names; kwonlyargs := [] |}.

End ast.

(** [isinstance(value, int)]: booleans are integers. *)
Definition isinstance_int (c : ast.constant) : bool :=
  match c with
  | ast.CInt _ | ast.CBool _ => true
  | _ => false
  end.

(** The integer an int-like constant stands for in arithmetic. *)
Definition int_value (c : ast.constant) : Z :=
  match c with
  | ast.CInt z => z
  | ast.CBool b => Z.b2z b
  | _ => 0
  end.

(* ===================================================================== *)
(** ** NameTracker/naming.py *)
(* ===================================================================== *)

Module Naming.

Record t := {
  used_names : gset string;
  generated_names : gset string
}.

(** [Naming()]. *)
Definition init : t := {| used_names := ∅; generated_names := ∅ |}.

(** [f"{base}{i}"]. *)
Definition candidate (base : string) (i : nat) : string :=
  String.append base (py_str (Z.of_nat i)).

Definition taken (self : t) (c : string) : bool :=
  bool_decide (c ∈ used_names self) || bool_decide (c ∈ generated_names self).

(** The [while True] loop of [get_name], started at counter [i], with a
    bound on the number of candidates tried. *)
Fixpoint get_name_loop (fuel : nat) (self : t) (base : string) (i : nat)
  : option (string * t) :=
  match fuel with
  | O => None
  | S fuel' =>
      let c := candidate base i in
      if negb (taken self c)
      then Some (c, {| used_names := {[c]} ∪ used_names self;
                       generated_names := {[c]} ∪ generated_names self |})
      else get_name_loop fuel' self base (S i)
  end.

(** A bound within which the loop always returns (lemma
    [get_name_loop_returns]): one more than the number of names known. *)
Definition enough_fuel (self : t) : nat :=
  S (size (used_names self ∪ generated_names self)).

(** [get_name(base)]: the fresh name and the updated registry.  The second
    branch is never taken. *)
Definition get_name (base : string) (self : t) : string * t :=
  match get_name_loop (enough_fuel self) self base 0 with
  | Some r => r
  | None => (base, self)
  end.

(** [get_namespace()]. *)
Definition get_namespace (self : t) : gset string := used_names self.

End Naming.

(* ===================================================================== *)
(** ** Encrpytion/number_obscure_strategies.py *)
(* ===================================================================== *)

Definition mask16 : Z := 0xFFFF.

(** [((x << 3) | (x >> (16 - 3))) & mask16]. *)
Definition rotl3 (x : Z) : Z :=
  Z.land (Z.lor (Z.shiftl x 3) (Z.shiftr x (16 - 3))) mask16.

(** One iteration of the de-interleaving loop:
    [L |= ((value >> (2*i)) & 1) << i; R |= ((value >> (2*i+1)) & 1) << i]. *)
Definition unpack_step (value : Z) (LR : Z * Z) (i : nat) : Z * Z :=
  let (L, R) := LR in
  let i := Z.of_nat i in
  (Z.lor L (Z.shiftl (Z.land (Z.shiftr value (2 * i)) 1) i),
   Z.lor R (Z.shiftl (Z.land (Z.shiftr value (2 * i + 1)) 1) i)).

(** [L = 0; R = 0; for i in range(16): ...]. *)
Definition unpack_bits (value : Z) : Z * Z :=
  fold_left (unpack_step value) (seq 0 16) (0, 0).

(** One iteration of the re-interleaving loop:
    [e |= ((L >> i) & 1) << (2*i); e |= ((R >> i) & 1) << (2*i+1)]. *)
Definition pack_step (L R : Z) (e : Z) (i : nat) : Z :=
  let i := Z.of_nat i in
  let e := Z.lor e (Z.shiftl (Z.land (Z.shiftr L i) 1) (2 * i)) in
  Z.lor e (Z.shiftl (Z.land (Z.shiftr R i) 1) (2 * i + 1)).

Definition pack_bits (L R : Z) : Z :=
  fold_left (pack_step L R) (seq 0 16) 0.

(** [for _ in range(n): state = f(state)]. *)
Definition repeat_rounds {A} (n : Z) (f : A -> A) (s : A) : A :=
  Nat.iter (Z.to_nat n) f s.

(** [ast.Call(func=ast.Name(id=decoder_name, ctx=ast.Load()),
             args=[ast.Constant(value=encoded)], keywords=[])]. *)
Definition decoder_call (decoder_name : string) (encoded : ast.constant) : ast.expr :=
  ast.Call (ast.Name decoder_name ast.Load) [ast.Constant encoded] [].

Module TemplateNumberStrategy.

Definition obfuscate (value : ast.constant) : ast.expr := ast.Constant value.

End TemplateNumberStrategy.

Module SimpleFeistelNumberStrategy.

Definition MASK32 : Z := 0xFFFFFFFF.

Record t := {
  rounds : Z;
  key16 : Z;
  decoder_name : string
}.

(** [__init__]: four rounds, the preset key [0b1011001011001011]. *)
Definition init (naming : Naming.t) : t * Naming.t :=
  let (name, naming') := Naming.get_name "decode_num" naming in
  ({| rounds := 4; key16 := 0xB2CB; decoder_name := name |}, naming').

(** One round of [obfuscate]:
    [x = R ^ key16; F = rotl3(x); L, R = R, (L ^ F) & mask16]. *)
Definition enc_round (self : t) (LR : Z * Z) : Z * Z :=
  let (L, R) := LR in
  let x := Z.lxor R (key16 self) in
  let F := rotl3 x in
  (R, Z.land (Z.lxor L F) mask16).

(** The payload [obfuscate] computes for an in-range value. *)
Definition encode (self : t) (value : Z) : Z :=
  let L := Z.shiftr value 16 in
  let R := Z.land value 0xffff in
  let (L, R) := repeat_rounds (rounds self) (enc_round self) (L, R) in
  Z.lor (Z.shiftl L 16) R.

Definition obfuscate (self : t) (value : ast.constant) : ast.expr :=
  let v := int_value value in
  if negb ((0 <=? v) && (v <? Z.shiftl 1 32)) then ast.Constant value
  else decoder_call (decoder_name self) (ast.CInt (encode self v)).

(** One round of the decoder:
    [tmp = L ^ key; F = rotl3(tmp); prevL = R ^ F; prevR = L;
     L, R = prevL, prevR]. *)
Definition dec_round (self : t) (LR : Z * Z) : Z * Z :=
  let (L, R) := LR in
  let tmp := Z.lxor L (key16 self) in
  let F := rotl3 tmp in
  let prevL := Z.lxor R F in
  let prevR := L in
  (prevL, prevR).

(** The function [get_decoder] emits, under the name [decoder_name]. *)
Definition decode_num (self : t) (x : Z) : Z :=
  let L := Z.shiftr x 16 in
  let R := Z.land x 0xffff in
  let (L, R) := repeat_rounds (rounds self) (dec_round self) (L, R) in
  let v := Z.lor (Z.shiftl L 16) R in
  Z.land v MASK32.

End SimpleFeistelNumberStrategy.

Module FeistelNumberStrategy.

Definition MASK32 : Z := 0xFFFFFFFF.

Record t := {
  rounds : Z;
  salt_mul : Z;
  salt_xor : Z;
  salt_mul_inv : Z;
  decoder_name : string
}.

(** [pow(x, -1, 1 << 16)] for odd [x]: Newton's iteration from [x] itself,
    which is its own inverse modulo 8. *)
Definition inv_mod_2_16 (x : Z) : Z :=
  Nat.iter 4 (fun y => (y * (2 - x * y)) mod 2 ^ 16) (x mod 2 ^ 16).

(** [__init__(naming, rounds=3)]. *)
Definition init (naming : Naming.t) (rounds : Z) (r : random.rng)
  : t * Naming.t * random.rng :=
  let (bits1, r) := random.getrandbits 16 r in
  let salt_mul := Z.lor bits1 1 in
  let (bits2, r) := random.getrandbits 16 r in
  let salt_xor := Z.land bits2 0xFFFF in
  let salt_mul_inv := inv_mod_2_16 salt_mul in
  let (name, naming') := Naming.get_name "decode_num" naming in
  ({| rounds := rounds; salt_mul := salt_mul; salt_xor := salt_xor;
      salt_mul_inv := salt_mul_inv; decoder_name := name |}, naming', r).

(** One round of [obfuscate]:
    [y = (R * salt_mul) & mask16; z = y ^ salt_xor; F = rotl3(z);
     L, R = R, (L ^ F) & mask16]. *)
Definition enc_round (self : t) (LR : Z * Z) : Z * Z :=
  let (L, R) := LR in
  let y := Z.land (R * salt_mul self) mask16 in
  let z := Z.lxor y (salt_xor self) in
  let F := rotl3 z in
  (R, Z.land (Z.lxor L F) mask16).

Definition encode (self : t) (value : Z) : Z :=
  let (L, R) := unpack_bits value in
  let (L, R) := repeat_rounds (rounds self) (enc_round self) (L, R) in
  let encoded := pack_bits L R in
  Z.land encoded MASK32.

Definition obfuscate (self : t) (value : ast.constant) : ast.expr :=
  let v := int_value value in
  if negb ((0 <=? v) && (v <? Z.shiftl 1 32)) then ast.Constant value
  else decoder_call (decoder_name self) (ast.CInt (encode self v)).

(** One round of the decoder:
    [F_input = L; y = (F_input * salt_mul) & 0xffff; z = y ^ salt_xor;
     F = rotl3(z); L, R = (R ^ F) & 0xffff, F_input]. *)
Definition dec_round (self : t) (LR : Z * Z) : Z * Z :=
  let (L, R) := LR in
  let F_input := L in
  let y := Z.land (F_input * salt_mul self) 0xffff in
  let z := Z.lxor y (salt_xor self) in
  let F := rotl3 z in
  (Z.land (Z.lxor R F) 0xffff, F_input).

Definition decode_num (self : t) (x : Z) : Z :=
  let (L, R) := unpack_bits x in
  let (L, R) := repeat_rounds (rounds self) (dec_round self) (L, R) in
  let original := pack_bits L R in
  Z.land original 0xffffffff.

End FeistelNumberStrategy.

(** [chr] and [ord] on the code points below 256 the scheme works with. *)
Definition chr (x : Z) : ascii := ascii_of_N (Z.to_N x).
Definition ord (c : ascii) : Z := Z.of_N (N_of_ascii c).

(** [str(value)] for a constant that passes [isinstance(value, int)]. *)
Definition str_of_constant (c : ast.constant) : string :=
  match c with
  | ast.CInt z => py_str z
  | ast.CBool true => "True"
  | ast.CBool false => "False"
  | ast.CStr s => s
  | ast.CNone => "None"
  end.

(** [[chr(ord(a[i]) ^ ord(b[i])) for i in range(n)]], joined; [None] is an
    [IndexError]. *)
Fixpoint xor_chars (n : nat) (a b : string) : option string :=
  match n with
  | O => Some EmptyString
  | S n' =>
      match a, b with
      | String x a', String y b' =>
          option_map (String (chr (Z.lxor (ord x) (ord y)))) (xor_chars n' a' b')
      | _, _ => None
      end
  end.

Module XorStringNumberStrategy.

Record t := { decoder_name : string }.

Definition init (naming : Naming.t) : t * Naming.t :=
  let (name, naming') := Naming.get_name "decode_num" naming in
  ({| decoder_name := name |}, naming').

(** [[chr(random.getrandbits(8)) for _ in range(n)]], joined. *)
Fixpoint draw_key (n : nat) (r : random.rng) : string * random.rng :=
  match n with
  | O => (EmptyString, r)
  | S n' =>
      let (bits, r) := random.getrandbits 8 r in
      let (key, r) := draw_key n' r in
      (String (chr bits) key, r)
  end.

(** The payload: [xor_str + key]. *)
Definition encode (value : ast.constant) (r : random.rng) : string * random.rng :=
  let s := str_of_constant value in
  let n := String.length s in
  let (key, r) := draw_key n r in
  let xor_str := default EmptyString (xor_chars n s key) in
  (String.append xor_str key, r).

Definition obfuscate (self : t) (value : ast.constant) (r : random.rng)
  : ast.expr * random.rng :=
  let (encoded, r) := encode value r in
  (decoder_call (decoder_name self) (ast.CStr encoded), r).

(** The function [get_decoder] emits:
    [n = len(encoded) // 2; xor_str = encoded[:n]; key = encoded[n:];
     chars = [...]; return int(''.join(chars))].
    [None] is the exception the call raises. *)
Definition decode_num (encoded : string) : option Z :=
  let n := (String.length encoded / 2)%nat in
  let xor_str := String.substring 0 n encoded in
  let key := String.substring n (String.length encoded - n) encoded in
  match xor_chars n xor_str key with
  | Some chars => py_int chars
  | None => None
  end.

End XorStringNumberStrategy.

(** The interface of the number strategies: [obfuscate(value)]. *)
Class NumberObscureStrategy (S : Type) := {
  obfuscate : S -> ast.constant -> random.rng -> ast.expr * random.rng
}.

#[export] Instance template_strategy : NumberObscureStrategy unit :=
  {| obfuscate := fun _ v r => (TemplateNumberStrategy.obfuscate v, r) |}.

#[export] Instance simple_feistel_strategy
  : NumberObscureStrategy SimpleFeistelNumberStrategy.t :=
  {| obfuscate := fun s v r => (SimpleFeistelNumberStrategy.obfuscate s v, r) |}.

#[export] Instance feistel_strategy
  : NumberObscureStrategy FeistelNumberStrategy.t :=
  {| obfuscate := fun s v r => (FeistelNumberStrategy.obfuscate s v, r) |}.

#[export] Instance xor_string_strategy
  : NumberObscureStrategy XorStringNumberStrategy.t :=
  {| obfuscate := XorStringNumberStrategy.obfuscate |}.

(* ===================================================================== *)
(** ** Encrpytion/number_obscurer.py *)
(* ===================================================================== *)

Module NumberObscurerInjector.

(** [visit_Constant]: only integer literals are replaced. *)
Definition visit_Constant {S} `{NumberObscureStrategy S}
    (strategy : S) (value : ast.constant) (r : random.rng)
  : ast.expr * random.rng :=
  if isinstance_int value then obfuscate strategy value r
  else (ast.Constant value, r).

End NumberObscurerInjector.

(* ===================================================================== *)
(** ** Interpreter

    A fuelled interpreter for the trees above, used to run the code the
    passes emit.  Integers are unbounded; [//] and [%] round towards minus
    infinity ([Z.div], [Z.modulo]) and raise on a zero divisor.  Inside a
    function every name the body binds is local, and reading it before it
    is bound raises [UnboundLocalError].  The builtins [print] and [range]
    are taken not to be rebound by the program; [print(e)] appends the
    value of [e] to the output.  Forms outside the subset raise
    [NotModelled]. *)
(* ===================================================================== *)

Module py.

Inductive value :=
| VInt (z : Z)
| VBool (b : bool)
| VStr (s : string)
| VNone
| VFunction (args : ast.arguments) (body : list ast.stmt).

Inductive exn :=
| ZeroDivisionError
| NameError (id : string)
| UnboundLocalError (id : string)
| TypeError
| ValueError
| NotModelled.

Inductive result (A : Type) :=
| Ok (a : A)
| Raise (e : exn)
| OutOfFuel.
Arguments Ok {A} a.
Arguments Raise {A} e.
Arguments OutOfFuel {A}.

Definition bind {A B} (m : result A) (k : A -> result B) : result B :=
  match m with
  | Ok a => k a
  | Raise e => Raise e
  | OutOfFuel => OutOfFuel
  end.

Notation "'let*' x ':=' m 'in' k" := (bind m (fun x => k))
  (at level 10, x name, m at level 100, k at level 200).
Notation "'let*' ' p ':=' m 'in' k" := (bind m (fun p => k))
  (at level 10, p pattern, m at level 100, k at level 200).

(** What running a statement ends with. *)
Inductive outcome :=
| Normal
| Returned (v : value).

Record state := {
  globals : gmap string value;
  stdout : list value
}.

(** The frame of a function call: the names local to the function and
    their bindings.  At module level there is no frame. *)
Record frame := {
  local_names : list string;
  locals : gmap string value
}.

Definition initial_state : state := {| globals := ∅; stdout := [] |}.

Definition value_of_constant (c : ast.constant) : value :=
  match c with
  | ast.CInt z => VInt z
  | ast.CBool b => VBool b
  | ast.CStr s => VStr s
  | ast.CNone => VNone
  end.

Definition as_int (v : value) : option Z :=
  match v with
  | VInt z => Some z
  | VBool b => Some (Z.b2z b)
  | _ => None
  end.

Definition truthy (v : value) : bool :=
  match v with
  | VInt z => negb (z =? 0)
  | VBool b => b
  | VStr s => negb (String.eqb s EmptyString)
  | VNone => false
  | VFunction _ _ => true
  end.

Definition int_binop (op : ast.operator) (x y : Z) : result value :=
  match op with
  | ast.Add => Ok (VInt (x + y))
  | ast.Sub => Ok (VInt (x - y))
  | ast.Mult => Ok (VInt (x * y))
  | ast.FloorDiv => if y =? 0 then Raise ZeroDivisionError else Ok (VInt (x / y))
  | ast.Mod => if y =? 0 then Raise ZeroDivisionError else Ok (VInt (x mod y))
  | ast.BitAnd => Ok (VInt (Z.land x y))
  | ast.BitOr => Ok (VInt (Z.lor x y))
  | ast.BitXor => Ok (VInt (Z.lxor x y))
  | ast.LShift => if y <? 0 then Raise ValueError else Ok (VInt (Z.shiftl x y))
  | ast.RShift => if y <? 0 then Raise ValueError else Ok (VInt (Z.shiftr x y))
  end.

Definition binop (op : ast.operator) (x y : value) : result value :=
  match as_int x, as_int y with
  | Some a, Some b => int_binop op a b
  | _, _ => Raise NotModelled
  end.

Definition compare (op : ast.cmpop) (x y : value) : result value :=
  match as_int x, as_int y with
  | Some a, Some b =>
      Ok (VBool match op with
                | ast.Eq => a =? b
                | ast.NotEq => negb (a =? b)
                | ast.Lt => a <? b
                | ast.Gt => b <? a
                | ast.GtE => b <=? a
                end)
  | _, _ => Raise NotModelled
  end.

Definition unop (op : ast.unaryop) (x : value) : result value :=
  match op with
  | ast.Not => Ok (VBool (negb (truthy x)))
  | ast.USub =>
      match as_int x with
      | Some a => Ok (VInt (- a))
      | None => Raise NotModelled
      end
  end.

(** Reading a name. *)
Definition load (fr : option frame) (st : state) (id : string) : result value :=
  match fr with
  | Some f =>
      if bool_decide (id ∈ local_names f) then
        match locals f !! id with
        | Some v => Ok v
        | None => Raise (UnboundLocalError id)
        end
      else
        match globals st !! id with
        | Some v => Ok v
        | None => Raise (NameError id)
        end
  | None =>
      match globals st !! id with
      | Some v => Ok v
      | None => Raise (NameError id)
      end
  end.

(** Binding a name. *)
Definition store (fr : option frame) (st : state) (id : string) (v : value)
  : option frame * state :=
  match fr with
  | Some f =>
      (Some {| local_names := local_names f; locals := <[id := v]> (locals f) |}, st)
  | None =>
      (None, {| globals := <[id := v]> (globals st); stdout := stdout st |})
  end.

Definition write (st : state) (v : value) : state :=
  {| globals := globals st; stdout := stdout st ++ [v] |}.

(** The names a statement binds in the scope it stands in. *)
Fixpoint bound_names (s : ast.stmt) : list string :=
  match s with
  | ast.FunctionDef name _ _ => [name]
  | ast.ClassDef name _ => [name]
  | ast.Assign (ast.Name id _) _ => [id]
  | ast.AugAssign (ast.Name id _) _ _ => [id]
  | ast.For target _ body orelse =>
      match target with ast.Name id _ => [id] | _ => [] end
      ++ flat_map bound_names body ++ flat_map bound_names orelse
  | ast.While _ body orelse => flat_map bound_names body ++ flat_map bound_names orelse
  | ast.If _ body orelse => flat_map bound_names body ++ flat_map bound_names orelse
  | _ => []
  end.

(** The frame a call starts with; [None] when the arguments do not fit. *)
Fixpoint bind_params (params : list string) (args : list value)
  : option (gmap string value) :=
  match params, args with
  | [], [] => Some ∅
  | p :: params', a :: args' =>
      option_map (fun m => <[p := a]> m) (bind_params params' args')
  | _, _ => None
  end.

Definition call_frame (fargs : ast.arguments) (body : list ast.stmt)
    (args : list value) : option frame :=
  match ast.posonlyargs fargs, ast.kwonlyargs fargs with
  | [], [] =>
      option_map
        (fun m => {| local_names := ast.args fargs ++ flat_map bound_names body;
                     locals := m |})
        (bind_params (ast.args fargs) args)
  | _, _ => None
  end.

Fixpoint as_ints (vs : list value) : option (list Z) :=
  match vs with
  | [] => Some []
  | v :: vs' =>
      match as_int v, as_ints vs' with
      | Some z, Some zs => Some (z :: zs)
      | _, _ => None
      end
  end.

(** The items of [range] applied to the argument values. *)
Definition range_items (args : list value) : result (list Z) :=
  match as_ints args with
  | Some [stop] => Ok (py_range 0 stop 1)
  | Some [start; stop] => Ok (py_range start stop 1)
  | Some [start; stop; step] =>
      if step =? 0 then Raise ValueError else Ok (py_range start stop step)
  | _ => Raise TypeError
  end.

(** Whether [func] names the builtin [name]. *)
Definition is_builtin (name : string) (func : ast.expr) : bool :=
  match func with
  | ast.Name id _ => String.eqb id name
  | _ => false
  end.

Fixpoint eval_expr (fuel : nat) (fr : option frame) (st : state) (e : ast.expr)
  {struct fuel} : result (value * state) :=
  match fuel with
  | O => OutOfFuel
  | S fuel =>
      match e with
      | ast.Constant c => Ok (value_of_constant c, st)
      | ast.Name id _ => let* v := load fr st id in Ok (v, st)
      | ast.UnaryOp op operand =>
          let* '(x, st) := eval_expr fuel fr st operand in
          let* v := unop op x in Ok (v, st)
      | ast.BinOp lhs op rhs =>
          let* '(x, st) := eval_expr fuel fr st lhs in
          let* '(y, st) := eval_expr fuel fr st rhs in
          let* v := binop op x y in Ok (v, st)
      | ast.Compare lhs op rhs =>
          let* '(x, st) := eval_expr fuel fr st lhs in
          let* '(y, st) := eval_expr fuel fr st rhs in
          let* v := compare op x y in Ok (v, st)
      | ast.Call func args [] =>
          if is_builtin "print" func then
            match args with
            | [arg] =>
                let* '(x, st) := eval_expr fuel fr st arg in
                Ok (VNone, write st x)
            | _ => Raise NotModelled
            end
          else
            let* '(f, st) := eval_expr fuel fr st func in
            let* '(xs, st) := eval_args fuel fr st args in
            match f with
            | VFunction fargs body =>
                match call_frame fargs body xs with
                | Some callee =>
                    let* '(o, _, st) := exec_block fuel (Some callee) st body in
                    match o with
                    | Returned v => Ok (v, st)
                    | Normal => Ok (VNone, st)
                    end
                | None => Raise TypeError
                end
            | _ => Raise TypeError
            end
      | ast.Call _ _ (_ :: _) => Raise NotModelled
      | ast.Lambda _ _ => Raise NotModelled
      end
  end

with eval_args (fuel : nat) (fr : option frame) (st : state) (es : list ast.expr)
  {struct fuel} : result (list value * state) :=
  match fuel with
  | O => OutOfFuel
  | S fuel =>
      match es with
      | [] => Ok ([], st)
      | e :: es' =>
          let* '(x, st) := eval_expr fuel fr st e in
          let* '(xs, st) := eval_args fuel fr st es' in
          Ok (x :: xs, st)
      end
  end

with exec_stmt (fuel : nat) (fr : option frame) (st : state) (s : ast.stmt)
  {struct fuel} : result (outcome * option frame * state) :=
  match fuel with
  | O => OutOfFuel
  | S fuel =>
      match s with
      | ast.FunctionDef name fargs body =>
          let (fr, st) := store fr st name (VFunction fargs body) in
          Ok (Normal, fr, st)
      | ast.ClassDef _ _ => Raise NotModelled
      | ast.Return None => Ok (Returned VNone, fr, st)
      | ast.Return (Some e) =>
          let* '(v, st) := eval_expr fuel fr st e in
          Ok (Returned v, fr, st)
      | ast.Assign (ast.Name id _) e =>
          let* '(v, st) := eval_expr fuel fr st e in
          let (fr, st) := store fr st id v in
          Ok (Normal, fr, st)
      | ast.Assign _ _ => Raise NotModelled
      | ast.AugAssign (ast.Name id _) op e =>
          let* x := load fr st id in
          let* '(y, st) := eval_expr fuel fr st e in
          let* v := binop op x y in
          let (fr, st) := store fr st id v in
          Ok (Normal, fr, st)
      | ast.AugAssign _ _ _ => Raise NotModelled
      | ast.For (ast.Name id _) (ast.Call func args []) body orelse =>
          if is_builtin "range" func then
            let* '(xs, st) := eval_args fuel fr st args in
            let* items := range_items xs in
            exec_for fuel fr st id items body orelse
          else Raise NotModelled
      | ast.For _ _ _ _ => Raise NotModelled
      | ast.While test body orelse =>
          let* '(c, st) := eval_expr fuel fr st test in
          if truthy c then
            let* '(o, fr, st) := exec_block fuel fr st body in
            match o with
            | Normal => exec_stmt fuel fr st (ast.While test body orelse)
            | Returned v => Ok (Returned v, fr, st)
            end
          else exec_block fuel fr st orelse
      | ast.If test body orelse =>
          let* '(c, st) := eval_expr fuel fr st test in
          if truthy c then exec_block fuel fr st body
          else exec_block fuel fr st orelse
      | ast.Expr e =>
          let* '(_, st) := eval_expr fuel fr st e in
          Ok (Normal, fr, st)
      | ast.Pass => Ok (Normal, fr, st)
      end
  end

with exec_for (fuel : nat) (fr : option frame) (st : state) (id : string)
    (items : list Z) (body orelse : list ast.stmt)
  {struct fuel} : result (outcome * option frame * state) :=
  match fuel with
  | O => OutOfFuel
  | S fuel =>
      match items with
      | [] => exec_block fuel fr st orelse
      | x :: items' =>
          let (fr, st) := store fr st id (VInt x) in
          let* '(o, fr, st) := exec_block fuel fr st body in
          match o with
          | Normal => exec_for fuel fr st id items' body orelse
          | Returned v => Ok (Returned v, fr, st)
          end
      end
  end

with exec_block (fuel : nat) (fr : option frame) (st : state) (ss : list ast.stmt)
  {struct fuel} : result (outcome * option frame * state) :=
  match fuel with
  | O => OutOfFuel
  | S fuel =>
      match ss with
      | [] => Ok (Normal, fr, st)
      | s :: ss' =>
          let* '(o, fr, st) := exec_stmt fuel fr st s in
          match o with
          | Normal => exec_block fuel fr st ss'
          | Returned v => Ok (Returned v, fr, st)
          end
      end
  end.

(** Running a module from the initial state: what it printed, or how it
    failed. *)
Definition run (fuel : nat) (body : ast.Module_) : result (list value) :=
  let* '(_, _, st) := exec_block fuel None initial_state body in
  Ok (stdout st).

End py.

(* ===================================================================== *)
(** ** LoopObfuscation/for_to_while_generic.py: literal ranges *)
(* ===================================================================== *)

(** [is_int_literal]: an integer constant, or the negation of one. *)
Definition is_int_literal (n : ast.expr) : bool :=
  match n with
  | ast.Constant c => isinstance_int c
  | ast.UnaryOp ast.USub (ast.Constant c) => isinstance_int c
  | _ => false
  end.

(** [eval_int], on an expression [is_int_literal] accepts.  A boolean
    argument is read as the integer it is. *)
Definition eval_int (e : ast.expr) : Z :=
  match e with
  | ast.Constant c => int_value c
  | ast.UnaryOp _ (ast.Constant c) => - int_value c
  | _ => 0
  end.

(** [parse_constant_range_args]: [(start, stop, step)] of a call of [range]
    on one to three integer literals, [None] otherwise. *)
Definition parse_constant_range_args (call : ast.expr) : option (Z * Z * Z) :=
  match call with
  | ast.Call (ast.Name id _) args _ =>
      if String.eqb id "range"
         && (1 <=? length args)%nat && (length args <=? 3)%nat
         && forallb is_int_literal args
      then
        match map eval_int args with
        | [v0] => Some (0, v0, 1)
        | [v0; v1] => Some (v0, v1, 1)
        | [v0; v1; v2] => Some (v0, v1, v2)
        | _ => None
        end
      else None
  | _ => None
  end.

(* ===================================================================== *)
(** ** LoopObfuscation/obfuscation_strategies.py *)
(* ===================================================================== *)

(** The interface [LoopObfuscationStrategy]. *)
Class LoopObfuscationStrategy (S : Type) := {
  (** [__init__(naming, start, stop, step)] *)
  strategy_init :
    Naming.t -> Z -> Z -> Z -> random.rng -> py.result (S * Naming.t * random.rng);
  loop_var : S -> string;
  get_initial : S -> list ast.stmt;
  get_condition : S -> ast.expr;
  get_advance : S -> list ast.stmt;
  get_loop_index_setup : S -> list ast.stmt;
  inject_functions : S -> ast.Module_ -> ast.Module_
}.

Module PlainStrategy.

Record t := {
  start : Z;
  stop : Z;
  step : Z;
  loop_var : string
}.

Definition init (naming : Naming.t) (start stop step : Z) : t * Naming.t :=
  let (loop_var, naming) := Naming.get_name "i" naming in
  ({| start := start; stop := stop; step := step; loop_var := loop_var |}, naming).

Definition get_initial (self : t) : list ast.stmt :=
  [ast.Assign (ast.Name (loop_var self) ast.Store)
              (ast.Constant (ast.CInt (start self)))].

Definition get_condition (self : t) : ast.expr :=
  ast.Compare (ast.Name (loop_var self) ast.Load)
              (if 0 <? step self then ast.Lt else ast.Gt)
              (ast.Constant (ast.CInt (stop self))).

Definition get_advance (self : t) : list ast.stmt :=
  [ast.AugAssign (ast.Name (loop_var self) ast.Store)
                 (if 0 <? step self then ast.Add else ast.Sub)
                 (ast.Constant (ast.CInt (Z.abs (step self))))].

Definition get_loop_index_setup (self : t) : list ast.stmt := [].

Definition inject_functions (self : t) (tree : ast.Module_) : ast.Module_ := tree.

End PlainStrategy.

#[export] Instance plain_strategy : LoopObfuscationStrategy PlainStrategy.t := {|
  strategy_init := fun naming start stop step r =>
    let (s, naming) := PlainStrategy.init naming start stop step in
    py.Ok (s, naming, r);
  loop_var := PlainStrategy.loop_var;
  get_initial := PlainStrategy.get_initial;
  get_condition := PlainStrategy.get_condition;
  get_advance := PlainStrategy.get_advance;
  get_loop_index_setup := PlainStrategy.get_loop_index_setup;
  inject_functions := PlainStrategy.inject_functions
|}.

Module CollatzStrategy.

Record t := {
  start : Z;
  stop : Z;
  step : Z;
  loop_var : string;
  a_var : string;
  b_var : string;
  num_var : string;
  a : Z;
  b : Z;
  seed : Z;
  n : Z;
  target : Z;
  resolve_name : string
}.

(** One iteration of [_collatz_forward]; the random gate is drawn only when
    the two tests before it hold. *)
Definition collatz_forward_step (a b : Z) (sr : Z * random.rng) : Z * random.rng :=
  let (seed, r) := sr in
  if ((seed - b) mod a =? 0) && (((seed - b) / a) mod 2 =? 1) then
    let (x, r) := random.random r in
    if (950 <? x)
       && negb (existsb (Z.eqb seed) [2; 4; 8; 16; 32; 40; 1312])
    then ((seed - b) / a, r)
    else (2 * seed, r)
  else (2 * seed, r).

(** [_collatz_forward(a, b, seed, n)]. *)
Definition collatz_forward (a b seed n : Z) (r : random.rng) : Z * random.rng :=
  Nat.iter (Z.to_nat n) (collatz_forward_step a b) (seed, r).

(** The iteration count [__init__] computes; [None] is the
    [ZeroDivisionError] of [// abs(self.step)]. *)
Definition iterations (start stop step : Z) : option Z :=
  if Z.abs step =? 0 then None
  else Some (Z.max 0 ((stop - start + (if 0 <? step then step - 1 else - (step + 1)))
                      / Z.abs step)).

(** The three draws of [__init__]: [a], [b] and [seed]. *)
Definition draw_parameters (r : random.rng) : Z * Z * Z * random.rng :=
  let (a, r) := random.choice 3 [3; 5] r in
  let b_choices := filter (fun x => negb (x =? a)) [-1; 1; 3; 5; 7; 11] in
  let (b, r) := random.choice 1 b_choices r in
  let (seed, r) := random.randint 19 97 r in
  (a, b, seed, r).

Definition init (naming : Naming.t) (start stop step : Z) (r : random.rng)
  : py.result (t * Naming.t * random.rng) :=
  let (loop_var, naming) := Naming.get_name "i" naming in
  let (a_var, naming) := Naming.get_name "a" naming in
  let (b_var, naming) := Naming.get_name "b" naming in
  let (num_var, naming) := Naming.get_name "num" naming in
  let '(a, b, seed, r) := draw_parameters r in
  match iterations start stop step with
  | None => py.Raise py.ZeroDivisionError
  | Some n =>
      let (target, r) := collatz_forward a b seed n r in
      let (resolve_name, naming) := Naming.get_name "resolve_collatz" naming in
      py.Ok ({| start := start; stop := stop; step := step; loop_var := loop_var;
                a_var := a_var; b_var := b_var; num_var := num_var;
                a := a; b := b; seed := seed; n := n; target := target;
                resolve_name := resolve_name |}, naming, r)
  end.

Definition get_initial (self : t) : list ast.stmt :=
  [ast.Assign (ast.Name (a_var self) ast.Store) (ast.Constant (ast.CInt (a self)));
   ast.Assign (ast.Name (b_var self) ast.Store) (ast.Constant (ast.CInt (b self)));
   ast.Assign (ast.Name (num_var self) ast.Store) (ast.Constant (ast.CInt (target self)))].

Definition get_condition (self : t) : ast.expr :=
  ast.Compare (ast.Name (num_var self) ast.Load) ast.NotEq
              (ast.Constant (ast.CInt (seed self))).

Definition get_loop_index_setup (self : t) : list ast.stmt :=
  [ast.Assign (ast.Name (loop_var self) ast.Store)
     (ast.Call (ast.Name (resolve_name self) ast.Load)
        [ast.Name (a_var self) ast.Load;
         ast.Name (b_var self) ast.Load;
         ast.Name (num_var self) ast.Load;
         ast.Constant (ast.CInt (target self))]
        [])].

(** The forward step on the variable [num], with the multiplier and offset
    read from [a] and [b]:
    [if num % 2 == 0: num = num // 2 else: num = a * num + b]. *)
Definition advance_stmt (a b num : string) : ast.stmt :=
  ast.If
    (ast.Compare
       (ast.BinOp (ast.Name num ast.Load) ast.Mod (ast.Constant (ast.CInt 2)))
       ast.Eq (ast.Constant (ast.CInt 0)))
    [ast.Assign (ast.Name num ast.Store)
       (ast.BinOp (ast.Name num ast.Load) ast.FloorDiv (ast.Constant (ast.CInt 2)))]
    [ast.Assign (ast.Name num ast.Store)
       (ast.BinOp (ast.BinOp (ast.Name a ast.Load) ast.Mult (ast.Name num ast.Load))
                  ast.Add (ast.Name b ast.Load))].

Definition get_advance (self : t) : list ast.stmt :=
  [advance_stmt (a_var self) (b_var self) (num_var self)].

(** The helper [inject_functions] defines, with parameters
    [(a, b, target, num)]. *)
Definition resolve_def (name : string) : ast.stmt :=
  ast.FunctionDef name (ast.plain_args ["a"; "b"; "target"; "num"])
    [ast.Assign (ast.Name "counter" ast.Store) (ast.Constant (ast.CInt 0));
     ast.While
       (ast.Compare (ast.Name "num" ast.Load) ast.NotEq (ast.Name "target" ast.Load))
       [advance_stmt "a" "b" "num";
        ast.AugAssign (ast.Name "counter" ast.Store) ast.Add (ast.Constant (ast.CInt 1))]
       [];
     ast.Return (Some (ast.Name "counter" ast.Load))].

(** [tree.body.insert(0, func_def)]. *)
Definition inject_functions (self : t) (tree : ast.Module_) : ast.Module_ :=
  resolve_def (resolve_name self) :: tree.

End CollatzStrategy.

#[export] Instance collatz_strategy : LoopObfuscationStrategy CollatzStrategy.t := {|
  strategy_init := CollatzStrategy.init;
  loop_var := CollatzStrategy.loop_var;
  get_initial := CollatzStrategy.get_initial;
  get_condition := CollatzStrategy.get_condition;
  get_advance := CollatzStrategy.get_advance;
  get_loop_index_setup := CollatzStrategy.get_loop_index_setup;
  inject_functions := CollatzStrategy.inject_functions
|}.

(** The forward map the advance statement computes:
    [num // 2] if [num] is even, else [a * num + b]. *)
Definition forward_map (a b num : Z) : Z :=
  if num mod 2 =? 0 then num / 2 else a * num + b.

(** The hidden states of a lowered loop: [target] and its first [n] images
    under the forward map. *)
Definition trajectory (a b target n : Z) : list Z :=
  map (fun k => Nat.iter k (forward_map a b) target) (seq 0 (S (Z.to_nat n))).

(** The trajectory a Collatz lowering of an [n]-iteration loop gets from the
    random source [r]. *)
Definition sampled_trajectory (n : Z) (r : random.rng) : list Z :=
  let '(a, b, seed, r) := CollatzStrategy.draw_parameters r in
  let (target, _) := CollatzStrategy.collatz_forward a b seed n r in
  trajectory a b target n.

(* ===================================================================== *)
(** ** Tree traversal *)
(* ===================================================================== *)

(** [VarRenamer] of [ForToWhileGeneric.visit_For]: every [Name] node with
    identifier [orig] gets the identifier [new]. *)
Fixpoint rename_expr (orig new : string) (e : ast.expr) : ast.expr :=
  match e with
  | ast.Constant _ => e
  | ast.Name id ctx => if String.eqb id orig then ast.Name new ctx else e
  | ast.UnaryOp op operand => ast.UnaryOp op (rename_expr orig new operand)
  | ast.BinOp lhs op rhs =>
      ast.BinOp (rename_expr orig new lhs) op (rename_expr orig new rhs)
  | ast.Compare lhs op rhs =>
      ast.Compare (rename_expr orig new lhs) op (rename_expr orig new rhs)
  | ast.Call func args keywords =>
      ast.Call (rename_expr orig new func)
               (map (rename_expr orig new) args)
               (map (fun kw => (fst kw, rename_expr orig new (snd kw))) keywords)
  | ast.Lambda args body => ast.Lambda args (rename_expr orig new body)
  end.

Fixpoint rename_stmt (orig new : string) (s : ast.stmt) : ast.stmt :=
  match s with
  | ast.FunctionDef name args body =>
      ast.FunctionDef name args (map (rename_stmt orig new) body)
  | ast.ClassDef name body => ast.ClassDef name (map (rename_stmt orig new) body)
  | ast.Return value => ast.Return (option_map (rename_expr orig new) value)
  | ast.Assign target value =>
      ast.Assign (rename_expr orig new target) (rename_expr orig new value)
  | ast.AugAssign target op value =>
      ast.AugAssign (rename_expr orig new target) op (rename_expr orig new value)
  | ast.For target iter body orelse =>
      ast.For (rename_expr orig new target) (rename_expr orig new iter)
              (map (rename_stmt orig new) body) (map (rename_stmt orig new) orelse)
  | ast.While test body orelse =>
      ast.While (rename_expr orig new test)
                (map (rename_stmt orig new) body) (map (rename_stmt orig new) orelse)
  | ast.If test body orelse =>
      ast.If (rename_expr orig new test)
             (map (rename_stmt orig new) body) (map (rename_stmt orig new) orelse)
  | ast.Expr value => ast.Expr (rename_expr orig new value)
  | ast.Pass => ast.Pass
  end.

(** [node.target.id if isinstance(node.target, ast.Name) else None]. *)
Definition target_id (target : ast.expr) : option string :=
  match target with
  | ast.Name id _ => Some id
  | _ => None
  end.

(** A [NodeTransformer] that only overrides [visit_For]: the children of a
    node are visited first ([generic_visit]), a list returned for a
    statement is spliced into the enclosing body.  [on_For] receives the
    loop with its children already visited, and the transformer's state. *)
Section NodeTransformer.

Context {St : Type}.
Variable on_For :
  ast.expr -> ast.expr -> list ast.stmt -> list ast.stmt -> St ->
  py.result (list ast.stmt * St).

Fixpoint visit_stmt (s : ast.stmt) (σ : St) {struct s}
  : py.result (list ast.stmt * St) :=
  let visit_body :=
    fix visit_body (ss : list ast.stmt) (σ : St) {struct ss}
      : py.result (list ast.stmt * St) :=
      match ss with
      | [] => py.Ok ([], σ)
      | s' :: rest =>
          py.bind (visit_stmt s' σ) (fun '(out, σ) =>
          py.bind (visit_body rest σ) (fun '(outs, σ) =>
          py.Ok ((out ++ outs)%list, σ)))
      end in
  match s with
  | ast.FunctionDef name args body =>
      py.bind (visit_body body σ) (fun '(body, σ) =>
      py.Ok ([ast.FunctionDef name args body], σ))
  | ast.ClassDef name body =>
      py.bind (visit_body body σ) (fun '(body, σ) =>
      py.Ok ([ast.ClassDef name body], σ))
  | ast.For target iter body orelse =>
      py.bind (visit_body body σ) (fun '(body, σ) =>
      py.bind (visit_body orelse σ) (fun '(orelse, σ) =>
      on_For target iter body orelse σ))
  | ast.While test body orelse =>
      py.bind (visit_body body σ) (fun '(body, σ) =>
      py.bind (visit_body orelse σ) (fun '(orelse, σ) =>
      py.Ok ([ast.While test body orelse], σ)))
  | ast.If test body orelse =>
      py.bind (visit_body body σ) (fun '(body, σ) =>
      py.bind (visit_body orelse σ) (fun '(orelse, σ) =>
      py.Ok ([ast.If test body orelse], σ)))
  | _ => py.Ok ([s], σ)
  end.

(** [visit] on the module: its body is visited statement by statement. *)
Fixpoint visit_module (body : ast.Module_) (σ : St)
  : py.result (ast.Module_ * St) :=
  match body with
  | [] => py.Ok ([], σ)
  | s :: rest =>
      py.bind (visit_stmt s σ) (fun '(out, σ) =>
      py.bind (visit_module rest σ) (fun '(outs, σ) =>
      py.Ok ((out ++ outs)%list, σ)))
  end.

End NodeTransformer.

(* ===================================================================== *)
(** ** LoopObfuscation/for_to_while_generic.py: [ForToWhileGeneric] *)
(* ===================================================================== *)

Module ForToWhileGeneric.

Section WithStrategy.

Context {S : Type} `{LoopObfuscationStrategy S}.

(** The transformer's state: the shared registry, the random source and
    [_strategies]. *)
Record t := {
  naming : Naming.t;
  rng : random.rng;
  strategies : list S
}.

(** [visit_For], after [generic_visit]. *)
Definition visit_For (target iter : ast.expr) (body orelse : list ast.stmt)
    (self : t) : py.result (list ast.stmt * t) :=
  match parse_constant_range_args iter with
  | None => py.Ok ([ast.For target iter body orelse], self)
  | Some (start, stop, step) =>
      py.bind (strategy_init (naming self) start stop step (rng self))
        (fun '(strategy, naming', rng') =>
           let self' := {| naming := naming'; rng := rng';
                           strategies := strategies self ++ [strategy] |} in
           let new_name := loop_var strategy in
           let body_block :=
             match target_id target with
             | Some original => map (rename_stmt original new_name) body
             | None => body
             end in
           let while_node :=
             ast.While (get_condition strategy)
                       (get_loop_index_setup strategy ++ body_block
                        ++ get_advance strategy)
                       orelse in
           py.Ok ((get_initial strategy ++ [while_node])%list, self'))
  end.

Definition visit (tree : ast.Module_) (self : t) : py.result (ast.Module_ * t) :=
  visit_module visit_For tree self.

(** [inject_functions]: every strategy created so far injects its helper. *)
Definition inject (self : t) (tree : ast.Module_) : ast.Module_ :=
  fold_left (fun tree strategy => inject_functions strategy tree)
            (strategies self) tree.

End WithStrategy.

Arguments t S : clear implicits.

End ForToWhileGeneric.

(* ===================================================================== *)
(** ** LoopObfuscation/loop_simplifier.py: [ComplexLoopUnwrapper] *)
(* ===================================================================== *)

Module ComplexLoopUnwrapper.

(** [range(count)]. *)
Definition range_call (count : Z) : ast.expr :=
  ast.Call (ast.Name "range" ast.Load) [ast.Constant (ast.CInt count)] [].

(** [orig_var = start + idx_var * step]. *)
Definition compute_orig (orig_var idx_var : string) (start step : Z) : ast.stmt :=
  ast.Assign (ast.Name orig_var ast.Store)
    (ast.BinOp (ast.Constant (ast.CInt start)) ast.Add
       (ast.BinOp (ast.Name idx_var ast.Load) ast.Mult
                  (ast.Constant (ast.CInt step)))).

(** [visit_For], after [generic_visit].  The quotient under [ceil] is taken
    exactly. *)
Definition visit_For (target iter : ast.expr) (body orelse : list ast.stmt)
    (naming : Naming.t) : py.result (list ast.stmt * Naming.t) :=
  match parse_constant_range_args iter with
  | None => py.Ok ([ast.For target iter body orelse], naming)
  | Some (start, stop, step) =>
      if step =? 0 then py.Ok ([ast.For target iter body orelse], naming)
      else
        let count := Z.max 0 (ceil_div (stop - start) step) in
        let (idx_var, naming) := Naming.get_name "__idx" naming in
        let new_body :=
          match target_id target with
          | Some orig_var => compute_orig orig_var idx_var start step :: body
          | None => body
          end in
        py.Ok ([ast.For (ast.Name idx_var ast.Store) (range_call count)
                        new_body orelse], naming)
  end.

Definition visit (tree : ast.Module_) (naming : Naming.t)
  : py.result (ast.Module_ * Naming.t) :=
  visit_module visit_For tree naming.

End ComplexLoopUnwrapper.

(* ===================================================================== *)
(** ** LoopObfuscation/ob_for.py *)
(* ===================================================================== *)

Module LoopUnwrapper.

Record t := {
  naming : Naming.t;
  new_funcs : list ast.stmt
}.

(** The loop over [node.body]: every statement that is itself a [for] loop
    moves into a new function and leaves a call behind. *)
Fixpoint unwrap_body (args : list string) (body : list ast.stmt) (self : t)
  : list ast.stmt * t :=
  match body with
  | [] => ([], self)
  | stmt :: rest =>
      match stmt with
      | ast.For _ _ _ _ =>
          let (func_name, naming') := Naming.get_name "__unwrapped_loop" (naming self) in
          let func_def := ast.FunctionDef func_name (ast.plain_args args) [stmt] in
          let call :=
            ast.Expr (ast.Call (ast.Name func_name ast.Load)
                               (map (fun a => ast.Name a ast.Load) args) []) in
          let self := {| naming := naming';
                         new_funcs := new_funcs self ++ [func_def] |} in
          let (rest', self) := unwrap_body args rest self in
          (call :: rest', self)
      | _ =>
          let (rest', self) := unwrap_body args rest self in
          (stmt :: rest', self)
      end
  end.

(** [visit_For], after [generic_visit]. *)
Definition visit_For (target iter : ast.expr) (body orelse : list ast.stmt)
    (self : t) : py.result (list ast.stmt * t) :=
  let args := match target_id target with Some id => [id] | None => [] end in
  let (new_body, self) := unwrap_body args body self in
  py.Ok ([ast.For target iter new_body orelse], self).

Definition visit (tree : ast.Module_) (self : t) : py.result (ast.Module_ * t) :=
  visit_module visit_For tree self.

(** [tree.body = self.new_funcs + tree.body]. *)
Definition inject_functions (self : t) (tree : ast.Module_) : ast.Module_ :=
  (new_funcs self ++ tree)%list.

End LoopUnwrapper.

Module Ob_For.

Section WithStrategy.

Context {S : Type} `{LoopObfuscationStrategy S}.

(** [apply]: flattening, then (for the Collatz strategy only) range
    normalisation, then the lowering; a pass that has [inject_functions]
    injects right after its visit.  [is_collatz] is the test
    [strategy_class is CollatzStrategy]. *)
Definition apply (is_collatz : bool) (naming : Naming.t) (r : random.rng)
    (tree : ast.Module_) : py.result (ast.Module_ * Naming.t * random.rng) :=
  py.bind (LoopUnwrapper.visit tree
             {| LoopUnwrapper.naming := naming; LoopUnwrapper.new_funcs := [] |})
    (fun '(tree, unwrapper) =>
  let tree := LoopUnwrapper.inject_functions unwrapper tree in
  py.bind (if is_collatz
           then ComplexLoopUnwrapper.visit tree (LoopUnwrapper.naming unwrapper)
           else py.Ok (tree, LoopUnwrapper.naming unwrapper))
    (fun '(tree, naming) =>
  py.bind (ForToWhileGeneric.visit tree
             {| ForToWhileGeneric.naming := naming; ForToWhileGeneric.rng := r;
                ForToWhileGeneric.strategies := ([] : list S) |})
    (fun '(tree, conversion) =>
  py.Ok (ForToWhileGeneric.inject conversion tree,
         ForToWhileGeneric.naming conversion,
         ForToWhileGeneric.rng conversion)))).

End WithStrategy.

(** [Ob_For(naming, PlainStrategy).apply(tree)]. *)
Definition apply_plain := apply (S := PlainStrategy.t) false.

(** [Ob_For(naming, CollatzStrategy).apply(tree)]. *)
Definition apply_collatz := apply (S := CollatzStrategy.t) true.

End Ob_For.

(* ===================================================================== *)
(** ** NameTracker/naming.py: [analyze] *)
(* ===================================================================== *)

(** The [Name] identifiers of an expression ([visit_Name] with
    [generic_visit]). *)
Fixpoint expr_names (e : ast.expr) : list string :=
  match e with
  | ast.Constant _ => []
  | ast.Name id _ => [id]
  | ast.UnaryOp _ operand => expr_names operand
  | ast.BinOp lhs _ rhs => expr_names lhs ++ expr_names rhs
  | ast.Compare lhs _ rhs => expr_names lhs ++ expr_names rhs
  | ast.Call func args keywords =>
      expr_names func ++ flat_map expr_names args
      ++ flat_map (fun kw => expr_names (snd kw)) keywords
  | ast.Lambda _ body => expr_names body
  end.

(** The names [analyze] records for a statement: function names with their
    [args.args], class names, and every [Name] identifier. *)
Fixpoint stmt_names (s : ast.stmt) : list string :=
  match s with
  | ast.FunctionDef name args body =>
      name :: ast.args args ++ flat_map stmt_names body
  | ast.ClassDef name body => name :: flat_map stmt_names body
  | ast.Return value => match value with Some e => expr_names e | None => [] end
  | ast.Assign target value => expr_names target ++ expr_names value
  | ast.AugAssign target _ value => expr_names target ++ expr_names value
  | ast.For target iter body orelse =>
      expr_names target ++ expr_names iter
      ++ flat_map stmt_names body ++ flat_map stmt_names orelse
  | ast.While test body orelse =>
      expr_names test ++ flat_map stmt_names body ++ flat_map stmt_names orelse
  | ast.If test body orelse =>
      expr_names test ++ flat_map stmt_names body ++ flat_map stmt_names orelse
  | ast.Expr value => expr_names value
  | ast.Pass => []
  end.

(** [naming.analyze(tree)]. *)
Definition analyze (tree : ast.Module_) (self : Naming.t) : Naming.t :=
  {| Naming.used_names :=
       list_to_set (flat_map stmt_names tree) ∪ Naming.used_names self;
     Naming.generated_names := Naming.generated_names self |}.

(** [[naming.get_name(base) for _ in range(k)]]. *)
Fixpoint get_names_repeat (k : nat) (base : string) (naming : Naming.t)
  : list string * Naming.t :=
  match k with
  | O => ([], naming)
  | S k' =>
      let (name, naming) := Naming.get_name base naming in
      let (names, naming) := get_names_repeat k' base naming in
      (name :: names, naming)
  end.

(* ===================================================================== *)
(** ** Injectors/junk_strategies.py *)
(* ===================================================================== *)

(** [random.sample(l, 2)]: two elements at distinct positions. *)
Definition sample2 (l : list string) (r : random.rng) : string * string * random.rng :=
  let (d1, r) := random.next r in
  let i := (d1 mod length l)%nat in
  let v1 := nth i l EmptyString in
  let others := (firstn i l ++ skipn (S i) l)%list in
  let (d2, r) := random.next r in
  let v2 := nth (d2 mod length others)%nat others EmptyString in
  (v1, v2, r).

Inductive JunkInjectionStrategy :=
| TestStrategy
| ArithmeticStrategy
| LambdaStrategy
| BitwiseStrategy
| NonConstantTimeStrategy.

Module ArithmeticStrategy.

Definition OPS : list ast.operator := [ast.Add; ast.Sub; ast.Mult; ast.FloorDiv].

Inductive wrapping := none | neg | double.

Definition _wrap (node : ast.expr) (r : random.rng) : ast.expr * random.rng :=
  let (choice, r) := random.choice none [none; neg; double] r in
  (match choice with
   | neg => ast.UnaryOp ast.USub node
   | double => ast.BinOp node ast.Mult (ast.Constant (ast.CInt 2))
   | none => node
   end, r).

Definition get_junk (junk_vars : list string) (r : random.rng)
  : list ast.stmt * random.rng :=
  let '(v1, v2, r) := sample2 junk_vars r in
  let (op1, r) := random.choice ast.Add OPS r in
  let (op2, r) := random.choice ast.Add OPS r in
  let (lhs, r) := _wrap (ast.Name v1 ast.Load) r in
  let (rhs, r) := _wrap (ast.Name v2 ast.Load) r in
  let (c, r) := random.randint 1 5 r in
  let expr := ast.BinOp (ast.BinOp lhs op1 rhs) op2 (ast.Constant (ast.CInt c)) in
  ([ast.Assign (ast.Name v1 ast.Store) expr], r).

End ArithmeticStrategy.

Module LambdaStrategy.

Definition get_junk (junk_vars : list string) (r : random.rng)
  : list ast.stmt * random.rng :=
  let (v, r) := random.choice EmptyString junk_vars r in
  let (op, r) := random.choice ast.Add [ast.Add; ast.Sub; ast.Mult] r in
  let (c, r) := random.randint 1 5 r in
  let lam :=
    ast.Lambda (ast.plain_args ["x"])
      (ast.BinOp (ast.Name "x" ast.Load) op (ast.Constant (ast.CInt c))) in
  let call := ast.Call lam [ast.Name v ast.Load] [] in
  ([ast.Assign (ast.Name v ast.Store) call], r).

End LambdaStrategy.

Module BitwiseStrategy.

Definition OPS : list ast.operator :=
  [ast.BitAnd; ast.BitOr; ast.BitXor; ast.LShift; ast.RShift].

Definition get_junk (junk_vars : list string) (r : random.rng)
  : list ast.stmt * random.rng :=
  let '(v1, v2, r) := sample2 junk_vars r in
  let (op, r) := random.choice ast.BitAnd OPS r in
  let (amount, r) := random.randint 1 3 r in
  let expr := ast.BinOp (ast.Name v1 ast.Load) op (ast.Constant (ast.CInt amount)) in
  ([ast.Assign (ast.Name v1 ast.Store) expr], r).

End BitwiseStrategy.

Module NonConstantTimeStrategy.

Definition get_junk (junk_vars : list string) (r : random.rng)
  : list ast.stmt * random.rng :=
  let '(v1, v2, r) := sample2 junk_vars r in
  let loop_var := String.append (nth 0 junk_vars EmptyString) "_cnt" in
  let (count, r) := random.randint 3 6 r in
  let (op, r) := random.choice ast.Add [ast.Add] r in
  let loop :=
    ast.For (ast.Name loop_var ast.Store)
      (ast.Call (ast.Name "range" ast.Load) [ast.Constant (ast.CInt count)] [])
      [ast.AugAssign (ast.Name v2 ast.Store) op (ast.Constant (ast.CInt 1))]
      [] in
  ([loop], r).

End NonConstantTimeStrategy.

(** [strat.get_junk()]. *)
Definition get_junk (strat : JunkInjectionStrategy) (junk_vars : list string)
    (r : random.rng) : list ast.stmt * random.rng :=
  match strat with
  | TestStrategy =>
      ([ast.Assign (ast.Name (nth 0 junk_vars EmptyString) ast.Store)
                   (ast.Constant (ast.CInt 0))], r)
  | ArithmeticStrategy => ArithmeticStrategy.get_junk junk_vars r
  | LambdaStrategy => LambdaStrategy.get_junk junk_vars r
  | BitwiseStrategy => BitwiseStrategy.get_junk junk_vars r
  | NonConstantTimeStrategy => NonConstantTimeStrategy.get_junk junk_vars r
  end.

(* ===================================================================== *)
(** ** Injectors/inject_junk.py *)
(* ===================================================================== *)

Module JunkInjector.

Record t := {
  passes : Z;
  junk_vars : list string;
  strategies : list JunkInjectionStrategy
}.

(** [__init__(naming, strategy_classes, passes)]. *)
Definition init (naming : Naming.t) (strategy_classes : list JunkInjectionStrategy)
    (passes : Z) (r : random.rng) : t * Naming.t * random.rng :=
  let (num_vars, r) := random.randint 3 5 r in
  let (junk_vars, naming) := get_names_repeat (Z.to_nat num_vars) "junk" naming in
  ({| passes := passes; junk_vars := junk_vars; strategies := strategy_classes |},
   naming, r).

(** [random.random() < chance] with [chance = 30 / passes / 100]. *)
Definition gate (self : t) (r : random.rng) : bool * random.rng :=
  let (x, r) := random.random r in
  (x * passes self <? 300, r).

(** [for strat in self.strategies: if random.random() < chance: ...]. *)
Fixpoint junk_round (self : t) (strats : list JunkInjectionStrategy)
    (r : random.rng) : list ast.stmt * random.rng :=
  match strats with
  | [] => ([], r)
  | strat :: rest =>
      let (fire, r) := gate self r in
      if fire then
        let (junk, r) := get_junk strat (junk_vars self) r in
        let (more, r) := junk_round self rest r in
        ((junk ++ more)%list, r)
      else junk_round self rest r
  end.

Fixpoint _inject_in_body (self : t) (body : list ast.stmt) (r : random.rng)
  : list ast.stmt * random.rng :=
  match body with
  | [] => ([], r)
  | stmt :: rest =>
      let (before, r) := junk_round self (strategies self) r in
      let (after, r) := junk_round self (strategies self) r in
      let (rest', r) := _inject_in_body self rest r in
      ((before ++ stmt :: after ++ rest')%list, r)
  end.

(** [generic_visit] with [visit_FunctionDef]: the body of every function
    definition, at any depth, gets junk. *)
Fixpoint visit_stmt (self : t) (s : ast.stmt) (r : random.rng) {struct s}
  : ast.stmt * random.rng :=
  let visit_body :=
    fix visit_body (ss : list ast.stmt) (r : random.rng) {struct ss}
      : list ast.stmt * random.rng :=
      match ss with
      | [] => ([], r)
      | s' :: rest =>
          let (s', r) := visit_stmt self s' r in
          let (rest, r) := visit_body rest r in
          (s' :: rest, r)
      end in
  match s with
  | ast.FunctionDef name args body =>
      let (body, r) := visit_body body r in
      let (body, r) := _inject_in_body self body r in
      (ast.FunctionDef name args body, r)
  | ast.ClassDef name body =>
      let (body, r) := visit_body body r in
      (ast.ClassDef name body, r)
  | ast.For target iter body orelse =>
      let (body, r) := visit_body body r in
      let (orelse, r) := visit_body orelse r in
      (ast.For target iter body orelse, r)
  | ast.While test body orelse =>
      let (body, r) := visit_body body r in
      let (orelse, r) := visit_body orelse r in
      (ast.While test body orelse, r)
  | ast.If test body orelse =>
      let (body, r) := visit_body body r in
      let (orelse, r) := visit_body orelse r in
      (ast.If test body orelse, r)
  | _ => (s, r)
  end.

Fixpoint visit_stmts (self : t) (ss : list ast.stmt) (r : random.rng)
  : list ast.stmt * random.rng :=
  match ss with
  | [] => ([], r)
  | s :: rest =>
      let (s, r) := visit_stmt self s r in
      let (rest, r) := visit_stmts self rest r in
      (s :: rest, r)
  end.

(** [junk_var = 1] for every scratch variable. *)
Definition decls (self : t) : list ast.stmt :=
  map (fun var => ast.Assign (ast.Name var ast.Store) (ast.Constant (ast.CInt 1)))
      (junk_vars self).

(** [visit_Module]. *)
Definition visit_Module (self : t) (tree : ast.Module_) (r : random.rng)
  : ast.Module_ * random.rng :=
  let (body, r) := visit_stmts self tree r in
  let (body, r) := _inject_in_body self body r in
  ((decls self ++ body)%list, r).

Definition apply := visit_Module.

End JunkInjector.

(* ===================================================================== *)
(** ** Renaming/renamer.py *)
(* ===================================================================== *)

Module Renamer.

Record t := {
  namespace : gset string;
  to_rename : gset string;
  mapping : gmap string string
}.

(** [Renamer(namespace)]. *)
Definition init (namespace : gset string) : t :=
  {| namespace := namespace; to_rename := ∅; mapping := ∅ |}.

Definition ascii_letters : string :=
  "abcdefghijklmnopqrstuvwxyzABCDEFGHIJKLMNOPQRSTUVWXYZ".
Definition digits : string := "0123456789".

Definition first_chars : list ascii :=
  list_ascii_of_string (String.append ascii_letters "_").
Definition later_chars : list ascii :=
  list_ascii_of_string
    (String.append ascii_letters (String.append digits "_")).

(** [random.choices(alphabet, k=k)], joined. *)
Fixpoint choices (alphabet : list ascii) (k : nat) (r : random.rng)
  : string * random.rng :=
  match k with
  | O => (EmptyString, r)
  | S k' =>
      let (c, r) := random.choice "_"%char alphabet r in
      let (s, r) := choices alphabet k' r in
      (String c s, r)
  end.

(** One candidate: a leading letter or underscore and seven more
    characters. *)
Definition random_name (r : random.rng) : string * random.rng :=
  let (c, r) := random.choice "_"%char first_chars r in
  let (s, r) := choices later_chars 7 r in
  (String c s, r).

Definition is_id_start (c : ascii) : bool :=
  let n := nat_of_ascii c in
  ((65 <=? n) && (n <=? 90) || (97 <=? n) && (n <=? 122) || (n =? 95))%nat.

Definition is_digit (c : ascii) : bool :=
  let n := nat_of_ascii c in ((48 <=? n) && (n <=? 57))%nat.

(** [str.isidentifier] on ASCII text. *)
Definition isidentifier (s : string) : bool :=
  match s with
  | EmptyString => false
  | String c rest =>
      is_id_start c
      && forallb (fun c => is_id_start c || is_digit c) (list_ascii_of_string rest)
  end.

(** [name not in self.mapping.values()]. *)
Definition is_value (m : gmap string string) (name : string) : bool :=
  bool_decide (name ∈ (map_to_list m).*2).

(** [_generate_name]: candidates are drawn until one is an identifier
    outside the namespace and not yet a replacement; [fuel] bounds the
    number of candidates drawn. *)
Fixpoint _generate_name (fuel : nat) (self : t) (r : random.rng)
  : option (string * t * random.rng) :=
  match fuel with
  | O => None
  | S fuel' =>
      let (name, r) := random_name r in
      if isidentifier name
         && negb (bool_decide (name ∈ namespace self))
         && negb (is_value (mapping self) name)
      then Some (name,
                 {| namespace := {[name]} ∪ namespace self;
                    to_rename := to_rename self;
                    mapping := mapping self |}, r)
      else _generate_name fuel' self r
  end.

(** Pass 1: the names collected in an expression: lambda parameters
    ([args.args]) and [Name] nodes in [Store] context. *)
Fixpoint collect_expr (e : ast.expr) : list string :=
  match e with
  | ast.Constant _ => []
  | ast.Name id ast.Store => [id]
  | ast.Name _ ast.Load => []
  | ast.UnaryOp _ operand => collect_expr operand
  | ast.BinOp lhs _ rhs => collect_expr lhs ++ collect_expr rhs
  | ast.Compare lhs _ rhs => collect_expr lhs ++ collect_expr rhs
  | ast.Call func args keywords =>
      collect_expr func ++ flat_map collect_expr args
      ++ flat_map (fun kw => collect_expr (snd kw)) keywords
  | ast.Lambda args body => ast.args args ++ collect_expr body
  end.

(** Pass 1 on statements: function names with their [args.args], class
    names, and what the expressions collect. *)
Fixpoint collect_stmt (s : ast.stmt) : list string :=
  match s with
  | ast.FunctionDef name args body =>
      name :: ast.args args ++ flat_map collect_stmt body
  | ast.ClassDef name body => name :: flat_map collect_stmt body
  | ast.Return value => match value with Some e => collect_expr e | None => [] end
  | ast.Assign target value => collect_expr target ++ collect_expr value
  | ast.AugAssign target _ value => collect_expr target ++ collect_expr value
  | ast.For target iter body orelse =>
      collect_expr target ++ collect_expr iter
      ++ flat_map collect_stmt body ++ flat_map collect_stmt orelse
  | ast.While test body orelse =>
      collect_expr test ++ flat_map collect_stmt body ++ flat_map collect_stmt orelse
  | ast.If test body orelse =>
      collect_expr test ++ flat_map collect_stmt body ++ flat_map collect_stmt orelse
  | ast.Expr value => collect_expr value
  | ast.Pass => []
  end.

Definition collect (tree : ast.Module_) (self : t) : t :=
  {| namespace := namespace self;
     to_rename := list_to_set (flat_map collect_stmt tree) ∪ to_rename self;
     mapping := mapping self |}.

(** [for old in ...: self.mapping[old] = self._generate_name()], over the
    names in the order the set yields them. *)
Fixpoint build_mapping (fuel : nat) (order : list string) (self : t)
    (r : random.rng) : option (t * random.rng) :=
  match order with
  | [] => Some (self, r)
  | old :: rest =>
      match _generate_name fuel self r with
      | None => None
      | Some (name, self, r) =>
          build_mapping fuel rest
            {| namespace := namespace self;
               to_rename := to_rename self;
               mapping := <[old := name]> (mapping self) |} r
      end
  end.

(** [mapping.get(name, name)]. *)
Definition subst (m : gmap string string) (name : string) : string :=
  default name (m !! name).

(** [_Rewriter]: only [args.args] of a parameter list is rewritten. *)
Definition rewrite_args (m : gmap string string) (a : ast.arguments)
  : ast.arguments :=
  {| ast.posonlyargs := ast.posonlyargs a;
     ast.args := map (subst m) (ast.args a);
     ast.kwonlyargs := ast.kwonlyargs a |}.

Fixpoint rewrite_expr (m : gmap string string) (e : ast.expr) : ast.expr :=
  match e with
  | ast.Constant _ => e
  | ast.Name id ctx => ast.Name (subst m id) ctx
  | ast.UnaryOp op operand => ast.UnaryOp op (rewrite_expr m operand)
  | ast.BinOp lhs op rhs => ast.BinOp (rewrite_expr m lhs) op (rewrite_expr m rhs)
  | ast.Compare lhs op rhs =>
      ast.Compare (rewrite_expr m lhs) op (rewrite_expr m rhs)
  | ast.Call func args keywords =>
      ast.Call (rewrite_expr m func) (map (rewrite_expr m) args)
               (map (fun kw => (fst kw, rewrite_expr m (snd kw))) keywords)
  | ast.Lambda args body => ast.Lambda (rewrite_args m args) (rewrite_expr m body)
  end.

Fixpoint rewrite_stmt (m : gmap string string) (s : ast.stmt) : ast.stmt :=
  match s with
  | ast.FunctionDef name args body =>
      ast.FunctionDef (subst m name) (rewrite_args m args)
                      (map (rewrite_stmt m) body)
  | ast.ClassDef name body => ast.ClassDef (subst m name) (map (rewrite_stmt m) body)
  | ast.Return value => ast.Return (option_map (rewrite_expr m) value)
  | ast.Assign target value =>
      ast.Assign (rewrite_expr m target) (rewrite_expr m value)
  | ast.AugAssign target op value =>
      ast.AugAssign (rewrite_expr m target) op (rewrite_expr m value)
  | ast.For target iter body orelse =>
      ast.For (rewrite_expr m target) (rewrite_expr m iter)
              (map (rewrite_stmt m) body) (map (rewrite_stmt m) orelse)
  | ast.While test body orelse =>
      ast.While (rewrite_expr m test)
                (map (rewrite_stmt m) body) (map (rewrite_stmt m) orelse)
  | ast.If test body orelse =>
      ast.If (rewrite_expr m test)
             (map (rewrite_stmt m) body) (map (rewrite_stmt m) orelse)
  | ast.Expr value => ast.Expr (rewrite_expr m value)
  | ast.Pass => ast.Pass
  end.

Definition _rewrite (self : t) (tree : ast.Module_) : ast.Module_ :=
  map (rewrite_stmt (mapping self)) tree.

(** [apply]: collect, build the mapping, rewrite.  [None] when some call
    of [_generate_name] draws [fuel] candidates without success. *)
Definition apply (fuel : nat) (tree : ast.Module_) (self : t) (r : random.rng)
  : option (ast.Module_ * t * random.rng) :=
  let self := collect tree self in
  match build_mapping fuel (elements (to_rename self)) self r with
  | None => None
  | Some (self, r) => Some (_rewrite self tree, self, r)
  end.

End Renamer.

(** Every identifier written in a tree, in source order: function and
    class names, all parameters, [Name] nodes and keyword names. *)
Definition params_of (a : ast.arguments) : list string :=
  (ast.posonlyargs a ++ ast.args a ++ ast.kwonlyargs a)%list.

Fixpoint expr_identifiers (e : ast.expr) : list string :=
  match e with
  | ast.Constant _ => []
  | ast.Name id _ => [id]
  | ast.UnaryOp _ operand => expr_identifiers operand
  | ast.BinOp lhs _ rhs => expr_identifiers lhs ++ expr_identifiers rhs
  | ast.Compare lhs _ rhs => expr_identifiers lhs ++ expr_identifiers rhs
  | ast.Call func args keywords =>
      expr_identifiers func ++ flat_map expr_identifiers args
      ++ flat_map (fun kw => fst kw :: expr_identifiers (snd kw)) keywords
  | ast.Lambda args body => params_of args ++ expr_identifiers body
  end.

Fixpoint stmt_identifiers (s : ast.stmt) : list string :=
  match s with
  | ast.FunctionDef name args body =>
      name :: params_of args ++ flat_map stmt_identifiers body
  | ast.ClassDef name body => name :: flat_map stmt_identifiers body
  | ast.Return value =>
      match value with Some e => expr_identifiers e | None => [] end
  | ast.Assign target value => expr_identifiers target ++ expr_identifiers value
  | ast.AugAssign target _ value => expr_identifiers target ++ expr_identifiers value
  | ast.For target iter body orelse =>
      expr_identifiers target ++ expr_identifiers iter
      ++ flat_map stmt_identifiers body ++ flat_map stmt_identifiers orelse
  | ast.While test body orelse =>
      expr_identifiers test
      ++ flat_map stmt_identifiers body ++ flat_map stmt_identifiers orelse
  | ast.If test body orelse =>
      expr_identifiers test
      ++ flat_map stmt_identifiers body ++ flat_map stmt_identifiers orelse
  | ast.Expr value => expr_identifiers value
  | ast.Pass => []
  end.

Definition identifiers (tree : ast.Module_) : list string :=
  flat_map stmt_identifiers tree.

(* ===================================================================== *)
(** ** Observing a loop *)
(* ===================================================================== *)

(** [print(v)]. *)
Definition probe (v : string) : ast.stmt :=
  ast.Expr (ast.Call (ast.Name "print" ast.Load) [ast.Name v ast.Load] []).

(** The module [for v in <iter>: print(v)]: what it prints is the sequence
    of values the loop variable takes in the body, one per execution of the
    body. *)
Definition probe_loop (v : string) (iter : ast.expr) : ast.Module_ :=
  [ast.For (ast.Name v ast.Store) iter [probe v] []].

(* ===================================================================== *)
(** ** The number schemes side by side *)
(* ===================================================================== *)

(** An instance of one of the four [NumberObscureStrategy] classes. *)
Inductive scheme :=
| Template
| SimpleFeistel (self : SimpleFeistelNumberStrategy.t)
| Feistel (self : FeistelNumberStrategy.t)
| XorString (self : XorStringNumberStrategy.t).

(** [NumberObscurerInjector(naming, cls).visit_Constant] on a constant. *)
Definition scheme_visit_Constant (s : scheme) (value : ast.constant)
    (r : random.rng) : ast.expr * random.rng :=
  match s with
  | Template => NumberObscurerInjector.visit_Constant tt value r
  | SimpleFeistel self => NumberObscurerInjector.visit_Constant self value r
  | Feistel self => NumberObscurerInjector.visit_Constant self value r
  | XorString self => NumberObscurerInjector.visit_Constant self value r
  end.

(** [strategy.obfuscate(value)]. *)
Definition scheme_obfuscate (s : scheme) (value : ast.constant)
    (r : random.rng) : ast.expr * random.rng :=
  match s with
  | Template => obfuscate tt value r
  | SimpleFeistel self => obfuscate self value r
  | Feistel self => obfuscate self value r
  | XorString self => obfuscate self value r
  end.

(** The schemes that come with a decoder. *)
Definition has_decoder (s : scheme) : bool :=
  match s with
  | Template => false
  | _ => true
  end.

(** The name under which [get_decoder] defines the scheme's decoder. *)
Definition scheme_decoder_name (s : scheme) : option string :=
  match s with
  | Template => None
  | SimpleFeistel self => Some (SimpleFeistelNumberStrategy.decoder_name self)
  | Feistel self => Some (FeistelNumberStrategy.decoder_name self)
  | XorString self => Some (XorStringNumberStrategy.decoder_name self)
  end.

(** Calling the scheme's decoder on a payload: the integer returned, or
    [None] when the call raises. *)
Definition scheme_decode (s : scheme) (payload : ast.constant) : option Z :=
  match s, payload with
  | SimpleFeistel self, ast.CInt x => Some (SimpleFeistelNumberStrategy.decode_num self x)
  | Feistel self, ast.CInt x => Some (FeistelNumberStrategy.decode_num self x)
  | XorString _, ast.CStr encoded => XorStringNumberStrategy.decode_num encoded
  | _, _ => None
  end.

(** The value of a replacement expression in a module where the scheme's
    decoder has been injected: a literal is itself, a call of the decoder on
    a literal payload is what the decoder returns. *)
Definition eval_replacement (s : scheme) (e : ast.expr) : option py.value :=
  match e with
  | ast.Constant c => Some (py.value_of_constant c)
  | ast.Call (ast.Name f _) [ast.Constant payload] [] =>
      match scheme_decoder_name s with
      | Some name =>
          if String.eqb f name then option_map py.VInt (scheme_decode s payload)
          else None
      | None => None
      end
  | _ => None
  end.

(** Whether an expression is a call of the scheme's decoder on a literal. *)
Definition is_decoder_call (s : scheme) (e : ast.expr) : bool :=
  match e, scheme_decoder_name s with
  | ast.Call (ast.Name f _) [ast.Constant _] [], Some name => String.eqb f name
  | _, _ => false
  end.

(** The integers a scheme encodes: 32-bit values for the Feistel schemes,
    every integer for the others. *)
Definition in_domain (s : scheme) (v : Z) : Prop :=
  match s with
  | SimpleFeistel _ | Feistel _ => 0 <= v < 2 ^ 32
  | Template | XorString _ => True
  end.

(** A value that fits sixteen bits, and a pair of such halves. *)
Definition is16 (x : Z) : Prop := Z.land x mask16 = x.
Definition halves16 (s : Z * Z) : Prop := is16 (fst s) /\ is16 (snd s).

(* ===================================================================== *)
(** ** Sequences of registry calls *)
(* ===================================================================== *)

(** The registry after handing out the name [c]. *)
Definition register (c : string) (self : Naming.t) : Naming.t :=
  {| Naming.used_names := {[c]} ∪ Naming.used_names self;
     Naming.generated_names := {[c]} ∪ Naming.generated_names self |}.

(** The calls [get_name(base)] of one run, for the bases in the order the
    passes ask: the names returned and the final registry. *)
Fixpoint get_names (bases : list string) (self : Naming.t)
  : list string * Naming.t :=
  match bases with
  | [] => ([], self)
  | b :: bs =>
      let (n, self') := Naming.get_name b self in
      let (ns, self'') := get_names bs self' in
      (n :: ns, self'')
  end.

(** [range(z1, ..., zk)] on integer literals. *)
Definition literal_range (args : list Z) : ast.expr :=
  ast.Call (ast.Name "range" ast.Load)
           (map (fun z => ast.Constant (ast.CInt z)) args) [].

(** Whether a statement is a [for] loop. *)
Definition is_For (s : ast.stmt) : bool :=
  match s with
  | ast.For _ _ _ _ => true
  | _ => false
  end.

(** A loop header outside what the loop passes rewrite: not a literal
    range, or a literal range with step 0. *)
Definition unsupported_range (iter : ast.expr) : Prop :=
  match parse_constant_range_args iter with
  | None => True
  | Some (_, _, step) => step = 0
  end.

(** A random script on which the sampled reverse steps close a cycle:
    [a = 3], [b = -1], [seed = 20], and both gates drawn fire. *)
Definition cycle_script : random.rng := [0; 0; 1; 999; 999]%nat.

(* ===================================================================== *)
(** ** Runs of the junk injector and of the renamer *)
(* ===================================================================== *)

(** [print(e)] as a statement. *)
Definition print_stmt (e : ast.expr) : ast.stmt :=
  ast.Expr (ast.Call (ast.Name "print" ast.Load) [e] []).

(** The driver's steps for one junk pass:
    [naming = Naming(); naming.analyze(tree);
     JunkInjector(naming, strategy_classes, passes).apply(tree)]. *)
Definition junk_pass (strategy_classes : list JunkInjectionStrategy)
    (passes : Z) (r : random.rng) (tree : ast.Module_) : ast.Module_ :=
  let naming := analyze tree Naming.init in
  let '(injector, _, r) := JunkInjector.init naming strategy_classes passes r in
  fst (JunkInjector.apply injector tree r).

(** [junk0_cnt = 100; print(junk0_cnt)], and a script on which the
    counting loop is injected once, between the two statements. *)
Definition counter_program : ast.Module_ :=
  [ast.Assign (ast.Name "junk0_cnt" ast.Store) (ast.Constant (ast.CInt 100));
   print_stmt (ast.Name "junk0_cnt" ast.Load)].
Definition counter_script : random.rng := [0; 999; 0; 0; 0; 0; 0; 999; 999]%nat.

(** [print(1)], and a script on which arithmetic junk is injected before
    and after it: [junk0 = (junk0 - junk1) * 1], then
    [junk1 = (junk1 // junk0) + 1]. *)
Definition print_program : ast.Module_ :=
  [print_stmt (ast.Constant (ast.CInt 1))].
Definition division_script : random.rng :=
  [0; 0; 0; 0; 1; 2; 0; 0; 0; 0; 1; 0; 3; 0; 0; 0; 0]%nat.

(** [def f(): print(1)] followed by [f()], and a script on which bitwise
    junk is injected once, at the top of the body of [f]. *)
Definition call_program : ast.Module_ :=
  [ast.FunctionDef "f" (ast.plain_args []) [print_stmt (ast.Constant (ast.CInt 1))];
   ast.Expr (ast.Call (ast.Name "f" ast.Load) [] [])].
Definition body_script : random.rng :=
  [0; 0; 0; 0; 0; 0; 999; 999; 999; 999; 999]%nat.

(** [def f(a): return a] followed by [f(a=1)], and a script whose
    candidates are [aaaaaaaa] and [baaaaaaa]. *)
Definition keyword_program : ast.Module_ :=
  [ast.FunctionDef "f" (ast.plain_args ["a"])
     [ast.Return (Some (ast.Name "a" ast.Load))];
   ast.Expr (ast.Call (ast.Name "f" ast.Load) []
               [("a", ast.Constant (ast.CInt 1))])].
Definition keyword_script : random.rng :=
  [0; 0; 0; 0; 0; 0; 0; 0; 1; 0; 0; 0; 0; 0; 0; 0]%nat.

(** The driver's steps for the renaming pass:
    [Renamer(naming.get_namespace()).apply(tree)]. *)
Definition rename_pass (fuel : nat) (r : random.rng) (tree : ast.Module_)
  : option (ast.Module_ * Renamer.t * random.rng) :=
  Renamer.apply fuel tree
    (Renamer.init (Naming.get_namespace (analyze tree Naming.init))) r.

(** A mapping that sends no two names to one replacement. *)
Definition one_to_one (m : gmap string string) : Prop :=
  forall k1 k2 v, m !! k1 = Some v -> m !! k2 = Some v -> k1 = k2.

(** A random script on which [random.random()] never exceeds 0.95, so that
    no gate of [_collatz_forward] fires. *)
Definition quiet (r : random.rng) : Prop :=
  Forall (fun d => Z.of_nat d mod 1000 <= 950) r.

(* ===================================================================== *)
(** ** Shapes of trees *)
(* ===================================================================== *)

(** No [for] loop of the statement has a [for] loop directly in its body. *)
Fixpoint no_nested_for (s : ast.stmt) : bool :=
  match s with
  | ast.FunctionDef _ _ body => forallb no_nested_for body
  | ast.ClassDef _ body => forallb no_nested_for body
  | ast.For _ _ body orelse =>
      forallb (fun s' => negb (is_For s')) body
      && forallb no_nested_for body && forallb no_nested_for orelse
  | ast.While _ body orelse =>
      forallb no_nested_for body && forallb no_nested_for orelse
  | ast.If _ body orelse =>
      forallb no_nested_for body && forallb no_nested_for orelse
  | _ => true
  end.

(* ===================================================================== *)
(** ** Observing nested loops *)
(* ===================================================================== *)

(** The module [for v in <iter1>: for w in <iter2>: print(v); print(w)]. *)
Definition nested_probe (v w : string) (iter1 iter2 : ast.expr) : ast.Module_ :=
  [ast.For (ast.Name v ast.Store) iter1
     [ast.For (ast.Name w ast.Store) iter2 [probe v; probe w] []] []].

(** What the module prints for the items [xs] and [ys] of the two ranges. *)
Definition pairs_of (xs ys : list Z) : list Z :=
  flat_map (fun x => flat_map (fun y => [x; y]) ys) xs.

(* ===================================================================== *)
(** ** Trees that only grew *)
(* ===================================================================== *)

(** [grown_body l l']: the statement list [l'] is [l] with statements
    inserted, here or in the bodies of compound statements; no statement of
    [l] is dropped, moved or otherwise changed. *)
Inductive grown_stmt : ast.stmt -> ast.stmt -> Prop :=
| grown_same s : grown_stmt s s
| grown_FunctionDef name args body body' :
    grown_body body body' ->
    grown_stmt (ast.FunctionDef name args body) (ast.FunctionDef name args body')
| grown_ClassDef name body body' :
    grown_body body body' ->
    grown_stmt (ast.ClassDef name body) (ast.ClassDef name body')
| grown_For target iter body body' orelse orelse' :
    grown_body body body' -> grown_body orelse orelse' ->
    grown_stmt (ast.For target iter body orelse) (ast.For target iter body' orelse')
| grown_While test body body' orelse orelse' :
    grown_body body body' -> grown_body orelse orelse' ->
    grown_stmt (ast.While test body orelse) (ast.While test body' orelse')
| grown_If test body body' orelse orelse' :
    grown_body body body' -> grown_body orelse orelse' ->
    grown_stmt (ast.If test body orelse) (ast.If test body' orelse')
with grown_body : list ast.stmt -> list ast.stmt -> Prop :=
| grown_nil : grown_body [] []
| grown_insert x l l' : grown_body l l' -> grown_body l (x :: l')
| grown_keep s s' l l' :
    grown_stmt s s' -> grown_body l l' -> grown_body (s :: l) (s' :: l').

(** Every scratch variable holds an integer at module level. *)
Definition pool_ints (vars : list string) (st : py.state) : Prop :=
  forall v, v ∈ vars -> exists z, py.globals st !! v = Some (py.VInt z).

(** The names a junk statement of the strategy may mention besides the
    scratch pool. *)
Definition junk_extra_names (strat : JunkInjectionStrategy) (junk_vars : list string)
  : list string :=
  match strat with
  | LambdaStrategy => ["x"]
  | NonConstantTimeStrategy =>
      ["range"; String.append (nth 0 junk_vars EmptyString) "_cnt"]
  | _ => []
  end.

(* ===================================================================== *)
(** ** Syntax trees with the expression forms the injectors build *)
(* ===================================================================== *)

(** The conditional and identity injectors build expression nodes outside
    the trees above: [BoolOp], [IfExp], [List], [Tuple], [Dict] and
    [Subscript].  [ast_ext.expr] has them next to the expression forms of
    [ast.expr]; a statement of [ast_ext.stmt] is a statement of the tree
    above, or one of the conditionals the conditional injector puts around
    such statements. *)
Module ast_ext.

Inductive boolop := And | Or.

Inductive expr :=
| Constant (value : ast.constant)
| Name (id : string) (ctx : ast.expr_context)
| BoolOp (op : boolop) (values : list expr)
| BinOp (left : expr) (op : ast.operator) (right : expr)
| UnaryOp (op : ast.unaryop) (operand : expr)
| Compare (left : expr) (ops : ast.cmpop) (comparators : expr)
| IfExp (test body orelse : expr)
| Lambda (args : ast.arguments) (body : expr)
| Call (func : expr) (args : list expr) (keywords : list (string * expr))
| List (elts : list expr) (ctx : ast.expr_context)
| Tuple (elts : list expr) (ctx : ast.expr_context)
| Dict (keys values : list expr)
| Subscript (value slice : expr) (ctx : ast.expr_context).

Inductive stmt :=
| Stmt (s : ast.stmt)
| If (test : expr) (body orelse : list stmt)
| Pass.

Definition Module_ := list stmt.

End ast_ext.

(* ===================================================================== *)
(** ** Evaluating the extended expressions

    Expressions of [ast_ext.expr] have no effect on the state: the
    evaluator takes the bindings in scope (innermost first) and returns a
    value or the exception raised.  A lambda captures the bindings in scope
    where it is evaluated.  [and] and [or] return the operand that decides;
    a list, tuple or dict display is evaluated left to right; subscripts
    index tuples and lists by integers, negative ones from the end, and
    dicts by key. *)
(* ===================================================================== *)

Module pyx.

Inductive value :=
| VInt (z : Z)
| VBool (b : bool)
| VStr (s : string)
| VNone
| VList (items : list value)
| VTuple (items : list value)
| VDict (items : list (value * value))
| VClosure (params : list string) (body : ast_ext.expr)
           (captured : list (string * value))
| VFunction (args : ast.arguments) (body : list ast.stmt).

Definition env := list (string * value).

Inductive exn :=
| ZeroDivisionError
| NameError (id : string)
| UnboundLocalError (id : string)
| TypeError
| ValueError
| IndexError
| KeyError
| NotModelled.

Inductive result (A : Type) :=
| Ok (a : A)
| Raise (e : exn)
| OutOfFuel.
Arguments Ok {A} a.
Arguments Raise {A} e.
Arguments OutOfFuel {A}.

Definition bind {A B} (m : result A) (k : A -> result B) : result B :=
  match m with
  | Ok a => k a
  | Raise e => Raise e
  | OutOfFuel => OutOfFuel
  end.

Fixpoint lookup (bindings : env) (id : string) : option value :=
  match bindings with
  | [] => None
  | (k, v) :: rest => if String.eqb k id then Some v else lookup rest id
  end.

Definition value_of_constant (c : ast.constant) : value :=
  match c with
  | ast.CInt z => VInt z
  | ast.CBool b => VBool b
  | ast.CStr s => VStr s
  | ast.CNone => VNone
  end.

Definition as_int (v : value) : option Z :=
  match v with
  | VInt z => Some z
  | VBool b => Some (Z.b2z b)
  | _ => None
  end.

Definition truthy (v : value) : bool :=
  match v with
  | VInt z => negb (z =? 0)
  | VBool b => b
  | VStr s => negb (String.eqb s EmptyString)
  | VNone => false
  | VList items => negb (Nat.eqb (length items) 0)
  | VTuple items => negb (Nat.eqb (length items) 0)
  | VDict items => negb (Nat.eqb (length items) 0)
  | VClosure _ _ _ => true
  | VFunction _ _ => true
  end.

Definition binop (op : ast.operator) (x y : value) : result value :=
  match as_int x, as_int y with
  | Some a, Some b =>
      match op with
      | ast.Add => Ok (VInt (a + b))
      | ast.Sub => Ok (VInt (a - b))
      | ast.Mult => Ok (VInt (a * b))
      | ast.FloorDiv => if b =? 0 then Raise ZeroDivisionError else Ok (VInt (a / b))
      | ast.Mod => if b =? 0 then Raise ZeroDivisionError else Ok (VInt (a mod b))
      | ast.BitAnd => Ok (VInt (Z.land a b))
      | ast.BitOr => Ok (VInt (Z.lor a b))
      | ast.BitXor => Ok (VInt (Z.lxor a b))
      | ast.LShift => if b <? 0 then Raise ValueError else Ok (VInt (Z.shiftl a b))
      | ast.RShift => if b <? 0 then Raise ValueError else Ok (VInt (Z.shiftr a b))
      end
  | _, _ => Raise NotModelled
  end.

Definition compare (op : ast.cmpop) (x y : value) : result value :=
  match as_int x, as_int y with
  | Some a, Some b =>
      Ok (VBool match op with
                | ast.Eq => a =? b
                | ast.NotEq => negb (a =? b)
                | ast.Lt => a <? b
                | ast.Gt => b <? a
                | ast.GtE => b <=? a
                end)
  | _, _ => Raise NotModelled
  end.

Definition unop (op : ast.unaryop) (x : value) : result value :=
  match op with
  | ast.Not => Ok (VBool (negb (truthy x)))
  | ast.USub =>
      match as_int x with
      | Some a => Ok (VInt (- a))
      | None => Raise NotModelled
      end
  end.

(** Whether [and] / [or] stops at an operand with this value. *)
Definition decides (op : ast_ext.boolop) (v : value) : bool :=
  match op with
  | ast_ext.And => negb (truthy v)
  | ast_ext.Or => truthy v
  end.

(** [hash(key)]: lists and dicts are unhashable; keys other than
    constants are not modelled. *)
Definition hashable (key : value) : result unit :=
  match key with
  | VInt _ | VBool _ | VStr _ | VNone => Ok tt
  | VList _ | VDict _ => Raise TypeError
  | VTuple _ | VClosure _ _ _ | VFunction _ _ => Raise NotModelled
  end.

(** Equality of two constant keys: numbers by value ([True == 1]). *)
Definition key_eqb (k1 k2 : value) : bool :=
  match k1, k2 with
  | VStr a, VStr b => String.eqb a b
  | VNone, VNone => true
  | _, _ =>
      match as_int k1, as_int k2 with
      | Some a, Some b => a =? b
      | _, _ => false
      end
  end.

Fixpoint set_item (items : list (value * value)) (key v : value)
  : list (value * value) :=
  match items with
  | [] => [(key, v)]
  | (k, old) :: rest =>
      if key_eqb k key then (k, v) :: rest else (k, old) :: set_item rest key v
  end.

Fixpoint get_item (items : list (value * value)) (key : value) : option value :=
  match items with
  | [] => None
  | (k, v) :: rest => if key_eqb k key then Some v else get_item rest key
  end.

(** [d[key] = v]. *)
Definition dict_set (items : list (value * value)) (key v : value)
  : result (list (value * value)) :=
  bind (hashable key) (fun _ => Ok (set_item items key v)).

(** [d[key]]. *)
Definition dict_get (items : list (value * value)) (key : value) : result value :=
  bind (hashable key) (fun _ =>
  match get_item items key with
  | Some v => Ok v
  | None => Raise KeyError
  end).

(** The dict a display builds from its evaluated keys and values. *)
Fixpoint build_map (pairs : list (value * value)) (items : list (value * value))
  : result (list (value * value)) :=
  match pairs with
  | [] => Ok items
  | (key, v) :: pairs' =>
      bind (dict_set items key v) (fun items' => build_map pairs' items')
  end.

(** [seq[i]] on the items of a tuple or list. *)
Definition index (items : list value) (i : Z) : result value :=
  let n := Z.of_nat (length items) in
  let j := if i <? 0 then i + n else i in
  if (0 <=? j) && (j <? n)
  then match nth_error items (Z.to_nat j) with
       | Some v => Ok v
       | None => Raise IndexError
       end
  else Raise IndexError.

Definition subscript (container key : value) : result value :=
  match container with
  | VTuple items | VList items =>
      match as_int key with
      | Some i => index items i
      | None => Raise TypeError
      end
  | VDict items => dict_get items key
  | VStr _ => Raise NotModelled
  | _ => Raise TypeError
  end.

(** The bindings of a call: parameters to arguments, one to one. *)
Fixpoint bind_params (params : list string) (args : list value) : option env :=
  match params, args with
  | [], [] => Some []
  | p :: params', a :: args' =>
      option_map (cons (p, a)) (bind_params params' args')
  | _, _ => None
  end.

(** The parts of the evaluator that walk a list of operands, given the
    evaluator [ev] of one operand. *)
Section Operands.
Variable ev : ast_ext.expr -> result value.

(** Arguments and elements, left to right. *)
Fixpoint eval_list (es : list ast_ext.expr) : result (list value) :=
  match es with
  | [] => Ok []
  | e :: es' =>
      bind (ev e) (fun v =>
      bind (eval_list es') (fun vs => Ok (v :: vs)))
  end.

(** The operands of [and] / [or]: the first that decides, else the last. *)
Fixpoint eval_operands (op : ast_ext.boolop) (es : list ast_ext.expr)
  : result value :=
  match es with
  | [] => Raise NotModelled
  | [e] => ev e
  | e :: es' =>
      bind (ev e) (fun v => if decides op v then Ok v else eval_operands op es')
  end.

(** The keys and values of a dict display: key, value, key, value, ... *)
Fixpoint eval_pairs (ks vs : list ast_ext.expr) : result (list (value * value)) :=
  match ks, vs with
  | [], [] => Ok []
  | k :: ks', v :: vs' =>
      bind (ev k) (fun key =>
      bind (ev v) (fun x =>
      bind (eval_pairs ks' vs') (fun rest => Ok ((key, x) :: rest))))
  | _, _ => Raise NotModelled
  end.

End Operands.

Fixpoint eval (fuel : nat) (bindings : env) (e : ast_ext.expr) {struct fuel}
  : result value :=
  match fuel with
  | O => OutOfFuel
  | S fuel =>
      match e with
      | ast_ext.Constant c => Ok (value_of_constant c)
      | ast_ext.Name id _ =>
          match lookup bindings id with
          | Some v => Ok v
          | None => Raise (NameError id)
          end
      | ast_ext.BoolOp op values => eval_operands (eval fuel bindings) op values
      | ast_ext.BinOp lhs op rhs =>
          bind (eval fuel bindings lhs) (fun x =>
          bind (eval fuel bindings rhs) (fun y => binop op x y))
      | ast_ext.UnaryOp op operand =>
          bind (eval fuel bindings operand) (fun x => unop op x)
      | ast_ext.Compare lhs op rhs =>
          bind (eval fuel bindings lhs) (fun x =>
          bind (eval fuel bindings rhs) (fun y => compare op x y))
      | ast_ext.IfExp test body orelse =>
          bind (eval fuel bindings test) (fun c =>
          if truthy c then eval fuel bindings body else eval fuel bindings orelse)
      | ast_ext.Lambda args body =>
          match ast.posonlyargs args, ast.kwonlyargs args with
          | [], [] => Ok (VClosure (ast.args args) body bindings)
          | _, _ => Raise NotModelled
          end
      | ast_ext.Call func args [] =>
          bind (eval fuel bindings func) (fun f =>
          bind (eval_list (eval fuel bindings) args) (fun xs =>
          match f with
          | VClosure params body captured =>
              match bind_params params xs with
              | Some bound => eval fuel (bound ++ captured)%list body
              | None => Raise TypeError
              end
          | VFunction _ _ => Raise NotModelled
          | _ => Raise TypeError
          end))
      | ast_ext.Call _ _ (_ :: _) => Raise NotModelled
      | ast_ext.List elts _ =>
          bind (eval_list (eval fuel bindings) elts) (fun vs => Ok (VList vs))
      | ast_ext.Tuple elts _ =>
          bind (eval_list (eval fuel bindings) elts) (fun vs => Ok (VTuple vs))
      | ast_ext.Dict keys values =>
          bind (eval_pairs (eval fuel bindings) keys values) (fun evaluated =>
          bind (build_map evaluated []) (fun items => Ok (VDict items)))
      | ast_ext.Subscript container slice _ =>
          bind (eval fuel bindings container) (fun c =>
          bind (eval fuel bindings slice) (fun k => subscript c k))
      end
  end.

(** A value that holds no lambda. *)
Fixpoint closure_free (v : value) : bool :=
  match v with
  | VList items | VTuple items => forallb closure_free items
  | VDict items => forallb (fun kv => closure_free kv.1 && closure_free kv.2) items
  | VClosure _ _ _ => false
  | _ => true
  end.

(** A result that holds no lambda: an exception, or such a value. *)
Definition first_order (m : result value) : bool :=
  match m with
  | Ok v => closure_free v
  | Raise _ => true
  | OutOfFuel => false
  end.

(** *** Module-level statements

    A statement of the tree above runs as the interpreter above runs it at
    module level; the test of a conditional is evaluated on the global
    bindings. *)

Definition lift_value (v : py.value) : value :=
  match v with
  | py.VInt z => VInt z
  | py.VBool b => VBool b
  | py.VStr s => VStr s
  | py.VNone => VNone
  | py.VFunction args body => VFunction args body
  end.

Definition lift_exn (e : py.exn) : exn :=
  match e with
  | py.ZeroDivisionError => ZeroDivisionError
  | py.NameError id => NameError id
  | py.UnboundLocalError id => UnboundLocalError id
  | py.TypeError => TypeError
  | py.ValueError => ValueError
  | py.NotModelled => NotModelled
  end.

Definition lift_result {A} (m : py.result A) : result A :=
  match m with
  | py.Ok a => Ok a
  | py.Raise e => Raise (lift_exn e)
  | py.OutOfFuel => OutOfFuel
  end.

Definition globals_env (st : py.state) : env :=
  (fun kv : string * py.value => (kv.1, lift_value kv.2))
    <$> map_to_list (py.globals st).

(** A block, given how one statement runs. *)
Fixpoint exec_stmts (exec : py.state -> ast_ext.stmt -> result (py.outcome * py.state))
    (st : py.state) (ss : list ast_ext.stmt) : result (py.outcome * py.state) :=
  match ss with
  | [] => Ok (py.Normal, st)
  | s :: ss' =>
      bind (exec st s) (fun '(o, st) =>
      match o with
      | py.Normal => exec_stmts exec st ss'
      | py.Returned v => Ok (py.Returned v, st)
      end)
  end.

Fixpoint exec_stmt (fuel : nat) (st : py.state) (s : ast_ext.stmt) {struct fuel}
  : result (py.outcome * py.state) :=
  match fuel with
  | O => OutOfFuel
  | S fuel =>
      match s with
      | ast_ext.Stmt s0 =>
          bind (lift_result (py.exec_stmt fuel None st s0)) (fun '(o, _, st) =>
          Ok (o, st))
      | ast_ext.If test body orelse =>
          bind (eval fuel (globals_env st) test) (fun c =>
          if truthy c then exec_stmts (exec_stmt fuel) st body
          else exec_stmts (exec_stmt fuel) st orelse)
      | ast_ext.Pass => Ok (py.Normal, st)
      end
  end.

Definition exec_block (fuel : nat) (st : py.state) (ss : list ast_ext.stmt)
  : result (py.outcome * py.state) :=
  exec_stmts (exec_stmt fuel) st ss.

Definition run (fuel : nat) (body : ast_ext.Module_) : result (list py.value) :=
  bind (exec_block fuel py.initial_state body) (fun '(_, st) => Ok (py.stdout st)).

End pyx.

(* ===================================================================== *)
(** ** Injectors/junk_conditional_strategies.py *)
(* ===================================================================== *)

Inductive JunkConditionalStrategy :=
| ConstantTrueStrategy
| ConstantFalseStrategy
| RandomConditionalStrategy.

Module RandomConditionalStrategy.

Definition int_ (z : Z) : ast_ext.expr := ast_ext.Constant (ast.CInt z).

(** The nodes [_make_test] prepares. *)
Definition nested_list : ast_ext.expr :=
  ast_ext.List [ast_ext.List [int_ 1] ast.Load; ast_ext.List [] ast.Load] ast.Load.
Definition bit_xor : ast_ext.expr := ast_ext.BinOp (int_ 12) ast.BitXor (int_ 4).
Definition compare_simple : ast_ext.expr := ast_ext.Compare (int_ 3) ast.GtE (int_ 2).
Definition bool_chain : ast_ext.expr :=
  ast_ext.BoolOp ast_ext.And [nested_list; bit_xor].
Definition unary_not (truth : bool) : ast_ext.expr :=
  ast_ext.UnaryOp ast.Not (ast_ext.Constant (ast.CBool (negb truth))).
Definition const_false : ast_ext.expr := ast_ext.Constant (ast.CBool false).
Definition compare_false : ast_ext.expr := ast_ext.Compare (int_ 1) ast.Lt (int_ 0).
Definition unary_false : ast_ext.expr :=
  ast_ext.UnaryOp ast.Not (ast_ext.Constant (ast.CBool (negb false))).

(** The list [_make_test] chooses from. *)
Definition options (truth : bool) : list ast_ext.expr :=
  if truth
  then [nested_list; bit_xor; compare_simple; bool_chain; unary_not truth]
  else [const_false; compare_false; unary_false].

Definition _make_test (truth : bool) (r : random.rng) : ast_ext.expr * random.rng :=
  random.choice const_false (options truth) r.

(** [wrap]: [truth = random.random() < 0.5]. *)
Definition wrap (stmt : ast_ext.stmt) (r : random.rng)
  : list ast_ext.stmt * random.rng :=
  let (x, r) := random.random r in
  let truth := x <? 500 in
  let (test, r) := _make_test truth r in
  if truth then ([ast_ext.If test [stmt] []], r)
  else ([ast_ext.If test [ast_ext.Pass] [stmt]], r).

End RandomConditionalStrategy.

(** [strat.wrap(stmt)]. *)
Definition conditional_wrap (strat : JunkConditionalStrategy) (stmt : ast_ext.stmt)
    (r : random.rng) : list ast_ext.stmt * random.rng :=
  match strat with
  | ConstantTrueStrategy =>
      ([ast_ext.If (ast_ext.Constant (ast.CBool true)) [stmt] []], r)
  | ConstantFalseStrategy =>
      ([ast_ext.If (ast_ext.Constant (ast.CBool false)) [ast_ext.Pass] [stmt]], r)
  | RandomConditionalStrategy => RandomConditionalStrategy.wrap stmt r
  end.

(* ===================================================================== *)
(** ** Injectors/conditional_injector.py *)
(* ===================================================================== *)

Module ConditionalInjector.

Record t := {
  passes : Z;
  strategies : list JunkConditionalStrategy
}.

(** [random.random() < chance] with [chance = 30 / passes / 100], for
    [passes <> 0]. *)
Definition gate (self : t) (r : random.rng) : bool * random.rng :=
  let (x, r) := random.random r in
  ((0 <? passes self) && (x * passes self <? 300), r).

(** The loop of [_inject_in_body]; [random.choice] raises [IndexError] on
    an empty list of strategies. *)
Fixpoint inject_loop (self : t) (body : list ast.stmt) (r : random.rng)
  : pyx.result (list ast_ext.stmt * random.rng) :=
  match body with
  | [] => pyx.Ok ([], r)
  | stmt :: rest =>
      let (fire, r) := gate self r in
      if fire then
        match strategies self with
        | [] => pyx.Raise pyx.IndexError
        | first :: _ =>
            let (strat, r) := random.choice first (strategies self) r in
            let (wrapped, r) := conditional_wrap strat (ast_ext.Stmt stmt) r in
            pyx.bind (inject_loop self rest r) (fun '(rest', r) =>
            pyx.Ok ((wrapped ++ rest')%list, r))
        end
      else
        pyx.bind (inject_loop self rest r) (fun '(rest', r) =>
        pyx.Ok (ast_ext.Stmt stmt :: rest', r))
  end.

(** [_inject_in_body]: [chance = 30 / self.passes / 100] comes first, and
    raises [ZeroDivisionError] when [passes] is 0. *)
Definition _inject_in_body (self : t) (body : list ast.stmt) (r : random.rng)
  : pyx.result (list ast_ext.stmt * random.rng) :=
  if passes self =? 0 then pyx.Raise pyx.ZeroDivisionError
  else inject_loop self body r.

(** [visit_Module]: no other visitor is defined, so [generic_visit] leaves
    the statements as they are. *)
Definition visit_Module (self : t) (tree : ast.Module_) (r : random.rng)
  : pyx.result (ast_ext.Module_ * random.rng) :=
  _inject_in_body self tree r.

Definition apply := visit_Module.

End ConditionalInjector.

(* ===================================================================== *)
(** ** Injectors/identity_strategies.py *)
(* ===================================================================== *)

Inductive IdentityFuncStrategy :=
| BaseIdentityStrategy
| DefaultIdentityFuncStrategy
| OrIdentityStrategy
| TernaryIdentityStrategy
| LambdaIdentityStrategy
| TupleIndexIdentityStrategy
| DictLookupIdentityStrategy
| MixedIdentityStrategy.

(** [wrap] of the strategies that draw nothing. *)
Definition identity_wrap_plain (strat : IdentityFuncStrategy) (expr : ast_ext.expr)
  : ast_ext.expr :=
  match strat with
  | DefaultIdentityFuncStrategy =>
      ast_ext.BoolOp ast_ext.And [ast_ext.Constant (ast.CInt 1); expr]
  | OrIdentityStrategy =>
      let and_node := ast_ext.BoolOp ast_ext.And [expr; expr] in
      ast_ext.BoolOp ast_ext.Or [expr; and_node]
  | TernaryIdentityStrategy =>
      let dummy := ast_ext.Constant (ast.CInt 0) in
      ast_ext.IfExp (ast_ext.Constant (ast.CBool true)) expr dummy
  | LambdaIdentityStrategy =>
      let lam := ast_ext.Lambda (ast.plain_args ["x"]) (ast_ext.Name "x" ast.Load) in
      ast_ext.Call lam [expr] []
  | TupleIndexIdentityStrategy =>
      let tup := ast_ext.Tuple [expr] ast.Load in
      ast_ext.Subscript tup (ast_ext.Constant (ast.CInt 0)) ast.Load
  | DictLookupIdentityStrategy =>
      let key := ast_ext.Constant (ast.CStr "x") in
      let dct := ast_ext.Dict [key] [expr] in
      ast_ext.Subscript dct key ast.Load
  | BaseIdentityStrategy | MixedIdentityStrategy => expr
  end.

(** [MixedIdentityStrategy._choices]. *)
Definition mixed_choices : list IdentityFuncStrategy :=
  [OrIdentityStrategy; TernaryIdentityStrategy; LambdaIdentityStrategy;
   TupleIndexIdentityStrategy; DictLookupIdentityStrategy].

(** [strategy.wrap(expr)]. *)
Definition identity_wrap (strat : IdentityFuncStrategy) (expr : ast_ext.expr)
    (r : random.rng) : ast_ext.expr * random.rng :=
  match strat with
  | MixedIdentityStrategy =>
      let (chosen, r) := random.choice OrIdentityStrategy mixed_choices r in
      (identity_wrap_plain chosen expr, r)
  | _ => (identity_wrap_plain strat expr, r)
  end.

(* ===================================================================== *)
(** ** Injectors/identity_injector.py *)
(* ===================================================================== *)

Module IdentityFuncInjector.

(** [chance] is in thousandths. *)
Record t := {
  strategy : IdentityFuncStrategy;
  chance : Z
}.

(** [random.random() < self.chance], then [self.strategy.wrap(node)]. *)
Definition maybe_wrap (self : t) (node : ast_ext.expr) (r : random.rng)
  : ast_ext.expr * random.rng :=
  let (x, r) := random.random r in
  if x <? chance self then identity_wrap (strategy self) node r else (node, r).

(** [visit] on an expression: [visit_Name] and [visit_Constant] on the
    leaves, [generic_visit] elsewhere, fields in the order the node classes
    list them (for a dict display, all keys before all values). *)
(** Visiting a list of nodes in order, given the visitor of one node. *)
Fixpoint visit_list (visit : ast_ext.expr -> random.rng -> ast_ext.expr * random.rng)
    (es : list ast_ext.expr) (r : random.rng) : list ast_ext.expr * random.rng :=
  match es with
  | [] => ([], r)
  | e :: es' =>
      let (e, r) := visit e r in
      let (es', r) := visit_list visit es' r in
      (e :: es', r)
  end.

Fixpoint visit_keywords (visit : ast_ext.expr -> random.rng -> ast_ext.expr * random.rng)
    (kws : list (string * ast_ext.expr)) (r : random.rng)
  : list (string * ast_ext.expr) * random.rng :=
  match kws with
  | [] => ([], r)
  | (name, value) :: kws' =>
      let (value, r) := visit value r in
      let (kws', r) := visit_keywords visit kws' r in
      ((name, value) :: kws', r)
  end.

Fixpoint visit (self : t) (e : ast_ext.expr) (r : random.rng) {struct e}
  : ast_ext.expr * random.rng :=
  match e with
  | ast_ext.Constant _ => maybe_wrap self e r
  | ast_ext.Name _ ast.Load => maybe_wrap self e r
  | ast_ext.Name _ ast.Store => (e, r)
  | ast_ext.BoolOp op values =>
      let (values, r) := visit_list (visit self) values r in
      (ast_ext.BoolOp op values, r)
  | ast_ext.BinOp lhs op rhs =>
      let (lhs, r) := visit self lhs r in
      let (rhs, r) := visit self rhs r in
      (ast_ext.BinOp lhs op rhs, r)
  | ast_ext.UnaryOp op operand =>
      let (operand, r) := visit self operand r in (ast_ext.UnaryOp op operand, r)
  | ast_ext.Compare lhs op rhs =>
      let (lhs, r) := visit self lhs r in
      let (rhs, r) := visit self rhs r in
      (ast_ext.Compare lhs op rhs, r)
  | ast_ext.IfExp test body orelse =>
      let (test, r) := visit self test r in
      let (body, r) := visit self body r in
      let (orelse, r) := visit self orelse r in
      (ast_ext.IfExp test body orelse, r)
  | ast_ext.Lambda args body =>
      let (body, r) := visit self body r in (ast_ext.Lambda args body, r)
  | ast_ext.Call func args keywords =>
      let (func, r) := visit self func r in
      let (args, r) := visit_list (visit self) args r in
      let (keywords, r) := visit_keywords (visit self) keywords r in
      (ast_ext.Call func args keywords, r)
  | ast_ext.List elts ctx =>
      let (elts, r) := visit_list (visit self) elts r in (ast_ext.List elts ctx, r)
  | ast_ext.Tuple elts ctx =>
      let (elts, r) := visit_list (visit self) elts r in (ast_ext.Tuple elts ctx, r)
  | ast_ext.Dict keys values =>
      let (keys, r) := visit_list (visit self) keys r in
      let (values, r) := visit_list (visit self) values r in
      (ast_ext.Dict keys values, r)
  | ast_ext.Subscript value slice ctx =>
      let (value, r) := visit self value r in
      let (slice, r) := visit self slice r in
      (ast_ext.Subscript value slice ctx, r)
  end.

End IdentityFuncInjector.

(* ===================================================================== *)
(** ** Trees and values up to identity wrappers *)
(* ===================================================================== *)

(** The nodes the identity injector wraps: constants and loaded names. *)
Definition is_leaf (e : ast_ext.expr) : bool :=
  match e with
  | ast_ext.Constant _ => true
  | ast_ext.Name _ ast.Load => true
  | _ => false
  end.

(** [wrapped e e']: [e'] is [e] with some of its leaves inside identity
    wrappers. *)
Inductive wrapped : ast_ext.expr -> ast_ext.expr -> Prop :=
| wrapped_leaf strat e :
    is_leaf e = true -> wrapped e (identity_wrap_plain strat e)
| wrapped_Constant c : wrapped (ast_ext.Constant c) (ast_ext.Constant c)
| wrapped_Name id ctx : wrapped (ast_ext.Name id ctx) (ast_ext.Name id ctx)
| wrapped_BoolOp op vs vs' :
    Forall2 wrapped vs vs' -> wrapped (ast_ext.BoolOp op vs) (ast_ext.BoolOp op vs')
| wrapped_BinOp l l' op r r' :
    wrapped l l' -> wrapped r r' ->
    wrapped (ast_ext.BinOp l op r) (ast_ext.BinOp l' op r')
| wrapped_UnaryOp op e e' :
    wrapped e e' -> wrapped (ast_ext.UnaryOp op e) (ast_ext.UnaryOp op e')
| wrapped_Compare l l' op r r' :
    wrapped l l' -> wrapped r r' ->
    wrapped (ast_ext.Compare l op r) (ast_ext.Compare l' op r')
| wrapped_IfExp t t' b b' o o' :
    wrapped t t' -> wrapped b b' -> wrapped o o' ->
    wrapped (ast_ext.IfExp t b o) (ast_ext.IfExp t' b' o')
| wrapped_Lambda args b b' :
    wrapped b b' -> wrapped (ast_ext.Lambda args b) (ast_ext.Lambda args b')
| wrapped_Call f f' args args' kws kws' :
    wrapped f f' -> Forall2 wrapped args args' ->
    Forall2 (fun kw kw' => kw.1 = kw'.1 /\ wrapped kw.2 kw'.2) kws kws' ->
    wrapped (ast_ext.Call f args kws) (ast_ext.Call f' args' kws')
| wrapped_List es es' ctx :
    Forall2 wrapped es es' -> wrapped (ast_ext.List es ctx) (ast_ext.List es' ctx)
| wrapped_Tuple es es' ctx :
    Forall2 wrapped es es' -> wrapped (ast_ext.Tuple es ctx) (ast_ext.Tuple es' ctx)
| wrapped_Dict ks ks' vs vs' :
    Forall2 wrapped ks ks' -> Forall2 wrapped vs vs' ->
    wrapped (ast_ext.Dict ks vs) (ast_ext.Dict ks' vs')
| wrapped_Subscript c c' k k' ctx :
    wrapped c c' -> wrapped k k' ->
    wrapped (ast_ext.Subscript c k ctx) (ast_ext.Subscript c' k' ctx).

(** [same_up_to_wrappers v v']: the values differ only in the bodies of the
    lambdas they hold, and these only by identity wrappers. *)
Inductive same_up_to_wrappers : pyx.value -> pyx.value -> Prop :=
| same_VInt z : same_up_to_wrappers (pyx.VInt z) (pyx.VInt z)
| same_VBool b : same_up_to_wrappers (pyx.VBool b) (pyx.VBool b)
| same_VStr s : same_up_to_wrappers (pyx.VStr s) (pyx.VStr s)
| same_VNone : same_up_to_wrappers pyx.VNone pyx.VNone
| same_VList xs ys :
    Forall2 same_up_to_wrappers xs ys ->
    same_up_to_wrappers (pyx.VList xs) (pyx.VList ys)
| same_VTuple xs ys :
    Forall2 same_up_to_wrappers xs ys ->
    same_up_to_wrappers (pyx.VTuple xs) (pyx.VTuple ys)
| same_VDict xs ys :
    Forall2 (fun kv kv' => kv.1 = kv'.1 /\ same_up_to_wrappers kv.2 kv'.2) xs ys ->
    same_up_to_wrappers (pyx.VDict xs) (pyx.VDict ys)
| same_VClosure params body body' captured captured' :
    wrapped body body' ->
    Forall2 (fun kv kv' => kv.1 = kv'.1 /\ same_up_to_wrappers kv.2 kv'.2)
      captured captured' ->
    same_up_to_wrappers (pyx.VClosure params body captured)
      (pyx.VClosure params body' captured')
| same_VFunction args body :
    same_up_to_wrappers (pyx.VFunction args body) (pyx.VFunction args body).

(** Bindings, and the items of a dict, up to identity wrappers. *)
Definition env_rel : pyx.env -> pyx.env -> Prop :=
  Forall2 (fun kv kv' => kv.1 = kv'.1 /\ same_up_to_wrappers kv.2 kv'.2).

Definition dict_rel : list (pyx.value * pyx.value) -> list (pyx.value * pyx.value) -> Prop :=
  Forall2 (fun kv kv' => kv.1 = kv'.1 /\ same_up_to_wrappers kv.2 kv'.2).

(** Results up to a relation on the values; nothing is asked where the
    first evaluation ran out of fuel. *)
Definition result_rel {A} (R : A -> A -> Prop) (m m' : pyx.result A) : Prop :=
  match m, m' with
  | pyx.Ok a, pyx.Ok a' => R a a'
  | pyx.Raise e, pyx.Raise e' => e = e'
  | pyx.OutOfFuel, _ => True
  | _, _ => False
  end.

(* ===================================================================== *)
(** ** Runs up to a renaming *)
(* ===================================================================== *)

(** What a renaming [m] makes of a value, an exception, a frame, a state and
    a result: function values carry renamed code, [NameError] and
    [UnboundLocalError] carry a renamed name, bindings have renamed keys;
    data is left alone. *)
Definition renamed_value (m : gmap string string) (v : py.value) : py.value :=
  match v with
  | py.VFunction args body =>
      py.VFunction (Renamer.rewrite_args m args) (map (Renamer.rewrite_stmt m) body)
  | _ => v
  end.

Definition renamed_exn (m : gmap string string) (e : py.exn) : py.exn :=
  match e with
  | py.NameError id => py.NameError (Renamer.subst m id)
  | py.UnboundLocalError id => py.UnboundLocalError (Renamer.subst m id)
  | _ => e
  end.

Definition renamed_result {A} (m : gmap string string) (f : A -> A)
    (res : py.result A) : py.result A :=
  match res with
  | py.Ok a => py.Ok (f a)
  | py.Raise e => py.Raise (renamed_exn m e)
  | py.OutOfFuel => py.OutOfFuel
  end.

Definition renamed_bindings (m : gmap string string) (b : gmap string py.value)
  : gmap string py.value :=
  kmap (Renamer.subst m) (renamed_value m <$> b).

Definition renamed_state (m : gmap string string) (st : py.state) : py.state :=
  {| py.globals := renamed_bindings m (py.globals st);
     py.stdout := map (renamed_value m) (py.stdout st) |}.

Definition renamed_frame (m : gmap string string) (f : py.frame) : py.frame :=
  {| py.local_names := map (Renamer.subst m) (py.local_names f);
     py.locals := renamed_bindings m (py.locals f) |}.

Definition renamed_outcome (m : gmap string string) (o : py.outcome) : py.outcome :=
  match o with
  | py.Normal => py.Normal
  | py.Returned v => py.Returned (renamed_value m v)
  end.

(** A mapping together with its inverse: it exchanges each name with its
    replacement. *)
Definition exchange (m : gmap string string) : gmap string string :=
  m ∪ list_to_map (prod_swap <$> map_to_list m).

(* ===================================================================== *)
(** * Properties *)
(* ===================================================================== *)

(** ** Feistel schemes: the decoder undoes the rounds *)

Lemma mask16_ones : mask16 = Z.ones 16.
Proof. reflexivity. Qed.

Lemma testbit_mask16 x n : 0 <= n ->
  Z.testbit (Z.land x mask16) n = Z.testbit x n && (n <? 16).
Proof.
  intros Hn. rewrite mask16_ones, Z.land_spec, Z.testbit_ones_nonneg by lia.
  destruct (Z.ltb_spec n 16); destruct (Z.leb_spec 0 n); try lia; reflexivity.
Qed.

Lemma is16_land x : is16 (Z.land x mask16).
Proof.
  unfold is16. rewrite <- Z.land_assoc, Z.land_diag. reflexivity.
Qed.

Lemma is16_rotl3 x : is16 (rotl3 x).
Proof. apply is16_land. Qed.

Lemma is16_bits x n : is16 x -> 16 <= n -> Z.testbit x n = false.
Proof.
  intros H Hn. rewrite <- H, testbit_mask16 by lia.
  destruct (Z.ltb_spec n 16); [lia | apply andb_false_r].
Qed.

Lemma is16_range x : is16 x <-> 0 <= x < 2 ^ 16.
Proof.
  unfold is16. rewrite mask16_ones, Z.land_ones by lia. split.
  - intros <-. apply Z.mod_pos_bound. lia.
  - intros H. apply Z.mod_small. lia.
Qed.

Lemma xor_mask_cancel L F : is16 L -> is16 F ->
  Z.lxor (Z.land (Z.lxor L F) mask16) F = L.
Proof.
  intros HL HF. apply Z.bits_inj'. intros n Hn.
  rewrite Z.lxor_spec, testbit_mask16, Z.lxor_spec by lia.
  destruct (Z.ltb_spec n 16).
  - rewrite andb_true_r. destruct (Z.testbit L n), (Z.testbit F n); reflexivity.
  - rewrite (is16_bits L n), (is16_bits F n) by (assumption || lia). reflexivity.
Qed.

Lemma iter_inverse {A} (P : A -> Prop) (f g : A -> A) :
  (forall s, P s -> P (f s)) ->
  (forall s, P s -> g (f s) = s) ->
  forall n s, P s -> Nat.iter n g (Nat.iter n f s) = s.
Proof.
  intros Hf Hgf n. induction n as [|n IH]; intros s Hs; [reflexivity|].
  rewrite Nat.iter_succ_r. simpl.
  rewrite Hgf; [apply IH, Hs|].
  clear IH. induction n; simpl; auto.
Qed.

Lemma simple_enc_round_halves self s : halves16 s -> halves16 (SimpleFeistelNumberStrategy.enc_round self s).
Proof.
  destruct s as [L R]. intros [HL HR]. split; simpl; [exact HR | apply is16_land].
Qed.

Lemma simple_dec_enc_round self s : halves16 s -> SimpleFeistelNumberStrategy.dec_round self (SimpleFeistelNumberStrategy.enc_round self s) = s.
Proof.
  destruct s as [L R]. intros [HL HR]. simpl in *.
  unfold SimpleFeistelNumberStrategy.dec_round, SimpleFeistelNumberStrategy.enc_round. f_equal.
  apply xor_mask_cancel; [exact HL | apply is16_rotl3].
Qed.

Lemma split_halves16 v : 0 <= v < 2 ^ 32 ->
  halves16 (Z.shiftr v 16, Z.land v 0xffff).
Proof.
  intros Hv. split; simpl.
  - apply is16_range. rewrite Z.shiftr_div_pow2 by lia. split.
    + apply Z.div_pos; lia.
    + apply Z.div_lt_upper_bound; lia.
  - apply (is16_land v).
Qed.

Lemma join_halves v : 0 <= v < 2 ^ 32 ->
  Z.land (Z.lor (Z.shiftl (Z.shiftr v 16) 16) (Z.land v 0xffff)) 0xFFFFFFFF = v.
Proof.
  intros Hv. apply Z.bits_inj'. intros n Hn.
  change 0xFFFFFFFF with (Z.ones 32). change 0xffff with mask16.
  rewrite Z.land_spec, Z.lor_spec, Z.shiftl_spec, testbit_mask16,
    Z.testbit_ones_nonneg by lia.
  destruct (Z.ltb_spec n 16).
  - rewrite Z.testbit_neg_r by lia.
    destruct (Z.leb_spec 0 n), (Z.ltb_spec n 32); try lia.
    simpl. rewrite !andb_true_r. reflexivity.
  - rewrite Z.shiftr_spec by lia. replace (n - 16 + 16) with n by lia.
    rewrite andb_false_r, orb_false_r.
    destruct (Z.leb_spec 0 n); try lia.
    destruct (Z.ltb_spec n 32); simpl.
    + apply andb_true_r.
    + rewrite andb_false_r. symmetry.
      apply Z.bits_above_log2; [lia|].
      destruct (Z.eq_dec v 0) as [->|]; [simpl; lia|].
      assert (2 ^ 32 <= 2 ^ n) by (apply Z.pow_le_mono_r; lia).
      apply Z.log2_lt_pow2; lia.
Qed.

Lemma split_join L R : is16 L -> is16 R ->
  (Z.shiftr (Z.lor (Z.shiftl L 16) R) 16, Z.land (Z.lor (Z.shiftl L 16) R) 0xffff)
  = (L, R).
Proof.
  intros HL HR. f_equal; apply Z.bits_inj'; intros n Hn.
  - rewrite Z.shiftr_spec, Z.lor_spec, Z.shiftl_spec by lia.
    replace (n + 16 - 16) with n by lia.
    rewrite (is16_bits R (n + 16)) by (assumption || lia).
    apply orb_false_r.
  - change 0xffff with mask16.
    rewrite testbit_mask16, Z.lor_spec, Z.shiftl_spec by lia.
    destruct (Z.ltb_spec n 16).
    + rewrite Z.testbit_neg_r by lia. simpl. apply andb_true_r.
    + rewrite andb_false_r. symmetry. apply is16_bits; assumption.
Qed.

Lemma simple_rounds_halves self n s :
  halves16 s -> halves16 (Nat.iter n (SimpleFeistelNumberStrategy.enc_round self) s).
Proof.
  intros Hs. induction n; simpl; [exact Hs | apply simple_enc_round_halves, IHn].
Qed.

Lemma simple_decode_encode self v : 0 <= v < 2 ^ 32 ->
  SimpleFeistelNumberStrategy.decode_num self (SimpleFeistelNumberStrategy.encode self v) = v.
Proof.
  intros Hv. unfold SimpleFeistelNumberStrategy.decode_num, SimpleFeistelNumberStrategy.encode, repeat_rounds.
  pose proof (split_halves16 v Hv) as H0.
  pose proof (simple_rounds_halves self (Z.to_nat (SimpleFeistelNumberStrategy.rounds self)) _ H0) as H1.
  destruct (Nat.iter (Z.to_nat (SimpleFeistelNumberStrategy.rounds self)) (SimpleFeistelNumberStrategy.enc_round self)
              (Z.shiftr v 16, Z.land v 0xffff)) as [L R] eqn:E.
  destruct H1 as [HL HR]. simpl in HL, HR.
  pose proof (split_join L R HL HR) as HS. injection HS as HS1 HS2.
  rewrite HS1, HS2, <- E.
  rewrite (iter_inverse halves16 (SimpleFeistelNumberStrategy.enc_round self) (SimpleFeistelNumberStrategy.dec_round self)
             (simple_enc_round_halves self) (simple_dec_enc_round self) _ _ H0).
  apply join_halves, Hv.
Qed.

(** Bit-level description of the interleaving loops. *)

Lemma testbit_1 m : Z.testbit 1 m = (m =? 0).
Proof.
  change 1 with (Z.ones 1). destruct (Z.ltb_spec m 0).
  - rewrite Z.testbit_neg_r by lia. symmetry. apply Z.eqb_neq. lia.
  - rewrite Z.testbit_ones_nonneg by lia.
    destruct (Z.leb_spec 0 m), (Z.ltb_spec m 1), (Z.eqb_spec m 0); simpl; lia || reflexivity.
Qed.

Lemma testbit_pick v k i n : 0 <= n -> 0 <= i -> 0 <= k ->
  Z.testbit (Z.shiftl (Z.land (Z.shiftr v k) 1) i) n = (n =? i) && Z.testbit v k.
Proof.
  intros Hn Hi Hk. rewrite Z.shiftl_spec, Z.land_spec, testbit_1 by lia.
  destruct (Z.eqb_spec (n - i) 0) as [E|E], (Z.eqb_spec n i); try lia.
  subst. rewrite Z.sub_diag, Z.shiftr_spec, andb_true_r by lia. reflexivity.
Qed.

Lemma existsb_pick (g : Z -> bool) j l :
  existsb (fun i => (j =? Z.of_nat i) && g (Z.of_nat i)) l
  = existsb (fun i => j =? Z.of_nat i) l && g j.
Proof.
  induction l as [|i l IH]; simpl; [reflexivity|].
  rewrite IH. destruct (Z.eqb_spec j (Z.of_nat i)) as [->|]; simpl.
  - destruct (g (Z.of_nat i)); simpl; [reflexivity|].
    rewrite andb_false_r. reflexivity.
  - reflexivity.
Qed.

Lemma existsb_seq j a k : 0 <= j ->
  existsb (fun i => j =? Z.of_nat i) (seq a k)
  = (Z.of_nat a <=? j) && (j <? Z.of_nat (a + k)).
Proof.
  intros Hj. revert a. induction k as [|k IH]; intros a; simpl.
  - destruct (Z.leb_spec (Z.of_nat a) j), (Z.ltb_spec j (Z.of_nat (a + 0))); simpl; lia || reflexivity.
  - rewrite IH.
    destruct (Z.eqb_spec j (Z.of_nat a)), (Z.leb_spec (Z.of_nat (S a)) j),
      (Z.ltb_spec j (Z.of_nat (S a + k))), (Z.leb_spec (Z.of_nat a) j),
      (Z.ltb_spec j (Z.of_nat (a + S k))); simpl; lia || reflexivity.
Qed.

Lemma unpack_fold_bits v l L0 R0 n : 0 <= n ->
  Z.testbit (fst (fold_left (unpack_step v) l (L0, R0))) n
  = Z.testbit L0 n || existsb (fun i => (n =? Z.of_nat i) && Z.testbit v (2 * Z.of_nat i)) l
  /\
  Z.testbit (snd (fold_left (unpack_step v) l (L0, R0))) n
  = Z.testbit R0 n || existsb (fun i => (n =? Z.of_nat i) && Z.testbit v (2 * Z.of_nat i + 1)) l.
Proof.
  intros Hn. revert L0 R0. induction l as [|i l IH]; intros L0 R0.
  - simpl. rewrite !orb_false_r. split; reflexivity.
  - cbn [fold_left existsb]. unfold unpack_step at 2 4.
    destruct (IH (Z.lor L0 (Z.shiftl (Z.land (Z.shiftr v (2 * Z.of_nat i)) 1) (Z.of_nat i)))
                 (Z.lor R0 (Z.shiftl (Z.land (Z.shiftr v (2 * Z.of_nat i + 1)) 1) (Z.of_nat i))))
      as [E1 E2].
    rewrite E1, E2, !Z.lor_spec, !testbit_pick by lia.
    rewrite !orb_assoc. split; reflexivity.
Qed.

Lemma unpack_bits_spec v n : 0 <= n ->
  Z.testbit (fst (unpack_bits v)) n = (n <? 16) && Z.testbit v (2 * n)
  /\ Z.testbit (snd (unpack_bits v)) n = (n <? 16) && Z.testbit v (2 * n + 1).
Proof.
  intros Hn. unfold unpack_bits.
  destruct (unpack_fold_bits v (seq 0 16) 0 0 n Hn) as [E1 E2].
  rewrite E1, E2, !Z.testbit_0_l.
  rewrite (existsb_pick (fun i => Z.testbit v (2 * i))),
          (existsb_pick (fun i => Z.testbit v (2 * i + 1))), existsb_seq by lia.
  change (Z.of_nat (0 + 16)) with 16. change (Z.of_nat 0) with 0.
  destruct (Z.leb_spec 0 n); [|lia]. split; reflexivity.
Qed.

Lemma pack_fold_bits L R l e0 n : 0 <= n ->
  Z.testbit (fold_left (pack_step L R) l e0) n
  = Z.testbit e0 n
    || existsb (fun i => (n =? 2 * Z.of_nat i) && Z.testbit L (Z.of_nat i)
                         || (n =? 2 * Z.of_nat i + 1) && Z.testbit R (Z.of_nat i)) l.
Proof.
  intros Hn. revert e0. induction l as [|i l IH]; intros e0.
  - simpl. rewrite orb_false_r. reflexivity.
  - cbn [fold_left existsb]. rewrite IH. unfold pack_step.
    rewrite !Z.lor_spec, !testbit_pick by lia. rewrite !orb_assoc. reflexivity.
Qed.

Lemma existsb_ext_in {A} (f g : A -> bool) l :
  (forall x, f x = g x) -> existsb f l = existsb g l.
Proof. intros H. induction l; simpl; [reflexivity | rewrite H, IHl; reflexivity]. Qed.

Lemma pack_bits_even L R j : 0 <= j ->
  Z.testbit (pack_bits L R) (2 * j) = (j <? 16) && Z.testbit L j.
Proof.
  intros Hj. unfold pack_bits. rewrite pack_fold_bits, Z.testbit_0_l, orb_false_l by lia.
  rewrite (existsb_ext_in _ (fun i => (j =? Z.of_nat i) && Z.testbit L (Z.of_nat i))).
  - rewrite existsb_pick, existsb_seq by lia.
    destruct (Z.leb_spec (Z.of_nat 0) j); [reflexivity | lia].
  - intros i. destruct (Z.eqb_spec (2 * j) (2 * Z.of_nat i)), (Z.eqb_spec (2 * j) (2 * Z.of_nat i + 1)),
      (Z.eqb_spec j (Z.of_nat i)); try lia; simpl; rewrite ?orb_false_r; reflexivity.
Qed.

Lemma pack_bits_odd L R j : 0 <= j ->
  Z.testbit (pack_bits L R) (2 * j + 1) = (j <? 16) && Z.testbit R j.
Proof.
  intros Hj. unfold pack_bits. rewrite pack_fold_bits, Z.testbit_0_l, orb_false_l by lia.
  rewrite (existsb_ext_in _ (fun i => (j =? Z.of_nat i) && Z.testbit R (Z.of_nat i))).
  - rewrite existsb_pick, existsb_seq by lia.
    destruct (Z.leb_spec (Z.of_nat 0) j); [reflexivity | lia].
  - intros i. destruct (Z.eqb_spec (2 * j + 1) (2 * Z.of_nat i)), (Z.eqb_spec (2 * j + 1) (2 * Z.of_nat i + 1)),
      (Z.eqb_spec j (Z.of_nat i)); try lia; simpl; reflexivity.
Qed.

Lemma bits_above_is16 x : (forall n, 16 <= n -> Z.testbit x n = false) -> is16 x.
Proof.
  intros H. apply Z.bits_inj'. intros n Hn. rewrite testbit_mask16 by lia.
  destruct (Z.ltb_spec n 16); [apply andb_true_r|].
  rewrite H by lia. reflexivity.
Qed.

Lemma unpack_bits_halves v : halves16 (unpack_bits v).
Proof.
  split; apply bits_above_is16; intros n Hn;
    destruct (unpack_bits_spec v n ltac:(lia)) as [E1 E2]; rewrite ?E1, ?E2;
    destruct (Z.ltb_spec n 16); lia || reflexivity.
Qed.

Lemma testbit_mask32 x n : 0 <= n ->
  Z.testbit (Z.land x 0xFFFFFFFF) n = Z.testbit x n && (n <? 32).
Proof.
  intros Hn. change 0xFFFFFFFF with (Z.ones 32).
  rewrite Z.land_spec, Z.testbit_ones_nonneg by lia.
  destruct (Z.leb_spec 0 n); [reflexivity | lia].
Qed.

Lemma bits_above_32 v n : 0 <= v < 2 ^ 32 -> 32 <= n -> Z.testbit v n = false.
Proof.
  intros Hv Hn. destruct (Z.eq_dec v 0) as [->|]; [apply Z.testbit_0_l|].
  apply Z.bits_above_log2; [lia|].
  assert (2 ^ 32 <= 2 ^ n) by (apply Z.pow_le_mono_r; lia).
  apply Z.log2_lt_pow2; lia.
Qed.

Lemma unpack_pack L R : is16 L -> is16 R ->
  unpack_bits (Z.land (pack_bits L R) 0xFFFFFFFF) = (L, R).
Proof.
  intros HL HR.
  rewrite (surjective_pairing (unpack_bits _)).
  f_equal; apply Z.bits_inj'; intros n Hn;
    destruct (unpack_bits_spec (Z.land (pack_bits L R) 0xFFFFFFFF) n Hn) as [E1 E2];
    rewrite ?E1, ?E2, testbit_mask32, ?pack_bits_even, ?pack_bits_odd by lia;
    (destruct (Z.ltb_spec n 16);
     [ destruct (Z.ltb_spec (2 * n) 32), (Z.ltb_spec (2 * n + 1) 32); try lia;
       simpl; rewrite ?andb_true_r; reflexivity
     | simpl; symmetry; apply is16_bits; assumption ]).
Qed.

Lemma pack_unpack v : 0 <= v < 2 ^ 32 ->
  Z.land (pack_bits (fst (unpack_bits v)) (snd (unpack_bits v))) 0xFFFFFFFF = v.
Proof.
  intros Hv. apply Z.bits_inj'. intros n Hn.
  rewrite testbit_mask32 by lia.
  destruct (Z.ltb_spec n 32); [|rewrite andb_false_r; symmetry; apply bits_above_32; assumption].
  rewrite andb_true_r.
  destruct (Z.even n) eqn:Ev.
  - apply Z.even_spec in Ev. destruct Ev as [j ->].
    rewrite pack_bits_even by lia.
    destruct (unpack_bits_spec v j ltac:(lia)) as [E1 _]. rewrite E1.
    destruct (Z.ltb_spec j 16); [reflexivity | lia].
  - assert (Z.odd n = true) as Od by (rewrite <- Z.negb_even, Ev; reflexivity).
    apply Z.odd_spec in Od. destruct Od as [j ->].
    rewrite pack_bits_odd by lia.
    destruct (unpack_bits_spec v j ltac:(lia)) as [_ E2]. rewrite E2.
    destruct (Z.ltb_spec j 16); [reflexivity | lia].
Qed.

Lemma feistel_enc_round_halves self s : halves16 s -> halves16 (FeistelNumberStrategy.enc_round self s).
Proof.
  destruct s as [L R]. intros [HL HR]. split; simpl; [exact HR | apply is16_land].
Qed.

Lemma feistel_dec_enc_round self s : halves16 s -> FeistelNumberStrategy.dec_round self (FeistelNumberStrategy.enc_round self s) = s.
Proof.
  destruct s as [L R]. intros [HL HR]. simpl in *.
  unfold FeistelNumberStrategy.dec_round, FeistelNumberStrategy.enc_round. f_equal.
  change 0xffff with mask16.
  rewrite xor_mask_cancel; [exact HL | exact HL | apply is16_rotl3].
Qed.

Lemma feistel_rounds_halves self n s :
  halves16 s -> halves16 (Nat.iter n (FeistelNumberStrategy.enc_round self) s).
Proof.
  intros Hs. induction n; simpl; [exact Hs | apply feistel_enc_round_halves, IHn].
Qed.

Lemma feistel_decode_encode self v : 0 <= v < 2 ^ 32 ->
  FeistelNumberStrategy.decode_num self (FeistelNumberStrategy.encode self v) = v.
Proof.
  intros Hv. unfold FeistelNumberStrategy.decode_num, FeistelNumberStrategy.encode, repeat_rounds.
  pose proof (unpack_bits_halves v) as H0.
  destruct (unpack_bits v) as [L0 R0] eqn:E0.
  pose proof (feistel_rounds_halves self (Z.to_nat (FeistelNumberStrategy.rounds self)) _ H0) as H1.
  destruct (Nat.iter (Z.to_nat (FeistelNumberStrategy.rounds self)) (FeistelNumberStrategy.enc_round self) (L0, R0))
    as [L R] eqn:E.
  destruct H1 as [HL HR]. simpl in HL, HR.
  unfold FeistelNumberStrategy.MASK32. rewrite (unpack_pack L R HL HR), <- E.
  rewrite (iter_inverse halves16 (FeistelNumberStrategy.enc_round self) (FeistelNumberStrategy.dec_round self)
             (feistel_enc_round_halves self) (feistel_dec_enc_round self) _ _ H0).
  pose proof (pack_unpack v Hv) as HP. rewrite E0 in HP. exact HP.
Qed.


(** ** Decimal text and the XOR-string scheme *)

Lemma py_int_str z : py_int (py_str z) = Some z.
Proof.
  unfold py_int, py_str. rewrite NilZero.isi.
  - simpl. f_equal. apply DecimalZ.of_to.
  - destruct z; simpl; try discriminate.
    intros [= H]. exact (Unsigned.to_uint_nonnil _ H).
  - destruct z; simpl; try discriminate.
    intros [= H]. exact (Unsigned.to_uint_nonnil _ H).
Qed.

Lemma py_str_inj a b : py_str a = py_str b -> a = b.
Proof.
  intros H. apply (f_equal py_int) in H. rewrite !py_int_str in H. congruence.
Qed.

Lemma lt256_log2 (x : N) : (x < 256 <-> N.log2 x < 8)%N.
Proof.
  destruct (N.eq_dec x 0%N) as [->|Hx]; [simpl; lia|].
  change 256%N with (2 ^ 8)%N. apply N.log2_lt_pow2. lia.
Qed.

Lemma lxor_lt256 (x y : N) : (x < 256 -> y < 256 -> N.lxor x y < 256)%N.
Proof.
  rewrite !lt256_log2. intros Hx Hy.
  pose proof (N.log2_lxor x y). lia.
Qed.

Lemma Z_lxor_of_N (x y : N) : Z.lxor (Z.of_N x) (Z.of_N y) = Z.of_N (N.lxor x y).
Proof. destruct x, y; reflexivity. Qed.

Lemma chr_xor_xor a k :
  chr (Z.lxor (ord (chr (Z.lxor (ord a) (ord k)))) (ord k)) = a.
Proof.
  unfold chr, ord. rewrite !Z_lxor_of_N, !N2Z.id.
  rewrite N_ascii_embedding by (apply lxor_lt256; apply N_ascii_bounded).
  rewrite N.lxor_assoc, N.lxor_nilpotent, N.lxor_0_r.
  apply ascii_N_embedding.
Qed.

Lemma xor_chars_involutive n : forall s key,
  String.length s = n -> String.length key = n ->
  exists x, xor_chars n s key = Some x /\ String.length x = n
            /\ xor_chars n x key = Some s.
Proof.
  induction n as [|n IH]; intros s key Hs Hk.
  - destruct s; [|discriminate]. exists EmptyString. repeat split.
  - destruct s as [|a s]; [discriminate|]. destruct key as [|k key]; [discriminate|].
    simpl in Hs, Hk. injection Hs as Hs. injection Hk as Hk.
    destruct (IH s key Hs Hk) as (x & E1 & E2 & E3).
    exists (String (chr (Z.lxor (ord a) (ord k))) x). simpl.
    rewrite E1, E3, chr_xor_xor. simpl. repeat split. congruence.
Qed.

Lemma draw_key_length n : forall r,
  String.length (fst (XorStringNumberStrategy.draw_key n r)) = n.
Proof.
  induction n as [|n IH]; intros r; simpl; [reflexivity|].
  destruct (random.getrandbits 8 r) as [bits r1].
  specialize (IH r1). destruct (XorStringNumberStrategy.draw_key n r1) as [key r2].
  simpl in *. congruence.
Qed.

Lemma append_cons c a b :
  String.append (String c a) b = String c (String.append a b).
Proof. reflexivity. Qed.

Lemma append_nil b : String.append EmptyString b = b.
Proof. reflexivity. Qed.

Lemma substring_prefix a b :
  String.substring 0 (String.length a) (String.append a b) = a.
Proof.
  induction a as [|c a IH].
  - rewrite append_nil. destruct b; reflexivity.
  - rewrite append_cons. simpl. rewrite IH. reflexivity.
Qed.

Lemma substring_all b : String.substring 0 (String.length b) b = b.
Proof. induction b as [|c b IH]; simpl; [reflexivity | rewrite IH; reflexivity]. Qed.

Lemma substring_suffix a b :
  String.substring (String.length a) (String.length b) (String.append a b) = b.
Proof.
  induction a as [|c a IH]; [apply substring_all | rewrite append_cons; exact IH].
Qed.

Lemma append_length a b :
  String.length (String.append a b) = (String.length a + String.length b)%nat.
Proof.
  induction a as [|c a IH]; [reflexivity|].
  rewrite append_cons. simpl. congruence.
Qed.

Lemma decode_num_append x key :
  String.length key = String.length x ->
  XorStringNumberStrategy.decode_num (String.append x key)
  = match xor_chars (String.length x) x key with
    | Some chars => py_int chars
    | None => None
    end.
Proof.
  intros Hk. unfold XorStringNumberStrategy.decode_num.
  rewrite append_length, Hk.
  replace ((String.length x + String.length x) / 2)%nat with (String.length x)
    by (replace (String.length x + String.length x)%nat with (String.length x * 2)%nat by lia;
        symmetry; apply Nat.div_mul; lia).
  replace (String.length x + String.length x - String.length x)%nat
    with (String.length x) by lia.
  pose proof (substring_suffix x key) as HS. rewrite Hk in HS.
  rewrite substring_prefix, HS. reflexivity.
Qed.

Lemma xor_decode_payload s key :
  String.length key = String.length s ->
  XorStringNumberStrategy.decode_num
    (String.append (default EmptyString (xor_chars (String.length s) s key)) key)
  = py_int s.
Proof.
  intros Hk.
  destruct (xor_chars_involutive (String.length s) s key eq_refl Hk) as (x & E1 & E2 & E3).
  rewrite E1. simpl default.
  rewrite decode_num_append by congruence. rewrite E2, E3. reflexivity.
Qed.

Lemma xor_decode_encode value r :
  XorStringNumberStrategy.decode_num (fst (XorStringNumberStrategy.encode value r))
  = py_int (str_of_constant value).
Proof.
  unfold XorStringNumberStrategy.encode.
  pose proof (draw_key_length (String.length (str_of_constant value)) r) as Hk.
  destruct (XorStringNumberStrategy.draw_key _ r) as [key r']. simpl in Hk. simpl fst.
  apply xor_decode_payload, Hk.
Qed.


(** ** The name registry *)

Lemma candidate_inj base i j : Naming.candidate base i = Naming.candidate base j -> i = j.
Proof.
  unfold Naming.candidate. intros H.
  apply (inj (String.append base)) in H. apply py_str_inj in H. lia.
Qed.

Lemma taken_spec self c :
  Naming.taken self c = true <-> c ∈ Naming.used_names self ∪ Naming.generated_names self.
Proof.
  unfold Naming.taken. rewrite orb_true_iff, !bool_decide_eq_true, elem_of_union. tauto.
Qed.

Lemma taken_false self c :
  Naming.taken self c = false <->
  (c ∉ Naming.used_names self) /\ (c ∉ Naming.generated_names self).
Proof.
  rewrite <- not_true_iff_false, taken_spec, elem_of_union. tauto.
Qed.

(** The loop returns the first free candidate at or after [i], provided one
    lies within the fuel. *)
Lemma get_name_loop_first self base k : forall fuel i,
  (i <= k < i + fuel)%nat ->
  Naming.taken self (Naming.candidate base k) = false ->
  (forall j, (i <= j < k)%nat -> Naming.taken self (Naming.candidate base j) = true) ->
  Naming.get_name_loop fuel self base i
  = Some (Naming.candidate base k, register (Naming.candidate base k) self).
Proof.
  induction fuel as [|fuel IH]; intros i Hk Hfree Hbelow; [lia|].
  simpl. destruct (Nat.eq_dec i k) as [->|Hne].
  - rewrite Hfree. reflexivity.
  - rewrite (Hbelow i) by lia. simpl. apply IH; [lia | exact Hfree |].
    intros j Hj. apply Hbelow. lia.
Qed.

(** Some candidate among the first [size + 1] is free. *)
Lemma free_candidate_exists self base :
  exists k, (k < Naming.enough_fuel self)%nat
            /\ Naming.taken self (Naming.candidate base k) = false.
Proof.
  set (known := Naming.used_names self ∪ Naming.generated_names self).
  set (l := map (Naming.candidate base) (seq 0 (Naming.enough_fuel self))).
  destruct (decide (Forall (fun c => c ∈ known) l)) as [Hall|Hnot].
  - exfalso.
    assert (NoDup l) as Hnd.
    { apply NoDup_fmap_2; [intros i j; apply candidate_inj | apply NoDup_seq]. }
    assert (list_to_set l ⊆ known) as Hsub.
    { intros c Hc. apply elem_of_list_to_set in Hc.
      rewrite Forall_forall in Hall. apply Hall, Hc. }
    apply subseteq_size in Hsub. rewrite size_list_to_set in Hsub by exact Hnd.
    unfold l in Hsub. rewrite length_map, length_seq in Hsub.
    unfold Naming.enough_fuel in Hsub. fold known in Hsub. lia.
  - apply not_Forall_Exists in Hnot; [|intros c; apply _].
    apply Exists_exists in Hnot. destruct Hnot as (c & Hc & Hfree).
    apply list_elem_of_In, in_map_iff in Hc. destruct Hc as (k & <- & Hk).
    apply in_seq in Hk. exists k. split; [lia|].
    apply not_true_iff_false. rewrite taken_spec. exact Hfree.
Qed.

(** The least free counter. *)
Lemma least_free_candidate self base :
  exists k, (k < Naming.enough_fuel self)%nat
            /\ Naming.taken self (Naming.candidate base k) = false
            /\ forall j, (j < k)%nat -> Naming.taken self (Naming.candidate base j) = true.
Proof.
  destruct (free_candidate_exists self base) as (k0 & Hk0 & Hfree0).
  revert Hk0 Hfree0. induction k0 as [k0 IH] using lt_wf_ind. intros Hk0 Hfree0.
  destruct (decide (Forall (fun j => Naming.taken self (Naming.candidate base j) = true)
                      (seq 0 k0))) as [Hall|Hnot].
  - exists k0. repeat split; [exact Hk0 | exact Hfree0 |].
    intros j Hj. rewrite Forall_forall in Hall. apply Hall.
    apply list_elem_of_In, in_seq. lia.
  - apply not_Forall_Exists in Hnot; [|intros j; apply _].
    apply Exists_exists in Hnot. destruct Hnot as (j & Hj & Hfree).
    apply list_elem_of_In, in_seq in Hj.
    apply (IH j); [lia | lia | apply not_true_iff_false, Hfree].
Qed.

Lemma get_name_spec base self :
  exists i,
    Naming.get_name base self
    = (Naming.candidate base i, register (Naming.candidate base i) self)
    /\ Naming.taken self (Naming.candidate base i) = false
    /\ forall j, (j < i)%nat -> Naming.taken self (Naming.candidate base j) = true.
Proof.
  destruct (least_free_candidate self base) as (k & Hk & Hfree & Hbelow).
  exists k. split; [|split; assumption].
  unfold Naming.get_name.
  rewrite (get_name_loop_first self base k (Naming.enough_fuel self) 0%nat);
    [reflexivity | lia | exact Hfree | intros j Hj; apply Hbelow; lia].
Qed.

Lemma get_name_fresh base n c n' :
  Naming.get_name base n = (c, n') ->
  (c ∉ Naming.used_names n)
  /\ Naming.used_names n' = {[c]} ∪ Naming.used_names n
  /\ exists i, c = Naming.candidate base i.
Proof.
  intros H. destruct (get_name_spec base n) as (i & E & Hfree & _).
  rewrite E in H. injection H as <- <-.
  apply taken_false in Hfree. destruct Hfree as [Hu _].
  split; [exact Hu|]. split; [reflexivity|]. eauto.
Qed.

(** The names of a sequence of calls are pairwise distinct and were unknown
    to the registry the sequence started from. *)
Lemma get_names_distinct bases : forall self,
  NoDup (fst (get_names bases self))
  /\ forall c, c ∈ fst (get_names bases self) -> c ∉ Naming.used_names self.
Proof.
  induction bases as [|b bs IH]; intros self; cbn [get_names].
  - split; [constructor | intros c Hc; inversion Hc].
  - destruct (Naming.get_name b self) as [c0 self'] eqn:E.
    apply get_name_fresh in E. destruct E as (Hfresh & Hused & _).
    destruct (IH self') as [Hnd Hnew].
    destruct (get_names bs self') as [ns self'']. cbn [fst] in *. split.
    + constructor; [|exact Hnd]. intros Hin. apply (Hnew c0 Hin).
      rewrite Hused. apply elem_of_union_l, elem_of_singleton. reflexivity.
    + intros c Hc. apply elem_of_cons in Hc. destruct Hc as [->|Hc]; [exact Hfresh|].
      intros Hin. apply (Hnew c Hc). rewrite Hused. apply elem_of_union_r, Hin.
Qed.

(** C8.  [get_name(base)] returns [base + i] for the least [i] whose
    candidate is in neither set, registers it in both sets, and the names
    returned by any sequence of calls on one registry, whatever the bases,
    are pairwise distinct. *)
Theorem get_name_least_fresh (self : Naming.t) :
  (forall base, exists i,
      Naming.get_name base self
      = (Naming.candidate base i,
         {| Naming.used_names := {[Naming.candidate base i]} ∪ Naming.used_names self;
            Naming.generated_names :=
              {[Naming.candidate base i]} ∪ Naming.generated_names self |})
      /\ (Naming.candidate base i ∉ Naming.used_names self)
      /\ (Naming.candidate base i ∉ Naming.generated_names self)
      /\ forall j, (j < i)%nat ->
           Naming.candidate base j ∈ Naming.used_names self
           \/ Naming.candidate base j ∈ Naming.generated_names self)
  /\ (forall bases, NoDup (fst (get_names bases self))).
Proof.
  split.
  - intros base. destruct (get_name_spec base self) as (i & E & Hfree & Hbelow).
    exists i. apply taken_false in Hfree. destruct Hfree as [Hu Hg].
    repeat split; try assumption.
    intros j Hj. specialize (Hbelow j Hj). apply taken_spec in Hbelow.
    apply elem_of_union in Hbelow. exact Hbelow.
  - intros bases. apply get_names_distinct.
Qed.

Example get_name_skips_taken :
  fst (Naming.get_name "i"
         {| Naming.used_names := {["i0"; "i1"]}; Naming.generated_names := {["i2"]} |})
  = "i3".
Proof. vm_compute. reflexivity. Qed.


(** ** The number schemes: round trip, pass-through, booleans *)

Lemma is_decoder_call_intro s name payload :
  scheme_decoder_name s = Some name ->
  is_decoder_call s (decoder_call name payload) = true.
Proof.
  intros H. unfold is_decoder_call, decoder_call. rewrite H. apply String.eqb_refl.
Qed.

Lemma eval_decoder_call s name payload :
  scheme_decoder_name s = Some name ->
  eval_replacement s (decoder_call name payload)
  = option_map py.VInt (scheme_decode s payload).
Proof.
  intros H. unfold eval_replacement, decoder_call. rewrite H, String.eqb_refl.
  reflexivity.
Qed.

Lemma in_32_bits v : 0 <= v < 2 ^ 32 ->
  negb ((0 <=? v) && (v <? Z.shiftl 1 32)) = false.
Proof.
  intros Hv. change (Z.shiftl 1 32) with (2 ^ 32).
  destruct (Z.leb_spec 0 v), (Z.ltb_spec v (2 ^ 32)); lia || reflexivity.
Qed.

Lemma out_of_32_bits v : v < 0 \/ 2 ^ 32 <= v ->
  negb ((0 <=? v) && (v <? Z.shiftl 1 32)) = true.
Proof.
  intros Hv. change (Z.shiftl 1 32) with (2 ^ 32).
  destruct (Z.leb_spec 0 v), (Z.ltb_spec v (2 ^ 32)); lia || reflexivity.
Qed.

Lemma xor_obfuscate_eval self value r :
  is_decoder_call (XorString self)
    (fst (XorStringNumberStrategy.obfuscate self value r)) = true
  /\ eval_replacement (XorString self)
       (fst (XorStringNumberStrategy.obfuscate self value r))
     = option_map py.VInt (py_int (str_of_constant value)).
Proof.
  unfold XorStringNumberStrategy.obfuscate.
  pose proof (xor_decode_encode value r) as H.
  destruct (XorStringNumberStrategy.encode value r) as [encoded r'].
  cbn [fst] in *. split.
  - apply is_decoder_call_intro. reflexivity.
  - rewrite (eval_decoder_call (XorString self) _ _ eq_refl). cbn [scheme_decode].
    rewrite H. reflexivity.
Qed.

(** C2.  For each scheme with a decoder (fixed-key Feistel, randomized-key
    Feistel, XOR-string) and every integer [v] in the scheme's domain,
    [obfuscate(v)] is a call of the scheme's decoder on a literal payload,
    and that call evaluates to exactly [v]. *)
Theorem number_round_trip (s : scheme) (v : Z) (r : random.rng) :
  has_decoder s = true -> in_domain s v ->
  is_decoder_call s (fst (scheme_obfuscate s (ast.CInt v) r)) = true
  /\ eval_replacement s (fst (scheme_obfuscate s (ast.CInt v) r))
     = Some (py.VInt v).
Proof.
  intros Hd Hv. destruct s as [|self|self|self]; [discriminate| | |];
    cbn [scheme_obfuscate obfuscate simple_feistel_strategy feistel_strategy
         xor_string_strategy fst in_domain] in *.
  - unfold SimpleFeistelNumberStrategy.obfuscate. cbn [int_value].
    rewrite in_32_bits by exact Hv. split.
    + apply is_decoder_call_intro. reflexivity.
    + rewrite (eval_decoder_call (SimpleFeistel self) _ _ eq_refl).
      cbn [scheme_decode option_map]. rewrite simple_decode_encode by exact Hv.
      reflexivity.
  - unfold FeistelNumberStrategy.obfuscate. cbn [int_value].
    rewrite in_32_bits by exact Hv. split.
    + apply is_decoder_call_intro. reflexivity.
    + rewrite (eval_decoder_call (Feistel self) _ _ eq_refl).
      cbn [scheme_decode option_map]. rewrite feistel_decode_encode by exact Hv.
      reflexivity.
  - destruct (xor_obfuscate_eval self (ast.CInt v) r) as [H1 H2]. split; [exact H1|].
    rewrite H2. cbn [str_of_constant]. rewrite py_int_str. reflexivity.
Qed.

(** The end-to-end example of the specification: 42 under the fixed-key
    Feistel scheme. *)
Lemma number_round_trip_witness :
  eval_replacement
    (SimpleFeistel (fst (SimpleFeistelNumberStrategy.init Naming.init)))
    (fst (scheme_obfuscate
            (SimpleFeistel (fst (SimpleFeistelNumberStrategy.init Naming.init)))
            (ast.CInt 42) []))
  = Some (py.VInt 42).
Proof.
  apply (number_round_trip
           (SimpleFeistel (fst (SimpleFeistelNumberStrategy.init Naming.init)))
           42 []); [reflexivity | simpl; lia].
Defined.

(** The boundary values of the 32-bit domain. *)
Example feistel_boundaries (self : FeistelNumberStrategy.t) :
  FeistelNumberStrategy.decode_num self (FeistelNumberStrategy.encode self 0) = 0
  /\ FeistelNumberStrategy.decode_num self
       (FeistelNumberStrategy.encode self (2 ^ 32 - 1)) = 2 ^ 32 - 1.
Proof. split; apply feistel_decode_encode; lia. Qed.

(** C4, as stated, fails: the XOR-string scheme has no range test and
    encodes [-1] like any other integer. *)
Lemma xor_string_encodes_out_of_range :
  fst (scheme_obfuscate
         (XorString (fst (XorStringNumberStrategy.init Naming.init)))
         (ast.CInt (-1)) [])
  <> ast.Constant (ast.CInt (-1)).
Proof. vm_compute. discriminate. Qed.

(** C4, amended.  For every integer [v] outside [0, 2^32), the identity
    scheme and the two Feistel schemes return the plain literal [v]; the
    XOR-string scheme has no range restriction and returns a decoder call
    that evaluates to [v]. *)
Theorem out_of_range_pass_through (s : scheme) (v : Z) (r : random.rng) :
  v < 0 \/ 2 ^ 32 <= v ->
  match s with
  | XorString _ =>
      is_decoder_call s (fst (scheme_obfuscate s (ast.CInt v) r)) = true
      /\ eval_replacement s (fst (scheme_obfuscate s (ast.CInt v) r))
         = Some (py.VInt v)
  | _ => fst (scheme_obfuscate s (ast.CInt v) r) = ast.Constant (ast.CInt v)
  end.
Proof.
  intros Hv. destruct s as [|self|self|self];
    cbn [scheme_obfuscate obfuscate template_strategy simple_feistel_strategy
         feistel_strategy xor_string_strategy fst].
  - reflexivity.
  - unfold SimpleFeistelNumberStrategy.obfuscate. cbn [int_value].
    rewrite out_of_32_bits by exact Hv. reflexivity.
  - unfold FeistelNumberStrategy.obfuscate. cbn [int_value].
    rewrite out_of_32_bits by exact Hv. reflexivity.
  - destruct (xor_obfuscate_eval self (ast.CInt v) r) as [H1 H2]. split; [exact H1|].
    rewrite H2. cbn [str_of_constant]. rewrite py_int_str. reflexivity.
Qed.

Lemma out_of_range_pass_through_witness :
  fst (scheme_obfuscate
         (Feistel (fst (fst (FeistelNumberStrategy.init Naming.init 3 []))))
         (ast.CInt (2 ^ 32)) [])
  = ast.Constant (ast.CInt (2 ^ 32)).
Proof.
  apply (out_of_range_pass_through
           (Feistel (fst (fst (FeistelNumberStrategy.init Naming.init 3 []))))
           (2 ^ 32) []).
  right. lia.
Defined.

(** Booleans pass the integer test of [visit_Constant]. *)
Lemma visit_Constant_bool s b r :
  scheme_visit_Constant s (ast.CBool b) r = scheme_obfuscate s (ast.CBool b) r.
Proof. destruct s; reflexivity. Qed.

(** Under the Feistel schemes a boolean becomes a decoder call whose value
    is the integer 1 or 0. *)
Lemma feistel_boolean s b r :
  match s with SimpleFeistel _ | Feistel _ => True | _ => False end ->
  is_decoder_call s (fst (scheme_visit_Constant s (ast.CBool b) r)) = true
  /\ eval_replacement s (fst (scheme_visit_Constant s (ast.CBool b) r))
     = Some (py.VInt (Z.b2z b)).
Proof.
  intros Hs. rewrite visit_Constant_bool.
  assert (0 <= Z.b2z b < 2 ^ 32) as Hb by (destruct b; simpl; lia).
  destruct s as [|self|self|self]; try contradiction;
    cbn [scheme_obfuscate obfuscate simple_feistel_strategy feistel_strategy fst].
  - unfold SimpleFeistelNumberStrategy.obfuscate. cbn [int_value].
    rewrite in_32_bits by exact Hb. split.
    + apply is_decoder_call_intro. reflexivity.
    + rewrite (eval_decoder_call (SimpleFeistel self) _ _ eq_refl).
      cbn [scheme_decode option_map]. rewrite simple_decode_encode by exact Hb.
      reflexivity.
  - unfold FeistelNumberStrategy.obfuscate. cbn [int_value].
    rewrite in_32_bits by exact Hb. split.
    + apply is_decoder_call_intro. reflexivity.
    + rewrite (eval_decoder_call (Feistel self) _ _ eq_refl).
      cbn [scheme_decode option_map]. rewrite feistel_decode_encode by exact Hb.
      reflexivity.
Qed.

(** C10 at its failing input.  Under the XOR-string scheme a boolean is
    replaced by a decoder call too, but the payload holds the text
    [True] / [False], on which the decoder's [int(...)] raises: the call
    has no value. *)
Theorem xor_string_boolean_raises (self : XorStringNumberStrategy.t)
    (b : bool) (r : random.rng) :
  isinstance_int (ast.CBool b) = true
  /\ is_decoder_call (XorString self)
       (fst (scheme_visit_Constant (XorString self) (ast.CBool b) r)) = true
  /\ eval_replacement (XorString self)
       (fst (scheme_visit_Constant (XorString self) (ast.CBool b) r)) = None.
Proof.
  split; [reflexivity|]. rewrite visit_Constant_bool.
  cbn [scheme_obfuscate obfuscate xor_string_strategy].
  destruct (xor_obfuscate_eval self (ast.CBool b) r) as [H1 H2].
  split; [exact H1|]. rewrite H2. destruct b; reflexivity.
Qed.


(** ** Running loops *)

(** Unfolding equations of the interpreter. *)
Lemma exec_while_eq fuel fr st test body orelse :
  py.exec_stmt (S fuel) fr st (ast.While test body orelse)
  = py.bind (py.eval_expr fuel fr st test) (fun '(c, st) =>
      if py.truthy c then
        py.bind (py.exec_block fuel fr st body) (fun '(o, fr, st) =>
          match o with
          | py.Normal => py.exec_stmt fuel fr st (ast.While test body orelse)
          | py.Returned v => py.Ok (py.Returned v, fr, st)
          end)
      else py.exec_block fuel fr st orelse).
Proof. reflexivity. Qed.

(** A loop invariant rule: [I k] holds before iteration [k]; the test is
    true and the body re-establishes the invariant while [k < N]; the test
    is false at [N]. *)
Lemma while_rule (I : nat -> option py.frame -> py.state -> Prop)
    (test : ast.expr) (body : list ast.stmt) (N c : nat) :
  (forall k fr st fuel, (k < N)%nat -> I k fr st -> (c <= fuel)%nat ->
     exists v, py.eval_expr fuel fr st test = py.Ok (v, st) /\ py.truthy v = true) ->
  (forall k fr st fuel, (k < N)%nat -> I k fr st -> (k + c <= fuel)%nat ->
     exists fr' st', py.exec_block fuel fr st body = py.Ok (py.Normal, fr', st')
                     /\ I (S k) fr' st') ->
  (forall fr st fuel, I N fr st -> (c <= fuel)%nat ->
     exists v, py.eval_expr fuel fr st test = py.Ok (v, st) /\ py.truthy v = false) ->
  forall d k fr st fuel, (k + d = N)%nat -> I k fr st -> (N + c + d + 1 < fuel)%nat ->
    exists fr' st',
      py.exec_stmt fuel fr st (ast.While test body []) = py.Ok (py.Normal, fr', st')
      /\ I N fr' st'.
Proof.
  intros Htest Hbody Hexit. induction d as [|d IH]; intros k fr st fuel Hk HI Hfuel.
  - assert (k = N) by lia. subst k.
    destruct fuel as [|fuel]; [lia|]. rewrite exec_while_eq.
    destruct (Hexit fr st fuel HI ltac:(lia)) as (v & -> & Hv). simpl. rewrite Hv.
    destruct fuel as [|fuel]; [lia|]. simpl. eauto.
  - destruct fuel as [|fuel]; [lia|]. rewrite exec_while_eq.
    destruct (Htest k fr st fuel ltac:(lia) HI ltac:(lia)) as (v & -> & Hv).
    simpl. rewrite Hv.
    destruct (Hbody k fr st fuel ltac:(lia) HI ltac:(lia)) as (fr' & st' & -> & HI').
    simpl. apply (IH (S k)); [lia | exact HI' | lia].
Qed.


(** Whether a counter at [x] is still inside the range. *)
Definition in_range (stop step x : Z) : bool :=
  if 0 <? step then x <? stop else stop <? x.

Lemma range_len_nonneg start stop step : step <> 0 -> 0 <= range_len start stop step.
Proof.
  intros Hs. unfold range_len.
  destruct (Z.ltb_spec 0 step), (Z.ltb_spec start stop), (Z.ltb_spec step 0),
    (Z.ltb_spec stop start); simpl; try lia.
  - assert (0 <= (stop - 1 - start) / step) by (apply Z.div_pos; lia). lia.
  - assert (0 <= (start - 1 - stop) / (0 - step)) by (apply Z.div_pos; lia). lia.
Qed.

Lemma range_len_out start stop step :
  step <> 0 -> in_range stop step start = false -> range_len start stop step = 0.
Proof.
  intros Hs. unfold in_range, range_len.
  destruct (Z.ltb_spec 0 step), (Z.ltb_spec start stop), (Z.ltb_spec step 0),
    (Z.ltb_spec stop start); simpl; intros; try lia; discriminate.
Qed.

Lemma range_len_in start stop step :
  step <> 0 -> in_range stop step start = true ->
  range_len start stop step = 1 + range_len (start + step) stop step.
Proof.
  intros Hs. unfold in_range, range_len.
  destruct (Z.ltb_spec 0 step) as [Hp|Hp].
  - destruct (Z.ltb_spec start stop); [intros _ | discriminate]. simpl.
    destruct (Z.ltb_spec (start + step) stop); simpl.
    + replace (stop - 1 - start) with ((stop - 1 - (start + step)) + 1 * step) by lia.
      rewrite Z.div_add by lia. lia.
    + destruct (Z.ltb_spec step 0); [lia|]. simpl.
      rewrite Z.div_small by lia. lia.
  - destruct (Z.ltb_spec stop start); [intros _ | discriminate].
    destruct (Z.ltb_spec start stop); [lia|]. simpl.
    destruct (Z.ltb_spec step 0); [|lia]. simpl.
    destruct (Z.ltb_spec stop (start + step)); simpl.
    + replace (start - 1 - stop) with ((start + step - 1 - stop) + 1 * (0 - step)) by lia.
      rewrite Z.div_add by lia. lia.
    + rewrite Z.div_small by lia. lia.
Qed.

Lemma py_range_out start stop step :
  step <> 0 -> in_range stop step start = false -> py_range start stop step = [].
Proof.
  intros Hs Hout. unfold py_range. rewrite range_len_out by assumption. reflexivity.
Qed.

Lemma py_range_in start stop step :
  step <> 0 -> in_range stop step start = true ->
  py_range start stop step = start :: py_range (start + step) stop step.
Proof.
  intros Hs Hin. unfold py_range. rewrite (range_len_in start stop step) by assumption.
  pose proof (range_len_nonneg (start + step) stop step Hs) as Hn.
  rewrite Z2Nat.inj_add by lia. change (Z.to_nat 1) with 1%nat.
  cbn [Nat.add seq map]. f_equal.
  - simpl. lia.
  - rewrite <- seq_shift, map_map. apply map_ext. intros i. lia.
Qed.

(** The number of elements is the spec's count. *)
Lemma range_len_ceil start stop step :
  step <> 0 -> range_len start stop step = Z.max 0 (ceil_div (stop - start) step).
Proof.
  intros Hs. unfold range_len, ceil_div.
  destruct (Z.ltb_spec 0 step) as [Hp|Hp].
  - destruct (Z.ltb_spec start stop); simpl.
    + replace (- (stop - start)) with (- (stop - 1 - start) - 1) by lia.
      pose proof (Z.div_mod (stop - 1 - start) step ltac:(lia)) as E.
      pose proof (Z.mod_pos_bound (stop - 1 - start) step ltac:(lia)) as B.
      set (q := (stop - 1 - start) / step) in *. set (m := (stop - 1 - start) mod step) in *.
      assert ((- (stop - 1 - start) - 1) / step = - q - 1) as ->.
      { symmetry. apply (Z.div_unique _ _ _ (step - 1 - m)); [left; lia | lia]. }
      assert (0 <= q) by (apply Z.div_pos; lia). lia.
    + destruct (Z.ltb_spec step 0); [lia|]. simpl.
      assert (0 <= (- (stop - start)) / step) by (apply Z.div_pos; lia). lia.
  - simpl. destruct (Z.ltb_spec step 0); [|lia].
    destruct (Z.ltb_spec stop start); simpl.
    + pose proof (Z.div_mod (start - 1 - stop) (0 - step) ltac:(lia)) as E.
      pose proof (Z.mod_pos_bound (start - 1 - stop) (0 - step) ltac:(lia)) as B.
      set (q := (start - 1 - stop) / (0 - step)) in *.
      set (m := (start - 1 - stop) mod (0 - step)) in *.
      assert ((- (stop - start)) / step = - q - 1) as ->.
      { symmetry. apply (Z.div_unique _ _ _ (- (0 - step - 1 - m))); [right; lia | lia]. }
      assert (0 <= q) by (apply Z.div_pos; lia). lia.
    + assert (- (stop - start) <= 0) by lia.
      assert (0 <= (- (stop - start)) / step).
      { rewrite <- (Z.opp_involutive step), Z.div_opp_opp by lia.
        replace (- - (stop - start)) with (stop - start) by lia.
        apply Z.div_pos; lia. }
      lia.
Qed.

(** ** The lowered loops *)

Lemma load_global st id v :
  py.globals st !! id = Some v -> py.load None st id = py.Ok v.
Proof. intros H. unfold py.load. rewrite H. reflexivity. Qed.

Definition plain_test (i0 : string) (stop step : Z) : ast.expr :=
  ast.Compare (ast.Name i0 ast.Load) (if 0 <? step then ast.Lt else ast.Gt)
              (ast.Constant (ast.CInt stop)).

Definition plain_body (i0 : string) (step : Z) : list ast.stmt :=
  [probe i0;
   ast.AugAssign (ast.Name i0 ast.Store) (if 0 <? step then ast.Add else ast.Sub)
                 (ast.Constant (ast.CInt (Z.abs step)))].

Lemma plain_test_eval i0 stop step x st fuel :
  (3 <= fuel)%nat -> py.globals st !! i0 = Some (py.VInt x) ->
  py.eval_expr fuel None st (plain_test i0 stop step)
  = py.Ok (py.VBool (in_range stop step x), st).
Proof.
  intros Hf Hx. do 3 (destruct fuel as [|fuel]; [lia|]).
  unfold plain_test, in_range. cbn -[py.load]. rewrite (load_global _ _ _ Hx).
  destruct (0 <? step); reflexivity.
Qed.

Lemma plain_body_exec i0 step x st fuel :
  (6 <= fuel)%nat -> step <> 0 -> py.globals st !! i0 = Some (py.VInt x) ->
  py.exec_block fuel None st (plain_body i0 step)
  = py.Ok (py.Normal, None,
           {| py.globals := <[i0 := py.VInt (x + step)]> (py.globals st);
              py.stdout := py.stdout st ++ [py.VInt x] |}).
Proof.
  intros Hf Hs Hx. do 6 (destruct fuel as [|fuel]; [lia|]).
  unfold plain_body, probe. cbn -[py.load py.store].
  rewrite (load_global _ _ _ Hx). cbn -[py.load py.store].
  rewrite (load_global (py.write st (py.VInt x)) i0 (py.VInt x)) by exact Hx.
  destruct (Z.ltb_spec 0 step); cbn; repeat f_equal; lia.
Qed.

Lemma plain_while i0 stop step : step <> 0 ->
  forall n x st fuel,
    length (py_range x stop step) = n -> (n + 7 <= fuel)%nat ->
    py.globals st !! i0 = Some (py.VInt x) ->
    exists g,
      py.exec_stmt fuel None st
        (ast.While (plain_test i0 stop step) (plain_body i0 step) [])
      = py.Ok (py.Normal, None,
               {| py.globals := g;
                  py.stdout := py.stdout st ++ map py.VInt (py_range x stop step) |}).
Proof.
  intros Hs. induction n as [|n IH]; intros x st fuel Hlen Hf Hx;
    (destruct fuel as [|fuel]; [lia|]); rewrite exec_while_eq;
    rewrite (plain_test_eval i0 stop step x st fuel ltac:(lia) Hx); cbn [py.bind py.truthy];
    destruct (in_range stop step x) eqn:Hin.
  - rewrite py_range_in in Hlen by assumption. discriminate.
  - rewrite py_range_out by assumption. destruct fuel as [|fuel]; [lia|].
    cbn. rewrite app_nil_r. destruct st. eauto.
  - rewrite (plain_body_exec i0 step x st fuel ltac:(lia) Hs Hx). cbn [py.bind].
    rewrite py_range_in in Hlen |- * by assumption. injection Hlen as Hlen.
    destruct (IH (x + step)
                {| py.globals := <[i0:=py.VInt (x + step)]> (py.globals st);
                   py.stdout := py.stdout st ++ [py.VInt x] |} fuel Hlen ltac:(lia))
      as (g & ->); [apply lookup_insert_eq|].
    exists g. cbn. rewrite <- app_assoc. reflexivity.
  - rewrite py_range_out in Hlen by assumption. discriminate.
Qed.

Lemma rename_probe v new : v <> "print" ->
  rename_stmt v new (probe v) = probe new.
Proof.
  intros Hv. unfold probe. cbn -[String.eqb].
  destruct (String.eqb_spec "print" v) as [E|_]; [congruence|].
  rewrite String.eqb_refl. reflexivity.
Qed.

Lemma plain_apply naming r v iter start stop step :
  v <> "print" ->
  parse_constant_range_args iter = Some (start, stop, step) ->
  Ob_For.apply_plain naming r (probe_loop v iter)
  = let (i0, naming') := Naming.get_name "i" naming in
    py.Ok ([ast.Assign (ast.Name i0 ast.Store) (ast.Constant (ast.CInt start));
            ast.While (plain_test i0 stop step) (plain_body i0 step) []],
           naming', r).
Proof.
  intros Hv Hp. unfold Ob_For.apply_plain, Ob_For.apply, probe_loop.
  cbn -[Naming.get_name parse_constant_range_args rename_stmt].
  unfold ForToWhileGeneric.visit_For. rewrite Hp.
  cbn -[Naming.get_name rename_stmt].
  unfold PlainStrategy.init.
  destruct (Naming.get_name "i" naming) as [i0 naming'].
  cbn -[rename_stmt]. fold (probe v). rewrite rename_probe by exact Hv. reflexivity.
Qed.

Lemma exec_block_cons fuel fr st s ss fr1 st1 :
  py.exec_stmt fuel fr st s = py.Ok (py.Normal, fr1, st1) ->
  py.exec_block (S fuel) fr st (s :: ss) = py.exec_block fuel fr1 st1 ss.
Proof. intros H. cbn [py.exec_block]. rewrite H. reflexivity. Qed.

Lemma exec_block_nil fuel fr st :
  py.exec_block (S fuel) fr st [] = py.Ok (py.Normal, fr, st).
Proof. reflexivity. Qed.

Lemma exec_assign fuel fr st id ctx e v st1 :
  py.eval_expr fuel fr st e = py.Ok (v, st1) ->
  py.exec_stmt (S fuel) fr st (ast.Assign (ast.Name id ctx) e)
  = py.Ok (py.Normal, fst (py.store fr st1 id v), snd (py.store fr st1 id v)).
Proof.
  intros H. cbn [py.exec_stmt]. rewrite H. cbn [py.bind].
  destruct (py.store fr st1 id v). reflexivity.
Qed.

Lemma eval_constant fuel fr st c :
  py.eval_expr (S fuel) fr st (ast.Constant c) = py.Ok (py.value_of_constant c, st).
Proof. reflexivity. Qed.

Lemma eval_name fuel fr st id ctx v :
  py.load fr st id = py.Ok v ->
  py.eval_expr (S fuel) fr st (ast.Name id ctx) = py.Ok (v, st).
Proof. intros H. cbn [py.eval_expr]. rewrite H. reflexivity. Qed.

Lemma plain_runs naming r v iter start stop step :
  v <> "print" ->
  parse_constant_range_args iter = Some (start, stop, step) ->
  step <> 0 ->
  exists tree naming' r' fuel,
    Ob_For.apply_plain naming r (probe_loop v iter) = py.Ok (tree, naming', r')
    /\ py.run fuel tree = py.Ok (map py.VInt (py_range start stop step)).
Proof.
  intros Hv Hp Hs. rewrite (plain_apply naming r v iter start stop step Hv Hp).
  destruct (Naming.get_name "i" naming) as [i0 naming'].
  eexists _, naming', r, (S (S (S (length (py_range start stop step) + 7)))).
  split; [reflexivity|].
  unfold py.run.
  rewrite (exec_block_cons _ _ _ _ _ _ _
             (exec_assign _ _ _ i0 _ _ _ _ (eval_constant _ _ _ _))).
  destruct (plain_while i0 stop step Hs (length (py_range start stop step)) start
              {| py.globals := <[i0 := py.VInt start]> ∅; py.stdout := [] |}
              (S (length (py_range start stop step) + 7)) eq_refl ltac:(lia)
              (lookup_insert_eq _ _ _)) as (g & E).
  cbn [py.store py.initial_state py.globals py.stdout py.value_of_constant fst snd].
  rewrite (exec_block_cons _ _ _ _ _ _ _ E), exec_block_nil. reflexivity.
Qed.

(** *** The forward step as a statement *)

Definition in_scope (fr : option py.frame) (id : string) : Prop :=
  match fr with
  | Some f => id ∈ py.local_names f
  | None => True
  end.

Lemma load_store_eq fr st id v :
  in_scope fr id ->
  py.load (fst (py.store fr st id v)) (snd (py.store fr st id v)) id = py.Ok v.
Proof.
  destruct fr as [f|]; intros Hin; cbn.
  - rewrite bool_decide_eq_true_2 by exact Hin. rewrite lookup_insert_eq. reflexivity.
  - rewrite lookup_insert_eq. reflexivity.
Qed.

Lemma load_store_ne fr st id id' v :
  id <> id' ->
  py.load (fst (py.store fr st id v)) (snd (py.store fr st id v)) id'
  = py.load fr st id'.
Proof.
  destruct fr as [f|]; intros Hne; cbn.
  - destruct (bool_decide (id' ∈ py.local_names f)); [|reflexivity].
    rewrite lookup_insert_ne by exact Hne. reflexivity.
  - rewrite lookup_insert_ne by exact Hne. reflexivity.
Qed.

Lemma store_pair fr st id v :
  py.store fr st id v = (fst (py.store fr st id v), snd (py.store fr st id v)).
Proof. apply surjective_pairing. Qed.

Lemma advance_exec fr st a_id b_id num_id a b x fuel :
  (7 <= fuel)%nat ->
  py.load fr st a_id = py.Ok (py.VInt a) ->
  py.load fr st b_id = py.Ok (py.VInt b) ->
  py.load fr st num_id = py.Ok (py.VInt x) ->
  py.exec_stmt fuel fr st (CollatzStrategy.advance_stmt a_id b_id num_id)
  = py.Ok (py.Normal,
           fst (py.store fr st num_id (py.VInt (forward_map a b x))),
           snd (py.store fr st num_id (py.VInt (forward_map a b x)))).
Proof.
  intros Hf Ha Hb Hx. do 7 (destruct fuel as [|fuel]; [lia|]).
  unfold CollatzStrategy.advance_stmt, forward_map.
  cbn -[py.load py.store Z.modulo Z.div Z.mul]. rewrite Hx.
  cbn -[py.load py.store Z.modulo Z.div Z.mul].
  destruct (x mod 2 =? 0) eqn:E;
    do 4 (rewrite ?Ha, ?Hb, ?Hx; cbn -[py.load py.store Z.modulo Z.div Z.mul]);
    match goal with |- context [py.store ?f ?s ?i ?v] => destruct (py.store f s i v) end;
    reflexivity.
Qed.

Lemma load_local f st id v :
  id ∈ py.local_names f -> py.locals f !! id = Some v ->
  py.load (Some f) st id = py.Ok v.
Proof.
  intros Hin Hv. unfold py.load. rewrite bool_decide_eq_true_2 by exact Hin.
  rewrite Hv. reflexivity.
Qed.

Lemma exec_augassign fuel fr st id ctx op e x y v st1 :
  py.load fr st id = py.Ok x ->
  py.eval_expr fuel fr st e = py.Ok (y, st1) ->
  py.binop op x y = py.Ok v ->
  py.exec_stmt (S fuel) fr st (ast.AugAssign (ast.Name id ctx) op e)
  = py.Ok (py.Normal, fst (py.store fr st1 id v), snd (py.store fr st1 id v)).
Proof.
  intros Hx He Hv. cbn [py.exec_stmt]. rewrite Hx. cbn [py.bind]. rewrite He.
  cbn [py.bind]. rewrite Hv. cbn [py.bind].
  destruct (py.store fr st1 id v). reflexivity.
Qed.

Lemma eval_compare fuel fr st lhs op rhs x y v st1 st2 :
  py.eval_expr fuel fr st lhs = py.Ok (x, st1) ->
  py.eval_expr fuel fr st1 rhs = py.Ok (y, st2) ->
  py.compare op x y = py.Ok v ->
  py.eval_expr (S fuel) fr st (ast.Compare lhs op rhs) = py.Ok (v, st2).
Proof.
  intros H1 H2 H3. cbn [py.eval_expr]. rewrite H1. cbn [py.bind]. rewrite H2.
  cbn [py.bind]. rewrite H3. reflexivity.
Qed.

Lemma eval_binop fuel fr st lhs op rhs x y v st1 st2 :
  py.eval_expr fuel fr st lhs = py.Ok (x, st1) ->
  py.eval_expr fuel fr st1 rhs = py.Ok (y, st2) ->
  py.binop op x y = py.Ok v ->
  py.eval_expr (S fuel) fr st (ast.BinOp lhs op rhs) = py.Ok (v, st2).
Proof.
  intros H1 H2 H3. cbn [py.eval_expr]. rewrite H1. cbn [py.bind]. rewrite H2.
  cbn [py.bind]. rewrite H3. reflexivity.
Qed.

(** *** The helper [resolve_collatz] *)

Definition resolve_locals : list string :=
  ["a"; "b"; "target"; "num"; "counter"; "num"; "num"; "counter"].

Definition resolve_test : ast.expr :=
  ast.Compare (ast.Name "num" ast.Load) ast.NotEq (ast.Name "target" ast.Load).

Definition resolve_loop_body : list ast.stmt :=
  [CollatzStrategy.advance_stmt "a" "b" "num";
   ast.AugAssign (ast.Name "counter" ast.Store) ast.Add (ast.Constant (ast.CInt 1))].

Definition resolve_body : list ast.stmt :=
  [ast.Assign (ast.Name "counter" ast.Store) (ast.Constant (ast.CInt 0));
   ast.While resolve_test resolve_loop_body [];
   ast.Return (Some (ast.Name "counter" ast.Load))].

Lemma resolve_def_eq name :
  CollatzStrategy.resolve_def name
  = ast.FunctionDef name (ast.plain_args ["a"; "b"; "target"; "num"]) resolve_body.
Proof. reflexivity. Qed.

Section Resolve.

Variables a b T y : Z.
Variable k : nat.
Variable st0 : py.state.
Hypothesis Hy : y = Nat.iter k (forward_map a b) T.
Hypothesis Hfirst : forall j, (j < k)%nat -> Nat.iter j (forward_map a b) T <> y.

Definition resolve_inv (j : nat) (fr : option py.frame) (st : py.state) : Prop :=
  st = st0 /\
  exists m, fr = Some {| py.local_names := resolve_locals; py.locals := m |}
    /\ m !! "a" = Some (py.VInt a) /\ m !! "b" = Some (py.VInt b)
    /\ m !! "target" = Some (py.VInt y)
    /\ m !! "num" = Some (py.VInt (Nat.iter j (forward_map a b) T))
    /\ m !! "counter" = Some (py.VInt (Z.of_nat j)).

Lemma resolve_in_locals id : In id resolve_locals -> id ∈ resolve_locals.
Proof. intros H. apply list_elem_of_In, H. Qed.

Lemma resolve_test_eval j fr st fuel :
  resolve_inv j fr st -> (3 <= fuel)%nat ->
  py.eval_expr fuel fr st resolve_test
  = py.Ok (py.VBool (negb (Nat.iter j (forward_map a b) T =? y)), st).
Proof.
  intros (-> & m & -> & Ha & Hb & Ht & Hn & Hc) Hf.
  do 3 (destruct fuel as [|fuel]; [lia|]).
  unfold resolve_test.
  eapply eval_compare.
  - apply eval_name, load_local; [apply resolve_in_locals; simpl; tauto | exact Hn].
  - apply eval_name, load_local; [apply resolve_in_locals; simpl; tauto | exact Ht].
  - reflexivity.
Qed.

Lemma resolve_loop_body_exec j fr st fuel :
  resolve_inv j fr st -> (10 <= fuel)%nat ->
  exists fr' st',
    py.exec_block fuel fr st resolve_loop_body = py.Ok (py.Normal, fr', st')
    /\ resolve_inv (S j) fr' st'.
Proof.
  intros (-> & m & -> & Ha & Hb & Ht & Hn & Hc) Hf.
  do 4 (destruct fuel as [|fuel]; [lia|]).
  unfold resolve_loop_body.
  set (fr := Some {| py.local_names := resolve_locals; py.locals := m |}).
  assert (forall id v, In id resolve_locals -> m !! id = Some v ->
                       py.load fr st0 id = py.Ok v) as Hload.
  { intros id v Hin Hv. apply load_local; [apply resolve_in_locals, Hin | exact Hv]. }
  pose proof (advance_exec fr st0 "a" "b" "num" a b _ (S (S (S fuel))) ltac:(lia)
                (Hload "a" _ ltac:(simpl; tauto) Ha) (Hload "b" _ ltac:(simpl; tauto) Hb)
                (Hload "num" _ ltac:(simpl; tauto) Hn)) as Hadv.
  rewrite (exec_block_cons _ _ _ _ _ _ _ Hadv).
  cbn [py.store fr fst snd py.local_names py.locals].
  erewrite exec_block_cons;
    [| eapply exec_augassign;
       [ apply load_local; [apply resolve_in_locals; simpl; tauto |];
         cbn [py.locals]; rewrite lookup_insert_ne by done; exact Hc
       | apply eval_constant
       | reflexivity ] ].
  rewrite exec_block_nil.
  cbn [py.store fst snd py.local_names py.locals].
  eexists _, _. split; [reflexivity|].
  split; [reflexivity|]. eexists. split; [reflexivity|].
  repeat split;
    repeat first [rewrite lookup_insert_eq | rewrite lookup_insert_ne by done];
    try assumption; try reflexivity.
  do 2 f_equal. lia.
Qed.

Definition resolve_frame : py.frame :=
  {| py.local_names := resolve_locals;
     py.locals := <["a" := py.VInt a]> (<["b" := py.VInt b]>
                    (<["target" := py.VInt y]> (<["num" := py.VInt T]> ∅))) |}.

Lemma resolve_body_exec fuel :
  (2 * k + 20 <= fuel)%nat ->
  exists fr',
    py.exec_block fuel (Some resolve_frame) st0 resolve_body
    = py.Ok (py.Returned (py.VInt (Z.of_nat k)), fr', st0).
Proof.
  intros Hf. do 3 (destruct fuel as [|fuel]; [lia|]).
  unfold resolve_body.
  rewrite (exec_block_cons _ _ _ _ _ _ _
             (exec_assign _ _ _ "counter" _ _ _ _ (eval_constant _ _ _ _))).
  cbn [py.store fst snd py.value_of_constant resolve_frame py.local_names py.locals].
  destruct (while_rule resolve_inv resolve_test resolve_loop_body k 10) with
    (d := k) (k := 0%nat) (fuel := S fuel)
    (fr := Some {| py.local_names := resolve_locals;
                   py.locals := <["counter" := py.VInt 0]> (py.locals resolve_frame) |})
    (st := st0) as (fr' & st' & Hrun & Hinv).
  - intros j fr st fl Hj HI Hfl.
    rewrite (resolve_test_eval j fr st fl HI ltac:(lia)). eexists. split; [reflexivity|].
    cbn. apply negb_true_iff, Z.eqb_neq, Hfirst, Hj.
  - intros j fr st fl Hj HI Hfl. apply resolve_loop_body_exec; [exact HI | lia].
  - intros fr st fl HI Hfl.
    rewrite (resolve_test_eval k fr st fl HI ltac:(lia)). eexists. split; [reflexivity|].
    cbn. apply negb_false_iff, Z.eqb_eq. symmetry. exact Hy.
  - reflexivity.
  - split; [reflexivity|]. eexists. split; [reflexivity|]. cbn [py.locals resolve_frame].
    repeat split;
      repeat first [rewrite lookup_insert_eq | rewrite lookup_insert_ne by done];
      reflexivity.
  - lia.
  - cbn [resolve_frame py.locals] in Hrun.
    rewrite (exec_block_cons _ _ _ _ _ _ _ Hrun).
    destruct Hinv as (-> & m & -> & Ha & Hb & Ht & Hn & Hc).
    destruct fuel as [|fuel]; [lia|]. destruct fuel as [|fuel]; [lia|].
    cbn [py.exec_block py.exec_stmt].
    erewrite eval_name;
      [| apply load_local; [apply resolve_in_locals; simpl; tauto | exact Hc]].
    cbn [py.bind]. eauto.
Qed.

End Resolve.

Lemma eval_args_cons fuel fr st e es x xs st1 st2 :
  py.eval_expr fuel fr st e = py.Ok (x, st1) ->
  py.eval_args fuel fr st1 es = py.Ok (xs, st2) ->
  py.eval_args (S fuel) fr st (e :: es) = py.Ok (x :: xs, st2).
Proof.
  intros H1 H2. cbn [py.eval_args]. rewrite H1. cbn [py.bind]. rewrite H2. reflexivity.
Qed.

Lemma eval_args_nil fuel fr st : py.eval_args (S fuel) fr st [] = py.Ok ([], st).
Proof. reflexivity. Qed.

Lemma eval_print fuel fr st ctx arg x st1 :
  py.eval_expr fuel fr st arg = py.Ok (x, st1) ->
  py.eval_expr (S fuel) fr st (ast.Call (ast.Name "print" ctx) [arg] [])
  = py.Ok (py.VNone, py.write st1 x).
Proof. intros H. cbn [py.eval_expr py.is_builtin]. cbn. rewrite H. reflexivity. Qed.

Lemma exec_expr fuel fr st e v st1 :
  py.eval_expr fuel fr st e = py.Ok (v, st1) ->
  py.exec_stmt (S fuel) fr st (ast.Expr e) = py.Ok (py.Normal, fr, st1).
Proof. intros H. cbn [py.exec_stmt]. rewrite H. reflexivity. Qed.

Lemma eval_call_user fuel fr st id ctx args fargs body xs st1 callee v fr' st2 :
  id <> "print" ->
  py.eval_expr fuel fr st (ast.Name id ctx) = py.Ok (py.VFunction fargs body, st) ->
  py.eval_args fuel fr st args = py.Ok (xs, st1) ->
  py.call_frame fargs body xs = Some callee ->
  py.exec_block fuel (Some callee) st1 body = py.Ok (py.Returned v, fr', st2) ->
  py.eval_expr (S fuel) fr st (ast.Call (ast.Name id ctx) args []) = py.Ok (v, st2).
Proof.
  intros Hid Hf Ha Hc Hb. cbn [py.eval_expr]. unfold py.is_builtin.
  destruct (String.eqb_spec id "print") as [E|_]; [contradiction|].
  rewrite Hf. cbn [py.bind]. rewrite Ha. cbn [py.bind]. rewrite Hc, Hb. reflexivity.
Qed.

Section CollatzLoop.

Variables i0 a0 b0 num0 res v : string.
Variables a b seed T start step : Z.
Variable N : nat.

Hypothesis Hres_print : res <> "print".
Hypothesis Hres : res <> i0 /\ res <> v /\ res <> num0 /\ res <> a0 /\ res <> b0.
Hypothesis Ha0 : a0 <> i0 /\ a0 <> v /\ a0 <> num0 /\ a0 <> b0.
Hypothesis Hb0 : b0 <> i0 /\ b0 <> v /\ b0 <> num0.
Hypothesis Hnum0 : num0 <> i0 /\ num0 <> v.
Hypothesis Hseed : Nat.iter N (forward_map a b) T = seed.
Hypothesis Hdistinct :
  forall j k, (j < k <= N)%nat ->
    Nat.iter j (forward_map a b) T <> Nat.iter k (forward_map a b) T.

Definition collatz_call : ast.expr :=
  ast.Call (ast.Name res ast.Load)
    [ast.Name a0 ast.Load; ast.Name b0 ast.Load; ast.Name num0 ast.Load;
     ast.Constant (ast.CInt T)] [].

Definition collatz_test : ast.expr :=
  ast.Compare (ast.Name num0 ast.Load) ast.NotEq (ast.Constant (ast.CInt seed)).

Definition collatz_body : list ast.stmt :=
  [ast.Assign (ast.Name i0 ast.Store) collatz_call;
   ComplexLoopUnwrapper.compute_orig v i0 start step;
   probe v;
   CollatzStrategy.advance_stmt a0 b0 num0].

Definition collatz_inv (k : nat) (fr : option py.frame) (st : py.state) : Prop :=
  fr = None
  /\ py.globals st !! res
     = Some (py.VFunction (ast.plain_args ["a"; "b"; "target"; "num"]) resolve_body)
  /\ py.globals st !! a0 = Some (py.VInt a)
  /\ py.globals st !! b0 = Some (py.VInt b)
  /\ py.globals st !! num0 = Some (py.VInt (Nat.iter k (forward_map a b) T))
  /\ py.stdout st = map py.VInt (map (fun i => start + step * Z.of_nat i) (seq 0 k)).

Lemma collatz_call_eval k st fuel :
  collatz_inv k None st -> (k <= N)%nat -> (2 * k + 30 <= fuel)%nat ->
  py.eval_expr fuel None st collatz_call = py.Ok (py.VInt (Z.of_nat k), st).
Proof.
  intros (_ & Hr & Ha & Hb & Hn & Ho) Hk Hf.
  do 6 (destruct fuel as [|fuel]; [lia|]).
  unfold collatz_call.
  destruct (resolve_body_exec a b T (Nat.iter k (forward_map a b) T) k st eq_refl)
    with (fuel := S (S (S (S (S fuel))))) as (fr' & E);
    [intros j Hj; apply Hdistinct; lia | lia |].
  eapply eval_call_user.
  - exact Hres_print.
  - apply eval_name, load_global, Hr.
  - eapply eval_args_cons; [apply eval_name, load_global, Ha|].
    eapply eval_args_cons; [apply eval_name, load_global, Hb|].
    eapply eval_args_cons; [apply eval_name, load_global, Hn|].
    eapply eval_args_cons; [apply eval_constant | apply eval_args_nil].
  - reflexivity.
  - exact E.
Qed.

Lemma collatz_test_eval k st fuel :
  collatz_inv k None st -> (3 <= fuel)%nat ->
  py.eval_expr fuel None st collatz_test
  = py.Ok (py.VBool (negb (Nat.iter k (forward_map a b) T =? seed)), st).
Proof.
  intros (_ & Hr & Ha & Hb & Hn & Ho) Hf.
  do 3 (destruct fuel as [|fuel]; [lia|]).
  eapply eval_compare;
    [apply eval_name, load_global, Hn | apply eval_constant | reflexivity].
Qed.

Lemma collatz_body_exec k st fuel :
  collatz_inv k None st -> (k < N)%nat -> (2 * k + 40 <= fuel)%nat ->
  exists st',
    py.exec_block fuel None st collatz_body = py.Ok (py.Normal, None, st')
    /\ collatz_inv (S k) None st'.
Proof.
  intros HI Hk Hf. pose proof HI as (_ & Hr & Ha & Hb & Hn & Ho).
  destruct Hres as (R1 & R2 & R3 & R4 & R5). destruct Ha0 as (A1 & A2 & A3 & A4).
  destruct Hb0 as (B1 & B2 & B3). destruct Hnum0 as (N1 & N2).
  do 6 (destruct fuel as [|fuel]; [lia|]).
  unfold collatz_body.
  (* i0 = resolve(a0, b0, num0, T) *)
  erewrite exec_block_cons;
    [| apply exec_assign, (collatz_call_eval k st _ HI); lia].
  cbn [py.store fst snd].
  (* v = start + i0 * step *)
  erewrite exec_block_cons;
    [| apply exec_assign; eapply eval_binop;
       [ apply eval_constant
       | eapply eval_binop;
         [ apply eval_name, load_global; cbn [py.globals]; apply lookup_insert_eq
         | apply eval_constant
         | reflexivity ]
       | reflexivity ] ].
  cbn [py.store fst snd py.globals py.stdout py.value_of_constant].
  (* print(v) *)
  unfold probe.
  erewrite exec_block_cons;
    [| eapply exec_expr, eval_print, eval_name, load_global;
       cbn [py.globals]; apply lookup_insert_eq ].
  (* the forward step *)
  erewrite exec_block_cons;
    [| apply (advance_exec _ _ a0 b0 num0 a b (Nat.iter k (forward_map a b) T));
       [ lia | | | ];
       apply load_global; cbn [py.globals py.write];
       rewrite !lookup_insert_ne by congruence; assumption ].
  rewrite exec_block_nil.
  cbn [py.store fst snd py.globals py.stdout py.write].
  eexists. split; [reflexivity|].
  split; [reflexivity|]. cbn [py.globals py.stdout].
  rewrite !lookup_insert_eq, !lookup_insert_ne by congruence.
  repeat split; try assumption.
  rewrite Ho, seq_S, !map_app. cbn [map Nat.add]. do 3 f_equal. lia.
Qed.

Lemma collatz_while st fuel :
  collatz_inv 0 None st -> (4 * N + 50 <= fuel)%nat ->
  exists st',
    py.exec_stmt fuel None st (ast.While collatz_test collatz_body [])
    = py.Ok (py.Normal, None, st')
    /\ collatz_inv N None st'.
Proof.
  intros HI Hf.
  destruct (while_rule (fun k fr st => collatz_inv k None st /\ fr = None)
              collatz_test collatz_body N (2 * N + 40))
    with (d := N) (k := 0%nat) (fuel := fuel) (fr := @None py.frame) (st := st)
    as (fr' & st' & Hrun & Hinv & ->).
  - intros k fr s fl Hk [HI' ->] Hfl.
    rewrite (collatz_test_eval k s fl HI' ltac:(lia)). eexists. split; [reflexivity|].
    cbn. apply negb_true_iff, Z.eqb_neq. rewrite <- Hseed. apply Hdistinct. lia.
  - intros k fr s fl Hk [HI' ->] Hfl.
    destruct (collatz_body_exec k s fl HI' Hk ltac:(lia)) as (s' & E & HI'').
    eauto.
  - intros fr s fl [HI' ->] Hfl.
    rewrite (collatz_test_eval N s fl HI' ltac:(lia)). eexists. split; [reflexivity|].
    cbn. apply negb_false_iff, Z.eqb_eq, Hseed.
  - reflexivity.
  - split; [exact HI | reflexivity].
  - lia.
  - eauto.
Qed.

Definition collatz_program : ast.Module_ :=
  [CollatzStrategy.resolve_def res;
   ast.Assign (ast.Name a0 ast.Store) (ast.Constant (ast.CInt a));
   ast.Assign (ast.Name b0 ast.Store) (ast.Constant (ast.CInt b));
   ast.Assign (ast.Name num0 ast.Store) (ast.Constant (ast.CInt T));
   ast.While collatz_test collatz_body []].

Lemma collatz_program_runs fuel :
  (4 * N + 60 <= fuel)%nat ->
  py.run fuel collatz_program
  = py.Ok (map py.VInt (map (fun i => start + step * Z.of_nat i) (seq 0 N))).
Proof.
  intros Hf. destruct Hres as (R1 & R2 & R3 & R4 & R5).
  destruct Ha0 as (A1 & A2 & A3 & A4). destruct Hb0 as (B1 & B2 & B3).
  do 7 (destruct fuel as [|fuel]; [lia|]).
  unfold py.run, collatz_program.
  rewrite (exec_block_cons _ _ _ (CollatzStrategy.resolve_def res) _ None
             {| py.globals := <[res := py.VFunction
                                  (ast.plain_args ["a"; "b"; "target"; "num"])
                                  resolve_body]> ∅;
                py.stdout := [] |}) by reflexivity.
  do 3 (erewrite exec_block_cons; [| apply exec_assign, eval_constant];
        cbn [py.store fst snd py.globals py.stdout py.value_of_constant]).
  match goal with
  | |- context [py.exec_block _ None ?s [ast.While _ _ _]] =>
      destruct (collatz_while s (S (S fuel))) as (st' & E & HI)
  end.
  - split; [reflexivity|]. cbn [py.globals py.stdout].
    rewrite !lookup_insert_eq.
    repeat split;
      repeat first [rewrite lookup_insert_eq | rewrite lookup_insert_ne by congruence];
      reflexivity.
  - lia.
  - rewrite (exec_block_cons _ _ _ _ _ _ _ E), exec_block_nil. cbn [py.bind].
    destruct HI as (_ & _ & _ & _ & _ & Ho). rewrite Ho. reflexivity.
Qed.

End CollatzLoop.

(** *** The forward map undoes the sampling steps *)

Lemma forward_undoes_step a b s r : a <> 0 ->
  forward_map a b (fst (CollatzStrategy.collatz_forward_step a b (s, r))) = s.
Proof.
  intros Ha. unfold CollatzStrategy.collatz_forward_step, forward_map.
  assert (forall r', forward_map a b (fst (2 * s, r' : random.rng)) = s) as Hdouble.
  { intros r'. unfold forward_map. cbn [fst].
    replace (2 * s) with (s * 2) by lia.
    rewrite Z.mod_mul, Z.div_mul by lia. reflexivity. }
  unfold forward_map in Hdouble.
  destruct (Z.eqb_spec ((s - b) mod a) 0) as [Hm|_]; [|apply Hdouble].
  destruct (Z.eqb_spec (((s - b) / a) mod 2) 1) as [Ho|_]; [|apply Hdouble].
  cbn [andb]. destruct (random.random r) as [x r'].
  destruct (_ && _); [|apply Hdouble].
  cbn [fst]. rewrite Ho. cbn.
  apply Z.div_exact in Hm; [|exact Ha]. lia.
Qed.

Lemma forward_reaches_seed a b seed n r : a <> 0 ->
  Nat.iter (Z.to_nat n) (forward_map a b)
    (fst (CollatzStrategy.collatz_forward a b seed n r)) = seed.
Proof.
  intros Ha. unfold CollatzStrategy.collatz_forward.
  induction (Z.to_nat n) as [|k IH]; [reflexivity|].
  change (Nat.iter (S k) (CollatzStrategy.collatz_forward_step a b) (seed, r))
    with (CollatzStrategy.collatz_forward_step a b
            (Nat.iter k (CollatzStrategy.collatz_forward_step a b) (seed, r))).
  rewrite (Nat.iter_succ_r k (forward_map a b)).
  destruct (Nat.iter k (CollatzStrategy.collatz_forward_step a b) (seed, r)) as [s r'] eqn:E.
  rewrite forward_undoes_step by exact Ha. exact IH.
Qed.

Lemma choice_in {A} (dflt : A) l r : l <> [] -> In (fst (random.choice dflt l r)) l.
Proof.
  intros Hl. unfold random.choice. destruct (random.next r) as [d r']. cbn [fst].
  apply nth_In. apply Nat.mod_upper_bound. destruct l; [contradiction | discriminate].
Qed.

Lemma draw_parameters_spec r a b seed r' :
  CollatzStrategy.draw_parameters r = (a, b, seed, r') ->
  In a [3; 5] /\ In b [-1; 1; 3; 5; 7; 11] /\ b <> a /\ 19 <= seed <= 97.
Proof.
  unfold CollatzStrategy.draw_parameters.
  pose proof (choice_in 3 [3; 5] r ltac:(discriminate)) as Ha.
  destruct (random.choice 3 [3; 5] r) as [a' r1]. cbn [fst] in Ha.
  set (bs := filter (fun x => negb (x =? a')) [-1; 1; 3; 5; 7; 11]).
  assert (bs <> []) as Hbs.
  { subst bs. destruct Ha as [<-|[<-|[]]]; discriminate. }
  pose proof (choice_in 1 bs r1 Hbs) as Hb.
  destruct (random.choice 1 bs r1) as [b' r2]. cbn [fst] in Hb.
  unfold random.randint. destruct (random.next r2) as [d r3].
  intros [= <- <- <- <-].
  apply list_elem_of_In, list_elem_of_filter in Hb. destruct Hb as [Hne Hb].
  apply list_elem_of_In in Hb.
  repeat split; try assumption.
  - intros ->. rewrite Z.eqb_refl in Hne. exact Hne.
  - pose proof (Z.mod_pos_bound (Z.of_nat d) (97 - 19 + 1) ltac:(lia)). lia.
  - pose proof (Z.mod_pos_bound (Z.of_nat d) (97 - 19 + 1) ltac:(lia)). lia.
Qed.

(** *** Fresh names *)

Lemma candidate_not_print c rest i :
  c <> "p"%char -> Naming.candidate (String c rest) i <> "print".
Proof.
  intros Hc. unfold Naming.candidate. rewrite append_cons. intros [= E]. contradiction.
Qed.

(** *** The pipeline on a probe loop, Collatz strategy *)

Lemma iterations_normalised count :
  0 <= count -> CollatzStrategy.iterations 0 count 1 = Some count.
Proof.
  intros Hc. unfold CollatzStrategy.iterations. cbn.
  rewrite Z.sub_0_r, Z.add_0_r, Z.div_1_r. f_equal. lia.
Qed.

Lemma parse_range_call count :
  parse_constant_range_args (ComplexLoopUnwrapper.range_call count)
  = Some (0, count, 1).
Proof. reflexivity. Qed.

Lemma rename_probe_other idx new v :
  idx <> "print" -> idx <> v -> rename_stmt idx new (probe v) = probe v.
Proof.
  intros H1 H2. unfold probe. cbn -[String.eqb].
  destruct (String.eqb_spec "print" idx) as [E|_]; [congruence|].
  destruct (String.eqb_spec v idx) as [E|_]; [congruence|]. reflexivity.
Qed.

Lemma rename_compute_orig idx new v start step :
  idx <> v ->
  rename_stmt idx new (ComplexLoopUnwrapper.compute_orig v idx start step)
  = ComplexLoopUnwrapper.compute_orig v new start step.
Proof.
  intros H. unfold ComplexLoopUnwrapper.compute_orig. cbn -[String.eqb].
  destruct (String.eqb_spec v idx) as [E|_]; [congruence|].
  rewrite String.eqb_refl. reflexivity.
Qed.

Lemma collatz_apply naming r v iter start stop step :
  v <> "print" -> v ∈ Naming.used_names naming ->
  parse_constant_range_args iter = Some (start, stop, step) ->
  step <> 0 ->
  Ob_For.apply_collatz naming r (probe_loop v iter)
  = let count := Z.max 0 (ceil_div (stop - start) step) in
    let (idx, n1) := Naming.get_name "__idx" naming in
    let (i0, n2) := Naming.get_name "i" n1 in
    let (a0, n3) := Naming.get_name "a" n2 in
    let (b0, n4) := Naming.get_name "b" n3 in
    let (num0, n5) := Naming.get_name "num" n4 in
    let '(a, b, seed, r1) := CollatzStrategy.draw_parameters r in
    let (T, r2) := CollatzStrategy.collatz_forward a b seed count r1 in
    let (res, n6) := Naming.get_name "resolve_collatz" n5 in
    py.Ok (collatz_program i0 a0 b0 num0 res v a b seed T start step, n6, r2).
Proof.
  intros Hv Hused Hp Hs.
  unfold Ob_For.apply_collatz, Ob_For.apply, probe_loop.
  cbn -[Naming.get_name parse_constant_range_args rename_stmt
        ComplexLoopUnwrapper.visit_For ForToWhileGeneric.visit_For].
  unfold ComplexLoopUnwrapper.visit_For. rewrite Hp.
  destruct (Z.eqb_spec step 0) as [E|_]; [contradiction|].
  destruct (Naming.get_name "__idx" naming) as [idx n1] eqn:E1.
  cbn -[Naming.get_name parse_constant_range_args rename_stmt
        ForToWhileGeneric.visit_For].
  unfold ForToWhileGeneric.visit_For. rewrite parse_range_call.
  cbn -[Naming.get_name rename_stmt CollatzStrategy.draw_parameters
        CollatzStrategy.iterations CollatzStrategy.collatz_forward].
  unfold CollatzStrategy.init.
  destruct (Naming.get_name "i" n1) as [i0 n2].
  destruct (Naming.get_name "a" n2) as [a0 n3].
  destruct (Naming.get_name "b" n3) as [b0 n4].
  destruct (Naming.get_name "num" n4) as [num0 n5].
  destruct (CollatzStrategy.draw_parameters r) as [[[a b] seed] r1].
  rewrite iterations_normalised by lia.
  destruct (CollatzStrategy.collatz_forward a b seed _ r1) as [T r2].
  destruct (Naming.get_name "resolve_collatz" n5) as [res n6].
  cbn -[rename_stmt].
  apply get_name_fresh in E1. destruct E1 as (Hidx & _ & k & ->).
  fold (probe v).
  fold (ComplexLoopUnwrapper.compute_orig v (Naming.candidate "__idx" k) start step).
  rewrite rename_compute_orig, rename_probe_other;
    [reflexivity | apply candidate_not_print; discriminate
     | intros <-; contradiction | intros <-; contradiction].
Qed.

Lemma trajectory_distinct a b T n :
  NoDup (trajectory a b T n) ->
  forall j k, (j < k <= Z.to_nat n)%nat ->
    Nat.iter j (forward_map a b) T <> Nat.iter k (forward_map a b) T.
Proof.
  intros Hnd j k Hjk E. unfold trajectory in Hnd.
  apply NoDup_ListNoDup in Hnd. rewrite (List.NoDup_nth _ 0) in Hnd.
  rewrite length_map, length_seq in Hnd.
  specialize (Hnd j k ltac:(lia) ltac:(lia)).
  rewrite !(nth_indep _ 0 (Nat.iter 0 (forward_map a b) T)) in Hnd
    by (rewrite length_map, length_seq; lia).
  rewrite !(map_nth (fun k => Nat.iter k (forward_map a b) T)) in Hnd.
  rewrite !seq_nth in Hnd by lia. cbn [Nat.add] in Hnd.
  specialize (Hnd E). lia.
Qed.

Lemma collatz_runs naming r v iter start stop step :
  v <> "print" -> v ∈ Naming.used_names naming ->
  parse_constant_range_args iter = Some (start, stop, step) ->
  step <> 0 ->
  NoDup (sampled_trajectory (Z.max 0 (ceil_div (stop - start) step)) r) ->
  exists tree naming' r' fuel,
    Ob_For.apply_collatz naming r (probe_loop v iter) = py.Ok (tree, naming', r')
    /\ py.run fuel tree = py.Ok (map py.VInt (py_range start stop step)).
Proof.
  intros Hv Hused Hp Hs Hnd.
  rewrite (collatz_apply naming r v iter start stop step Hv Hused Hp Hs).
  cbv zeta. unfold sampled_trajectory in Hnd.
  set (count := Z.max 0 (ceil_div (stop - start) step)) in *.
  destruct (Naming.get_name "__idx" naming) as [idx n1] eqn:E1.
  destruct (Naming.get_name "i" n1) as [i0 n2] eqn:E2.
  destruct (Naming.get_name "a" n2) as [a0 n3] eqn:E3.
  destruct (Naming.get_name "b" n3) as [b0 n4] eqn:E4.
  destruct (Naming.get_name "num" n4) as [num0 n5] eqn:E5.
  destruct (CollatzStrategy.draw_parameters r) as [[[a b] seed] r1] eqn:Ed.
  pose proof (forward_reaches_seed a b seed count r1) as Hseed.
  destruct (CollatzStrategy.collatz_forward a b seed count r1) as [T r2].
  destruct (Naming.get_name "resolve_collatz" n5) as [res n6] eqn:E6.
  apply get_name_fresh in E1, E2, E3, E4, E5, E6.
  destruct E1 as (F1 & U1 & _), E2 as (F2 & U2 & _), E3 as (F3 & U3 & _),
    E4 as (F4 & U4 & _), E5 as (F5 & U5 & _), E6 as (F6 & U6 & k6 & Hres).
  apply draw_parameters_spec in Ed. destruct Ed as (Ha & _).
  assert (a <> 0) as Ha0 by (destruct Ha as [<-|[<-|[]]]; lia).
  eexists _, n6, r2, (4 * Z.to_nat count + 60)%nat. split; [reflexivity|].
  rewrite (collatz_program_runs i0 a0 b0 num0 res v a b seed T start step
             (Z.to_nat count)).
  - unfold py_range. rewrite range_len_ceil by exact Hs. reflexivity.
  - subst res. apply candidate_not_print. discriminate.
  - rewrite U5, U4, U3, U2, U1 in F6.
    repeat split; intros ->; apply F6;
      rewrite !elem_of_union, !elem_of_singleton; tauto.
  - rewrite U4, U3, U2, U1 in F5. rewrite U3, U2, U1 in F4. rewrite U2, U1 in F3.
    repeat split; intros E; subst;
      first [ apply F3; rewrite !elem_of_union, !elem_of_singleton; tauto
            | apply F4; rewrite !elem_of_union, !elem_of_singleton; tauto
            | apply F5; rewrite !elem_of_union, !elem_of_singleton; tauto ].
  - rewrite U4, U3, U2, U1 in F5. rewrite U3, U2, U1 in F4.
    repeat split; intros E; subst;
      first [ apply F4; rewrite !elem_of_union, !elem_of_singleton; tauto
            | apply F5; rewrite !elem_of_union, !elem_of_singleton; tauto ].
  - rewrite U4, U3, U2, U1 in F5.
    repeat split; intros E; subst; apply F5;
      rewrite !elem_of_union, !elem_of_singleton; tauto.
  - apply Hseed, Ha0.
  - apply trajectory_distinct, Hnd.
  - lia.
Qed.


(** *** The loop before lowering *)

Lemma int_literal_eval e fr st fuel :
  is_int_literal e = true -> (2 <= fuel)%nat ->
  exists x, py.eval_expr fuel fr st e = py.Ok (x, st)
            /\ py.as_int x = Some (eval_int e).
Proof.
  intros He Hf. do 2 (destruct fuel as [|fuel]; [lia|]).
  destruct e as [c| | op operand | | | |]; try discriminate.
  - exists (py.value_of_constant c). split; [reflexivity|].
    destruct c; try discriminate; reflexivity.
  - destruct op; try discriminate.
    destruct operand as [c| | | | | |]; try discriminate.
    cbn [is_int_literal] in He. exists (py.VInt (- int_value c)).
    split; [|reflexivity].
    destruct c; try discriminate; reflexivity.
Qed.

Lemma int_literals_eval fr st : forall args fuel,
  forallb is_int_literal args = true -> (length args + 2 <= fuel)%nat ->
  exists xs, py.eval_args fuel fr st args = py.Ok (xs, st)
             /\ py.as_ints xs = Some (map eval_int args).
Proof.
  induction args as [|e args IH]; intros fuel Hall Hf.
  - destruct fuel as [|fuel]; [simpl in Hf; lia|]. exists []. split; reflexivity.
  - cbn [forallb] in Hall. apply andb_prop in Hall. destruct Hall as [He Hall].
    cbn [length] in Hf. destruct fuel as [|fuel]; [lia|].
    destruct (int_literal_eval e fr st fuel He ltac:(lia)) as (x & Ex & Hx).
    destruct (IH fuel Hall ltac:(lia)) as (xs & Exs & Hxs).
    exists (x :: xs). split.
    + apply (eval_args_cons _ _ _ _ _ _ _ _ _ Ex Exs).
    + cbn [py.as_ints map]. rewrite Hx, Hxs. reflexivity.
Qed.

(** A literal range header evaluates to the items of the range. *)
Lemma literal_range_items func args start stop step fr st fuel :
  parse_constant_range_args (ast.Call func args []) = Some (start, stop, step) ->
  step <> 0 -> (5 <= fuel)%nat ->
  py.is_builtin "range" func = true
  /\ exists xs, py.eval_args fuel fr st args = py.Ok (xs, st)
                /\ py.range_items xs = py.Ok (py_range start stop step).
Proof.
  intros Hp Hs Hf. unfold parse_constant_range_args in Hp.
  destruct func as [|id ctx| | | | |]; try discriminate.
  destruct (String.eqb id "range") eqn:Hid; [|discriminate].
  cbn [andb] in Hp.
  destruct ((1 <=? length args)%nat && (length args <=? 3)%nat) eqn:Hlen;
    [|discriminate].
  cbn [andb] in Hp.
  destruct (forallb is_int_literal args) eqn:Hall; [|discriminate].
  apply andb_prop in Hlen. destruct Hlen as [_ Hle]. apply Nat.leb_le in Hle.
  split; [exact Hid|].
  destruct (int_literals_eval fr st args fuel Hall ltac:(lia)) as (xs & Exs & Hxs).
  exists xs. split; [exact Exs|]. unfold py.range_items. rewrite Hxs.
  destruct (map eval_int args) as [|v0 [|v1 [|v2 [|v3 rest]]]]; try discriminate;
    injection Hp as <- <- <-; try reflexivity.
  destruct (Z.eqb_spec v2 0); [contradiction | reflexivity].
Qed.

Lemma exec_for_cons fuel st id x items body orelse :
  py.exec_for (S fuel) None st id (x :: items) body orelse
  = py.bind
      (py.exec_block fuel None
         {| py.globals := <[id := py.VInt x]> (py.globals st);
            py.stdout := py.stdout st |} body)
      (fun '(o, fr, st) =>
         match o with
         | py.Normal => py.exec_for fuel fr st id items body orelse
         | py.Returned v => py.Ok (py.Returned v, fr, st)
         end).
Proof. reflexivity. Qed.

Lemma probe_for_exec v : forall items st fuel,
  (length items + 5 <= fuel)%nat ->
  exists g,
    py.exec_for fuel None st v items [probe v] []
    = py.Ok (py.Normal, None,
             {| py.globals := g; py.stdout := py.stdout st ++ map py.VInt items |}).
Proof.
  induction items as [|x items IH]; intros st fuel Hf.
  - do 2 (destruct fuel as [|fuel]; [simpl in Hf; lia|]).
    exists (py.globals st). cbn. rewrite app_nil_r. destruct st. reflexivity.
  - cbn [length] in Hf. do 5 (destruct fuel as [|fuel]; [lia|]).
    rewrite exec_for_cons.
    erewrite exec_block_cons;
      [| unfold probe; eapply exec_expr, eval_print, eval_name, load_global;
         cbn [py.globals]; apply lookup_insert_eq ].
    rewrite exec_block_nil. cbn [py.bind].
    match goal with
    | |- context [py.exec_for ?f None ?s v items _ _] =>
        destruct (IH s f ltac:(lia)) as (g & E)
    end.
    fold (probe v). rewrite E. exists g. cbn. rewrite <- app_assoc. reflexivity.
Qed.

(** The loop [for v in range(...): print(v)] prints the items of its
    range. *)
Lemma original_loop_runs v func args start stop step :
  parse_constant_range_args (ast.Call func args []) = Some (start, stop, step) ->
  step <> 0 ->
  exists fuel,
    py.run fuel (probe_loop v (ast.Call func args []))
    = py.Ok (map py.VInt (py_range start stop step)).
Proof.
  intros Hp Hs.
  exists (S (S (S (length (py_range start stop step) + 5)))).
  unfold py.run, probe_loop.
  destruct (literal_range_items func args start stop step None py.initial_state
              (S (length (py_range start stop step) + 5)) Hp Hs ltac:(lia))
    as (Hb & xs & Exs & Hxs).
  destruct (probe_for_exec v (py_range start stop step) py.initial_state
              (S (length (py_range start stop step) + 5)) ltac:(lia)) as (g & E).
  erewrite exec_block_cons;
    [| cbn [py.exec_stmt]; rewrite Hb, Exs; cbn [py.bind]; rewrite Hxs;
       cbn [py.bind]; exact E ].
  rewrite exec_block_nil. reflexivity.
Qed.


(** *** Scripts on which no gate fires *)

Lemma quiet_next r d r' : quiet r -> random.next r = (d, r') ->
  Z.of_nat d mod 1000 <= 950 /\ quiet r'.
Proof.
  intros Hq. destruct r as [|d0 r0]; intros [= <- <-].
  - split; [apply Z.leb_le; reflexivity | exact Hq].
  - inversion Hq; subst. split; assumption.
Qed.

Lemma quiet_choice {A} (dflt : A) l r x r' :
  quiet r -> random.choice dflt l r = (x, r') -> quiet r'.
Proof.
  unfold random.choice. intros Hq. destruct (random.next r) as [d r1] eqn:E.
  intros [= _ <-]. exact (proj2 (quiet_next r d r1 Hq E)).
Qed.

Lemma quiet_draw_parameters r a b seed r' :
  quiet r -> CollatzStrategy.draw_parameters r = (a, b, seed, r') -> quiet r'.
Proof.
  unfold CollatzStrategy.draw_parameters. intros Hq.
  destruct (random.choice 3 [3; 5] r) as [a0 r1] eqn:E1.
  apply (quiet_choice _ _ _ _ _ Hq) in E1.
  destruct (random.choice 1 _ r1) as [b0 r2] eqn:E2.
  apply (quiet_choice _ _ _ _ _ E1) in E2.
  unfold random.randint. destruct (random.next r2) as [d r3] eqn:E3.
  intros [= _ _ _ <-]. exact (proj2 (quiet_next r2 d r3 E2 E3)).
Qed.

Lemma quiet_forward_step a b s r :
  quiet r ->
  exists r', CollatzStrategy.collatz_forward_step a b (s, r) = (2 * s, r') /\ quiet r'.
Proof.
  intros Hq. unfold CollatzStrategy.collatz_forward_step.
  destruct (_ && _); [|eauto].
  unfold random.random. destruct (random.next r) as [d r1] eqn:E.
  destruct (quiet_next r d r1 Hq E) as [Hd Hq1].
  destruct (Z.ltb_spec 950 (Z.of_nat d mod 1000)); [lia|]. cbn [andb]. eauto.
Qed.

Lemma quiet_forward a b seed n r :
  quiet r ->
  fst (CollatzStrategy.collatz_forward a b seed n r)
  = Nat.iter (Z.to_nat n) (Z.mul 2) seed.
Proof.
  intros Hq. unfold CollatzStrategy.collatz_forward.
  assert (exists r', Nat.iter (Z.to_nat n) (CollatzStrategy.collatz_forward_step a b)
                       (seed, r)
                     = (Nat.iter (Z.to_nat n) (Z.mul 2) seed, r') /\ quiet r') as H.
  { induction (Z.to_nat n) as [|k IH]; [eauto|].
    destruct IH as (r1 & E & Hq1). rewrite !Nat.iter_succ, E.
    apply quiet_forward_step, Hq1. }
  destruct H as (r' & -> & _). reflexivity.
Qed.

Lemma forward_map_double a b x : forward_map a b (2 * x) = x.
Proof.
  unfold forward_map. replace (2 * x) with (x * 2) by lia.
  rewrite Z.mod_mul, Z.div_mul by lia. reflexivity.
Qed.

Lemma forward_halves a b seed N j :
  (j <= N)%nat ->
  Nat.iter j (forward_map a b) (Nat.iter N (Z.mul 2) seed)
  = Nat.iter (N - j) (Z.mul 2) seed.
Proof.
  induction j as [|j IH]; intros Hj.
  - rewrite Nat.sub_0_r. reflexivity.
  - rewrite Nat.iter_succ, IH by lia.
    replace (N - j)%nat with (S (N - S j)) by lia.
    rewrite Nat.iter_succ. apply forward_map_double.
Qed.

Lemma doubling_increases seed : 0 < seed ->
  forall i k, (i < k)%nat ->
    Nat.iter i (Z.mul 2) seed < Nat.iter k (Z.mul 2) seed.
Proof.
  intros Hs.
  assert (forall i, 0 < Nat.iter i (Z.mul 2) seed) as Hpos
    by (induction i; [exact Hs | rewrite Nat.iter_succ; lia]).
  intros i k Hik. induction Hik as [|k Hik IH]; rewrite Nat.iter_succ.
  - specialize (Hpos i). lia.
  - specialize (Hpos k). lia.
Qed.

(** On a quiet script the target is the seed doubled [n] times, and the
    hidden states are pairwise distinct. *)
Lemma quiet_trajectory_distinct n r :
  quiet r -> NoDup (sampled_trajectory n r).
Proof.
  intros Hq. unfold sampled_trajectory.
  destruct (CollatzStrategy.draw_parameters r) as [[[a b] seed] r1] eqn:E.
  pose proof (quiet_draw_parameters _ _ _ _ _ Hq E) as Hq1.
  apply draw_parameters_spec in E. destruct E as (_ & _ & _ & Hseed).
  pose proof (quiet_forward a b seed n r1 Hq1) as HT.
  destruct (CollatzStrategy.collatz_forward a b seed n r1) as [T r2].
  cbn [fst] in HT. subst T. unfold trajectory.
  apply NoDup_ListNoDup, List.NoDup_map_NoDup_ForallPairs; [|apply List.seq_NoDup].
  intros j k Hj Hk Heq. apply in_seq in Hj, Hk.
  rewrite !forward_halves in Heq by lia.
  destruct (Nat.lt_trichotomy j k) as [Hlt|[->|Hlt]]; [exfalso| reflexivity |exfalso].
  - pose proof (doubling_increases seed ltac:(lia)
                  (Z.to_nat n - k) (Z.to_nat n - j) ltac:(lia)). lia.
  - pose proof (doubling_increases seed ltac:(lia)
                  (Z.to_nat n - j) (Z.to_nat n - k) ltac:(lia)). lia.
Qed.


(** ** The loop claims *)

(** Whatever the random source, the multiplier drawn is not zero. *)
Lemma drawn_multiplier_nonzero r a b seed r' :
  CollatzStrategy.draw_parameters r = (a, b, seed, r') -> a <> 0.
Proof.
  intros E. apply draw_parameters_spec in E. destruct E as (Ha & _).
  destruct Ha as [<-|[<-|[]]]; lia.
Qed.

(** C6.  For every sampled parameter set [(a, b, seed)] and every iteration
    count [N], the forward map applied [N] times to the target that
    [_collatz_forward] computes reaches exactly [seed], whatever the random
    gates answered. *)
Theorem collatz_target_reaches_seed (r0 : random.rng) (N : Z) :
  let '(a, b, seed, r) := CollatzStrategy.draw_parameters r0 in
  Nat.iter (Z.to_nat N) (forward_map a b)
    (fst (CollatzStrategy.collatz_forward a b seed N r)) = seed.
Proof.
  destruct (CollatzStrategy.draw_parameters r0) as [[[a b] seed] r] eqn:E.
  apply forward_reaches_seed. exact (drawn_multiplier_nonzero _ _ _ _ _ E).
Qed.

(** The same for the instance [__init__] builds. *)
Lemma collatz_init_target naming start stop step r s naming' r' :
  CollatzStrategy.init naming start stop step r = py.Ok (s, naming', r') ->
  Nat.iter (Z.to_nat (CollatzStrategy.n s))
    (forward_map (CollatzStrategy.a s) (CollatzStrategy.b s))
    (CollatzStrategy.target s)
  = CollatzStrategy.seed s.
Proof.
  unfold CollatzStrategy.init.
  destruct (Naming.get_name "i" naming) as [i0 n1].
  destruct (Naming.get_name "a" n1) as [a0 n2].
  destruct (Naming.get_name "b" n2) as [b0 n3].
  destruct (Naming.get_name "num" n3) as [num0 n4].
  destruct (CollatzStrategy.draw_parameters r) as [[[a b] seed] r1] eqn:E.
  destruct (CollatzStrategy.iterations start stop step) as [n|]; [|discriminate].
  pose proof (forward_reaches_seed a b seed n r1
                (drawn_multiplier_nonzero _ _ _ _ _ E)) as H.
  destruct (CollatzStrategy.collatz_forward a b seed n r1) as [T r2].
  destruct (Naming.get_name "resolve_collatz" n4) as [res n5].
  intros [= <- <- <-]. exact H.
Qed.



(** In particular the Collatz lowering preserves the range on every script
    on which no gate fires. *)
Lemma collatz_runs_when_quiet naming r v iter start stop step :
  parse_constant_range_args iter = Some (start, stop, step) ->
  step <> 0 -> v <> "print" -> v ∈ Naming.used_names naming ->
  quiet r ->
  exists tree naming' r' fuel,
    Ob_For.apply_collatz naming r (probe_loop v iter) = py.Ok (tree, naming', r')
    /\ py.run fuel tree = py.Ok (map py.VInt (py_range start stop step)).
Proof.
  intros Hp Hs Hv Hused Hq. apply collatz_runs; try assumption.
  apply quiet_trajectory_distinct, Hq.
Qed.


(** On [cycle_script] the sampled reverse steps run around the cycle
    20, 7, 14, 5, 10 of the map [3x - 1]: after five steps the target is the
    seed again, and the lowered [range(5)] loop does not run at all. *)
Example collatz_cycle_skips_loop :
  exists tree naming' r',
    Ob_For.apply_collatz
      (analyze (probe_loop "v" (literal_range [5])) Naming.init)
      cycle_script (probe_loop "v" (literal_range [5]))
    = py.Ok (tree, naming', r')
    /\ py.run 100 tree = py.Ok []
    /\ py_range 0 5 1 = [0; 1; 2; 3; 4].
Proof. eexists _, _, _. split; [vm_compute; reflexivity|]. split; vm_compute; reflexivity. Qed.

(** The helper returns the index [k] of a hidden state as long as the
    states before it differ from it. *)
Lemma resolve_returns_index a0 b0 num0 res a b T start step (N k : nat) st fuel :
  res <> "print" ->
  (forall j, (j < k)%nat ->
     Nat.iter j (forward_map a b) T <> Nat.iter k (forward_map a b) T) ->
  collatz_inv a0 b0 num0 res a b T start step k None st ->
  (k <= N)%nat -> (2 * k + 30 <= fuel)%nat ->
  py.eval_expr fuel None st (collatz_call a0 b0 num0 res T)
  = py.Ok (py.VInt (Z.of_nat k), st).
Proof.
  intros Hres Hfirst HI Hk Hf.
  pose proof HI as (_ & Hr & Ha & Hb & Hn & Ho).
  do 6 (destruct fuel as [|fuel]; [lia|]).
  unfold collatz_call.
  destruct (resolve_body_exec a b T (Nat.iter k (forward_map a b) T) k st eq_refl)
    with (fuel := S (S (S (S (S fuel))))) as (fr' & E); [exact Hfirst | lia |].
  eapply eval_call_user.
  - exact Hres.
  - apply eval_name, load_global, Hr.
  - eapply eval_args_cons; [apply eval_name, load_global, Ha|].
    eapply eval_args_cons; [apply eval_name, load_global, Hb|].
    eapply eval_args_cons; [apply eval_name, load_global, Hn|].
    eapply eval_args_cons; [apply eval_constant | apply eval_args_nil].
  - reflexivity.
  - exact E.
Qed.



Lemma unwrap_body_no_loops args body self :
  forallb (fun s => negb (is_For s)) body = true ->
  LoopUnwrapper.unwrap_body args body self = (body, self).
Proof.
  induction body as [|s body IH]; intros H; [reflexivity|].
  cbn [forallb] in H. apply andb_prop in H. destruct H as [Hs Hb].
  cbn [LoopUnwrapper.unwrap_body]. rewrite (IH Hb).
  destruct s; try reflexivity. discriminate.
Qed.




(** ** Junk injection *)

(** The scratch pool of the three runs below is [junk0], [junk1], [junk2]:
    the loop variable [junk0_cnt] of the counting loop is not in it. *)
Example junk_pool :
  JunkInjector.junk_vars
    (fst (fst (JunkInjector.init (analyze counter_program Naming.init)
                 [NonConstantTimeStrategy] 1 counter_script)))
  = ["junk0"; "junk1"; "junk2"].
Proof. vm_compute. reflexivity. Qed.

(** C3 at its failing inputs.  (1) The counting loop binds [junk0_cnt], a
    name outside the scratch pool that the program uses: the program prints
    2 instead of 100.  (2) Arithmetic junk can set a scratch variable to 0
    and then divide by it: the program now raises [ZeroDivisionError].
    (3) Junk injected into a function body assigns a scratch variable, which
    makes it local to the function, and reads it first: the call raises
    [UnboundLocalError]. *)
Theorem junk_injection_changes_behaviour :
  (py.run 50 counter_program = py.Ok [py.VInt 100]
   /\ py.run 50 (junk_pass [NonConstantTimeStrategy] 1 counter_script counter_program)
      = py.Ok [py.VInt 2])
  /\ (py.run 50 print_program = py.Ok [py.VInt 1]
      /\ py.run 50 (junk_pass [ArithmeticStrategy] 1 division_script print_program)
         = py.Raise py.ZeroDivisionError)
  /\ (py.run 50 call_program = py.Ok [py.VInt 1]
      /\ py.run 50 (junk_pass [BitwiseStrategy] 1 body_script call_program)
         = py.Raise (py.UnboundLocalError "junk0")).
Proof. repeat split; vm_compute; reflexivity. Qed.

(** The injected statements of the first run. *)
Example junk_counter_loop :
  junk_pass [NonConstantTimeStrategy] 1 counter_script counter_program
  = [ast.Assign (ast.Name "junk0" ast.Store) (ast.Constant (ast.CInt 1));
     ast.Assign (ast.Name "junk1" ast.Store) (ast.Constant (ast.CInt 1));
     ast.Assign (ast.Name "junk2" ast.Store) (ast.Constant (ast.CInt 1));
     ast.Assign (ast.Name "junk0_cnt" ast.Store) (ast.Constant (ast.CInt 100));
     ast.For (ast.Name "junk0_cnt" ast.Store) (literal_range [3])
       [ast.AugAssign (ast.Name "junk1" ast.Store) ast.Add (ast.Constant (ast.CInt 1))]
       [];
     print_stmt (ast.Name "junk0_cnt" ast.Load)].
Proof. vm_compute. reflexivity. Qed.


(** ** The renamer *)

Lemma is_value_spec (m : gmap string string) name :
  Renamer.is_value m name = true <-> exists k, m !! k = Some name.
Proof.
  unfold Renamer.is_value. rewrite bool_decide_eq_true, list_elem_of_fmap. split.
  - intros ([k v] & -> & Hin). apply elem_of_map_to_list in Hin. eauto.
  - intros (k & Hk). exists (k, name). split; [reflexivity|].
    apply elem_of_map_to_list, Hk.
Qed.

Lemma generate_name_spec fuel : forall self r name self' r',
  Renamer._generate_name fuel self r = Some (name, self', r') ->
  (name ∉ Renamer.namespace self)
  /\ (forall k, Renamer.mapping self !! k <> Some name)
  /\ Renamer.namespace self' = {[name]} ∪ Renamer.namespace self
  /\ Renamer.mapping self' = Renamer.mapping self
  /\ Renamer.to_rename self' = Renamer.to_rename self
  /\ Renamer.isidentifier name = true.
Proof.
  induction fuel as [|fuel IH]; intros self r name self' r' H; [discriminate|].
  cbn [Renamer._generate_name] in H.
  destruct (Renamer.random_name r) as [cand r1].
  destruct (Renamer.isidentifier cand) eqn:Hid; cbn [andb] in H; [|eauto].
  destruct (bool_decide (cand ∈ Renamer.namespace self)) eqn:Hns;
    cbn [andb negb] in H; [eauto|].
  destruct (Renamer.is_value (Renamer.mapping self) cand) eqn:Hval;
    cbn [negb] in H; [eauto|].
  injection H as <- <- <-. cbn.
  apply bool_decide_eq_false in Hns.
  repeat split; try assumption; try reflexivity.
  intros k Hk.
  assert (Renamer.is_value (Renamer.mapping self) cand = true) as Ht
    by (apply is_value_spec; eauto).
  congruence.
Qed.

(** What [build_mapping] keeps true, relative to the namespace [ns0] the
    renamer was created with. *)
Definition mapping_ok (ns0 : gset string) (self : Renamer.t) : Prop :=
  one_to_one (Renamer.mapping self)
  /\ (forall k v, Renamer.mapping self !! k = Some v ->
        v ∈ Renamer.namespace self /\ v ∉ ns0)
  /\ ns0 ⊆ Renamer.namespace self.

Lemma build_mapping_spec fuel ns0 order : forall self r self' r',
  mapping_ok ns0 self ->
  Renamer.build_mapping fuel order self r = Some (self', r') ->
  mapping_ok ns0 self'
  /\ dom (Renamer.mapping self') = list_to_set order ∪ dom (Renamer.mapping self).
Proof.
  induction order as [|old rest IH]; intros self r self' r' Hok H.
  - injection H as <- <-. split; [exact Hok|].
    cbn. rewrite union_empty_l_L. reflexivity.
  - cbn [Renamer.build_mapping] in H.
    destruct (Renamer._generate_name fuel self r) as [[[name self1] r1]|] eqn:G;
      [|discriminate].
    apply generate_name_spec in G.
    destruct G as (Hfresh & Hnoval & Hns & Hmap & _ & _).
    destruct Hok as (Hinj & Hvals & Hsub).
    apply IH in H.
    + destruct H as [Hok' Hdom]. split; [exact Hok'|].
      rewrite Hdom. cbn [Renamer.mapping]. rewrite Hmap, dom_insert_L.
      cbn [list_to_set]. apply set_eq. intros x. rewrite !elem_of_union. tauto.
    + cbn [Renamer.mapping Renamer.namespace]. rewrite Hmap, Hns.
      split; [|split].
      * intros k1 k2 v H1 H2. cbn [Renamer.mapping] in H1, H2.
        apply lookup_insert_Some in H1. apply lookup_insert_Some in H2.
        destruct H1 as [[<- <-]|[N1 H1]], H2 as [[E2 E2']|[N2 H2]].
        -- exact E2.
        -- exfalso. apply (Hnoval k2). exact H2.
        -- exfalso. subst v. apply (Hnoval k1). exact H1.
        -- apply (Hinj k1 k2 v H1 H2).
      * intros k v Hk. cbn [Renamer.mapping Renamer.namespace] in *.
        apply lookup_insert_Some in Hk.
        destruct Hk as [[<- <-]|[_ Hk]].
        -- split; [apply elem_of_union_l, elem_of_singleton; reflexivity|].
           intros Hin. apply Hfresh, Hsub, Hin.
        -- destruct (Hvals k v Hk) as [Hv1 Hv2]. split; [|exact Hv2].
           apply elem_of_union_r, Hv1.
      * intros x Hx. cbn [Renamer.namespace]. apply elem_of_union_r, Hsub, Hx.
Qed.

(** Whenever [apply] returns, the mapping it built is total over the names
    collected, one-to-one, and no replacement is in the namespace the
    renamer was given. *)
Lemma renamer_mapping_spec fuel tree ns r out self r' :
  Renamer.apply fuel tree (Renamer.init ns) r = Some (out, self, r') ->
  dom (Renamer.mapping self) = list_to_set (flat_map Renamer.collect_stmt tree)
  /\ one_to_one (Renamer.mapping self)
  /\ (forall k v, Renamer.mapping self !! k = Some v -> v ∉ ns)
  /\ out = map (Renamer.rewrite_stmt (Renamer.mapping self)) tree.
Proof.
  unfold Renamer.apply. intros H.
  destruct (Renamer.build_mapping _ _ _ r) as [[self1 r1]|] eqn:B; [|discriminate].
  injection H as <- <- <-.
  apply (build_mapping_spec fuel ns) in B.
  - destruct B as [(Hinj & Hvals & _) Hdom]. split; [|split; [exact Hinj|split]].
    + rewrite Hdom. cbn [Renamer.collect Renamer.init Renamer.mapping Renamer.to_rename].
      rewrite dom_empty_L, !union_empty_r_L.
      apply set_eq. intros x. rewrite elem_of_list_to_set, elem_of_elements.
      reflexivity.
    + intros k v Hk. apply (Hvals k v Hk).
    + reflexivity.
  - unfold mapping_ok, one_to_one.
    cbn [Renamer.collect Renamer.init Renamer.mapping Renamer.namespace].
    split; [|split].
    + intros k1 k2 v Hk. rewrite lookup_empty in Hk. discriminate.
    + intros k v Hk. rewrite lookup_empty in Hk. discriminate.
    + reflexivity.
Qed.

(** C9 at its failing input.  On [def f(a): return a] followed by
    [f(a=1)] the parameter [a] is collected and mapped, its definition and
    its reference in the body carry the replacement, and its occurrence as
    the keyword of the call keeps the old name. *)
Theorem renamer_misses_keyword_names :
  exists out self r,
    rename_pass 1 keyword_script keyword_program = Some (out, self, r)
    /\ Renamer.mapping self !! "a" = Some "aaaaaaaa"
    /\ Renamer.mapping self !! "f" = Some "baaaaaaa"
    /\ identifiers keyword_program = ["f"; "a"; "a"; "f"; "a"]
    /\ identifiers out = ["baaaaaaa"; "aaaaaaaa"; "aaaaaaaa"; "baaaaaaa"; "a"]
    /\ identifiers out
       <> map (Renamer.subst (Renamer.mapping self)) (identifiers keyword_program).
Proof.
  eexists _, _, _. split; [vm_compute; reflexivity|].
  repeat split; try (vm_compute; reflexivity).
  vm_compute. discriminate.
Qed.

(* ===================================================================== *)
(** ** More fuel never changes a result *)
(* ===================================================================== *)

Lemma bind_settled {A B} (m : py.result A) (k : A -> py.result B) :
  py.bind m k <> py.OutOfFuel -> m <> py.OutOfFuel.
Proof. destruct m; simpl; congruence. Qed.

Definition fuel_mono_at (fuel : nat) : Prop :=
  (forall fr st e,
     py.eval_expr fuel fr st e <> py.OutOfFuel ->
     py.eval_expr (S fuel) fr st e = py.eval_expr fuel fr st e)
  /\ (forall fr st es,
     py.eval_args fuel fr st es <> py.OutOfFuel ->
     py.eval_args (S fuel) fr st es = py.eval_args fuel fr st es)
  /\ (forall fr st s,
     py.exec_stmt fuel fr st s <> py.OutOfFuel ->
     py.exec_stmt (S fuel) fr st s = py.exec_stmt fuel fr st s)
  /\ (forall fr st id items body orelse,
     py.exec_for fuel fr st id items body orelse <> py.OutOfFuel ->
     py.exec_for (S fuel) fr st id items body orelse
     = py.exec_for fuel fr st id items body orelse)
  /\ (forall fr st ss,
     py.exec_block fuel fr st ss <> py.OutOfFuel ->
     py.exec_block (S fuel) fr st ss = py.exec_block fuel fr st ss).

Lemma bind_mono {A B} (m m' : py.result A) (k k' : A -> py.result B) :
  (m <> py.OutOfFuel -> m' = m) ->
  (forall a, m = py.Ok a -> k a <> py.OutOfFuel -> k' a = k a) ->
  py.bind m k <> py.OutOfFuel -> py.bind m' k' = py.bind m k.
Proof.
  intros Hm Hk H. pose proof (bind_settled _ _ H) as Hs.
  rewrite (Hm Hs). destruct m as [a| |]; simpl in *; [auto | reflexivity | congruence].
Qed.

Lemma fuel_mono_all fuel : fuel_mono_at fuel.
Proof.
  induction fuel as [|fuel (IHe & IHa & IHs & IHf & IHb)].
  { repeat split; intros; simpl in *; congruence. }
  repeat split.
  - (* eval_expr *)
    intros fr st e H.
    change (py.eval_expr (S (S fuel)) fr st e) with
      (match e with
       | ast.Constant c => py.Ok (py.value_of_constant c, st)
       | ast.Name id _ => py.bind (py.load fr st id) (fun v => py.Ok (v, st))
       | ast.UnaryOp op operand =>
           py.bind (py.eval_expr (S fuel) fr st operand) (fun '(x, st) =>
           py.bind (py.unop op x) (fun v => py.Ok (v, st)))
       | ast.BinOp lhs op rhs =>
           py.bind (py.eval_expr (S fuel) fr st lhs) (fun '(x, st) =>
           py.bind (py.eval_expr (S fuel) fr st rhs) (fun '(y, st) =>
           py.bind (py.binop op x y) (fun v => py.Ok (v, st))))
       | ast.Compare lhs op rhs =>
           py.bind (py.eval_expr (S fuel) fr st lhs) (fun '(x, st) =>
           py.bind (py.eval_expr (S fuel) fr st rhs) (fun '(y, st) =>
           py.bind (py.compare op x y) (fun v => py.Ok (v, st))))
       | ast.Call func args [] =>
           if py.is_builtin "print" func then
             match args with
             | [arg] =>
                 py.bind (py.eval_expr (S fuel) fr st arg) (fun '(x, st) =>
                 py.Ok (py.VNone, py.write st x))
             | _ => py.Raise py.NotModelled
             end
           else
             py.bind (py.eval_expr (S fuel) fr st func) (fun '(f, st) =>
             py.bind (py.eval_args (S fuel) fr st args) (fun '(xs, st) =>
             match f with
             | py.VFunction fargs body =>
                 match py.call_frame fargs body xs with
                 | Some callee =>
                     py.bind (py.exec_block (S fuel) (Some callee) st body)
                       (fun '(o, _, st) =>
                          match o with
                          | py.Returned v => py.Ok (v, st)
                          | py.Normal => py.Ok (py.VNone, st)
                          end)
                 | None => py.Raise py.TypeError
                 end
             | _ => py.Raise py.TypeError
             end))
       | ast.Call _ _ (_ :: _) => py.Raise py.NotModelled
       | ast.Lambda _ _ => py.Raise py.NotModelled
       end).
    change (py.eval_expr (S fuel) fr st e) with
      (match e with
       | ast.Constant c => py.Ok (py.value_of_constant c, st)
       | ast.Name id _ => py.bind (py.load fr st id) (fun v => py.Ok (v, st))
       | ast.UnaryOp op operand =>
           py.bind (py.eval_expr fuel fr st operand) (fun '(x, st) =>
           py.bind (py.unop op x) (fun v => py.Ok (v, st)))
       | ast.BinOp lhs op rhs =>
           py.bind (py.eval_expr fuel fr st lhs) (fun '(x, st) =>
           py.bind (py.eval_expr fuel fr st rhs) (fun '(y, st) =>
           py.bind (py.binop op x y) (fun v => py.Ok (v, st))))
       | ast.Compare lhs op rhs =>
           py.bind (py.eval_expr fuel fr st lhs) (fun '(x, st) =>
           py.bind (py.eval_expr fuel fr st rhs) (fun '(y, st) =>
           py.bind (py.compare op x y) (fun v => py.Ok (v, st))))
       | ast.Call func args [] =>
           if py.is_builtin "print" func then
             match args with
             | [arg] =>
                 py.bind (py.eval_expr fuel fr st arg) (fun '(x, st) =>
                 py.Ok (py.VNone, py.write st x))
             | _ => py.Raise py.NotModelled
             end
           else
             py.bind (py.eval_expr fuel fr st func) (fun '(f, st) =>
             py.bind (py.eval_args fuel fr st args) (fun '(xs, st) =>
             match f with
             | py.VFunction fargs body =>
                 match py.call_frame fargs body xs with
                 | Some callee =>
                     py.bind (py.exec_block fuel (Some callee) st body)
                       (fun '(o, _, st) =>
                          match o with
                          | py.Returned v => py.Ok (v, st)
                          | py.Normal => py.Ok (py.VNone, st)
                          end)
                 | None => py.Raise py.TypeError
                 end
             | _ => py.Raise py.TypeError
             end))
       | ast.Call _ _ (_ :: _) => py.Raise py.NotModelled
       | ast.Lambda _ _ => py.Raise py.NotModelled
       end) in *.
    destruct e as [c|id ctx|op operand|lhs op rhs|lhs op rhs|func args kws|la lb];
      try reflexivity.
    + apply bind_mono; [apply IHe | intros [x st1] _ _; reflexivity | exact H].
    + apply bind_mono; [apply IHe | | exact H]. intros [x st1] _ H1.
      apply bind_mono; [apply IHe | intros [y st2] _ _; reflexivity | exact H1].
    + apply bind_mono; [apply IHe | | exact H]. intros [x st1] _ H1.
      apply bind_mono; [apply IHe | intros [y st2] _ _; reflexivity | exact H1].
    + destruct kws; [|reflexivity].
      destruct (py.is_builtin "print" func).
      * destruct args as [|arg [|]]; try reflexivity.
        apply bind_mono; [apply IHe | intros [x st1] _ _; reflexivity | exact H].
      * apply bind_mono; [apply IHe | | exact H]. intros [f st1] _ H1.
        apply bind_mono; [apply IHa | | exact H1]. intros [xs st2] _ H2.
        destruct f; try reflexivity.
        destruct (py.call_frame args0 body xs); [|reflexivity].
        apply bind_mono; [apply IHb | intros [[o fr'] st3] _ _; reflexivity | exact H2].
  - (* eval_args *)
    intros fr st es H. destruct es as [|e es]; [reflexivity|].
    change (py.eval_args (S (S fuel)) fr st (e :: es)) with
      (py.bind (py.eval_expr (S fuel) fr st e) (fun '(x, st) =>
       py.bind (py.eval_args (S fuel) fr st es) (fun '(xs, st) =>
       py.Ok (x :: xs, st)))).
    change (py.eval_args (S fuel) fr st (e :: es)) with
      (py.bind (py.eval_expr fuel fr st e) (fun '(x, st) =>
       py.bind (py.eval_args fuel fr st es) (fun '(xs, st) =>
       py.Ok (x :: xs, st)))) in *.
    apply bind_mono; [apply IHe | | exact H]. intros [x st1] _ H1.
    apply bind_mono; [apply IHa | intros [xs st2] _ _; reflexivity | exact H1].
  - (* exec_stmt *)
    intros fr st s H.
    destruct s as [name fargs body|name body|[e|]|target e|target op e
                  |target iter body orelse|test body orelse|test body orelse|e|];
      try reflexivity.
    + (* Return *)
      change (py.exec_stmt (S (S fuel)) fr st (ast.Return (Some e))) with
        (py.bind (py.eval_expr (S fuel) fr st e) (fun '(v, st) =>
         py.Ok (py.Returned v, fr, st))).
      change (py.exec_stmt (S fuel) fr st (ast.Return (Some e))) with
        (py.bind (py.eval_expr fuel fr st e) (fun '(v, st) =>
         py.Ok (py.Returned v, fr, st))) in *.
      apply bind_mono; [apply IHe | intros [x st1] _ _; reflexivity | exact H].
    + (* Assign *)
      destruct target as [|id ctx| | | | |]; try reflexivity.
      change (py.exec_stmt (S (S fuel)) fr st (ast.Assign (ast.Name id ctx) e)) with
        (py.bind (py.eval_expr (S fuel) fr st e) (fun '(v, st) =>
         let (fr, st) := py.store fr st id v in py.Ok (py.Normal, fr, st))).
      change (py.exec_stmt (S fuel) fr st (ast.Assign (ast.Name id ctx) e)) with
        (py.bind (py.eval_expr fuel fr st e) (fun '(v, st) =>
         let (fr, st) := py.store fr st id v in py.Ok (py.Normal, fr, st))) in *.
      apply bind_mono; [apply IHe | intros [x st1] _ _; reflexivity | exact H].
    + (* AugAssign *)
      destruct target as [|id ctx| | | | |]; try reflexivity.
      change (py.exec_stmt (S (S fuel)) fr st (ast.AugAssign (ast.Name id ctx) op e)) with
        (py.bind (py.load fr st id) (fun x =>
         py.bind (py.eval_expr (S fuel) fr st e) (fun '(y, st) =>
         py.bind (py.binop op x y) (fun v =>
         let (fr, st) := py.store fr st id v in py.Ok (py.Normal, fr, st))))).
      change (py.exec_stmt (S fuel) fr st (ast.AugAssign (ast.Name id ctx) op e)) with
        (py.bind (py.load fr st id) (fun x =>
         py.bind (py.eval_expr fuel fr st e) (fun '(y, st) =>
         py.bind (py.binop op x y) (fun v =>
         let (fr, st) := py.store fr st id v in py.Ok (py.Normal, fr, st))))) in *.
      apply bind_mono; [reflexivity | | exact H]. intros x _ H1.
      apply bind_mono; [apply IHe | intros [y st1] _ _; reflexivity | exact H1].
    + (* For *)
      destruct target as [|id ctx| | | | |]; try reflexivity.
      destruct iter as [| | | | |func args [|kw kws]|]; try reflexivity.
      change (py.exec_stmt (S (S fuel)) fr st
                (ast.For (ast.Name id ctx) (ast.Call func args []) body orelse)) with
        (if py.is_builtin "range" func then
           py.bind (py.eval_args (S fuel) fr st args) (fun '(xs, st) =>
           py.bind (py.range_items xs) (fun items =>
           py.exec_for (S fuel) fr st id items body orelse))
         else py.Raise py.NotModelled).
      change (py.exec_stmt (S fuel) fr st
                (ast.For (ast.Name id ctx) (ast.Call func args []) body orelse)) with
        (if py.is_builtin "range" func then
           py.bind (py.eval_args fuel fr st args) (fun '(xs, st) =>
           py.bind (py.range_items xs) (fun items =>
           py.exec_for fuel fr st id items body orelse))
         else py.Raise py.NotModelled) in *.
      destruct (py.is_builtin "range" func); [|reflexivity].
      apply bind_mono; [apply IHa | | exact H]. intros [xs st1] _ H1.
      apply bind_mono; [reflexivity | | exact H1]. intros items _ H2.
      apply IHf, H2.
    + (* While *)
      rewrite !exec_while_eq in *.
      apply bind_mono; [apply IHe | | exact H]. intros [c st1] _ H1.
      destruct (py.truthy c); [|apply IHb, H1].
      apply bind_mono; [apply IHb | | exact H1]. intros [[o fr1] st2] _ H2.
      destruct o; [apply IHs, H2 | reflexivity].
    + (* If *)
      change (py.exec_stmt (S (S fuel)) fr st (ast.If test body orelse)) with
        (py.bind (py.eval_expr (S fuel) fr st test) (fun '(c, st) =>
         if py.truthy c then py.exec_block (S fuel) fr st body
         else py.exec_block (S fuel) fr st orelse)).
      change (py.exec_stmt (S fuel) fr st (ast.If test body orelse)) with
        (py.bind (py.eval_expr fuel fr st test) (fun '(c, st) =>
         if py.truthy c then py.exec_block fuel fr st body
         else py.exec_block fuel fr st orelse)) in *.
      apply bind_mono; [apply IHe | | exact H]. intros [c st1] _ H1.
      destruct (py.truthy c); apply IHb, H1.
    + (* Expr *)
      change (py.exec_stmt (S (S fuel)) fr st (ast.Expr e)) with
        (py.bind (py.eval_expr (S fuel) fr st e) (fun '(_, st) =>
         py.Ok (py.Normal, fr, st))).
      change (py.exec_stmt (S fuel) fr st (ast.Expr e)) with
        (py.bind (py.eval_expr fuel fr st e) (fun '(_, st) =>
         py.Ok (py.Normal, fr, st))) in *.
      apply bind_mono; [apply IHe | intros [x st1] _ _; reflexivity | exact H].
  - (* exec_for *)
    intros fr st id items body orelse H. destruct items as [|x items].
    + change (py.exec_for (S (S fuel)) fr st id [] body orelse) with
        (py.exec_block (S fuel) fr st orelse).
      change (py.exec_for (S fuel) fr st id [] body orelse) with
        (py.exec_block fuel fr st orelse) in *.
      apply IHb, H.
    + change (py.exec_for (S (S fuel)) fr st id (x :: items) body orelse) with
        (let (fr, st) := py.store fr st id (py.VInt x) in
         py.bind (py.exec_block (S fuel) fr st body) (fun '(o, fr, st) =>
         match o with
         | py.Normal => py.exec_for (S fuel) fr st id items body orelse
         | py.Returned v => py.Ok (py.Returned v, fr, st)
         end)).
      change (py.exec_for (S fuel) fr st id (x :: items) body orelse) with
        (let (fr, st) := py.store fr st id (py.VInt x) in
         py.bind (py.exec_block fuel fr st body) (fun '(o, fr, st) =>
         match o with
         | py.Normal => py.exec_for fuel fr st id items body orelse
         | py.Returned v => py.Ok (py.Returned v, fr, st)
         end)) in *.
      destruct (py.store fr st id (py.VInt x)) as [fr1 st1].
      apply bind_mono; [apply IHb | | exact H]. intros [[o fr2] st2] _ H1.
      destruct o; [apply IHf, H1 | reflexivity].
  - (* exec_block *)
    intros fr st ss H. destruct ss as [|s ss]; [reflexivity|].
    change (py.exec_block (S (S fuel)) fr st (s :: ss)) with
      (py.bind (py.exec_stmt (S fuel) fr st s) (fun '(o, fr, st) =>
       match o with
       | py.Normal => py.exec_block (S fuel) fr st ss
       | py.Returned v => py.Ok (py.Returned v, fr, st)
       end)).
    change (py.exec_block (S fuel) fr st (s :: ss)) with
      (py.bind (py.exec_stmt fuel fr st s) (fun '(o, fr, st) =>
       match o with
       | py.Normal => py.exec_block fuel fr st ss
       | py.Returned v => py.Ok (py.Returned v, fr, st)
       end)) in *.
    apply bind_mono; [apply IHs | | exact H]. intros [[o fr1] st1] _ H1.
    destruct o; [apply IHb, H1 | reflexivity].
Qed.

Lemma eval_expr_fuel_ge fuel fuel' fr st e :
  (fuel <= fuel')%nat ->
  py.eval_expr fuel fr st e <> py.OutOfFuel ->
  py.eval_expr fuel' fr st e = py.eval_expr fuel fr st e.
Proof.
  intros Hle H. induction Hle as [|fuel' Hle IH]; [reflexivity|].
  rewrite <- IH. apply (proj1 (fuel_mono_all fuel')). rewrite IH. exact H.
Qed.

Lemma exec_stmt_fuel_ge fuel fuel' fr st s :
  (fuel <= fuel')%nat ->
  py.exec_stmt fuel fr st s <> py.OutOfFuel ->
  py.exec_stmt fuel' fr st s = py.exec_stmt fuel fr st s.
Proof.
  intros Hle H. induction Hle as [|fuel' Hle IH]; [reflexivity|].
  rewrite <- IH. apply (proj1 (proj2 (proj2 (fuel_mono_all fuel')))). rewrite IH. exact H.
Qed.

Lemma exec_block_fuel_ge fuel fuel' fr st ss :
  (fuel <= fuel')%nat ->
  py.exec_block fuel fr st ss <> py.OutOfFuel ->
  py.exec_block fuel' fr st ss = py.exec_block fuel fr st ss.
Proof.
  intros Hle H. induction Hle as [|fuel' Hle IH]; [reflexivity|].
  rewrite <- IH. apply (proj2 (proj2 (proj2 (proj2 (fuel_mono_all fuel'))))).
  rewrite IH. exact H.
Qed.

Lemma run_fuel_ge fuel fuel' tree :
  (fuel <= fuel')%nat ->
  py.run fuel tree <> py.OutOfFuel ->
  py.run fuel' tree = py.run fuel tree.
Proof.
  intros Hle H. unfold py.run in *.
  rewrite (exec_block_fuel_ge fuel fuel') by (assumption || apply (bind_settled _ _ H)).
  reflexivity.
Qed.

(* ===================================================================== *)
(** ** The Feistel schemes as permutations of the 32-bit integers *)
(* ===================================================================== *)

Lemma is16_lxor x y : is16 x -> is16 y -> is16 (Z.lxor x y).
Proof.
  intros Hx Hy. apply bits_above_is16. intros n Hn.
  rewrite Z.lxor_spec, (is16_bits x n), (is16_bits y n) by (assumption || lia).
  reflexivity.
Qed.

Lemma lxor_cancel_r x y : Z.lxor (Z.lxor x y) y = x.
Proof. rewrite Z.lxor_assoc, Z.lxor_nilpotent. apply Z.lxor_0_r. Qed.

Lemma iter_preserves {A} (P : A -> Prop) (f : A -> A) :
  (forall s, P s -> P (f s)) -> forall n s, P s -> P (Nat.iter n f s).
Proof. intros Hf n s Hs. induction n; simpl; auto. Qed.

Lemma joined_range L R : is16 L -> is16 R ->
  0 <= Z.lor (Z.shiftl L 16) R < 2 ^ 32.
Proof.
  intros HL HR. apply is16_range in HL, HR.
  assert (H0 : 0 <= Z.lor (Z.shiftl L 16) R).
  { apply Z.lor_nonneg. split; [apply Z.shiftl_nonneg|]; lia. }
  split; [exact H0|].
  destruct (Z.eq_dec (Z.lor (Z.shiftl L 16) R) 0) as [->|Hne]; [lia|].
  apply Z.log2_lt_pow2; [lia|].
  rewrite Z.log2_lor by (try apply Z.shiftl_nonneg; lia).
  apply Z.max_lub_lt.
  - destruct (Z.eq_dec L 0) as [->|HL0]; [rewrite Z.shiftl_0_l; simpl; lia|].
    rewrite Z.log2_shiftl by lia.
    assert (Z.log2 L < 16) by (apply Z.log2_lt_pow2; lia). lia.
  - destruct (Z.eq_dec R 0) as [->|HR0]; [simpl; lia|].
    assert (Z.log2 R < 16) by (apply Z.log2_lt_pow2; lia). lia.
Qed.

Lemma land_mask32_small v : 0 <= v < 2 ^ 32 -> Z.land v 0xFFFFFFFF = v.
Proof.
  intros Hv. change 0xFFFFFFFF with (Z.ones 32).
  rewrite Z.land_ones by lia. apply Z.mod_small. exact Hv.
Qed.

Lemma land_mask32_range v : 0 <= Z.land v 0xFFFFFFFF < 2 ^ 32.
Proof.
  change 0xFFFFFFFF with (Z.ones 32). rewrite Z.land_ones by lia.
  apply Z.mod_pos_bound. lia.
Qed.

Lemma join_split v : 0 <= v < 2 ^ 32 ->
  Z.lor (Z.shiftl (Z.shiftr v 16) 16) (Z.land v 0xffff) = v.
Proof.
  intros Hv. rewrite <- (join_halves v Hv) at 3.
  symmetry. apply land_mask32_small.
  destruct (split_halves16 v Hv) as [HL HR]. apply joined_range; assumption.
Qed.

Lemma simple_dec_round_halves self s :
  halves16 s -> halves16 (SimpleFeistelNumberStrategy.dec_round self s).
Proof.
  destruct s as [L R]. intros [HL HR]. split; simpl in *; [|exact HL].
  apply is16_lxor; [exact HR | apply is16_rotl3].
Qed.

Lemma simple_enc_dec_round self s :
  halves16 s ->
  SimpleFeistelNumberStrategy.enc_round self (SimpleFeistelNumberStrategy.dec_round self s) = s.
Proof.
  destruct s as [L R]. intros [HL HR]. simpl in *.
  unfold SimpleFeistelNumberStrategy.enc_round, SimpleFeistelNumberStrategy.dec_round.
  f_equal. rewrite lxor_cancel_r. exact HR.
Qed.

(** X1.  With any key and any number of rounds, [obfuscate]'s payload
    computation and the emitted decoder of the simple Feistel scheme are
    inverse permutations of the integers in [0, 2^32): both stay in that
    range and each undoes the other. *)
Theorem simple_feistel_permutation (self : SimpleFeistelNumberStrategy.t) (v : Z) :
  0 <= v < 2 ^ 32 ->
  0 <= SimpleFeistelNumberStrategy.encode self v < 2 ^ 32
  /\ 0 <= SimpleFeistelNumberStrategy.decode_num self v < 2 ^ 32
  /\ SimpleFeistelNumberStrategy.decode_num self
       (SimpleFeistelNumberStrategy.encode self v) = v
  /\ SimpleFeistelNumberStrategy.encode self
       (SimpleFeistelNumberStrategy.decode_num self v) = v.
Proof.
  intros Hv. pose proof (split_halves16 v Hv) as H0.
  split; [|split; [|split]].
  - unfold SimpleFeistelNumberStrategy.encode, repeat_rounds.
    pose proof (simple_rounds_halves self
                  (Z.to_nat (SimpleFeistelNumberStrategy.rounds self)) _ H0) as H1.
    destruct (Nat.iter _ _ _) as [L R]. destruct H1. apply joined_range; assumption.
  - unfold SimpleFeistelNumberStrategy.decode_num.
    destruct (repeat_rounds _ _ _) as [L R]. apply land_mask32_range.
  - apply simple_decode_encode, Hv.
  - unfold SimpleFeistelNumberStrategy.encode, SimpleFeistelNumberStrategy.decode_num,
      repeat_rounds.
    pose proof (iter_preserves halves16 _ (simple_dec_round_halves self)
                  (Z.to_nat (SimpleFeistelNumberStrategy.rounds self)) _ H0) as H1.
    destruct (Nat.iter (Z.to_nat (SimpleFeistelNumberStrategy.rounds self))
                (SimpleFeistelNumberStrategy.dec_round self)
                (Z.shiftr v 16, Z.land v 0xffff)) as [L R] eqn:E.
    destruct H1 as [HL HR]. simpl in HL, HR.
    unfold SimpleFeistelNumberStrategy.MASK32.
    rewrite (land_mask32_small _ (joined_range L R HL HR)).
    pose proof (split_join L R HL HR) as HS. injection HS as HS1 HS2.
    rewrite HS1, HS2, <- E.
    rewrite (iter_inverse halves16 (SimpleFeistelNumberStrategy.dec_round self)
               (SimpleFeistelNumberStrategy.enc_round self)
               (simple_dec_round_halves self) (simple_enc_dec_round self) _ _ H0).
    apply join_split, Hv.
Qed.

Lemma simple_feistel_permutation_witness :
  SimpleFeistelNumberStrategy.encode
    (fst (SimpleFeistelNumberStrategy.init Naming.init))
    (SimpleFeistelNumberStrategy.decode_num
       (fst (SimpleFeistelNumberStrategy.init Naming.init)) 1000000) = 1000000.
Proof.
  apply (simple_feistel_permutation
           (fst (SimpleFeistelNumberStrategy.init Naming.init)) 1000000).
  lia.
Defined.

Lemma feistel_dec_round_halves self s :
  halves16 s -> halves16 (FeistelNumberStrategy.dec_round self s).
Proof.
  destruct s as [L R]. intros [HL HR]. split; simpl in *; [|exact HL].
  apply (is16_land _).
Qed.

Lemma feistel_enc_dec_round self s :
  halves16 s ->
  FeistelNumberStrategy.enc_round self (FeistelNumberStrategy.dec_round self s) = s.
Proof.
  destruct s as [L R]. intros [HL HR]. simpl in *.
  unfold FeistelNumberStrategy.enc_round, FeistelNumberStrategy.dec_round.
  f_equal. change 0xffff with mask16.
  rewrite xor_mask_cancel by (assumption || apply is16_rotl3). exact HR.
Qed.

(** X2.  With any salts and any number of rounds, the payload computation
    and the emitted decoder of the salted Feistel scheme are inverse
    permutations of the integers in [0, 2^32). *)
Theorem feistel_permutation (self : FeistelNumberStrategy.t) (v : Z) :
  0 <= v < 2 ^ 32 ->
  0 <= FeistelNumberStrategy.encode self v < 2 ^ 32
  /\ 0 <= FeistelNumberStrategy.decode_num self v < 2 ^ 32
  /\ FeistelNumberStrategy.decode_num self (FeistelNumberStrategy.encode self v) = v
  /\ FeistelNumberStrategy.encode self (FeistelNumberStrategy.decode_num self v) = v.
Proof.
  intros Hv. pose proof (unpack_bits_halves v) as H0.
  split; [|split; [|split]].
  - unfold FeistelNumberStrategy.encode.
    destruct (unpack_bits v) as [L0 R0]. destruct (repeat_rounds _ _ _) as [L R].
    apply land_mask32_range.
  - unfold FeistelNumberStrategy.decode_num.
    destruct (unpack_bits v) as [L0 R0]. destruct (repeat_rounds _ _ _) as [L R].
    apply land_mask32_range.
  - apply feistel_decode_encode, Hv.
  - unfold FeistelNumberStrategy.encode, FeistelNumberStrategy.decode_num, repeat_rounds.
    destruct (unpack_bits v) as [L0 R0] eqn:E0.
    pose proof (iter_preserves halves16 _ (feistel_dec_round_halves self)
                  (Z.to_nat (FeistelNumberStrategy.rounds self)) _ H0) as H1.
    destruct (Nat.iter (Z.to_nat (FeistelNumberStrategy.rounds self))
                (FeistelNumberStrategy.dec_round self) (L0, R0)) as [L R] eqn:E.
    destruct H1 as [HL HR]. simpl in HL, HR.
    change 0xffffffff with 0xFFFFFFFF.
    rewrite (unpack_pack L R HL HR), <- E.
    rewrite (iter_inverse halves16 (FeistelNumberStrategy.dec_round self)
               (FeistelNumberStrategy.enc_round self)
               (feistel_dec_round_halves self) (feistel_enc_dec_round self) _ _ H0).
    pose proof (pack_unpack v Hv) as HP. rewrite E0 in HP. exact HP.
Qed.

Lemma feistel_permutation_witness :
  FeistelNumberStrategy.encode
    (fst (fst (FeistelNumberStrategy.init Naming.init 3 [77; 123]%nat)))
    (FeistelNumberStrategy.decode_num
       (fst (fst (FeistelNumberStrategy.init Naming.init 3 [77; 123]%nat)))
       1000000) = 1000000.
Proof.
  apply (feistel_permutation
           (fst (fst (FeistelNumberStrategy.init Naming.init 3 [77; 123]%nat)))
           1000000).
  lia.
Defined.

(** *** The multiplier drawn by [FeistelNumberStrategy.__init__] *)

Lemma newton_step x y k : 0 <= k ->
  (2 ^ k | x * y - 1) -> (2 ^ (2 * k) | x * (y * (2 - x * y)) - 1).
Proof.
  intros Hk [q Hq]. exists (- q * q).
  replace (2 ^ (2 * k)) with (2 ^ k * 2 ^ k)
    by (rewrite <- Z.pow_add_r by lia; f_equal; lia).
  replace (x * (y * (2 - x * y)) - 1) with (- ((x * y - 1) * (x * y - 1))) by ring.
  rewrite Hq. ring.
Qed.

Lemma divide_mod_arg x z j M : (2 ^ j | M) -> M <> 0 ->
  (2 ^ j | x * z - 1) -> (2 ^ j | x * (z mod M) - 1).
Proof.
  intros HM HM0 Hz.
  rewrite Z.mod_eq by exact HM0.
  replace (x * (z - M * (z / M)) - 1) with ((x * z - 1) - M * (x * (z / M))) by ring.
  apply Z.divide_sub_r; [exact Hz | apply Z.divide_mul_l, HM].
Qed.

Lemma odd_square x : Z.odd x = true -> (2 ^ 3 | x * x - 1).
Proof.
  intros Hx. apply Z.odd_spec in Hx. destruct Hx as [t ->].
  destruct (Z.Even_or_Odd t) as [[s ->]|[s ->]].
  - exists (s * (2 * s + 1)). ring.
  - exists ((2 * s + 1) * (s + 1)). ring.
Qed.

Lemma inv_mod_2_16_spec x : Z.odd x = true ->
  0 <= FeistelNumberStrategy.inv_mod_2_16 x < 2 ^ 16
  /\ (x * FeistelNumberStrategy.inv_mod_2_16 x) mod 2 ^ 16 = 1.
Proof.
  intros Hx. unfold FeistelNumberStrategy.inv_mod_2_16.
  assert (Hpow : forall j, 0 <= j <= 16 -> (2 ^ j | 2 ^ 16)).
  { intros j Hj. exists (2 ^ (16 - j)). rewrite <- Z.pow_add_r by lia. f_equal. lia. }
  assert (Hstep : forall y k, 0 <= k -> 2 * k <= 16 -> (2 ^ k | x * y - 1) ->
            (2 ^ (2 * k) | x * ((y * (2 - x * y)) mod 2 ^ 16) - 1)).
  { intros y k Hk Hk2 Hy. apply divide_mod_arg; [apply Hpow; lia | lia |].
    apply newton_step; assumption. }
  assert (H0 : (2 ^ 3 | x * (x mod 2 ^ 16) - 1)).
  { apply divide_mod_arg; [apply Hpow; lia | lia | apply odd_square, Hx]. }
  simpl Nat.iter.
  set (y0 := x mod 2 ^ 16) in *.
  set (y1 := (y0 * (2 - x * y0)) mod 2 ^ 16).
  set (y2 := (y1 * (2 - x * y1)) mod 2 ^ 16).
  set (y3 := (y2 * (2 - x * y2)) mod 2 ^ 16).
  assert (H1 : (2 ^ 6 | x * y1 - 1)) by (apply (Hstep y0 3); [lia | lia | exact H0]).
  assert (H2 : (2 ^ 12 | x * y2 - 1)) by (apply (Hstep y1 6); [lia | lia | exact H1]).
  assert (H2' : (2 ^ 8 | x * y2 - 1)).
  { eapply Z.divide_trans; [|exact H2]. exists (2 ^ 4). reflexivity. }
  assert (H3 : (2 ^ 16 | x * y3 - 1)) by (apply (Hstep y2 8); [lia | lia | exact H2']).
  assert (H4 : (2 ^ 16 | x * ((y3 * (2 - x * y3)) mod 2 ^ 16) - 1)).
  { apply divide_mod_arg; [apply Hpow; lia | lia |].
    eapply Z.divide_trans; [|apply (newton_step x y3 16); [lia | exact H3]].
    exists (2 ^ 16). reflexivity. }
  split; [apply Z.mod_pos_bound; lia|].
  destruct H4 as [q Hq].
  replace (x * ((y3 * (2 - x * y3)) mod 2 ^ 16)) with (1 + q * 2 ^ 16) by lia.
  rewrite Z.mod_add by lia. reflexivity.
Qed.

Lemma lor_1_odd x : 0 <= x < 2 ^ 16 ->
  Z.odd (Z.lor x 1) = true /\ 0 < Z.lor x 1 < 2 ^ 16.
Proof.
  intros Hx.
  assert (Hodd : Z.odd (Z.lor x 1) = true).
  { rewrite <- Z.bit0_odd, Z.lor_spec. apply orb_true_r. }
  split; [exact Hodd|].
  assert (H0 : 0 <= Z.lor x 1) by (apply Z.lor_nonneg; lia).
  assert (Hne : Z.lor x 1 <> 0) by (intros E; rewrite E in Hodd; discriminate).
  split; [lia|].
  apply Z.log2_lt_pow2; [lia|].
  rewrite Z.log2_lor by lia. apply Z.max_lub_lt; [|simpl; lia].
  destruct (Z.eq_dec x 0) as [->|]; [simpl; lia|].
  apply Z.log2_lt_pow2; lia.
Qed.

(** X3.  For every run of the random source, [FeistelNumberStrategy.__init__]
    ends up with an odd multiplier in [1, 2^16), a XOR salt in [0, 2^16), and
    [salt_mul_inv] is the inverse of the multiplier modulo [2^16]: the call
    [pow(salt_mul, -1, 1 << 16)] has a result. *)
Theorem feistel_init_salts (naming : Naming.t) (rounds : Z) (r : random.rng) :
  let self := fst (fst (FeistelNumberStrategy.init naming rounds r)) in
  FeistelNumberStrategy.rounds self = rounds
  /\ Z.odd (FeistelNumberStrategy.salt_mul self) = true
  /\ 0 < FeistelNumberStrategy.salt_mul self < 2 ^ 16
  /\ 0 <= FeistelNumberStrategy.salt_xor self < 2 ^ 16
  /\ 0 <= FeistelNumberStrategy.salt_mul_inv self < 2 ^ 16
  /\ (FeistelNumberStrategy.salt_mul self * FeistelNumberStrategy.salt_mul_inv self)
       mod 2 ^ 16 = 1.
Proof.
  unfold FeistelNumberStrategy.init, random.getrandbits.
  destruct (random.next r) as [d1 r1]. destruct (random.next r1) as [d2 r2].
  destruct (Naming.get_name "decode_num" naming) as [name naming']. simpl.
  assert (H1 : 0 <= Z.of_nat d1 mod 2 ^ 16 < 2 ^ 16) by (apply Z.mod_pos_bound; lia).
  destruct (lor_1_odd _ H1) as [Hodd Hrange].
  destruct (inv_mod_2_16_spec _ Hodd) as [Hinv1 Hinv2].
  repeat split; try assumption; try lia.
  - change 0xFFFF with (Z.ones 16). rewrite Z.land_ones by lia.
    apply Z.mod_pos_bound. lia.
  - change 0xFFFF with (Z.ones 16). rewrite Z.land_ones by lia.
    apply Z.mod_pos_bound. lia.
Qed.

(* ===================================================================== *)
(** ** The registry over a whole run *)
(* ===================================================================== *)

Lemma get_names_registry bases : forall self,
  Naming.used_names (snd (get_names bases self))
  = list_to_set (fst (get_names bases self)) ∪ Naming.used_names self
  /\ Naming.generated_names (snd (get_names bases self))
     = list_to_set (fst (get_names bases self)) ∪ Naming.generated_names self.
Proof.
  induction bases as [|b bs IH]; intros self; cbn [get_names].
  - cbn. split; symmetry; apply (left_id_L ∅ (∪)).
  - destruct (get_name_spec b self) as (i & E & _). rewrite E.
    destruct (IH (register (Naming.candidate b i) self)) as [Hu Hg].
    destruct (get_names bs (register (Naming.candidate b i) self)) as [ns self''].
    cbn [fst snd] in *. rewrite Hu, Hg. cbn [register Naming.used_names
      Naming.generated_names list_to_set].
    split; apply set_eq; intros x;
      rewrite !elem_of_union, !elem_of_singleton; tauto.
Qed.

(** X4.  After [analyze(tree)], whatever names the passes then request:
    none of the names handed out is a name of the tree ([Name] identifiers,
    function names with their positional parameters, class names), and
    [get_namespace()] is then exactly the names of the tree together with
    the names handed out. *)
Theorem generated_names_avoid_tree (tree : ast.Module_) (bases : list string) :
  let run := get_names bases (analyze tree Naming.init) in
  (forall c, c ∈ fst run -> c ∉ flat_map stmt_names tree)
  /\ Naming.get_namespace (snd run)
     = list_to_set (fst run) ∪ list_to_set (flat_map stmt_names tree)
  /\ Naming.generated_names (snd run) = list_to_set (fst run).
Proof.
  cbn zeta.
  destruct (get_names_distinct bases (analyze tree Naming.init)) as [_ Hnew].
  destruct (get_names_registry bases (analyze tree Naming.init)) as [Hu Hg].
  split; [|split].
  - intros c Hc Hin. apply (Hnew c Hc). cbn.
    apply elem_of_union_l, elem_of_list_to_set, Hin.
  - unfold Naming.get_namespace. rewrite Hu. cbn.
    rewrite (right_id_L ∅ (∪)). reflexivity.
  - rewrite Hg. cbn. apply (right_id_L ∅ (∪)).
Qed.

Lemma taken_register c self c' :
  Naming.taken (register c self) c' = true <-> c' = c \/ Naming.taken self c' = true.
Proof.
  rewrite !taken_spec. cbn.
  rewrite !elem_of_union, !elem_of_singleton. tauto.
Qed.

Lemma get_name_at base self j :
  (forall i, (i < j)%nat -> Naming.taken self (Naming.candidate base i) = true) ->
  Naming.taken self (Naming.candidate base j) = false ->
  Naming.get_name base self
  = (Naming.candidate base j, register (Naming.candidate base j) self).
Proof.
  intros Hbelow Hfree.
  destruct (get_name_spec base self) as (i & E & Hi & Hleast).
  destruct (lt_eq_lt_dec i j) as [[Hlt| ->]|Hgt].
  - rewrite (Hbelow i Hlt) in Hi. discriminate.
  - exact E.
  - rewrite (Hleast j Hgt) in Hfree. discriminate.
Qed.

Lemma get_names_repeat_from base : forall k j self,
  (forall i, (i < j)%nat -> Naming.taken self (Naming.candidate base i) = true) ->
  (forall i, (j <= i < j + k)%nat ->
     Naming.taken self (Naming.candidate base i) = false) ->
  fst (get_names_repeat k base self) = map (Naming.candidate base) (seq j k).
Proof.
  induction k as [|k IH]; intros j self Hbelow Hfree; [reflexivity|].
  cbn [get_names_repeat seq map].
  rewrite (get_name_at base self j Hbelow) by (apply Hfree; lia).
  specialize (IH (S j) (register (Naming.candidate base j) self)).
  destruct (get_names_repeat k base (register (Naming.candidate base j) self))
    as [names naming'].
  cbn [fst] in *. f_equal. apply IH.
  - intros i Hi. apply taken_register.
    destruct (Nat.eq_dec i j) as [->|Hne]; [left; reflexivity|].
    right. apply Hbelow. lia.
  - intros i Hi. apply not_true_iff_false. rewrite taken_register.
    intros [Heq|Ht].
    + apply candidate_inj in Heq. lia.
    + rewrite Hfree in Ht by lia. discriminate.
Qed.

(** X5.  On a registry that knows none of [base0 .. base(k-1)], the calls
    [[get_name(base) for _ in range(k)]] return exactly
    [base0, base1, ..., base(k-1)], in this order. *)
Theorem repeated_names_count_up (k : nat) (base : string) (self : Naming.t) :
  (forall i, (i < k)%nat ->
     (Naming.candidate base i ∉ Naming.used_names self)
     /\ (Naming.candidate base i ∉ Naming.generated_names self)) ->
  fst (get_names_repeat k base self) = map (Naming.candidate base) (seq 0 k).
Proof.
  intros Hfree. apply get_names_repeat_from.
  - intros i Hi. lia.
  - intros i Hi. apply taken_false, Hfree. lia.
Qed.

Lemma repeated_names_count_up_witness :
  fst (get_names_repeat 3 "junk" Naming.init) = ["junk0"; "junk1"; "junk2"].
Proof.
  apply (repeated_names_count_up 3 "junk" Naming.init).
  intros i Hi. cbn. split; apply not_elem_of_empty.
Defined.

(* ===================================================================== *)
(** ** Literal ranges and range normalisation *)
(* ===================================================================== *)

Lemma parse_range_inv func args kws start stop step :
  parse_constant_range_args (ast.Call func args kws) = Some (start, stop, step) ->
  py.is_builtin "range" func = true
  /\ forallb is_int_literal args = true
  /\ (length args <= 3)%nat
  /\ match map eval_int args with
     | [v0] => (start, stop, step) = (0, v0, 1)
     | [v0; v1] => (start, stop, step) = (v0, v1, 1)
     | [v0; v1; v2] => (start, stop, step) = (v0, v1, v2)
     | _ => False
     end.
Proof.
  intros Hp. unfold parse_constant_range_args in Hp.
  destruct func as [|id ctx| | | | |]; try discriminate.
  destruct (String.eqb id "range") eqn:Hid; [|discriminate].
  cbn [andb] in Hp.
  destruct ((1 <=? length args)%nat && (length args <=? 3)%nat) eqn:Hlen;
    [|discriminate].
  cbn [andb] in Hp.
  destruct (forallb is_int_literal args) eqn:Hall; [|discriminate].
  apply andb_prop in Hlen. destruct Hlen as [_ Hle]. apply Nat.leb_le in Hle.
  repeat split; [exact Hid | exact Hle |].
  destruct (map eval_int args) as [|v0 [|v1 [|v2 [|v3 rest]]]]; try discriminate;
    injection Hp as <- <- <-; reflexivity.
Qed.



Lemma exec_for_range_call fuel fr st idx ctx count body orelse :
  py.exec_stmt (S (S (S fuel))) fr st
    (ast.For (ast.Name idx ctx) (ComplexLoopUnwrapper.range_call count) body orelse)
  = py.exec_for (S (S fuel)) fr st idx (py_range 0 count 1) body orelse.
Proof. reflexivity. Qed.

(** The normalised loop on the probe body. *)
Lemma normalised_for_exec v idx start step :
  idx <> v -> v <> "print" ->
  forall items st fuel,
    (length items + 8 <= fuel)%nat ->
    exists g,
      py.exec_for fuel None st idx items
        [ComplexLoopUnwrapper.compute_orig v idx start step; probe v] []
      = py.Ok (py.Normal, None,
               {| py.globals := g;
                  py.stdout := py.stdout st
                               ++ map (fun k => py.VInt (start + k * step)) items |}).
Proof.
  intros Hne Hv. induction items as [|x items IH]; intros st fuel Hf.
  - do 2 (destruct fuel as [|fuel]; [simpl in Hf; lia|]).
    exists (py.globals st). cbn. rewrite app_nil_r. destruct st. reflexivity.
  - cbn [length] in Hf. do 8 (destruct fuel as [|fuel]; [lia|]).
    rewrite exec_for_cons.
    erewrite exec_block_cons;
      [| unfold ComplexLoopUnwrapper.compute_orig; eapply exec_assign, eval_binop;
         [ apply eval_constant
         | eapply eval_binop;
           [ eapply eval_name, load_global; cbn [py.globals]; apply lookup_insert_eq
           | apply eval_constant
           | reflexivity ]
         | reflexivity ] ].
    erewrite exec_block_cons;
      [| unfold probe; eapply exec_expr, eval_print, eval_name, load_global;
         cbn; apply lookup_insert_eq ].
    rewrite exec_block_nil.
    cbn [py.bind py.store fst snd py.write py.globals py.stdout].
    match goal with
    | |- context [py.exec_for ?f None ?s idx items _ _] =>
        destruct (IH s f ltac:(lia)) as (g & E)
    end.
    fold (probe v). fold (ComplexLoopUnwrapper.compute_orig v idx start step).
    rewrite E. exists g. cbn. rewrite <- app_assoc. reflexivity.
Qed.

Lemma py_range_count count : 0 <= count ->
  py_range 0 count 1 = map Z.of_nat (seq 0 (Z.to_nat count)).
Proof.
  intros Hc. unfold py_range.
  replace (range_len 0 count 1) with count.
  - apply map_ext. intros i. lia.
  - unfold range_len. cbn [andb Z.ltb Z.compare].
    destruct (Z.ltb_spec 0 count); [rewrite Z.div_1_r; lia | lia].
Qed.

Lemma visit_probe_loop naming v iter start stop step :
  parse_constant_range_args iter = Some (start, stop, step) -> step <> 0 ->
  ComplexLoopUnwrapper.visit (probe_loop v iter) naming
  = let (idx, naming') := Naming.get_name "__idx" naming in
    py.Ok ([ast.For (ast.Name idx ast.Store)
              (ComplexLoopUnwrapper.range_call
                 (Z.max 0 (ceil_div (stop - start) step)))
              [ComplexLoopUnwrapper.compute_orig v idx start step; probe v] []],
           naming').
Proof.
  intros Hp Hs. unfold ComplexLoopUnwrapper.visit, probe_loop.
  cbn -[Naming.get_name parse_constant_range_args ComplexLoopUnwrapper.visit_For].
  unfold ComplexLoopUnwrapper.visit_For.
  rewrite Hp. destruct (Z.eqb_spec step 0); [contradiction|].
  destruct (Naming.get_name "__idx" naming) as [idx naming']. reflexivity.
Qed.



(* ===================================================================== *)
(** ** The Collatz strategy: constructor and helper *)
(* ===================================================================== *)

Lemma iterations_abs start stop step : step <> 0 ->
  CollatzStrategy.iterations start stop step
  = Some (Z.of_nat (length (py_range start stop (Z.abs step)))).
Proof.
  intros Hs. unfold CollatzStrategy.iterations.
  destruct (Z.eqb_spec (Z.abs step) 0) as [E|_]; [lia|]. f_equal.
  unfold py_range. rewrite length_map, length_seq.
  set (s := Z.abs step). assert (Hspos : 0 < s) by (unfold s; lia).
  replace (stop - start + (if 0 <? step then step - 1 else - (step + 1)))
    with (stop - start - 1 + 1 * s)
    by (unfold s; destruct (Z.ltb_spec 0 step); lia).
  rewrite Z.div_add by lia.
  unfold range_len.
  destruct (Z.ltb_spec 0 s); [|lia]. cbn [andb].
  destruct (Z.ltb_spec start stop) as [Hlt|Hge].
  - replace (stop - 1 - start) with (stop - start - 1) by lia.
    assert (0 <= (stop - start - 1) / s) by (apply Z.div_pos; lia). lia.
  - destruct (Z.ltb_spec s 0); [lia|]. cbn [andb].
    assert ((stop - start - 1) / s < 0) by (apply Z.div_lt_upper_bound; lia). lia.
Qed.

(** X8.  [CollatzStrategy.__init__] raises [ZeroDivisionError] exactly when
    [step] is 0.  Otherwise it succeeds for every run of the random source,
    with [a] in {3, 5}, [b] in {-1, 1, 3, 5, 7, 11} different from [a],
    [seed] in [19, 97], five pairwise distinct names the registry did not
    know, and an iteration count [n] equal to
    [len(range(start, stop, abs(step)))]. *)
Theorem collatz_init_contract (naming : Naming.t) (start stop step : Z)
    (r : random.rng) :
  (step = 0 ->
   CollatzStrategy.init naming start stop step r = py.Raise py.ZeroDivisionError)
  /\ (step <> 0 ->
      exists s naming' r',
        CollatzStrategy.init naming start stop step r = py.Ok (s, naming', r')
        /\ CollatzStrategy.n s
           = Z.of_nat (length (py_range start stop (Z.abs step)))
        /\ In (CollatzStrategy.a s) [3; 5]
        /\ In (CollatzStrategy.b s) [-1; 1; 3; 5; 7; 11]
        /\ CollatzStrategy.b s <> CollatzStrategy.a s
        /\ 19 <= CollatzStrategy.seed s <= 97
        /\ NoDup [CollatzStrategy.loop_var s; CollatzStrategy.a_var s;
                  CollatzStrategy.b_var s; CollatzStrategy.num_var s;
                  CollatzStrategy.resolve_name s]
        /\ (forall c, c ∈ [CollatzStrategy.loop_var s; CollatzStrategy.a_var s;
                            CollatzStrategy.b_var s; CollatzStrategy.num_var s;
                            CollatzStrategy.resolve_name s] ->
                      c ∉ Naming.used_names naming)).
Proof.
  pose proof (get_names_distinct ["i"; "a"; "b"; "num"; "resolve_collatz"] naming)
    as Hnames.
  unfold CollatzStrategy.init. cbn [get_names] in Hnames.
  destruct (Naming.get_name "i" naming) as [i0 n1].
  destruct (Naming.get_name "a" n1) as [a0 n2].
  destruct (Naming.get_name "b" n2) as [b0 n3].
  destruct (Naming.get_name "num" n3) as [num0 n4].
  destruct (CollatzStrategy.draw_parameters r) as [[[a b] seed] r1] eqn:Ed.
  destruct (Naming.get_name "resolve_collatz" n4) as [res n5].
  cbn [fst] in Hnames. destruct Hnames as [Hnd Hfresh].
  apply draw_parameters_spec in Ed. destruct Ed as (Ha & Hb & Hab & Hseed).
  split.
  - intros ->. reflexivity.
  - intros Hs. rewrite (iterations_abs start stop step Hs).
    destruct (CollatzStrategy.collatz_forward a b seed _ r1) as [T r2].
    eexists _, _, _. split; [reflexivity|]. cbn.
    repeat split; try assumption; lia.
Qed.

Lemma collatz_init_contract_witness :
  exists s naming' r',
    CollatzStrategy.init Naming.init 10 0 (-2) [] = py.Ok (s, naming', r')
    /\ CollatzStrategy.n s = 0
    /\ py_range 10 0 (-2) = [10; 8; 6; 4; 2].
Proof.
  destruct (collatz_init_contract Naming.init 10 0 (-2) []) as [_ H].
  destruct (H ltac:(lia)) as (s & naming' & r' & E & Hn & _).
  exists s, naming', r'. split; [exact E|]. split; [exact Hn | reflexivity].
Defined.

(** X9.  The helper that [CollatzStrategy.inject_functions] defines counts
    forward steps: called as [resolve(a, b, y, T)] it returns the number of
    steps of [num -> num // 2 if num % 2 == 0 else a * num + b] that lead
    from [T] to the first occurrence of [y], and has no other effect. *)
Theorem resolve_collatz_counts_steps (res : string) (a b y T : Z) (k : nat) :
  res <> "print" ->
  Nat.iter k (forward_map a b) T = y ->
  (forall j, (j < k)%nat -> Nat.iter j (forward_map a b) T <> y) ->
  exists fuel,
    py.run fuel
      [CollatzStrategy.resolve_def res;
       print_stmt
         (ast.Call (ast.Name res ast.Load)
            [ast.Constant (ast.CInt a); ast.Constant (ast.CInt b);
             ast.Constant (ast.CInt y); ast.Constant (ast.CInt T)] [])]
    = py.Ok [py.VInt (Z.of_nat k)].
Proof.
  intros Hres Hy Hfirst.
  set (st1 := {| py.globals :=
                   <[res := py.VFunction (ast.plain_args ["a"; "b"; "target"; "num"])
                              resolve_body]> ∅;
                 py.stdout := [] |}).
  destruct (resolve_body_exec a b T y k st1 (eq_sym Hy) Hfirst
              (S (S (S (S (S (S (2 * k + 14)))))))
              ltac:(lia)) as (fr' & E).
  exists (S (S (S (S (S (S (S (S (S (S (S (2 * k + 14)))))))))))).
  unfold py.run. rewrite resolve_def_eq.
  erewrite exec_block_cons by reflexivity.
  cbn [py.store py.initial_state py.globals py.stdout]. fold st1.
  erewrite exec_block_cons.
  2:{ unfold print_stmt. eapply exec_expr, eval_print.
      eapply eval_call_user; [exact Hres | | | | exact E].
      - apply eval_name, load_global. cbn. apply lookup_insert_eq.
      - do 4 (eapply eval_args_cons; [apply eval_constant|]).
        apply eval_args_nil.
      - reflexivity. }
  rewrite exec_block_nil. reflexivity.
Qed.

Lemma resolve_collatz_counts_steps_witness :
  exists fuel,
    py.run fuel
      [CollatzStrategy.resolve_def "resolve_collatz0";
       print_stmt
         (ast.Call (ast.Name "resolve_collatz0" ast.Load)
            [ast.Constant (ast.CInt 3); ast.Constant (ast.CInt 1);
             ast.Constant (ast.CInt 5); ast.Constant (ast.CInt 40)] [])]
    = py.Ok [py.VInt 3].
Proof.
  apply (resolve_collatz_counts_steps "resolve_collatz0" 3 1 5 40 3).
  - discriminate.
  - reflexivity.
  - intros j Hj. destruct j as [|[|[|j]]]; [discriminate | discriminate | discriminate | lia].
Defined.

(* ===================================================================== *)
(** ** Loop flattening *)
(* ===================================================================== *)

Lemma stmt_ind_nested (P : ast.stmt -> Prop) :
  (forall name args body, Forall P body -> P (ast.FunctionDef name args body)) ->
  (forall name body, Forall P body -> P (ast.ClassDef name body)) ->
  (forall value, P (ast.Return value)) ->
  (forall target value, P (ast.Assign target value)) ->
  (forall target op value, P (ast.AugAssign target op value)) ->
  (forall target iter body orelse,
     Forall P body -> Forall P orelse -> P (ast.For target iter body orelse)) ->
  (forall test body orelse,
     Forall P body -> Forall P orelse -> P (ast.While test body orelse)) ->
  (forall test body orelse,
     Forall P body -> Forall P orelse -> P (ast.If test body orelse)) ->
  (forall value, P (ast.Expr value)) ->
  P ast.Pass ->
  forall s, P s.
Proof.
  intros HF HC HR HA HU HFor HW HI HE HP.
  fix IH 1. intros s.
  assert (Hall : forall ss, Forall P ss).
  { fix IHs 1. intros [|s' ss]; constructor; [apply IH | apply IHs]. }
  clear IH.
  destruct s;
    [ apply HF | apply HC | apply HR | apply HA | apply HU | apply HFor
    | apply HW | apply HI | apply HE | apply HP ]; apply Hall.
Qed.

Section VisitEquations.

Context {St : Type}.
Variable on_For :
  ast.expr -> ast.expr -> list ast.stmt -> list ast.stmt -> St ->
  py.result (list ast.stmt * St).

Lemma visit_stmt_FunctionDef name args body σ :
  visit_stmt on_For (ast.FunctionDef name args body) σ
  = py.bind (visit_module on_For body σ) (fun '(body, σ) =>
    py.Ok ([ast.FunctionDef name args body], σ)).
Proof. reflexivity. Qed.

Lemma visit_stmt_ClassDef name body σ :
  visit_stmt on_For (ast.ClassDef name body) σ
  = py.bind (visit_module on_For body σ) (fun '(body, σ) =>
    py.Ok ([ast.ClassDef name body], σ)).
Proof. reflexivity. Qed.

Lemma visit_stmt_For target iter body orelse σ :
  visit_stmt on_For (ast.For target iter body orelse) σ
  = py.bind (visit_module on_For body σ) (fun '(body, σ) =>
    py.bind (visit_module on_For orelse σ) (fun '(orelse, σ) =>
    on_For target iter body orelse σ)).
Proof. reflexivity. Qed.

Lemma visit_stmt_While test body orelse σ :
  visit_stmt on_For (ast.While test body orelse) σ
  = py.bind (visit_module on_For body σ) (fun '(body, σ) =>
    py.bind (visit_module on_For orelse σ) (fun '(orelse, σ) =>
    py.Ok ([ast.While test body orelse], σ))).
Proof. reflexivity. Qed.

Lemma visit_stmt_If test body orelse σ :
  visit_stmt on_For (ast.If test body orelse) σ
  = py.bind (visit_module on_For body σ) (fun '(body, σ) =>
    py.bind (visit_module on_For orelse σ) (fun '(orelse, σ) =>
    py.Ok ([ast.If test body orelse], σ))).
Proof. reflexivity. Qed.

End VisitEquations.

Definition flat_state (self : LoopUnwrapper.t) : Prop :=
  forallb no_nested_for (LoopUnwrapper.new_funcs self) = true.

Lemma unwrap_body_flat args : forall body self,
  forallb no_nested_for body = true -> flat_state self ->
  forallb (fun s => negb (is_For s)) (fst (LoopUnwrapper.unwrap_body args body self)) = true
  /\ forallb no_nested_for (fst (LoopUnwrapper.unwrap_body args body self)) = true
  /\ flat_state (snd (LoopUnwrapper.unwrap_body args body self)).
Proof.
  induction body as [|s body IH]; intros self Hbody Hself; [repeat split; assumption|].
  cbn [forallb] in Hbody. apply andb_prop in Hbody. destruct Hbody as [Hs Hbody].
  assert (Hother : is_For s = false ->
            LoopUnwrapper.unwrap_body args (s :: body) self
            = (s :: fst (LoopUnwrapper.unwrap_body args body self),
               snd (LoopUnwrapper.unwrap_body args body self))).
  { intros Hno. cbn [LoopUnwrapper.unwrap_body].
    destruct (LoopUnwrapper.unwrap_body args body self).
    destruct s; try reflexivity. discriminate. }
  destruct (is_For s) eqn:Hfor.
  - destruct s; try discriminate. cbn [LoopUnwrapper.unwrap_body].
    destruct (Naming.get_name "__unwrapped_loop" (LoopUnwrapper.naming self))
      as [func_name naming'].
    match goal with
    | |- context [LoopUnwrapper.unwrap_body args body ?self'] =>
        specialize (IH self' Hbody);
        destruct (LoopUnwrapper.unwrap_body args body self') as [rest' self'']
    end.
    cbn [fst snd] in *. cbn [forallb is_For negb no_nested_for andb].
    apply IH. unfold flat_state in *. cbn [LoopUnwrapper.new_funcs].
    rewrite forallb_app, Hself. cbn [forallb andb].
    match goal with
    | |- context [no_nested_for (ast.FunctionDef ?n ?a [?s])] =>
        change (no_nested_for (ast.FunctionDef n a [s])) with (no_nested_for s && true)
    end.
    rewrite Hs. reflexivity.
  - rewrite (Hother eq_refl). cbn [fst snd forallb].
    destruct (IH self Hbody Hself) as (H1 & H2 & H3).
    rewrite Hfor, H1, H2, Hs. repeat split. exact H3.
Qed.

Lemma unwrapper_visit_flat s : forall self,
  flat_state self ->
  exists out self',
    visit_stmt LoopUnwrapper.visit_For s self = py.Ok (out, self')
    /\ forallb no_nested_for out = true /\ flat_state self'.
Proof.
  induction s as [name args body IHb|name body IHb| | |
                 |target iter body orelse IHb IHo|test body orelse IHb IHo
                 |test body orelse IHb IHo| |] using stmt_ind_nested;
    intros self Hself;
    try (eexists _, _; split; [reflexivity|]; split; [reflexivity | exact Hself]).
  all: assert (Hlist : forall ss, Forall (fun s => forall self, flat_state self ->
          exists out self',
            visit_stmt LoopUnwrapper.visit_For s self = py.Ok (out, self')
            /\ forallb no_nested_for out = true /\ flat_state self') ss ->
        forall self, flat_state self ->
        exists out self',
          visit_module LoopUnwrapper.visit_For ss self = py.Ok (out, self')
          /\ forallb no_nested_for out = true /\ flat_state self').
  all: try (induction 1 as [|s ss Hs _ IH]; intros σ Hσ;
            [ eexists _, _; split; [reflexivity|]; split; [reflexivity | exact Hσ]
            | destruct (Hs σ Hσ) as (o1 & σ1 & E1 & F1 & G1);
              destruct (IH σ1 G1) as (o2 & σ2 & E2 & F2 & G2);
              exists (o1 ++ o2)%list, σ2; cbn [visit_module]; rewrite E1;
              cbn [py.bind]; rewrite E2; cbn [py.bind];
              split; [reflexivity|]; split; [|exact G2];
              rewrite forallb_app, F1, F2; reflexivity ]).
  - destruct (Hlist body IHb self Hself) as (b' & σ1 & E1 & F1 & G1).
    rewrite visit_stmt_FunctionDef, E1. cbn [py.bind].
    eexists _, _. split; [reflexivity|]. split; [|exact G1].
    cbn [forallb no_nested_for]. rewrite F1. reflexivity.
  - destruct (Hlist body IHb self Hself) as (b' & σ1 & E1 & F1 & G1).
    rewrite visit_stmt_ClassDef, E1. cbn [py.bind].
    eexists _, _. split; [reflexivity|]. split; [|exact G1].
    cbn [forallb no_nested_for]. rewrite F1. reflexivity.
  - destruct (Hlist body IHb self Hself) as (b' & σ1 & E1 & F1 & G1).
    destruct (Hlist orelse IHo σ1 G1) as (o' & σ2 & E2 & F2 & G2).
    rewrite visit_stmt_For, E1. cbn [py.bind].
    rewrite E2. cbn [py.bind]. unfold LoopUnwrapper.visit_For.
    match goal with
    | |- context [LoopUnwrapper.unwrap_body ?a b' σ2] =>
        destruct (unwrap_body_flat a b' σ2 F1 G2) as (H1 & H2 & H3);
        destruct (LoopUnwrapper.unwrap_body a b' σ2) as [nb σ3]
    end.
    cbn [fst snd] in *. eexists _, _. split; [reflexivity|]. split; [|exact H3].
    cbn [forallb no_nested_for]. rewrite H1, H2, F2. reflexivity.
  - destruct (Hlist body IHb self Hself) as (b' & σ1 & E1 & F1 & G1).
    destruct (Hlist orelse IHo σ1 G1) as (o' & σ2 & E2 & F2 & G2).
    rewrite visit_stmt_While, E1. cbn [py.bind].
    rewrite E2. cbn [py.bind].
    eexists _, _. split; [reflexivity|]. split; [|exact G2].
    cbn [forallb no_nested_for]. rewrite F1, F2. reflexivity.
  - destruct (Hlist body IHb self Hself) as (b' & σ1 & E1 & F1 & G1).
    destruct (Hlist orelse IHo σ1 G1) as (o' & σ2 & E2 & F2 & G2).
    rewrite visit_stmt_If, E1. cbn [py.bind].
    rewrite E2. cbn [py.bind].
    eexists _, _. split; [reflexivity|]. split; [|exact G2].
    cbn [forallb no_nested_for]. rewrite F1, F2. reflexivity.
Qed.

(** X10.  [LoopUnwrapper] never fails, and in the module it leaves behind
    (the tree it visited with the functions [inject_functions] puts in
    front) no [for] loop has a [for] loop directly in its body, at any depth
    and in the new functions as well. *)
Theorem loop_unwrapper_flattens (tree : ast.Module_) (naming : Naming.t) :
  exists tree' self',
    LoopUnwrapper.visit tree
      {| LoopUnwrapper.naming := naming; LoopUnwrapper.new_funcs := [] |}
    = py.Ok (tree', self')
    /\ forallb no_nested_for (LoopUnwrapper.inject_functions self' tree') = true.
Proof.
  unfold LoopUnwrapper.visit.
  set (self := {| LoopUnwrapper.naming := naming; LoopUnwrapper.new_funcs := [] |}).
  assert (Hself : flat_state self) by reflexivity.
  clearbody self. revert self Hself.
  induction tree as [|s tree IH]; intros self Hself.
  - exists [], self. split; [reflexivity|]. unfold LoopUnwrapper.inject_functions.
    rewrite app_nil_r. exact Hself.
  - destruct (unwrapper_visit_flat s self Hself) as (o1 & σ1 & E1 & F1 & G1).
    destruct (IH σ1 G1) as (o2 & σ2 & E2 & F2).
    exists (o1 ++ o2)%list, σ2. cbn [visit_module]. rewrite E1. cbn [py.bind].
    rewrite E2. cbn [py.bind]. split; [reflexivity|].
    unfold LoopUnwrapper.inject_functions in *.
    rewrite !forallb_app in *. apply andb_prop in F2. destruct F2 as [F2a F2b].
    rewrite F2a, F1, F2b. reflexivity.
Qed.

(* ===================================================================== *)
(** ** Nested loops through the Plain pipeline *)
(* ===================================================================== *)

Lemma in_range_out_step stop step x :
  step <> 0 -> in_range stop step x = false -> in_range stop step (x + step) = false.
Proof.
  unfold in_range. intros Hs.
  destruct (Z.ltb_spec 0 step), (Z.ltb_spec x stop), (Z.ltb_spec (x + step) stop),
    (Z.ltb_spec stop x), (Z.ltb_spec stop (x + step)); intros; try lia; try discriminate.
Qed.

Lemma in_range_nth stop step : step <> 0 -> forall (k : nat) start,
  in_range stop step (start + step * Z.of_nat k)
  = (Z.of_nat k <? range_len start stop step).
Proof.
  intros Hs. induction k as [|k IH]; intros start.
  - replace (start + step * Z.of_nat 0) with start by lia.
    destruct (in_range stop step start) eqn:Hin.
    + rewrite range_len_in by assumption.
      pose proof (range_len_nonneg (start + step) stop step Hs).
      symmetry. apply Z.ltb_lt. lia.
    + rewrite range_len_out by assumption. reflexivity.
  - replace (start + step * Z.of_nat (S k)) with ((start + step) + step * Z.of_nat k) by lia.
    rewrite IH. destruct (in_range stop step start) eqn:Hin.
    + rewrite (range_len_in start) by assumption.
      destruct (Z.ltb_spec (Z.of_nat k) (range_len (start + step) stop step)),
        (Z.ltb_spec (Z.of_nat (S k)) (1 + range_len (start + step) stop step));
        lia || reflexivity.
    + rewrite (range_len_out start) by assumption.
      rewrite (range_len_out (start + step))
        by (assumption || apply in_range_out_step; assumption).
      destruct (Z.ltb_spec (Z.of_nat k) 0), (Z.ltb_spec (Z.of_nat (S k)) 0);
        lia || reflexivity.
Qed.

Definition plain_advance (i0 : string) (step : Z) : ast.stmt :=
  ast.AugAssign (ast.Name i0 ast.Store) (if 0 <? step then ast.Add else ast.Sub)
                (ast.Constant (ast.CInt (Z.abs step))).

Lemma plain_advance_exec fr st i0 step x fuel :
  (2 <= fuel)%nat ->
  py.load fr st i0 = py.Ok (py.VInt x) ->
  py.exec_stmt fuel fr st (plain_advance i0 step)
  = py.Ok (py.Normal,
           fst (py.store fr st i0 (py.VInt (x + step))),
           snd (py.store fr st i0 (py.VInt (x + step)))).
Proof.
  intros Hf Hx. do 2 (destruct fuel as [|fuel]; [lia|]).
  unfold plain_advance.
  erewrite exec_augassign; [| exact Hx | apply eval_constant |].
  - reflexivity.
  - destruct (Z.ltb_spec 0 step); cbn; repeat f_equal; lia.
Qed.

Lemma plain_test_eval_in fr st i0 stop step x fuel :
  (3 <= fuel)%nat ->
  py.load fr st i0 = py.Ok (py.VInt x) ->
  py.eval_expr fuel fr st (plain_test i0 stop step)
  = py.Ok (py.VBool (in_range stop step x), st).
Proof.
  intros Hf Hx. do 3 (destruct fuel as [|fuel]; [lia|]).
  unfold plain_test.
  erewrite eval_compare; [| apply eval_name, Hx | apply eval_constant |];
    [reflexivity|].
  unfold in_range. destruct (0 <? step); reflexivity.
Qed.

(** The lowered module. *)
Definition lowered_inner (v i0 : string) (start stop step : Z) : list ast.stmt :=
  [ast.Assign (ast.Name i0 ast.Store) (ast.Constant (ast.CInt start));
   ast.While (plain_test i0 stop step) [probe v; probe i0; plain_advance i0 step] []].

Definition lowered_nested (f v i0 i1 : string) (a1 b1 c1 a2 b2 c2 : Z) : ast.Module_ :=
  [ast.FunctionDef f (ast.plain_args [v]) (lowered_inner v i0 a2 b2 c2);
   ast.Assign (ast.Name i1 ast.Store) (ast.Constant (ast.CInt a1));
   ast.While (plain_test i1 b1 c1)
     [ast.Expr (ast.Call (ast.Name f ast.Load) [ast.Name i1 ast.Load] []);
      plain_advance i1 c1] []].

Lemma nested_apply naming r v w iter1 iter2 a1 b1 c1 a2 b2 c2 :
  v <> "print" -> w <> "print" -> v <> w ->
  v ∈ Naming.used_names naming ->
  parse_constant_range_args iter1 = Some (a1, b1, c1) ->
  parse_constant_range_args iter2 = Some (a2, b2, c2) ->
  Ob_For.apply_plain naming r (nested_probe v w iter1 iter2)
  = let (f, n1) := Naming.get_name "__unwrapped_loop" naming in
    let (i0, n2) := Naming.get_name "i" n1 in
    let (i1, n3) := Naming.get_name "i" n2 in
    py.Ok (lowered_nested f v i0 i1 a1 b1 c1 a2 b2 c2, n3, r).
Proof.
  intros Hv Hw Hvw Hused Hp1 Hp2.
  unfold Ob_For.apply_plain, Ob_For.apply, nested_probe.
  cbn -[Naming.get_name parse_constant_range_args rename_stmt
        ForToWhileGeneric.visit_For LoopUnwrapper.visit_For].
  unfold LoopUnwrapper.visit_For.
  cbn -[Naming.get_name parse_constant_range_args rename_stmt
        ForToWhileGeneric.visit_For].
  destruct (Naming.get_name "__unwrapped_loop" naming) as [f n1] eqn:Ef.
  cbn -[Naming.get_name parse_constant_range_args rename_stmt
        ForToWhileGeneric.visit_For].
  unfold ForToWhileGeneric.visit_For at 1. rewrite Hp2.
  cbn -[Naming.get_name parse_constant_range_args rename_stmt
        ForToWhileGeneric.visit_For].
  unfold PlainStrategy.init.
  destruct (Naming.get_name "i" n1) as [i0 n2].
  cbn -[Naming.get_name parse_constant_range_args rename_stmt
        ForToWhileGeneric.visit_For].
  unfold ForToWhileGeneric.visit_For. rewrite Hp1.
  cbn -[Naming.get_name parse_constant_range_args rename_stmt].
  unfold PlainStrategy.init.
  destruct (Naming.get_name "i" n2) as [i1 n3].
  cbn -[rename_stmt].
  fold (probe v). fold (probe w).
  rewrite (rename_probe_other w i0 v) by (assumption || congruence).
  rewrite (rename_probe w i0) by assumption.
  apply get_name_fresh in Ef. destruct Ef as (Hf & _ & k & ->).
  assert (Hfv : String.eqb (Naming.candidate "__unwrapped_loop" k) v = false).
  { apply String.eqb_neq. intros E. rewrite E in Hf. contradiction. }
  cbn -[String.eqb]. rewrite Hfv, String.eqb_refl. reflexivity.
Qed.

Lemma eval_call_normal fuel fr st id ctx args fargs body xs st1 callee fr' st2 :
  id <> "print" ->
  py.eval_expr fuel fr st (ast.Name id ctx) = py.Ok (py.VFunction fargs body, st) ->
  py.eval_args fuel fr st args = py.Ok (xs, st1) ->
  py.call_frame fargs body xs = Some callee ->
  py.exec_block fuel (Some callee) st1 body = py.Ok (py.Normal, fr', st2) ->
  py.eval_expr (S fuel) fr st (ast.Call (ast.Name id ctx) args []) = py.Ok (py.VNone, st2).
Proof.
  intros Hid Hf Hargs Hframe Hbody. cbn [py.eval_expr py.is_builtin].
  destruct (String.eqb_spec id "print") as [E|_]; [contradiction|].
  rewrite Hf. cbn [py.bind]. rewrite Hargs. cbn [py.bind].
  rewrite Hframe, Hbody. reflexivity.
Qed.

Lemma seq_snoc_map {A} (f : nat -> A) k :
  map f (seq 0 (S k)) = (map f (seq 0 k) ++ [f k])%list.
Proof. rewrite seq_S, map_app. reflexivity. Qed.

Section Inner.

Variables v i0 : string.
Variables x a2 b2 c2 : Z.
Variable st0 : py.state.
Hypothesis Hc2 : c2 <> 0.
Hypothesis Hi0v : i0 <> v.

Let N2 := Z.to_nat (range_len a2 b2 c2).
Let item (i : nat) : Z := a2 + c2 * Z.of_nat i.
Let inner_names : list string := [v; i0; i0].

Definition inner_inv (k : nat) (fr : option py.frame) (st : py.state) : Prop :=
  py.globals st = py.globals st0
  /\ py.stdout st
     = (py.stdout st0
        ++ map py.VInt (flat_map (fun y => [x; y]) (map item (seq 0 k))))%list
  /\ exists m, fr = Some {| py.local_names := inner_names; py.locals := m |}
       /\ m !! v = Some (py.VInt x) /\ m !! i0 = Some (py.VInt (item k)).

Lemma inner_loads k fr st :
  inner_inv k fr st ->
  py.load fr st v = py.Ok (py.VInt x) /\ py.load fr st i0 = py.Ok (py.VInt (item k)).
Proof.
  intros (_ & _ & m & -> & Hv & Hi).
  split; apply load_local; try assumption; unfold inner_names; cbn;
    rewrite !elem_of_cons; tauto.
Qed.

Lemma inner_body_exec k fr st fuel :
  inner_inv k fr st -> (8 <= fuel)%nat ->
  exists fr' st',
    py.exec_block fuel fr st [probe v; probe i0; plain_advance i0 c2]
    = py.Ok (py.Normal, fr', st')
    /\ inner_inv (S k) fr' st'.
Proof.
  intros HI Hf. destruct (inner_loads k fr st HI) as [Lv Li].
  destruct HI as (Hg & Ho & m & -> & Hv & Hi).
  do 8 (destruct fuel as [|fuel]; [lia|]).
  erewrite exec_block_cons;
    [| unfold probe; eapply exec_expr, eval_print, eval_name, Lv].
  erewrite exec_block_cons;
    [| unfold probe; eapply exec_expr, eval_print, eval_name; exact Li].
  erewrite exec_block_cons;
    [| apply plain_advance_exec; [lia | exact Li]].
  rewrite exec_block_nil. eexists _, _. split; [reflexivity|].
  unfold py.write.
  cbn [py.store fst snd py.globals py.stdout py.local_names py.locals].
  split; [exact Hg|]. split.
  - rewrite Ho, seq_snoc_map, flat_map_app, map_app, <- !app_assoc. reflexivity.
  - eexists. split; [reflexivity|]. split.
    + rewrite lookup_insert_ne by exact Hi0v. exact Hv.
    + rewrite lookup_insert_eq. unfold item. do 2 f_equal. lia.
Qed.

Lemma inner_exec fuel :
  (2 * N2 + 20 <= fuel)%nat ->
  exists fr',
    py.exec_block fuel
      (Some {| py.local_names := inner_names; py.locals := <[v := py.VInt x]> ∅ |})
      st0 (lowered_inner v i0 a2 b2 c2)
    = py.Ok (py.Normal, fr',
             {| py.globals := py.globals st0;
                py.stdout := (py.stdout st0
                  ++ map py.VInt (flat_map (fun y => [x; y]) (py_range a2 b2 c2)))%list |}).
Proof.
  intros Hf. do 3 (destruct fuel as [|fuel]; [lia|]).
  pose proof (range_len_nonneg a2 b2 c2 Hc2) as Hlen.
  unfold lowered_inner.
  rewrite (exec_block_cons _ _ _ _ _ _ _
             (exec_assign _ _ _ i0 _ _ _ _ (eval_constant _ _ _ _))).
  cbn [py.store fst snd py.value_of_constant py.local_names py.locals].
  destruct (while_rule inner_inv (plain_test i0 b2 c2)
              [probe v; probe i0; plain_advance i0 c2] N2 8) with
    (d := N2) (k := 0%nat) (fuel := S fuel)
    (fr := Some {| py.local_names := inner_names;
                   py.locals := <[i0 := py.VInt a2]> (<[v := py.VInt x]> ∅) |})
    (st := st0) as (fr' & st' & Hrun & Hinv).
  - intros k fr st fl Hk HI Hfl. destruct (inner_loads k fr st HI) as [_ Li].
    rewrite (plain_test_eval_in fr st i0 b2 c2 (item k) fl ltac:(lia) Li).
    eexists. split; [reflexivity|]. cbn. unfold item.
    rewrite (in_range_nth b2 c2 Hc2 k a2). apply Z.ltb_lt. unfold N2 in Hk. lia.
  - intros k fr st fl Hk HI Hfl. apply inner_body_exec; [exact HI | lia].
  - intros fr st fl HI Hfl. destruct (inner_loads N2 fr st HI) as [_ Li].
    rewrite (plain_test_eval_in fr st i0 b2 c2 (item N2) fl ltac:(lia) Li).
    eexists. split; [reflexivity|]. cbn. unfold item.
    rewrite (in_range_nth b2 c2 Hc2 N2 a2). apply Z.ltb_ge. unfold N2. lia.
  - reflexivity.
  - split; [reflexivity|]. split; [cbn; rewrite app_nil_r; reflexivity|].
    eexists. split; [reflexivity|]. split.
    + rewrite lookup_insert_ne by exact Hi0v. apply lookup_insert_eq.
    + rewrite lookup_insert_eq. unfold item. do 2 f_equal. lia.
  - lia.
  - rewrite (exec_block_cons _ _ _ _ _ _ _ Hrun).
    destruct fuel as [|fuel]; [lia|]. rewrite exec_block_nil.
    destruct Hinv as (Hg & Ho & _). exists fr'. do 2 f_equal.
    destruct st' as [g o]. cbn in Hg, Ho. subst g o. reflexivity.
Qed.

End Inner.

Section Outer.

Variables f v i0 i1 : string.
Variables a1 b1 c1 a2 b2 c2 : Z.
Hypothesis Hc1 : c1 <> 0.
Hypothesis Hc2 : c2 <> 0.
Hypothesis Hf_print : f <> "print".
Hypothesis Hi0v : i0 <> v.
Hypothesis Hi1f : i1 <> f.

Let N1 := Z.to_nat (range_len a1 b1 c1).
Let N2 := Z.to_nat (range_len a2 b2 c2).
Let item1 (i : nat) : Z := a1 + c1 * Z.of_nat i.

Definition outer_body : list ast.stmt :=
  [ast.Expr (ast.Call (ast.Name f ast.Load) [ast.Name i1 ast.Load] []);
   plain_advance i1 c1].

Definition outer_inv (k : nat) (fr : option py.frame) (st : py.state) : Prop :=
  fr = None
  /\ py.globals st !! f
     = Some (py.VFunction (ast.plain_args [v]) (lowered_inner v i0 a2 b2 c2))
  /\ py.globals st !! i1 = Some (py.VInt (item1 k))
  /\ py.stdout st
     = map py.VInt (pairs_of (map item1 (seq 0 k)) (py_range a2 b2 c2)).

Lemma outer_body_exec k st fuel :
  outer_inv k None st -> (2 * N2 + 30 <= fuel)%nat ->
  exists st',
    py.exec_block fuel None st outer_body = py.Ok (py.Normal, None, st')
    /\ outer_inv (S k) None st'.
Proof.
  intros (_ & Hf & Hi & Ho) Hfuel.
  do 5 (destruct fuel as [|fuel]; [lia|]).
  destruct (inner_exec v i0 (item1 k) a2 b2 c2 st Hc2 Hi0v (S (S fuel)) ltac:(fold N2; lia))
    as (fr' & E).
  unfold outer_body.
  erewrite exec_block_cons.
  2:{ eapply exec_expr, eval_call_normal; [exact Hf_print | | | | exact E].
      - apply eval_name, load_global, Hf.
      - eapply eval_args_cons; [apply eval_name, load_global, Hi | apply eval_args_nil].
      - reflexivity. }
  erewrite exec_block_cons;
    [| apply plain_advance_exec; [lia | apply load_global; exact Hi]].
  rewrite exec_block_nil. eexists. split; [reflexivity|].
  unfold outer_inv. cbn [py.store fst snd py.globals py.stdout].
  split; [reflexivity|]. split; [|split].
  - rewrite lookup_insert_ne by exact Hi1f. exact Hf.
  - rewrite lookup_insert_eq. unfold item1. do 2 f_equal. lia.
  - rewrite Ho, seq_snoc_map. unfold pairs_of.
    rewrite flat_map_app, map_app. cbn [flat_map]. rewrite app_nil_r. reflexivity.
Qed.

Lemma lowered_nested_runs :
  exists fuel,
    py.run fuel (lowered_nested f v i0 i1 a1 b1 c1 a2 b2 c2)
    = py.Ok (map py.VInt (pairs_of (py_range a1 b1 c1) (py_range a2 b2 c2))).
Proof.
  pose proof (range_len_nonneg a1 b1 c1 Hc1) as Hlen.
  set (c := (2 * N2 + 30)%nat).
  exists (S (S (S (S (N1 + c + N1 + 2))))).
  unfold py.run, lowered_nested.
  erewrite exec_block_cons by reflexivity.
  erewrite exec_block_cons by (apply exec_assign, eval_constant).
  cbn [py.store fst snd py.initial_state py.globals py.stdout py.value_of_constant].
  destruct (while_rule outer_inv (plain_test i1 b1 c1) outer_body N1 c) with
    (d := N1) (k := 0%nat) (fuel := S (N1 + c + N1 + 2)) (fr := @None py.frame)
    (st := {| py.globals :=
                <[i1 := py.VInt a1]>
                  (<[f := py.VFunction (ast.plain_args [v])
                            (lowered_inner v i0 a2 b2 c2)]> ∅);
              py.stdout := [] |}) as (fr' & st' & Hrun & Hinv).
  - intros k fr st fl Hk HI Hfl. destruct HI as (-> & _ & Hi & _).
    rewrite (plain_test_eval_in None st i1 b1 c1 (item1 k) fl ltac:(unfold c in Hfl; lia)
               (load_global _ _ _ Hi)).
    eexists. split; [reflexivity|]. cbn. unfold item1.
    rewrite (in_range_nth b1 c1 Hc1 k a1). apply Z.ltb_lt. unfold N1 in Hk. lia.
  - intros k fr st fl Hk HI Hfl. pose proof HI as (-> & _).
    destruct (outer_body_exec k st fl HI ltac:(unfold c in Hfl; lia)) as (st' & E & HI').
    eauto.
  - intros fr st fl HI Hfl. destruct HI as (-> & _ & Hi & _).
    rewrite (plain_test_eval_in None st i1 b1 c1 (item1 N1) fl ltac:(unfold c in Hfl; lia)
               (load_global _ _ _ Hi)).
    eexists. split; [reflexivity|]. cbn. unfold item1.
    rewrite (in_range_nth b1 c1 Hc1 N1 a1). apply Z.ltb_ge. unfold N1. lia.
  - reflexivity.
  - split; [reflexivity|]. split; [|split].
    + cbn. rewrite lookup_insert_ne by exact Hi1f. apply lookup_insert_eq.
    + cbn. rewrite lookup_insert_eq. unfold item1. do 2 f_equal. lia.
    + reflexivity.
  - lia.
  - rewrite (exec_block_cons _ _ _ _ _ _ _ Hrun). rewrite exec_block_nil.
    cbn [py.bind]. destruct Hinv as (_ & _ & _ & Ho). rewrite Ho. reflexivity.
Qed.

End Outer.

(** The module before lowering. *)
Lemma inner_for_exec v w x : v <> w -> forall items st fuel,
  py.globals st !! v = Some (py.VInt x) ->
  (length items + 6 <= fuel)%nat ->
  exists g,
    py.exec_for fuel None st w items [probe v; probe w] []
    = py.Ok (py.Normal, None,
             {| py.globals := g;
                py.stdout := py.stdout st
                  ++ map py.VInt (flat_map (fun y => [x; y]) items) |})
    /\ g !! v = Some (py.VInt x).
Proof.
  intros Hvw. induction items as [|y items IH]; intros st fuel Hx Hf.
  - do 2 (destruct fuel as [|fuel]; [simpl in Hf; lia|]).
    exists (py.globals st). cbn. rewrite app_nil_r. destruct st. split; [reflexivity | exact Hx].
  - cbn [length] in Hf. do 6 (destruct fuel as [|fuel]; [lia|]).
    rewrite exec_for_cons.
    erewrite exec_block_cons;
      [| unfold probe; eapply exec_expr, eval_print, eval_name, load_global;
         cbn [py.globals]; rewrite lookup_insert_ne by congruence; exact Hx ].
    erewrite exec_block_cons;
      [| unfold probe; eapply exec_expr, eval_print, eval_name, load_global;
         cbn; apply lookup_insert_eq ].
    rewrite exec_block_nil. unfold py.write.
    cbn [py.bind py.globals py.stdout].
    match goal with
    | |- context [py.exec_for ?fl None ?s w items _ _] =>
        destruct (IH s fl) as (g & E & Hg);
          [cbn; rewrite lookup_insert_ne by congruence; exact Hx | lia |]
    end.
    fold (probe v). fold (probe w). rewrite E. exists g. split; [|exact Hg].
    cbn. rewrite <- !app_assoc. reflexivity.
Qed.

Lemma nested_for_exec v w func2 args2 a2 b2 c2 :
  v <> w ->
  parse_constant_range_args (ast.Call func2 args2 []) = Some (a2, b2, c2) ->
  c2 <> 0 ->
  forall items st fuel,
    (length items + length (py_range a2 b2 c2) + 12 <= fuel)%nat ->
    exists g,
      py.exec_for fuel None st v items
        [ast.For (ast.Name w ast.Store) (ast.Call func2 args2 []) [probe v; probe w] []] []
      = py.Ok (py.Normal, None,
               {| py.globals := g;
                  py.stdout := py.stdout st
                    ++ map py.VInt (pairs_of items (py_range a2 b2 c2)) |}).
Proof.
  intros Hvw Hp Hc. induction items as [|x items IH]; intros st fuel Hf.
  - do 2 (destruct fuel as [|fuel]; [simpl in Hf; lia|]).
    exists (py.globals st). cbn. rewrite app_nil_r. destruct st. reflexivity.
  - cbn [length] in Hf. do 4 (destruct fuel as [|fuel]; [lia|]).
    rewrite exec_for_cons.
    destruct (literal_range_items func2 args2 a2 b2 c2 None
                {| py.globals := <[v := py.VInt x]> (py.globals st);
                   py.stdout := py.stdout st |}
                (S fuel) Hp Hc ltac:(lia)) as (Hb & xs & Exs & Hxs).
    destruct (inner_for_exec v w x Hvw (py_range a2 b2 c2)
                {| py.globals := <[v := py.VInt x]> (py.globals st);
                   py.stdout := py.stdout st |}
                (S fuel) ltac:(cbn; apply lookup_insert_eq) ltac:(lia)) as (g1 & E1 & _).
    erewrite exec_block_cons;
      [| cbn [py.exec_stmt]; rewrite Hb, Exs; cbn [py.bind]; rewrite Hxs;
         cbn [py.bind]; exact E1 ].
    rewrite exec_block_nil. cbn [py.bind].
    match goal with
    | |- context [py.exec_for ?fl None ?s v items _ _] =>
        destruct (IH s fl ltac:(lia)) as (g & E)
    end.
    rewrite E. exists g. cbn [py.stdout pairs_of flat_map].
    rewrite map_app, <- app_assoc. reflexivity.
Qed.



(* ===================================================================== *)
(** ** A literal step of zero under the Plain lowering *)
(* ===================================================================== *)

Lemma zero_step_spins i0 start stop : stop < start -> forall fuel st,
  py.globals st !! i0 = Some (py.VInt start) ->
  py.exec_stmt fuel None st
    (ast.While (plain_test i0 stop 0) (plain_body i0 0) []) = py.OutOfFuel.
Proof.
  intros Hlt. induction fuel as [|fuel IH]; intros st Hx; [reflexivity|].
  rewrite exec_while_eq.
  destruct (py.eval_expr fuel None st (plain_test i0 stop 0)) as [[c st1]| |] eqn:Et;
    [|exfalso|reflexivity].
  2:{ pose proof (eval_expr_fuel_ge fuel (fuel + 3) None st (plain_test i0 stop 0)
                    ltac:(lia) ltac:(rewrite Et; discriminate)) as E.
      rewrite (plain_test_eval i0 stop 0 start st (fuel + 3) ltac:(lia) Hx), Et in E.
      discriminate. }
  pose proof (eval_expr_fuel_ge fuel (fuel + 3) None st (plain_test i0 stop 0)
                ltac:(lia) ltac:(rewrite Et; discriminate)) as E.
  rewrite (plain_test_eval i0 stop 0 start st (fuel + 3) ltac:(lia) Hx), Et in E.
  injection E as <- <-. cbn [py.bind py.truthy].
  unfold in_range. cbn [Z.ltb Z.compare].
  destruct (Z.ltb_spec stop start); [|lia].
  destruct (py.exec_block fuel None st (plain_body i0 0)) as [[[o fr1] st2]| |] eqn:Eb;
    [|exfalso|reflexivity].
  2:{ pose proof (exec_block_fuel_ge fuel (8 + fuel) None st (plain_body i0 0)
                    ltac:(lia) ltac:(rewrite Eb; discriminate)) as E.
      rewrite Eb in E. unfold plain_body in E. cbn [Nat.add] in E.
      erewrite exec_block_cons in E;
        [| unfold probe; eapply exec_expr, eval_print, eval_name, load_global, Hx].
      erewrite exec_block_cons in E;
        [| apply (plain_advance_exec None _ i0 0 start);
           [lia | apply load_global; exact Hx]].
      rewrite exec_block_nil in E. discriminate. }
  pose proof (exec_block_fuel_ge fuel (8 + fuel) None st (plain_body i0 0)
                ltac:(lia) ltac:(rewrite Eb; discriminate)) as E.
  rewrite Eb in E. unfold plain_body in E. cbn [Nat.add] in E.
  erewrite exec_block_cons in E;
    [| unfold probe; eapply exec_expr, eval_print, eval_name, load_global, Hx].
  erewrite exec_block_cons in E;
    [| apply (plain_advance_exec None _ i0 0 start);
       [lia | apply load_global; exact Hx]].
  rewrite exec_block_nil in E. injection E as <- <- <-. cbn [py.bind].
  apply IH. cbn. rewrite lookup_insert_eq. do 2 f_equal. lia.
Qed.

(** X12.  A literal step of 0 under the Plain strategy: the loop
    [for v in range(start, stop, 0)] raises [ValueError], while the [while]
    loop [Ob_For] puts in its place does not: it runs no iteration when
    [start <= stop] and never ends when [start > stop]. *)
Theorem plain_lowering_of_zero_step (naming : Naming.t) (r : random.rng)
    (v : string) (func : ast.expr) (args : list ast.expr) (start stop : Z) :
  parse_constant_range_args (ast.Call func args []) = Some (start, stop, 0) ->
  v <> "print" ->
  (exists fuel,
      py.run fuel (probe_loop v (ast.Call func args [])) = py.Raise py.ValueError)
  /\ exists tree naming' r',
       Ob_For.apply_plain naming r (probe_loop v (ast.Call func args []))
       = py.Ok (tree, naming', r')
       /\ (start <= stop -> exists fuel, py.run fuel tree = py.Ok [])
       /\ (stop < start -> forall fuel, py.run fuel tree = py.OutOfFuel).
Proof.
  intros Hp Hv. split.
  - destruct (parse_range_inv _ _ _ _ _ _ Hp) as (Hb & Hall & Hlen & Hvals).
    destruct (int_literals_eval None py.initial_state args 5 Hall ltac:(lia))
      as (xs & Exs & Hxs).
    exists 7%nat. unfold py.run, probe_loop. cbn [py.exec_block py.exec_stmt].
    rewrite Hb, Exs. cbn [py.bind]. unfold py.range_items. rewrite Hxs.
    destruct (map eval_int args) as [|v0 [|v1 [|v2 [|v3 rest]]]]; try contradiction;
      try discriminate.
    injection Hvals as -> -> <-. reflexivity.
  - rewrite (plain_apply naming r v _ start stop 0 Hv Hp).
    destruct (Naming.get_name "i" naming) as [i0 naming'].
    eexists _, _, _. split; [reflexivity|]. split.
    + intros Hle. exists 6%nat. unfold py.run.
      erewrite exec_block_cons by (apply exec_assign, eval_constant).
      cbn [py.store fst snd py.value_of_constant].
      erewrite exec_block_cons.
      2:{ rewrite exec_while_eq.
          rewrite (plain_test_eval i0 stop 0 start _ 3 ltac:(lia))
            by (cbn; apply lookup_insert_eq).
          cbn [py.bind py.truthy]. unfold in_range. cbn [Z.ltb Z.compare].
          destruct (Z.ltb_spec stop start); [lia|]. reflexivity. }
      reflexivity.
    + intros Hlt fuel. unfold py.run.
      destruct fuel as [|fuel]; [reflexivity|].
      destruct fuel as [|fuel]; [reflexivity|].
      destruct fuel as [|fuel]; [reflexivity|].
      erewrite exec_block_cons by (apply exec_assign, eval_constant).
      cbn [py.store fst snd py.value_of_constant py.exec_block].
      rewrite (zero_step_spins i0 start stop Hlt); [reflexivity|].
      cbn. apply lookup_insert_eq.
Qed.

Lemma plain_lowering_of_zero_step_witness :
  exists tree naming' r',
    Ob_For.apply_plain Naming.init [] (probe_loop "v" (literal_range [5; 1; 0]))
    = py.Ok (tree, naming', r')
    /\ py.run 1000 tree = py.OutOfFuel.
Proof.
  destruct (plain_lowering_of_zero_step Naming.init [] "v" (ast.Name "range" ast.Load)
              [ast.Constant (ast.CInt 5); ast.Constant (ast.CInt 1);
               ast.Constant (ast.CInt 0)] 5 1) as [_ (tree & naming' & r' & E & _ & H)].
  - reflexivity.
  - discriminate.
  - exists tree, naming', r'. split; [exact E | apply H; lia].
Defined.

(* ===================================================================== *)
(** ** Junk injection: structure *)
(* ===================================================================== *)

Lemma get_names_repeat_eq k base : forall naming,
  get_names_repeat k base naming = get_names (repeat base k) naming.
Proof.
  induction k as [|k IH]; intros naming; [reflexivity|].
  cbn [get_names_repeat repeat get_names].
  destruct (Naming.get_name base naming) as [c n1]. rewrite IH. reflexivity.
Qed.

Lemma get_names_length bases : forall naming,
  length (fst (get_names bases naming)) = length bases.
Proof.
  induction bases as [|b bs IH]; intros naming; [reflexivity|].
  cbn [get_names]. destruct (Naming.get_name b naming) as [c n1].
  specialize (IH n1). destruct (get_names bs n1). cbn in *. lia.
Qed.

Lemma get_names_candidates bases : forall naming c,
  c ∈ fst (get_names bases naming) ->
  exists base i, base ∈ bases /\ c = Naming.candidate base i.
Proof.
  induction bases as [|b bs IH]; intros naming c Hc; [inversion Hc|].
  cbn [get_names] in Hc. destruct (Naming.get_name b naming) as [c0 n1] eqn:E.
  specialize (IH n1 c). destruct (get_names bs n1) as [ns n2]. cbn [fst] in *.
  apply elem_of_cons in Hc. destruct Hc as [->|Hc].
  - apply get_name_fresh in E. destruct E as (_ & _ & i & ->).
    exists b, i. split; [apply list_elem_of_here | reflexivity].
  - destruct (IH Hc) as (base & i & Hb & ->).
    exists base, i. split; [apply list_elem_of_further, Hb | reflexivity].
Qed.

(** X13.  [JunkInjector.__init__] draws a pool of three to five scratch
    names, for every run of the random source: they are pairwise distinct,
    of the form [junk<i>], unknown to the registry before, and registered
    in it afterwards. *)
Theorem junk_pool_fresh (naming : Naming.t)
    (strategy_classes : list JunkInjectionStrategy) (passes : Z) (r : random.rng) :
  let result := JunkInjector.init naming strategy_classes passes r in
  let pool := JunkInjector.junk_vars (fst (fst result)) in
  (3 <= length pool <= 5)%nat
  /\ NoDup pool
  /\ (forall c, c ∈ pool ->
        (c ∉ Naming.used_names naming) /\ exists i, c = Naming.candidate "junk" i)
  /\ Naming.used_names (snd (fst result)) = list_to_set pool ∪ Naming.used_names naming
  /\ JunkInjector.strategies (fst (fst result)) = strategy_classes.
Proof.
  cbn zeta. unfold JunkInjector.init, random.randint.
  destruct (random.next r) as [d r1].
  set (k := Z.to_nat (3 + Z.of_nat d mod (5 - 3 + 1))).
  assert (Hk : (3 <= k <= 5)%nat).
  { unfold k. pose proof (Z.mod_pos_bound (Z.of_nat d) (5 - 3 + 1) ltac:(lia)). lia. }
  rewrite get_names_repeat_eq.
  pose proof (get_names_length (repeat "junk" k) naming) as Hlen.
  pose proof (get_names_distinct (repeat "junk" k) naming) as [Hnd Hfresh].
  pose proof (get_names_registry (repeat "junk" k) naming) as [Hu _].
  pose proof (get_names_candidates (repeat "junk" k) naming) as Hcand.
  destruct (get_names (repeat "junk" k) naming) as [pool naming'].
  cbn [fst snd JunkInjector.junk_vars JunkInjector.strategies] in *.
  rewrite repeat_length in Hlen.
  repeat split; try lia; try assumption.
  - apply Hfresh, H.
  - destruct (Hcand c H) as (base & i & Hb & ->).
    apply list_elem_of_In, repeat_spec in Hb. subst base. eauto.
Qed.

Lemma get_junk_length strat junk_vars r :
  length (fst (get_junk strat junk_vars r)) = 1%nat.
Proof.
  destruct strat; cbn [get_junk]; try reflexivity.
  - unfold ArithmeticStrategy.get_junk.
    destruct (sample2 junk_vars r) as [[v1 v2] r1].
    repeat match goal with
           | |- context [let (_, _) := ?e in _] => destruct e
           end. reflexivity.
  - unfold LambdaStrategy.get_junk.
    repeat match goal with
           | |- context [let (_, _) := ?e in _] => destruct e
           end. reflexivity.
  - unfold BitwiseStrategy.get_junk.
    destruct (sample2 junk_vars r) as [[v1 v2] r1].
    repeat match goal with
           | |- context [let (_, _) := ?e in _] => destruct e
           end. reflexivity.
  - unfold NonConstantTimeStrategy.get_junk.
    destruct (sample2 junk_vars r) as [[v1 v2] r1].
    repeat match goal with
           | |- context [let (_, _) := ?e in _] => destruct e
           end. reflexivity.
Qed.

Lemma grown_body_refl l : grown_body l l.
Proof. induction l; constructor; [apply grown_same | assumption]. Qed.

Lemma grown_body_prepend junk l l' : grown_body l l' -> grown_body l (junk ++ l').
Proof. intros H. induction junk; cbn; [exact H | apply grown_insert; assumption]. Qed.

Lemma grown_body_trans_insert self : forall body r,
  grown_body body (fst (JunkInjector._inject_in_body self body r)).
Proof.
  induction body as [|s body IH]; intros r; [constructor|].
  cbn [JunkInjector._inject_in_body].
  destruct (JunkInjector.junk_round self (JunkInjector.strategies self) r) as [before r1].
  destruct (JunkInjector.junk_round self (JunkInjector.strategies self) r1) as [after r2].
  specialize (IH r2). destruct (JunkInjector._inject_in_body self body r2) as [rest r3].
  cbn [fst] in *. apply grown_body_prepend. apply grown_keep; [apply grown_same|].
  apply grown_body_prepend, IH.
Qed.

Scheme grown_stmt_mut := Minimality for grown_stmt Sort Prop
  with grown_body_mut := Minimality for grown_body Sort Prop.
Combined Scheme grown_mutind from grown_stmt_mut, grown_body_mut.

Lemma grown_trans :
  (forall s1 s2, grown_stmt s1 s2 -> forall s3, grown_stmt s2 s3 -> grown_stmt s1 s3)
  /\ (forall l1 l2, grown_body l1 l2 -> forall l3, grown_body l2 l3 -> grown_body l1 l3).
Proof.
  apply grown_mutind.
  - intros s s3 H. exact H.
  - intros name args body body' H IH s3 H3. inversion H3; subst.
    + apply grown_FunctionDef, H.
    + apply grown_FunctionDef, IH. assumption.
  - intros name body body' H IH s3 H3. inversion H3; subst.
    + apply grown_ClassDef, H.
    + apply grown_ClassDef, IH. assumption.
  - intros target iter body body' orelse orelse' Hb IHb Ho IHo s3 H3. inversion H3; subst.
    + apply grown_For; assumption.
    + apply grown_For; [apply IHb | apply IHo]; assumption.
  - intros test body body' orelse orelse' Hb IHb Ho IHo s3 H3. inversion H3; subst.
    + apply grown_While; assumption.
    + apply grown_While; [apply IHb | apply IHo]; assumption.
  - intros test body body' orelse orelse' Hb IHb Ho IHo s3 H3. inversion H3; subst.
    + apply grown_If; assumption.
    + apply grown_If; [apply IHb | apply IHo]; assumption.
  - intros l3 H. exact H.
  - intros x l l' H IH l3 H3. remember (x :: l') as l2 eqn:E. revert E.
    induction H3 as [|y l2' l3' H3 IH3|t t' l2' l3' Ht H3 _]; intros E; [discriminate| |].
    + apply grown_insert, IH3, E.
    + injection E as -> ->. apply grown_insert, IH, H3.
  - intros s s' l l' Hs IHs H IH l3 H3. remember (s' :: l') as l2 eqn:E. revert E.
    induction H3 as [|y l2' l3' H3 IH3|t t' l2' l3' Ht H3 _]; intros E; [discriminate| |].
    + apply grown_insert, IH3, E.
    + injection E as -> ->. apply grown_keep; [apply IHs, Ht | apply IH, H3].
Qed.

Lemma junk_visit_body_eq self ss : forall r,
  (fix visit_body (ss : list ast.stmt) (r : random.rng) {struct ss}
     : list ast.stmt * random.rng :=
     match ss with
     | [] => ([], r)
     | s' :: rest =>
         let (s', r) := JunkInjector.visit_stmt self s' r in
         let (rest, r) := visit_body rest r in
         (s' :: rest, r)
     end) ss r
  = JunkInjector.visit_stmts self ss r.
Proof.
  induction ss as [|s ss IH]; intros r; [reflexivity|].
  cbn [JunkInjector.visit_stmts].
  destruct (JunkInjector.visit_stmt self s r) as [s' r1]. rewrite IH. reflexivity.
Qed.

Lemma junk_visit_FunctionDef self name args body r :
  JunkInjector.visit_stmt self (ast.FunctionDef name args body) r
  = let (body, r) := JunkInjector.visit_stmts self body r in
    let (body, r) := JunkInjector._inject_in_body self body r in
    (ast.FunctionDef name args body, r).
Proof. cbn [JunkInjector.visit_stmt]. rewrite junk_visit_body_eq. reflexivity. Qed.

Lemma junk_visit_ClassDef self name body r :
  JunkInjector.visit_stmt self (ast.ClassDef name body) r
  = let (body, r) := JunkInjector.visit_stmts self body r in
    (ast.ClassDef name body, r).
Proof. cbn [JunkInjector.visit_stmt]. rewrite junk_visit_body_eq. reflexivity. Qed.

Lemma junk_visit_For self target iter body orelse r :
  JunkInjector.visit_stmt self (ast.For target iter body orelse) r
  = let (body, r) := JunkInjector.visit_stmts self body r in
    let (orelse, r) := JunkInjector.visit_stmts self orelse r in
    (ast.For target iter body orelse, r).
Proof.
  cbn [JunkInjector.visit_stmt]. rewrite junk_visit_body_eq.
  destruct (JunkInjector.visit_stmts self body r) as [b1 r1].
  rewrite junk_visit_body_eq. reflexivity.
Qed.

Lemma junk_visit_While self test body orelse r :
  JunkInjector.visit_stmt self (ast.While test body orelse) r
  = let (body, r) := JunkInjector.visit_stmts self body r in
    let (orelse, r) := JunkInjector.visit_stmts self orelse r in
    (ast.While test body orelse, r).
Proof.
  cbn [JunkInjector.visit_stmt]. rewrite junk_visit_body_eq.
  destruct (JunkInjector.visit_stmts self body r) as [b1 r1].
  rewrite junk_visit_body_eq. reflexivity.
Qed.

Lemma junk_visit_If self test body orelse r :
  JunkInjector.visit_stmt self (ast.If test body orelse) r
  = let (body, r) := JunkInjector.visit_stmts self body r in
    let (orelse, r) := JunkInjector.visit_stmts self orelse r in
    (ast.If test body orelse, r).
Proof.
  cbn [JunkInjector.visit_stmt]. rewrite junk_visit_body_eq.
  destruct (JunkInjector.visit_stmts self body r) as [b1 r1].
  rewrite junk_visit_body_eq. reflexivity.
Qed.

Lemma junk_visit_grows self s : forall r,
  grown_stmt s (fst (JunkInjector.visit_stmt self s r)).
Proof.
  induction s as [name args body IHb|name body IHb| | |
                 |target iter body orelse IHb IHo|test body orelse IHb IHo
                 |test body orelse IHb IHo| |] using stmt_ind_nested;
    intros r; try apply grown_same.
  all: assert (Hlist : forall ss,
         Forall (fun s => forall r, grown_stmt s (fst (JunkInjector.visit_stmt self s r))) ss ->
         forall r, grown_body ss (fst (JunkInjector.visit_stmts self ss r))).
  all: try (induction 1 as [|s ss Hs _ IH]; intros r'; [constructor|];
            cbn [JunkInjector.visit_stmts]; specialize (Hs r');
            destruct (JunkInjector.visit_stmt self s r') as [s' r1];
            specialize (IH r1); destruct (JunkInjector.visit_stmts self ss r1);
            apply grown_keep; assumption).
  - rewrite junk_visit_FunctionDef.
    specialize (Hlist body IHb r).
    destruct (JunkInjector.visit_stmts self body r) as [b1 r1].
    pose proof (grown_body_trans_insert self b1 r1) as H2.
    destruct (JunkInjector._inject_in_body self b1 r1) as [b2 r2].
    cbn [fst] in *. apply grown_FunctionDef.
    apply (proj2 grown_trans _ _ Hlist _ H2).
  - rewrite junk_visit_ClassDef.
    specialize (Hlist body IHb r).
    destruct (JunkInjector.visit_stmts self body r) as [b1 r1].
    apply grown_ClassDef, Hlist.
  - rewrite junk_visit_For.
    pose proof (Hlist body IHb r) as Hb.
    destruct (JunkInjector.visit_stmts self body r) as [b1 r1].
    pose proof (Hlist orelse IHo r1) as Ho.
    destruct (JunkInjector.visit_stmts self orelse r1) as [o1 r2].
    apply grown_For; assumption.
  - rewrite junk_visit_While.
    pose proof (Hlist body IHb r) as Hb.
    destruct (JunkInjector.visit_stmts self body r) as [b1 r1].
    pose proof (Hlist orelse IHo r1) as Ho.
    destruct (JunkInjector.visit_stmts self orelse r1) as [o1 r2].
    apply grown_While; assumption.
  - rewrite junk_visit_If.
    pose proof (Hlist body IHb r) as Hb.
    destruct (JunkInjector.visit_stmts self body r) as [b1 r1].
    pose proof (Hlist orelse IHo r1) as Ho.
    destruct (JunkInjector.visit_stmts self orelse r1) as [o1 r2].
    apply grown_If; assumption.
Qed.


Lemma sample2_in l r :
  (2 <= length l)%nat ->
  fst (fst (sample2 l r)) ∈ l /\ snd (fst (sample2 l r)) ∈ l.
Proof.
  intros Hl. unfold sample2.
  destruct (random.next r) as [d1 r1]. destruct (random.next r1) as [d2 r2].
  cbn [fst snd].
  assert (Hi : (d1 mod length l < length l)%nat) by (apply Nat.mod_upper_bound; lia).
  set (i := (d1 mod length l)%nat) in *.
  set (others := (firstn i l ++ skipn (S i) l)%list).
  assert (Hothers : (length others = length l - 1)%nat).
  { unfold others. rewrite length_app, length_firstn, length_skipn. lia. }
  split.
  - apply list_elem_of_In, nth_In. exact Hi.
  - assert (Hin : In (nth (d2 mod length others) others EmptyString) others).
    { apply nth_In, Nat.mod_upper_bound. lia. }
    apply list_elem_of_In. unfold others in Hin at 2. apply in_app_or in Hin.
    destruct Hin as [Hin|Hin].
    + rewrite <- (firstn_skipn i l). apply in_or_app. left. exact Hin.
    + rewrite <- (firstn_skipn (S i) l). apply in_or_app. right. exact Hin.
Qed.

Lemma wrap_names node r :
  expr_names (fst (ArithmeticStrategy._wrap node r)) = expr_names node.
Proof.
  unfold ArithmeticStrategy._wrap.
  destruct (random.choice _ _ r) as [[ | | ] r']; cbn; [reflexivity.. | apply app_nil_r].
Qed.

(** X15.  The junk statements stay within the scratch pool.  With a pool of
    at least two names, every statement a junk strategy returns, for every
    run of the random source, mentions only pool variables (besides the
    parameter [x] of the lambda, and [range] and the counter
    [<junk_vars[0]>_cnt] of the counting loop), and binds only pool
    variables, the counter of the counting loop excepted. *)
Theorem junk_stays_in_pool (strat : JunkInjectionStrategy)
    (junk_vars : list string) (r : random.rng) (s : ast.stmt) :
  (2 <= length junk_vars)%nat ->
  s ∈ fst (get_junk strat junk_vars r) ->
  (forall x, x ∈ stmt_names s ->
     x ∈ junk_vars \/ x ∈ junk_extra_names strat junk_vars)
  /\ (forall x, x ∈ py.bound_names s ->
        x ∈ junk_vars
        \/ (strat = NonConstantTimeStrategy
            /\ x = String.append (nth 0 junk_vars EmptyString) "_cnt")).
Proof.
  intros Hl Hs.
  pose proof (sample2_in junk_vars r Hl) as [H1 H2].
  assert (H0 : nth 0 junk_vars EmptyString ∈ junk_vars)
    by (apply list_elem_of_In, nth_In; lia).
  destruct strat; cbn [get_junk junk_extra_names] in *.
  - apply list_elem_of_singleton in Hs. subst s. cbn.
    split; intros x Hx; apply list_elem_of_singleton in Hx; subst x; left; exact H0.
  - unfold ArithmeticStrategy.get_junk in Hs.
    destruct (sample2 junk_vars r) as [[v1 v2] r1]. cbn [fst snd] in *.
    destruct (random.choice ast.Add ArithmeticStrategy.OPS r1) as [op1 r2].
    destruct (random.choice ast.Add ArithmeticStrategy.OPS r2) as [op2 r3].
    pose proof (wrap_names (ast.Name v1 ast.Load) r3) as W1.
    destruct (ArithmeticStrategy._wrap (ast.Name v1 ast.Load) r3) as [lhs r4].
    pose proof (wrap_names (ast.Name v2 ast.Load) r4) as W2.
    destruct (ArithmeticStrategy._wrap (ast.Name v2 ast.Load) r4) as [rhs r5].
    destruct (random.randint 1 5 r5) as [c r6]. cbn [fst] in *.
    apply list_elem_of_singleton in Hs. subst s.
    cbn [stmt_names expr_names py.bound_names]. rewrite W1, W2. cbn.
    split; intros x Hx.
    + rewrite !elem_of_cons in Hx. left.
      destruct Hx as [->|[->|[->|Hx]]]; try assumption. inversion Hx.
    + apply list_elem_of_singleton in Hx. subst x. left. exact H1.
  - unfold LambdaStrategy.get_junk in Hs.
    pose proof (choice_in EmptyString junk_vars r
                  ltac:(destruct junk_vars; [cbn in Hl; lia | discriminate])) as Hv.
    destruct (random.choice EmptyString junk_vars r) as [v r1].
    destruct (random.choice ast.Add [ast.Add; ast.Sub; ast.Mult] r1) as [op r2].
    destruct (random.randint 1 5 r2) as [c r3]. cbn [fst] in *.
    apply list_elem_of_In in Hv.
    apply list_elem_of_singleton in Hs. subst s. cbn.
    split; intros x Hx.
    + rewrite !elem_of_cons in Hx.
      destruct Hx as [->|[->|[->|Hx]]];
        [left; exact Hv | right; apply list_elem_of_here | left; exact Hv | inversion Hx].
    + apply list_elem_of_singleton in Hx. subst x. left. exact Hv.
  - unfold BitwiseStrategy.get_junk in Hs.
    destruct (sample2 junk_vars r) as [[v1 v2] r1]. cbn [fst snd] in *.
    destruct (random.choice ast.BitAnd BitwiseStrategy.OPS r1) as [op r2].
    destruct (random.randint 1 3 r2) as [amount r3]. cbn [fst] in *.
    apply list_elem_of_singleton in Hs. subst s. cbn.
    split; intros x Hx.
    + rewrite !elem_of_cons in Hx. left.
      destruct Hx as [->|[->|Hx]]; try assumption. inversion Hx.
    + apply list_elem_of_singleton in Hx. subst x. left. exact H1.
  - unfold NonConstantTimeStrategy.get_junk in Hs.
    destruct (sample2 junk_vars r) as [[v1 v2] r1]. cbn [fst snd] in *.
    destruct (random.randint 3 6 r1) as [count r2].
    destruct (random.choice ast.Add [ast.Add] r2) as [op r3]. cbn [fst] in *.
    apply list_elem_of_singleton in Hs. subst s. cbn.
    split; intros x Hx.
    + rewrite !elem_of_cons in Hx.
      destruct Hx as [->|[->|[->|Hx]]];
        [ right; apply list_elem_of_further, list_elem_of_here
        | right; apply list_elem_of_here
        | left; exact H2
        | inversion Hx ].
    + rewrite !elem_of_cons in Hx.
      destruct Hx as [->|[->|Hx]];
        [right; split; reflexivity | left; exact H2 | inversion Hx].
Qed.

Lemma junk_stays_in_pool_witness :
  "junk0" ∈ ["junk0"; "junk1"; "junk2"]
  \/ (BitwiseStrategy = NonConstantTimeStrategy
      /\ "junk0" = String.append (nth 0 ["junk0"; "junk1"; "junk2"] EmptyString) "_cnt").
Proof.
  destruct (junk_stays_in_pool BitwiseStrategy ["junk0"; "junk1"; "junk2"] []
              (ast.Assign (ast.Name "junk0" ast.Store)
                 (ast.BinOp (ast.Name "junk0" ast.Load) ast.BitAnd
                    (ast.Constant (ast.CInt 1))))) as [_ H].
  - cbn. lia.
  - apply list_elem_of_here.
  - apply H. apply list_elem_of_here.
Defined.

(** ** Junk injection: running the junk *)

Lemma pool_ints_store vars st id z :
  pool_ints vars st ->
  pool_ints vars {| py.globals := <[id := py.VInt z]> (py.globals st);
                    py.stdout := py.stdout st |}.
Proof.
  intros H v Hv. cbn. destruct (decide (id = v)) as [->|Hne].
  - exists z. apply lookup_insert_eq.
  - rewrite lookup_insert_ne by exact Hne. apply H, Hv.
Qed.

Lemma bitwise_op_total op z amount :
  In op BitwiseStrategy.OPS -> 0 <= amount ->
  exists z', py.binop op (py.VInt z) (py.VInt amount) = py.Ok (py.VInt z').
Proof.
  intros Hop Ha. cbn in Hop.
  destruct Hop as [<-|[<-|[<-|[<-|[<-|[]]]]]]; cbn; eauto;
    destruct (Z.ltb_spec amount 0); (lia || eauto).
Qed.

Lemma counting_loop_exec vars lv v2 : v2 ∈ vars ->
  forall items st fuel,
    (length items + 5 <= fuel)%nat ->
    pool_ints vars st ->
    exists st',
      py.exec_for fuel None st lv items
        [ast.AugAssign (ast.Name v2 ast.Store) ast.Add (ast.Constant (ast.CInt 1))] []
      = py.Ok (py.Normal, None, st')
      /\ py.stdout st' = py.stdout st
      /\ pool_ints vars st'
      /\ forall id, id ∉ vars -> id <> lv ->
           py.globals st' !! id = py.globals st !! id.
Proof.
  intros Hv2. induction items as [|x items IH]; intros st fuel Hf Hpool.
  - do 2 (destruct fuel as [|fuel]; [simpl in Hf; lia|]).
    exists st. repeat split; auto.
  - cbn [length] in Hf. do 5 (destruct fuel as [|fuel]; [lia|]).
    rewrite exec_for_cons.
    pose proof (pool_ints_store vars st lv x Hpool) as Hpool1.
    destruct (Hpool1 v2 Hv2) as (z & Hz).
    erewrite exec_block_cons;
      [| eapply exec_augassign;
         [apply load_global; exact Hz | apply eval_constant | reflexivity]].
    rewrite exec_block_nil. cbn [py.bind py.store fst snd].
    match goal with
    | |- context [py.exec_for ?fl None ?s lv items _ _] =>
        destruct (IH s fl ltac:(lia)) as (st' & E & Ho & Hp & Hg);
          [apply (pool_ints_store vars _ v2 (z + 1) Hpool1)|]
    end.
    rewrite E. exists st'. split; [reflexivity|]. split; [exact Ho|].
    split; [exact Hp|]. intros id Hid Hlv. rewrite (Hg id Hid Hlv). cbn.
    rewrite !lookup_insert_ne; [reflexivity | congruence | intros ->; contradiction].
Qed.



(* ===================================================================== *)
(** ** The renamer: candidates and consistency *)
(* ===================================================================== *)

Lemma choices_spec alphabet k : alphabet <> [] -> forall r,
  String.length (fst (Renamer.choices alphabet k r)) = k
  /\ Forall (fun c => In c alphabet)
       (list_ascii_of_string (fst (Renamer.choices alphabet k r))).
Proof.
  intros Hne. induction k as [|k IH]; intros r; [split; [reflexivity | constructor]|].
  cbn [Renamer.choices].
  pose proof (choice_in "_"%char alphabet r Hne) as Hc.
  destruct (random.choice "_"%char alphabet r) as [c r1].
  specialize (IH r1). destruct (Renamer.choices alphabet k r1) as [s r2].
  cbn [fst] in *. destruct IH as [Hlen Hall]. split.
  - cbn. rewrite Hlen. reflexivity.
  - cbn. constructor; assumption.
Qed.

Lemma random_name_shape r :
  String.length (fst (Renamer.random_name r)) = 8%nat
  /\ Renamer.isidentifier (fst (Renamer.random_name r)) = true.
Proof.
  unfold Renamer.random_name.
  pose proof (choice_in "_"%char Renamer.first_chars r ltac:(discriminate)) as Hc.
  destruct (random.choice "_"%char Renamer.first_chars r) as [c r1].
  destruct (choices_spec Renamer.later_chars 7 ltac:(discriminate) r1) as [Hlen Hall].
  destruct (Renamer.choices Renamer.later_chars 7 r1) as [s r2]. cbn [fst] in *.
  split; [cbn; rewrite Hlen; reflexivity|].
  cbn [Renamer.isidentifier]. apply andb_true_intro. split.
  - assert (H : forallb Renamer.is_id_start Renamer.first_chars = true)
      by (vm_compute; reflexivity).
    rewrite forallb_forall in H. apply H, Hc.
  - assert (H : forallb (fun c => Renamer.is_id_start c || Renamer.is_digit c)
                  Renamer.later_chars = true) by (vm_compute; reflexivity).
    rewrite forallb_forall in H. apply forallb_forall. intros x Hx.
    rewrite Forall_forall in Hall. apply H, Hall, list_elem_of_In, Hx.
Qed.

(** X17.  Every candidate [_generate_name] draws is an identifier of eight
    characters, so its [isidentifier()] test never rejects one; the name it
    returns is such a candidate, outside the namespace and not yet the
    replacement of any name, and it is added to the namespace. *)
Theorem generated_name_shape (fuel : nat) (self : Renamer.t) (r : random.rng)
    (name : string) (self' : Renamer.t) (r' : random.rng) :
  Renamer._generate_name fuel self r = Some (name, self', r') ->
  String.length name = 8%nat
  /\ Renamer.isidentifier name = true
  /\ (name ∉ Renamer.namespace self)
  /\ (forall k, Renamer.mapping self !! k <> Some name)
  /\ Renamer.namespace self' = {[name]} ∪ Renamer.namespace self
  /\ (forall r0, Renamer.isidentifier (fst (Renamer.random_name r0)) = true).
Proof.
  revert self r. induction fuel as [|fuel IH]; intros self r H; [discriminate|].
  cbn [Renamer._generate_name] in H.
  pose proof (random_name_shape r) as [Hlen Hid].
  destruct (Renamer.random_name r) as [cand r1]. cbn [fst] in *.
  rewrite Hid in H. cbn [andb] in H.
  destruct (bool_decide (cand ∈ Renamer.namespace self)) eqn:Hns;
    cbn [andb negb] in H; [apply (IH _ _ H)|].
  destruct (Renamer.is_value (Renamer.mapping self) cand) eqn:Hval;
    cbn [negb] in H; [apply (IH _ _ H)|].
  injection H as <- <- <-. apply bool_decide_eq_false in Hns.
  repeat split; try assumption; try reflexivity.
  - intros k Hk.
    assert (Renamer.is_value (Renamer.mapping self) cand = true) as Ht
      by (apply is_value_spec; eauto).
    congruence.
  - intros r0. apply random_name_shape.
Qed.

Lemma generated_name_shape_witness :
  String.length "aaaaaaaa" = 8%nat /\ Renamer.isidentifier "aaaaaaaa" = true.
Proof.
  destruct (generated_name_shape 1 (Renamer.init ∅) [] "aaaaaaaa"
              {| Renamer.namespace := {["aaaaaaaa"]} ∪ ∅; Renamer.to_rename := ∅;
                 Renamer.mapping := ∅ |} [])
    as (H1 & H2 & _).
  - reflexivity.
  - split; assumption.
Defined.

Lemma expr_ind_nested (P : ast.expr -> Prop) :
  (forall c, P (ast.Constant c)) ->
  (forall id ctx, P (ast.Name id ctx)) ->
  (forall op operand, P operand -> P (ast.UnaryOp op operand)) ->
  (forall lhs op rhs, P lhs -> P rhs -> P (ast.BinOp lhs op rhs)) ->
  (forall lhs op rhs, P lhs -> P rhs -> P (ast.Compare lhs op rhs)) ->
  (forall func args keywords,
     P func -> Forall P args -> Forall (fun kw => P (snd kw)) keywords ->
     P (ast.Call func args keywords)) ->
  (forall args body, P body -> P (ast.Lambda args body)) ->
  forall e, P e.
Proof.
  intros HC HN HU HB HCmp HCall HL.
  fix IH 1. intros e.
  destruct e as [c|id ctx|op operand|lhs op rhs|lhs op rhs|func args kws|la body].
  - apply HC.
  - apply HN.
  - apply HU, IH.
  - apply HB; apply IH.
  - apply HCmp; apply IH.
  - apply HCall; [apply IH | |].
    + clear kws. induction args as [|a args IHa]; constructor; [apply IH | exact IHa].
    + clear args. induction kws as [|kw kws IHk]; constructor; [apply IH | exact IHk].
  - apply HL, IH.
Qed.

Lemma flat_map_map_ext {A B C} (f : B -> list C) (g : A -> B) (h : A -> list C) l :
  Forall (fun a => f (g a) = h a) l -> flat_map f (map g l) = flat_map h l.
Proof. induction 1 as [|a l Ha _ IH]; cbn; [reflexivity | rewrite Ha, IH; reflexivity]. Qed.

Lemma rewrite_expr_names m e :
  expr_names (Renamer.rewrite_expr m e) = map (Renamer.subst m) (expr_names e).
Proof.
  induction e as [c|id ctx|op operand IH|lhs op rhs IH1 IH2|lhs op rhs IH1 IH2
                 |func args kws IHf IHa IHk|la body IH] using expr_ind_nested;
    cbn [Renamer.rewrite_expr expr_names map]; try reflexivity; try assumption.
  - rewrite IH1, IH2, map_app. reflexivity.
  - rewrite IH1, IH2, map_app. reflexivity.
  - rewrite IHf, !map_app. f_equal. f_equal.
    + rewrite (flat_map_map_ext _ _ (fun a => map (Renamer.subst m) (expr_names a)))
        by exact IHa.
      clear. induction args as [|a args IH]; cbn; [reflexivity|].
      rewrite map_app, IH. reflexivity.
    + rewrite (flat_map_map_ext _ _
                 (fun kw => map (Renamer.subst m) (expr_names (snd kw)))) by exact IHk.
      clear. induction kws as [|kw kws IH]; cbn; [reflexivity|].
      rewrite map_app, IH. reflexivity.
Qed.

Lemma flat_map_map_subst {A} (f : A -> list string) (g : string -> string) l :
  flat_map (fun a => map g (f a)) l = map g (flat_map f l).
Proof. induction l as [|a l IH]; cbn; [reflexivity | rewrite map_app, IH; reflexivity]. Qed.

Lemma rewrite_stmt_names m s :
  stmt_names (Renamer.rewrite_stmt m s) = map (Renamer.subst m) (stmt_names s).
Proof.
  induction s as [name args body IHb|name body IHb|[e|]|target e|target op e
                 |target iter body orelse IHb IHo|test body orelse IHb IHo
                 |test body orelse IHb IHo|e|] using stmt_ind_nested;
    cbn [Renamer.rewrite_stmt stmt_names option_map map Renamer.rewrite_args ast.args];
    rewrite ?rewrite_expr_names, ?map_app; try reflexivity.
  - f_equal. f_equal.
    rewrite (flat_map_map_ext _ _ (fun a => map (Renamer.subst m) (stmt_names a)))
      by exact IHb.
    apply flat_map_map_subst.
  - f_equal.
    rewrite (flat_map_map_ext _ _ (fun a => map (Renamer.subst m) (stmt_names a)))
      by exact IHb.
    apply flat_map_map_subst.
  - f_equal. f_equal.
    rewrite !(flat_map_map_ext _ _ (fun a => map (Renamer.subst m) (stmt_names a)))
      by assumption.
    rewrite !flat_map_map_subst. reflexivity.
  - f_equal.
    rewrite !(flat_map_map_ext _ _ (fun a => map (Renamer.subst m) (stmt_names a)))
      by assumption.
    rewrite !flat_map_map_subst. reflexivity.
  - f_equal.
    rewrite !(flat_map_map_ext _ _ (fun a => map (Renamer.subst m) (stmt_names a)))
      by assumption.
    rewrite !flat_map_map_subst. reflexivity.
Qed.

(** X18.  The renaming pass of the driver is a consistent one-to-one
    renaming of the names the registry records (every [Name] identifier,
    function names with their positional parameters, class names): each
    such occurrence is rewritten by the same mapping; two different names
    never become the same name; a name that is nowhere bound (a builtin such
    as [print]) is kept; and a replacement is never a name of the input. *)
Theorem renaming_is_consistent (fuel : nat) (r : random.rng) (tree out : ast.Module_)
    (self : Renamer.t) (r' : random.rng) :
  rename_pass fuel r tree = Some (out, self, r') ->
  let rho := Renamer.subst (Renamer.mapping self) in
  flat_map stmt_names out = map rho (flat_map stmt_names tree)
  /\ (forall x y, x ∈ flat_map stmt_names tree -> y ∈ flat_map stmt_names tree ->
        rho x = rho y -> x = y)
  /\ (forall x, x ∉ flat_map Renamer.collect_stmt tree -> rho x = x)
  /\ (forall x, x ∈ flat_map Renamer.collect_stmt tree ->
        rho x ∉ flat_map stmt_names tree).
Proof.
  unfold rename_pass. intros H. apply renamer_mapping_spec in H.
  destruct H as (Hdom & Hinj & Hfresh & ->). cbn zeta.
  set (m := Renamer.mapping self) in *.
  assert (Hns : forall v, v ∈ flat_map stmt_names tree ->
            v ∈ Naming.get_namespace (analyze tree Naming.init)).
  { intros v Hv. cbn. apply elem_of_union_l, elem_of_list_to_set, Hv. }
  split; [|split; [|split]].
  - rewrite <- flat_map_map_subst.
    apply flat_map_map_ext, Forall_forall. intros s _. apply rewrite_stmt_names.
  - intros x y Hx Hy. unfold Renamer.subst.
    destruct (m !! x) as [vx|] eqn:Ex, (m !! y) as [vy|] eqn:Ey; cbn.
    + intros ->. apply (Hinj x y vy Ex Ey).
    + intros ->. exfalso. apply (Hfresh x y Ex), Hns, Hy.
    + intros <-. exfalso. apply (Hfresh y x Ey), Hns, Hx.
    + auto.
  - intros x Hx. unfold Renamer.subst.
    destruct (m !! x) as [v|] eqn:Ex; [|reflexivity]. exfalso. apply Hx.
    assert (Hd : x ∈ dom m) by (apply elem_of_dom; eauto).
    rewrite Hdom in Hd. apply elem_of_list_to_set in Hd. exact Hd.
  - intros x Hx Hin.
    assert (Hd : x ∈ dom m) by (rewrite Hdom; apply elem_of_list_to_set, Hx).
    apply elem_of_dom in Hd. destruct Hd as (v & Ev).
    unfold Renamer.subst in Hin. rewrite Ev in Hin. cbn in Hin.
    apply (Hfresh x v Ev), Hns, Hin.
Qed.

Lemma renaming_is_consistent_witness :
  exists out self r',
    rename_pass 1 keyword_script keyword_program = Some (out, self, r')
    /\ flat_map stmt_names out
       = map (Renamer.subst (Renamer.mapping self)) (flat_map stmt_names keyword_program).
Proof.
  destruct (rename_pass 1 keyword_script keyword_program) as [[[out self] r']|] eqn:E;
    [|vm_compute in E; discriminate].
  exists out, self, r'. split; [reflexivity|].
  apply (renaming_is_consistent 1 keyword_script keyword_program out self r' E).
Defined.

(* ===================================================================== *)
(** ** The evaluator of the extended expressions *)
(* ===================================================================== *)

Lemma xbind_settled {A B} (m : pyx.result A) (k : A -> pyx.result B) :
  pyx.bind m k <> pyx.OutOfFuel -> m <> pyx.OutOfFuel.
Proof. destruct m; simpl; congruence. Qed.

Lemma xbind_mono {A B} (m m' : pyx.result A) (k k' : A -> pyx.result B) :
  (m <> pyx.OutOfFuel -> m' = m) ->
  (forall a, m = pyx.Ok a -> k a <> pyx.OutOfFuel -> k' a = k a) ->
  pyx.bind m k <> pyx.OutOfFuel -> pyx.bind m' k' = pyx.bind m k.
Proof.
  intros Hm Hk H. pose proof (xbind_settled _ _ H) as Hs.
  rewrite (Hm Hs). destruct m as [a| |]; simpl in *; [auto | reflexivity | congruence].
Qed.

Section OperandsMono.
Variables ev ev' : ast_ext.expr -> pyx.result pyx.value.
Hypothesis ev_mono : forall e, ev e <> pyx.OutOfFuel -> ev' e = ev e.

Lemma eval_list_mono es :
  pyx.eval_list ev es <> pyx.OutOfFuel -> pyx.eval_list ev' es = pyx.eval_list ev es.
Proof.
  induction es as [|e es IH]; [reflexivity|]. cbn [pyx.eval_list].
  apply xbind_mono; [apply ev_mono|]. intros v _.
  apply xbind_mono; [apply IH|]. reflexivity.
Qed.

Lemma eval_operands_mono op es :
  pyx.eval_operands ev op es <> pyx.OutOfFuel ->
  pyx.eval_operands ev' op es = pyx.eval_operands ev op es.
Proof.
  induction es as [|e es IH]; [reflexivity|]. cbn [pyx.eval_operands].
  destruct es as [|e2 es]; [apply ev_mono|].
  apply xbind_mono; [apply ev_mono|]. intros v _.
  destruct (pyx.decides op v); [reflexivity | apply IH].
Qed.

Lemma eval_pairs_mono ks vs :
  pyx.eval_pairs ev ks vs <> pyx.OutOfFuel ->
  pyx.eval_pairs ev' ks vs = pyx.eval_pairs ev ks vs.
Proof.
  revert vs. induction ks as [|k ks IH]; intros [|v vs]; try reflexivity.
  cbn [pyx.eval_pairs].
  apply xbind_mono; [apply ev_mono|]. intros key _.
  apply xbind_mono; [apply ev_mono|]. intros x _.
  apply xbind_mono; [apply IH|]. reflexivity.
Qed.

End OperandsMono.

(** More fuel never changes the value of an expression. *)
Lemma eval_fuel_ge fuel :
  forall fuel' bindings e,
    (fuel <= fuel')%nat ->
    pyx.eval fuel bindings e <> pyx.OutOfFuel ->
    pyx.eval fuel' bindings e = pyx.eval fuel bindings e.
Proof.
  induction fuel as [|fuel IH]; intros fuel' bindings e Hle H; [cbn in H; congruence|].
  destruct fuel' as [|fuel']; [lia|].
  assert (Hev : forall b e0, pyx.eval fuel b e0 <> pyx.OutOfFuel ->
                  pyx.eval fuel' b e0 = pyx.eval fuel b e0)
    by (intros; apply IH; [lia | assumption]).
  destruct e; cbn [pyx.eval] in *; try reflexivity.
  - apply eval_operands_mono; [apply Hev | exact H].
  - apply xbind_mono; [apply Hev | | exact H]. intros x _.
    apply xbind_mono; [apply Hev|]. reflexivity.
  - apply xbind_mono; [apply Hev | | exact H]. reflexivity.
  - apply xbind_mono; [apply Hev | | exact H]. intros x _.
    apply xbind_mono; [apply Hev|]. reflexivity.
  - apply xbind_mono; [apply Hev | | exact H]. intros c _.
    destruct (pyx.truthy c); apply Hev.
  - destruct keywords; [|reflexivity].
    apply xbind_mono; [apply Hev | | exact H]. intros f _.
    apply xbind_mono; [apply eval_list_mono, Hev|]. intros xs _.
    destruct f; try reflexivity.
    destruct (pyx.bind_params params xs); [apply Hev | reflexivity].
  - apply xbind_mono; [apply eval_list_mono, Hev | | exact H]. reflexivity.
  - apply xbind_mono; [apply eval_list_mono, Hev | | exact H]. reflexivity.
  - apply xbind_mono; [apply eval_pairs_mono, Hev | | exact H]. reflexivity.
  - apply xbind_mono; [apply Hev | | exact H]. intros c _.
    apply xbind_mono; [apply Hev|]. reflexivity.
Qed.


(* ===================================================================== *)
(** ** Conditional injection *)
(* ===================================================================== *)

Lemma make_test_option truth r :
  In (RandomConditionalStrategy._make_test truth r).1
     (RandomConditionalStrategy.options truth).
Proof.
  unfold RandomConditionalStrategy._make_test, random.choice.
  destruct (random.next r) as [d r']. cbn [fst].
  apply nth_In. apply Nat.mod_upper_bound. destruct truth; discriminate.
Qed.

Lemma option_truth truth e bindings k :
  In e (RandomConditionalStrategy.options truth) ->
  exists v, pyx.eval (4 + k) bindings e = pyx.Ok v /\ pyx.truthy v = truth.
Proof.
  destruct truth; cbn [RandomConditionalStrategy.options In];
    intros H; repeat (destruct H as [<- | H]); try contradiction;
    eexists; (split; [reflexivity | reflexivity]).
Qed.

(** X19.  Whatever test [_make_test] draws, it evaluates without error to a
    value whose truth is the one asked for, in every scope. *)
Theorem make_test_has_requested_truth truth r bindings k :
  exists v,
    pyx.eval (4 + k) bindings (RandomConditionalStrategy._make_test truth r).1
    = pyx.Ok v
    /\ pyx.truthy v = truth.
Proof.
  apply option_truth, make_test_option.
Qed.

(** Statements run at module level leave no frame behind. *)
Definition module_level_at (fuel : nat) : Prop :=
  (forall st s o fr st',
     py.exec_stmt fuel None st s = py.Ok (o, fr, st') -> fr = None)
  /\ (forall st id items body orelse o fr st',
     py.exec_for fuel None st id items body orelse = py.Ok (o, fr, st') -> fr = None)
  /\ (forall st ss o fr st',
     py.exec_block fuel None st ss = py.Ok (o, fr, st') -> fr = None).

Ltac module_level_step IHs IHf IHb :=
  repeat match goal with
  | E : py.exec_stmt _ None _ _ = py.Ok (_, ?f, _) |- _ =>
      is_var f; pose proof (IHs _ _ _ _ _ E); subst f
  | E : py.exec_for _ None _ _ _ _ _ = py.Ok (_, ?f, _) |- _ =>
      is_var f; pose proof (IHf _ _ _ _ _ _ _ _ E); subst f
  | E : py.exec_block _ None _ _ = py.Ok (_, ?f, _) |- _ =>
      is_var f; pose proof (IHb _ _ _ _ _ E); subst f
  | H : py.Ok _ = py.Ok _ |- _ => inversion H; subst; clear H
  | H : py.Raise _ = py.Ok _ |- _ => discriminate H
  | H : py.OutOfFuel = py.Ok _ |- _ => discriminate H
  | p : (_ * _)%type |- _ => destruct p
  | H : py.bind ?m _ = py.Ok _ |- _ =>
      let E := fresh "E" in destruct m eqn:E; cbn [py.bind] in H
  | H : (if ?c then _ else _) = py.Ok _ |- _ => destruct c
  | H : match ?x with _ => _ end = py.Ok _ |- _ => destruct x
  end.

Lemma module_level_all fuel : module_level_at fuel.
Proof.
  induction fuel as [|fuel (IHs & IHf & IHb)].
  { repeat split; intros; discriminate. }
  repeat split.
  - intros st s o fr st' H. destruct s; cbn -[py.eval_expr py.eval_args py.exec_block py.exec_for] in H.
    all: try (cbn in H; module_level_step IHs IHf IHb; reflexivity).
    all: module_level_step IHs IHf IHb; try reflexivity.
  - intros st id items body orelse o fr st' H. destruct items; cbn in H;
      module_level_step IHs IHf IHb; reflexivity.
  - intros st ss o fr st' H. destruct ss; cbn in H;
      module_level_step IHs IHf IHb; reflexivity.
Qed.

Lemma stmt_lifted F f st s :
  (f < F)%nat ->
  py.exec_stmt f None st s <> py.OutOfFuel ->
  pyx.exec_stmt F st (ast_ext.Stmt s)
  = match py.exec_stmt f None st s with
    | py.Ok (o, _, st') => pyx.Ok (o, st')
    | py.Raise e => pyx.Raise (pyx.lift_exn e)
    | py.OutOfFuel => pyx.OutOfFuel
    end.
Proof.
  intros Hlt H. destruct F as [|F]; [lia|]. cbn [pyx.exec_stmt].
  rewrite (exec_stmt_fuel_ge f F) by (lia || exact H).
  destruct (py.exec_stmt f None st s) as [[[o fr] st']| |]; reflexivity.
Qed.

Lemma block_of_one F st s :
  pyx.exec_block F st [s] = pyx.exec_stmt F st s.
Proof.
  unfold pyx.exec_block. cbn [pyx.exec_stmts].
  destruct (pyx.exec_stmt F st s) as [[o st']| |]; [destruct o|..]; reflexivity.
Qed.

Lemma exec_stmt_If F st test body orelse :
  pyx.exec_stmt (S F) st (ast_ext.If test body orelse)
  = pyx.bind (pyx.eval F (pyx.globals_env st) test) (fun c =>
      if pyx.truthy c then pyx.exec_block F st body else pyx.exec_block F st orelse).
Proof. reflexivity. Qed.

Lemma conditional_true F st test body orelse v :
  pyx.eval F (pyx.globals_env st) test = pyx.Ok v ->
  pyx.truthy v = true ->
  pyx.exec_stmt (S F) st (ast_ext.If test body orelse) = pyx.exec_block F st body.
Proof.
  intros Hv Ht. rewrite exec_stmt_If, Hv. cbn [pyx.bind]. rewrite Ht.
  reflexivity.
Qed.

Lemma conditional_false F st test body orelse v :
  pyx.eval F (pyx.globals_env st) test = pyx.Ok v ->
  pyx.truthy v = false ->
  pyx.exec_stmt (S F) st (ast_ext.If test body orelse) = pyx.exec_block F st orelse.
Proof.
  intros Hv Ht. rewrite exec_stmt_If, Hv. cbn [pyx.bind]. rewrite Ht.
  reflexivity.
Qed.

(** A wrapped statement runs as the statement does. *)
Lemma wrapped_runs strat s r F st :
  pyx.exec_block (5 + F) st (conditional_wrap strat (ast_ext.Stmt s) r).1
  = pyx.exec_stmt (4 + F) st (ast_ext.Stmt s).
Proof.
  destruct strat; cbn [conditional_wrap fst].
  - rewrite block_of_one.
    change (5 + F)%nat with (S (4 + F)).
    rewrite (conditional_true _ _ _ _ _ (pyx.VBool true)) by reflexivity.
    apply block_of_one.
  - rewrite block_of_one.
    change (5 + F)%nat with (S (4 + F)).
    rewrite (conditional_false _ _ _ _ _ (pyx.VBool false)) by reflexivity.
    apply block_of_one.
  - unfold RandomConditionalStrategy.wrap.
    destruct (random.random r) as [x r1].
    destruct (option_truth (x <? 500)
                (RandomConditionalStrategy._make_test (x <? 500) r1).1
                (pyx.globals_env st) F (make_test_option _ _)) as (v & Hv & Ht).
    destruct (RandomConditionalStrategy._make_test (x <? 500) r1) as [test r2].
    cbn [fst] in Hv.
    destruct (x <? 500); cbn [fst]; rewrite block_of_one;
      change (5 + F)%nat with (S (4 + F)).
    + rewrite (conditional_true _ _ _ _ _ v Hv Ht). apply block_of_one.
    + rewrite (conditional_false _ _ _ _ _ v Hv Ht). apply block_of_one.
Qed.

Lemma exec_block_app F st ss1 ss2 :
  pyx.exec_block F st (ss1 ++ ss2)
  = pyx.bind (pyx.exec_block F st ss1) (fun '(o, st') =>
      match o with
      | py.Normal => pyx.exec_block F st' ss2
      | py.Returned v => pyx.Ok (py.Returned v, st')
      end).
Proof.
  unfold pyx.exec_block.
  revert st. induction ss1 as [|s ss1 IH]; intros st; [reflexivity|].
  cbn [app pyx.exec_stmts].
  destruct (pyx.exec_stmt F st s) as [[o st']| |]; cbn [pyx.bind]; try reflexivity.
  destruct o; [apply IH | reflexivity].
Qed.

Lemma inject_loop_runs self body :
  forall r body' r' fuel F st,
    ConditionalInjector.inject_loop self body r = pyx.Ok (body', r') ->
    py.exec_block fuel None st body <> py.OutOfFuel ->
    (fuel + 5 <= F)%nat ->
    pyx.exec_block F st body'
    = match py.exec_block fuel None st body with
      | py.Ok (o, _, st') => pyx.Ok (o, st')
      | py.Raise e => pyx.Raise (pyx.lift_exn e)
      | py.OutOfFuel => pyx.OutOfFuel
      end.
Proof.
  induction body as [|s body IH]; intros r body' r' fuel F st Hinj Hrun HF.
  - cbn in Hinj. injection Hinj as <- <-.
    destruct fuel; [cbn in Hrun; congruence | reflexivity].
  - destruct fuel as [|fuel]; [cbn in Hrun; congruence|].
    cbn [py.exec_block] in *.
    pose proof (bind_settled _ _ Hrun) as Hs.
    assert (Hstmt : forall G, (fuel < G)%nat ->
              pyx.exec_stmt G st (ast_ext.Stmt s)
              = match py.exec_stmt fuel None st s with
                | py.Ok (o, _, st') => pyx.Ok (o, st')
                | py.Raise e => pyx.Raise (pyx.lift_exn e)
                | py.OutOfFuel => pyx.OutOfFuel
                end)
      by (intros G HG; apply stmt_lifted; assumption).
    cbn [ConditionalInjector.inject_loop] in Hinj.
    destruct (ConditionalInjector.gate self r) as [fire r1].
    destruct fire.
    + destruct (ConditionalInjector.strategies self) as [|first strats] eqn:Hstrats;
        [discriminate|].
      destruct (random.choice first (first :: strats) r1) as [strat r2].
      pose proof (wrapped_runs strat s r2 (F - 5) st) as Hw.
      destruct (conditional_wrap strat (ast_ext.Stmt s) r2) as [wrapped r3].
      destruct (ConditionalInjector.inject_loop self body r3) as [[rest r4]| |] eqn:Hr;
        try discriminate.
      cbn [pyx.bind] in Hinj. injection Hinj as <- <-.
      rewrite exec_block_app. cbn [fst] in Hw.
      replace (5 + (F - 5))%nat with F in Hw by lia.
      rewrite Hw, (Hstmt (4 + (F - 5))%nat) by lia.
      destruct (py.exec_stmt fuel None st s) as [[[o fr] st1]| |] eqn:Hst;
        cbn [pyx.bind py.bind]; [|reflexivity|congruence].
      pose proof (proj1 (module_level_all fuel) _ _ _ _ _ Hst) as Hfr.
      destruct o; [subst fr|reflexivity].
      apply (IH r3 rest r4); [exact Hr | exact Hrun | lia].
    + destruct (ConditionalInjector.inject_loop self body r1) as [[rest r4]| |] eqn:Hr;
        try discriminate.
      cbn [pyx.bind] in Hinj. injection Hinj as <- <-.
      unfold pyx.exec_block. cbn [pyx.exec_stmts].
      fold (pyx.exec_block F). rewrite (Hstmt F) by lia.
      destruct (py.exec_stmt fuel None st s) as [[[o fr] st1]| |] eqn:Hst;
        cbn [pyx.bind py.bind]; [|reflexivity|congruence].
      pose proof (proj1 (module_level_all fuel) _ _ _ _ _ Hst) as Hfr.
      destruct o; [subst fr|reflexivity].
      apply (IH r1 rest r4); [exact Hr | exact Hrun | lia].
Qed.

(** The other way round: a run of the output is a run of the input. *)
Lemma option_truth_settled truth e bindings F :
  In e (RandomConditionalStrategy.options truth) ->
  pyx.eval F bindings e <> pyx.OutOfFuel ->
  exists v, pyx.eval F bindings e = pyx.Ok v /\ pyx.truthy v = truth.
Proof.
  intros He Hs. destruct (option_truth truth e bindings F He) as (v & Hv & Ht).
  exists v. split; [|exact Ht].
  rewrite <- Hv. symmetry. apply eval_fuel_ge; [lia | exact Hs].
Qed.

Lemma stmt_lifted_back F st s :
  pyx.exec_stmt F st (ast_ext.Stmt s) <> pyx.OutOfFuel ->
  exists f, (f < F)%nat
    /\ py.exec_stmt f None st s <> py.OutOfFuel
    /\ pyx.exec_stmt F st (ast_ext.Stmt s)
       = match py.exec_stmt f None st s with
         | py.Ok (o, _, st') => pyx.Ok (o, st')
         | py.Raise e => pyx.Raise (pyx.lift_exn e)
         | py.OutOfFuel => pyx.OutOfFuel
         end.
Proof.
  destruct F as [|F]; [intros H; exfalso; apply H; reflexivity|].
  cbn [pyx.exec_stmt]. intros H. exists F. split; [lia|].
  destruct (py.exec_stmt F None st s) as [[[o fr] st']| |]; cbn in *;
    (split; [congruence | reflexivity]).
Qed.

Lemma conditional_back F st test body orelse truth :
  (forall v, pyx.eval (F - 1) (pyx.globals_env st) test = pyx.Ok v ->
             pyx.truthy v = truth) ->
  pyx.exec_stmt F st (ast_ext.If test body orelse) <> pyx.OutOfFuel ->
  pyx.exec_stmt F st (ast_ext.If test body orelse)
  = match pyx.eval (F - 1) (pyx.globals_env st) test with
    | pyx.Ok _ => pyx.exec_block (F - 1) st (if truth then body else orelse)
    | pyx.Raise e => pyx.Raise e
    | pyx.OutOfFuel => pyx.OutOfFuel
    end.
Proof.
  destruct F as [|F]; [intros _ H; exfalso; apply H; reflexivity|].
  replace (S F - 1)%nat with F by lia. intros Ht _. rewrite exec_stmt_If.
  destruct (pyx.eval F (pyx.globals_env st) test) as [v| |]; cbn [pyx.bind];
    try reflexivity.
  rewrite (Ht v eq_refl). destruct truth; reflexivity.
Qed.

Lemma wrapped_runs_back strat s r F st :
  pyx.exec_block F st (conditional_wrap strat (ast_ext.Stmt s) r).1 <> pyx.OutOfFuel ->
  exists f, (f < F)%nat
    /\ py.exec_stmt f None st s <> py.OutOfFuel
    /\ pyx.exec_block F st (conditional_wrap strat (ast_ext.Stmt s) r).1
       = match py.exec_stmt f None st s with
         | py.Ok (o, _, st') => pyx.Ok (o, st')
         | py.Raise e => pyx.Raise (pyx.lift_exn e)
         | py.OutOfFuel => pyx.OutOfFuel
         end.
Proof.
  assert (Hgen : forall test truth,
    (forall v, pyx.eval (F - 1) (pyx.globals_env st) test = pyx.Ok v ->
               pyx.truthy v = truth) ->
    (forall e, pyx.eval (F - 1) (pyx.globals_env st) test <> pyx.Raise e) ->
    forall body orelse,
      (if truth then body else orelse) = [ast_ext.Stmt s] ->
      pyx.exec_block F st [ast_ext.If test body orelse] <> pyx.OutOfFuel ->
      exists f, (f < F)%nat
        /\ py.exec_stmt f None st s <> py.OutOfFuel
        /\ pyx.exec_block F st [ast_ext.If test body orelse]
           = match py.exec_stmt f None st s with
             | py.Ok (o, _, st') => pyx.Ok (o, st')
             | py.Raise e => pyx.Raise (pyx.lift_exn e)
             | py.OutOfFuel => pyx.OutOfFuel
             end).
  { intros test truth Ht Hne body orelse Hbranch H.
    rewrite block_of_one in H |- *.
    pose proof (conditional_back F st test body orelse truth Ht H) as Hc.
    rewrite Hc in H |- *. clear Hc. rewrite Hbranch in H |- *.
    destruct (pyx.eval (F - 1) (pyx.globals_env st) test) as [v|e|] eqn:Hv;
      [|exfalso; exact (Hne e eq_refl)|exfalso; apply H; reflexivity].
    rewrite block_of_one in H |- *.
    destruct (stmt_lifted_back (F - 1) st s H) as (f & Hf & Hs & Heq).
    exists f. split; [lia|]. split; [exact Hs | exact Heq]. }
  destruct strat; cbn [conditional_wrap fst].
  - apply (Hgen _ true); [| |reflexivity].
    + intros v. destruct (F - 1)%nat; [discriminate|]. cbn. intros [= <-]. reflexivity.
    + intros e. destruct (F - 1)%nat; discriminate.
  - apply (Hgen _ false); [| |reflexivity].
    + intros v. destruct (F - 1)%nat; [discriminate|]. cbn. intros [= <-]. reflexivity.
    + intros e. destruct (F - 1)%nat; discriminate.
  - unfold RandomConditionalStrategy.wrap.
    destruct (random.random r) as [x r1].
    pose proof (make_test_option (x <? 500) r1) as Hopt.
    destruct (RandomConditionalStrategy._make_test (x <? 500) r1) as [test r2].
    cbn [fst] in Hopt.
    assert (Ht : forall v, pyx.eval (F - 1) (pyx.globals_env st) test = pyx.Ok v ->
                   pyx.truthy v = (x <? 500)).
    { intros v Hv.
      destruct (option_truth_settled _ _ (pyx.globals_env st) (F - 1) Hopt)
        as (v' & Hv' & Ht'); [congruence|]. congruence. }
    assert (Hne : forall e, pyx.eval (F - 1) (pyx.globals_env st) test <> pyx.Raise e).
    { intros e He.
      destruct (option_truth_settled _ _ (pyx.globals_env st) (F - 1) Hopt)
        as (v' & Hv' & _); congruence. }
    destruct (x <? 500) eqn:Hx; cbn [fst].
    + apply (Hgen _ true); [exact Ht | exact Hne | reflexivity].
    + apply (Hgen _ false); [exact Ht | exact Hne | reflexivity].
Qed.

Lemma inject_loop_runs_back self body :
  forall r body' r' F G st,
    ConditionalInjector.inject_loop self body r = pyx.Ok (body', r') ->
    pyx.exec_block F st body' <> pyx.OutOfFuel ->
    (F + length body < G)%nat ->
    match py.exec_block G None st body with
    | py.Ok (o, _, st') => pyx.Ok (o, st')
    | py.Raise e => pyx.Raise (pyx.lift_exn e)
    | py.OutOfFuel => pyx.OutOfFuel
    end
    = pyx.exec_block F st body'.
Proof.
  induction body as [|s body IH]; intros r body' r' F G st Hinj Hrun HG.
  - cbn in Hinj. injection Hinj as <- <-.
    destruct G; [lia | reflexivity].
  - destruct G as [|G]; [lia|]. cbn [length] in HG.
    assert (Hhead : forall head rest,
      body' = (head ++ rest)%list ->
      (exists f, (f < F)%nat
         /\ py.exec_stmt f None st s <> py.OutOfFuel
         /\ pyx.exec_block F st head
            = match py.exec_stmt f None st s with
              | py.Ok (o, _, st') => pyx.Ok (o, st')
              | py.Raise e => pyx.Raise (pyx.lift_exn e)
              | py.OutOfFuel => pyx.OutOfFuel
              end) ->
      (forall st1, pyx.exec_block F st1 rest <> pyx.OutOfFuel ->
         match py.exec_block G None st1 body with
         | py.Ok (o, _, st') => pyx.Ok (o, st')
         | py.Raise e => pyx.Raise (pyx.lift_exn e)
         | py.OutOfFuel => pyx.OutOfFuel
         end = pyx.exec_block F st1 rest) ->
      match py.exec_block (S G) None st (s :: body) with
      | py.Ok (o, _, st') => pyx.Ok (o, st')
      | py.Raise e => pyx.Raise (pyx.lift_exn e)
      | py.OutOfFuel => pyx.OutOfFuel
      end = pyx.exec_block F st body').
    { intros head rest -> (f & Hf & Hs & Heq) Hrest.
      rewrite exec_block_app in *. rewrite Heq in *.
      cbn [py.exec_block]. rewrite (exec_stmt_fuel_ge f G) by (lia || exact Hs).
      destruct (py.exec_stmt f None st s) as [[[o fr] st1]| |] eqn:Hst;
        cbn [pyx.bind py.bind] in *; [|reflexivity|congruence].
      pose proof (proj1 (module_level_all f) _ _ _ _ _ Hst) as ->.
      destruct o; [|reflexivity]. apply Hrest, Hrun. }
    cbn [ConditionalInjector.inject_loop] in Hinj.
    destruct (ConditionalInjector.gate self r) as [fire r1].
    destruct fire.
    + destruct (ConditionalInjector.strategies self) as [|first strats] eqn:Hstrats;
        [discriminate|].
      destruct (random.choice first (first :: strats) r1) as [strat r2].
      pose proof (wrapped_runs_back strat s r2 F st) as Hw.
      destruct (conditional_wrap strat (ast_ext.Stmt s) r2) as [wrapped r3].
      destruct (ConditionalInjector.inject_loop self body r3) as [[rest r4]| |] eqn:Hr;
        try discriminate.
      cbn [pyx.bind] in Hinj. injection Hinj as <- <-. cbn [fst] in Hw.
      apply (Hhead wrapped rest eq_refl).
      * apply Hw. rewrite exec_block_app in Hrun. apply (xbind_settled _ _ Hrun).
      * intros st1 H1. apply (IH r3 rest r4); [exact Hr | exact H1 | lia].
    + destruct (ConditionalInjector.inject_loop self body r1) as [[rest r4]| |] eqn:Hr;
        try discriminate.
      cbn [pyx.bind] in Hinj. injection Hinj as <- <-.
      apply (Hhead [ast_ext.Stmt s] rest eq_refl).
      * rewrite block_of_one. apply stmt_lifted_back.
        change (ast_ext.Stmt s :: rest) with ([ast_ext.Stmt s] ++ rest)%list in Hrun.
        rewrite exec_block_app, block_of_one in Hrun. apply (xbind_settled _ _ Hrun).
      * intros st1 H1. apply (IH r1 rest r4); [exact Hr | exact H1 | lia].
Qed.

(** X20.  Conditional injection keeps what the module does.  When the run of
    the input module ends, with its output or with an exception, the run of
    the module the injector returns ends the same way; and when the run of
    the returned module ends, so does the run of the input module, the same
    way. *)
Theorem conditional_injection_keeps_run self tree r tree' r' :
  ConditionalInjector.apply self tree r = pyx.Ok (tree', r') ->
  (forall fuel,
     py.run fuel tree <> py.OutOfFuel ->
     pyx.run (fuel + 5) tree' = pyx.lift_result (py.run fuel tree))
  /\ (forall fuel,
     pyx.run fuel tree' <> pyx.OutOfFuel ->
     pyx.lift_result (py.run (fuel + length tree + 1) tree) = pyx.run fuel tree').
Proof.
  unfold ConditionalInjector.apply, ConditionalInjector.visit_Module,
    ConditionalInjector._inject_in_body, py.run, pyx.run.
  destruct (ConditionalInjector.passes self =? 0); [discriminate|].
  intros Hinj. split; intros fuel Hrun.
  - pose proof (bind_settled _ _ Hrun) as Hs.
    rewrite (inject_loop_runs self tree r tree' r' fuel (fuel + 5) _ Hinj Hs) by lia.
    destruct (py.exec_block fuel None py.initial_state tree) as [[[o fr] st]| |];
      reflexivity.
  - pose proof (xbind_settled _ _ Hrun) as Hs.
    rewrite <- (inject_loop_runs_back self tree r tree' r' fuel
                  (fuel + length tree + 1) _ Hinj Hs) by lia.
    destruct (py.exec_block (fuel + length tree + 1) None py.initial_state tree)
      as [[[o fr] st]| |]; reflexivity.
Qed.

Lemma conditional_injection_keeps_run_witness :
  ConditionalInjector.apply
    {| ConditionalInjector.passes := 1;
       ConditionalInjector.strategies :=
         [ConstantTrueStrategy; ConstantFalseStrategy; RandomConditionalStrategy] |}
    [ast.Assign (ast.Name "x" ast.Store) (ast.Constant (ast.CInt 3));
     print_stmt (ast.Name "x" ast.Load)]
    [0; 2; 700; 1; 900]%nat
  = pyx.Ok
      ([ast_ext.If RandomConditionalStrategy.compare_false [ast_ext.Pass]
          [ast_ext.Stmt (ast.Assign (ast.Name "x" ast.Store) (ast.Constant (ast.CInt 3)))];
        ast_ext.Stmt (print_stmt (ast.Name "x" ast.Load))], [])
  /\ py.run 6
       [ast.Assign (ast.Name "x" ast.Store) (ast.Constant (ast.CInt 3));
        print_stmt (ast.Name "x" ast.Load)]
     = py.Ok [py.VInt 3]
  /\ pyx.run 11
       [ast_ext.If RandomConditionalStrategy.compare_false [ast_ext.Pass]
          [ast_ext.Stmt (ast.Assign (ast.Name "x" ast.Store) (ast.Constant (ast.CInt 3)))];
        ast_ext.Stmt (print_stmt (ast.Name "x" ast.Load))]
     = pyx.Ok [py.VInt 3].
Proof.
  split; [reflexivity|]. split; [reflexivity|].
  apply (proj1 (conditional_injection_keeps_run
           {| ConditionalInjector.passes := 1;
              ConditionalInjector.strategies :=
                [ConstantTrueStrategy; ConstantFalseStrategy; RandomConditionalStrategy] |}
           [ast.Assign (ast.Name "x" ast.Store) (ast.Constant (ast.CInt 3));
            print_stmt (ast.Name "x" ast.Load)]
           [0; 2; 700; 1; 900]%nat _ [] eq_refl) 6%nat).
  discriminate.
Defined.

(* ===================================================================== *)
(** ** Identity wrapping *)
(* ===================================================================== *)

Lemma eval_Constant f b c :
  pyx.eval (S f) b (ast_ext.Constant c) = pyx.Ok (pyx.value_of_constant c).
Proof. reflexivity. Qed.

Lemma eval_Name f b id ctx :
  pyx.eval (S f) b (ast_ext.Name id ctx)
  = match pyx.lookup b id with
    | Some v => pyx.Ok v
    | None => pyx.Raise (pyx.NameError id)
    end.
Proof. reflexivity. Qed.

Lemma eval_BoolOp f b op values :
  pyx.eval (S f) b (ast_ext.BoolOp op values)
  = pyx.eval_operands (pyx.eval f b) op values.
Proof. reflexivity. Qed.

Lemma eval_BinOp f b lhs op rhs :
  pyx.eval (S f) b (ast_ext.BinOp lhs op rhs)
  = pyx.bind (pyx.eval f b lhs) (fun x =>
    pyx.bind (pyx.eval f b rhs) (fun y => pyx.binop op x y)).
Proof. reflexivity. Qed.

Lemma eval_UnaryOp f b op operand :
  pyx.eval (S f) b (ast_ext.UnaryOp op operand)
  = pyx.bind (pyx.eval f b operand) (fun x => pyx.unop op x).
Proof. reflexivity. Qed.

Lemma eval_Compare f b lhs op rhs :
  pyx.eval (S f) b (ast_ext.Compare lhs op rhs)
  = pyx.bind (pyx.eval f b lhs) (fun x =>
    pyx.bind (pyx.eval f b rhs) (fun y => pyx.compare op x y)).
Proof. reflexivity. Qed.

Lemma eval_IfExp f b test body orelse :
  pyx.eval (S f) b (ast_ext.IfExp test body orelse)
  = pyx.bind (pyx.eval f b test) (fun c =>
      if pyx.truthy c then pyx.eval f b body else pyx.eval f b orelse).
Proof. reflexivity. Qed.

Lemma eval_Lambda f b args body :
  pyx.eval (S f) b (ast_ext.Lambda args body)
  = match ast.posonlyargs args, ast.kwonlyargs args with
    | [], [] => pyx.Ok (pyx.VClosure (ast.args args) body b)
    | _, _ => pyx.Raise pyx.NotModelled
    end.
Proof. reflexivity. Qed.

Lemma eval_Call f b func args :
  pyx.eval (S f) b (ast_ext.Call func args [])
  = pyx.bind (pyx.eval f b func) (fun fn =>
    pyx.bind (pyx.eval_list (pyx.eval f b) args) (fun xs =>
    match fn with
    | pyx.VClosure params body captured =>
        match pyx.bind_params params xs with
        | Some bound => pyx.eval f (bound ++ captured)%list body
        | None => pyx.Raise pyx.TypeError
        end
    | pyx.VFunction _ _ => pyx.Raise pyx.NotModelled
    | _ => pyx.Raise pyx.TypeError
    end)).
Proof. reflexivity. Qed.

Lemma eval_List f b elts ctx :
  pyx.eval (S f) b (ast_ext.List elts ctx)
  = pyx.bind (pyx.eval_list (pyx.eval f b) elts) (fun vs => pyx.Ok (pyx.VList vs)).
Proof. reflexivity. Qed.

Lemma eval_Tuple f b elts ctx :
  pyx.eval (S f) b (ast_ext.Tuple elts ctx)
  = pyx.bind (pyx.eval_list (pyx.eval f b) elts) (fun vs => pyx.Ok (pyx.VTuple vs)).
Proof. reflexivity. Qed.

Lemma eval_Dict f b keys values :
  pyx.eval (S f) b (ast_ext.Dict keys values)
  = pyx.bind (pyx.eval_pairs (pyx.eval f b) keys values) (fun evaluated =>
    pyx.bind (pyx.build_map evaluated []) (fun items => pyx.Ok (pyx.VDict items))).
Proof. reflexivity. Qed.

Lemma eval_Subscript f b container slice ctx :
  pyx.eval (S f) b (ast_ext.Subscript container slice ctx)
  = pyx.bind (pyx.eval f b container) (fun c =>
    pyx.bind (pyx.eval f b slice) (fun k => pyx.subscript c k)).
Proof. reflexivity. Qed.

(** The wrappers, evaluated where the wrapped expression has a result. *)
Lemma plain_wrap_eval strat e bindings fuel :
  pyx.eval fuel bindings e <> pyx.OutOfFuel ->
  pyx.eval (S (S (S fuel))) bindings (identity_wrap_plain strat e)
  = pyx.eval fuel bindings e.
Proof.
  intros H.
  assert (H1 : pyx.eval (S fuel) bindings e = pyx.eval fuel bindings e)
    by (apply eval_fuel_ge; [lia | exact H]).
  assert (H2 : pyx.eval (S (S fuel)) bindings e = pyx.eval fuel bindings e)
    by (apply eval_fuel_ge; [lia | exact H]).
  assert (H3 : pyx.eval (S (S (S fuel))) bindings e = pyx.eval fuel bindings e)
    by (apply eval_fuel_ge; [lia | exact H]).
  destruct strat; cbn [identity_wrap_plain]; try exact H3.
  - (* 1 and e *)
    rewrite eval_BoolOp. cbn [pyx.eval_operands]. rewrite eval_Constant, H2.
    reflexivity.
  - (* e or (e and e) *)
    rewrite eval_BoolOp. cbn [pyx.eval_operands].
    rewrite eval_BoolOp. cbn [pyx.eval_operands]. rewrite H1, H2.
    destruct (pyx.eval fuel bindings e) as [v| |]; cbn [pyx.bind]; try reflexivity.
    cbn [pyx.decides]. destruct (pyx.truthy v); reflexivity.
  - (* e if True else 0 *)
    rewrite eval_IfExp, eval_Constant. cbn [pyx.bind pyx.truthy pyx.value_of_constant].
    exact H2.
  - (* (lambda x: x)(e) *)
    rewrite eval_Call, eval_Lambda. cbn [pyx.bind pyx.eval_list ast.plain_args
      ast.posonlyargs ast.kwonlyargs ast.args]. rewrite H2.
    destruct (pyx.eval fuel bindings e) as [v| |]; reflexivity.
  - (* (e,)[0] *)
    rewrite eval_Subscript, eval_Tuple, eval_Constant. cbn [pyx.eval_list]. rewrite H1.
    destruct (pyx.eval fuel bindings e) as [v| |]; reflexivity.
  - (* {'x': e}['x'] *)
    rewrite eval_Subscript, eval_Dict, !eval_Constant. cbn [pyx.eval_pairs]. rewrite H1.
    destruct fuel as [|fuel]; [cbn in H; congruence|]. rewrite eval_Constant.
    destruct (pyx.eval (S fuel) bindings e) as [v| |]; reflexivity.
Qed.

(** X21.  Every identity strategy returns an expression with the result of
    the one it wraps: the same value, or the same exception, in the same
    scope. *)
Theorem identity_wrap_same_result strat e r bindings fuel :
  pyx.eval fuel bindings e <> pyx.OutOfFuel ->
  pyx.eval (fuel + 3) bindings (identity_wrap strat e r).1
  = pyx.eval fuel bindings e.
Proof.
  intros H. replace (fuel + 3)%nat with (S (S (S fuel))) by lia.
  destruct strat; cbn [identity_wrap fst]; try (apply plain_wrap_eval; exact H).
  destruct (random.choice OrIdentityStrategy mixed_choices r) as [chosen r'].
  apply plain_wrap_eval; exact H.
Qed.

Lemma identity_wrap_same_result_witness :
  pyx.eval 4 [("n", pyx.VInt 0)]
    (identity_wrap MixedIdentityStrategy (ast_ext.Name "n" ast.Load) [0]%nat).1
  = pyx.Ok (pyx.VInt 0)
  /\ pyx.eval 4 []
       (identity_wrap DictLookupIdentityStrategy (ast_ext.Name "n" ast.Load) []).1
     = pyx.Raise (pyx.NameError "n").
Proof.
  split.
  - apply (identity_wrap_same_result MixedIdentityStrategy
             (ast_ext.Name "n" ast.Load) [0]%nat [("n", pyx.VInt 0)] 1).
    discriminate.
  - apply (identity_wrap_same_result DictLookupIdentityStrategy
             (ast_ext.Name "n" ast.Load) [] [] 1).
    discriminate.
Defined.

(* ===================================================================== *)
(** ** Identity injection keeps the results of expressions *)
(* ===================================================================== *)

Lemma ext_expr_ind_nested (P : ast_ext.expr -> Prop) :
  (forall c, P (ast_ext.Constant c)) ->
  (forall id ctx, P (ast_ext.Name id ctx)) ->
  (forall op values, Forall P values -> P (ast_ext.BoolOp op values)) ->
  (forall lhs op rhs, P lhs -> P rhs -> P (ast_ext.BinOp lhs op rhs)) ->
  (forall op operand, P operand -> P (ast_ext.UnaryOp op operand)) ->
  (forall lhs op rhs, P lhs -> P rhs -> P (ast_ext.Compare lhs op rhs)) ->
  (forall test body orelse,
     P test -> P body -> P orelse -> P (ast_ext.IfExp test body orelse)) ->
  (forall args body, P body -> P (ast_ext.Lambda args body)) ->
  (forall func args keywords,
     P func -> Forall P args -> Forall (fun kw => P kw.2) keywords ->
     P (ast_ext.Call func args keywords)) ->
  (forall elts ctx, Forall P elts -> P (ast_ext.List elts ctx)) ->
  (forall elts ctx, Forall P elts -> P (ast_ext.Tuple elts ctx)) ->
  (forall keys values, Forall P keys -> Forall P values -> P (ast_ext.Dict keys values)) ->
  (forall value slice ctx, P value -> P slice -> P (ast_ext.Subscript value slice ctx)) ->
  forall e, P e.
Proof.
  intros HC HN HBo HBi HU HCmp HIf HL HCall HLi HT HD HS.
  fix IH 1. intros e.
  assert (Hall : forall es, Forall P es).
  { fix IHs 1. intros [|e' es]; constructor; [apply IH | apply IHs]. }
  assert (Hkws : forall kws : list (string * ast_ext.expr), Forall (fun kw => P kw.2) kws).
  { fix IHs 1. intros [|[k e'] kws]; constructor; [apply IH | apply IHs]. }
  destruct e.
  - apply HC.
  - apply HN.
  - apply HBo, Hall.
  - apply HBi; apply IH.
  - apply HU, IH.
  - apply HCmp; apply IH.
  - apply HIf; apply IH.
  - apply HL, IH.
  - apply HCall; [apply IH | apply Hall | apply Hkws].
  - apply HLi, Hall.
  - apply HT, Hall.
  - apply HD; apply Hall.
  - apply HS; apply IH.
Qed.

Lemma value_ind_nested (P : pyx.value -> Prop) :
  (forall z, P (pyx.VInt z)) ->
  (forall b, P (pyx.VBool b)) ->
  (forall s, P (pyx.VStr s)) ->
  P pyx.VNone ->
  (forall items, Forall P items -> P (pyx.VList items)) ->
  (forall items, Forall P items -> P (pyx.VTuple items)) ->
  (forall items, Forall (fun kv => P kv.1 /\ P kv.2) items -> P (pyx.VDict items)) ->
  (forall params body captured,
     Forall (fun kv => P kv.2) captured -> P (pyx.VClosure params body captured)) ->
  (forall args body, P (pyx.VFunction args body)) ->
  forall v, P v.
Proof.
  intros HI HB HS HN HL HT HD HC HF.
  fix IH 1. intros v.
  assert (Hall : forall vs, Forall P vs).
  { fix IHs 1. intros [|v' vs]; constructor; [apply IH | apply IHs]. }
  assert (Hpairs : forall kvs : list (pyx.value * pyx.value),
            Forall (fun kv => P kv.1 /\ P kv.2) kvs).
  { fix IHs 1. intros [|[k v'] kvs]; constructor; [split; apply IH | apply IHs]. }
  assert (Henv : forall kvs : list (string * pyx.value), Forall (fun kv => P kv.2) kvs).
  { fix IHs 1. intros [|[k v'] kvs]; constructor; [apply IH | apply IHs]. }
  destruct v.
  - apply HI.
  - apply HB.
  - apply HS.
  - apply HN.
  - apply HL, Hall.
  - apply HT, Hall.
  - apply HD, Hpairs.
  - apply HC, Henv.
  - apply HF.
Qed.

Lemma Forall2_same {A} (R : A -> A -> Prop) l :
  Forall (fun a => R a a) l -> Forall2 R l l.
Proof. induction 1; constructor; assumption. Qed.

Lemma wrapped_refl e : wrapped e e.
Proof.
  induction e using ext_expr_ind_nested; try (constructor; auto using Forall2_same; fail).
  constructor; auto using Forall2_same.
  apply Forall2_same. eapply Forall_impl; [eassumption|]. intros kw Hkw. split; auto.
Qed.

Lemma same_refl v : same_up_to_wrappers v v.
Proof.
  induction v using value_ind_nested; constructor; auto using Forall2_same, wrapped_refl.
  - apply Forall2_same. eapply Forall_impl; [eassumption|]. intros kv [_ Hkv]. auto.
  - apply Forall2_same. eapply Forall_impl; [eassumption|]. intros kv Hkv. auto.
Qed.

Lemma result_rel_bind {A B} (R : A -> A -> Prop) (S : B -> B -> Prop)
    (m m' : pyx.result A) (k k' : A -> pyx.result B) :
  result_rel R m m' ->
  (forall a a', R a a' -> result_rel S (k a) (k' a')) ->
  result_rel S (pyx.bind m k) (pyx.bind m' k').
Proof.
  intros Hm Hk. destruct m as [a| |], m' as [a'| |]; cbn in *;
    try contradiction; try exact I; [auto | congruence].
Qed.

Lemma same_as_int x y : same_up_to_wrappers x y -> pyx.as_int x = pyx.as_int y.
Proof. destruct 1; reflexivity. Qed.

Lemma same_truthy x y : same_up_to_wrappers x y -> pyx.truthy x = pyx.truthy y.
Proof.
  destruct 1; try reflexivity; cbn;
    match goal with H : Forall2 _ _ _ |- _ => rewrite (Forall2_length _ _ _ H) end;
    reflexivity.
Qed.

Lemma result_rel_refl (m : pyx.result pyx.value) :
  result_rel same_up_to_wrappers m m.
Proof. destruct m; cbn; auto using same_refl. Qed.

Lemma same_binop op x x' y y' :
  same_up_to_wrappers x x' -> same_up_to_wrappers y y' ->
  result_rel same_up_to_wrappers (pyx.binop op x y) (pyx.binop op x' y').
Proof.
  intros Hx Hy. unfold pyx.binop. rewrite (same_as_int _ _ Hx), (same_as_int _ _ Hy).
  apply result_rel_refl.
Qed.

Lemma same_compare op x x' y y' :
  same_up_to_wrappers x x' -> same_up_to_wrappers y y' ->
  result_rel same_up_to_wrappers (pyx.compare op x y) (pyx.compare op x' y').
Proof.
  intros Hx Hy. unfold pyx.compare. rewrite (same_as_int _ _ Hx), (same_as_int _ _ Hy).
  apply result_rel_refl.
Qed.

Lemma same_unop op x x' :
  same_up_to_wrappers x x' ->
  result_rel same_up_to_wrappers (pyx.unop op x) (pyx.unop op x').
Proof.
  intros Hx. unfold pyx.unop. rewrite (same_as_int _ _ Hx), (same_truthy _ _ Hx).
  apply result_rel_refl.
Qed.

Lemma same_lookup b b' id :
  env_rel b b' ->
  match pyx.lookup b id, pyx.lookup b' id with
  | Some v, Some v' => same_up_to_wrappers v v'
  | None, None => True
  | _, _ => False
  end.
Proof.
  unfold env_rel.
  induction 1 as [|[k v] [k' v'] b b' [Hk Hv] _ IH]; cbn in *; [exact I|].
  subst k'. destruct (String.eqb k id); assumption.
Qed.

Lemma same_bind_params params xs xs' :
  Forall2 same_up_to_wrappers xs xs' ->
  match pyx.bind_params params xs, pyx.bind_params params xs' with
  | Some b, Some b' => env_rel b b'
  | None, None => True
  | _, _ => False
  end.
Proof.
  intros H. revert params. unfold env_rel.
  induction H as [|x x' xs xs' Hx _ IH]; intros [|p params]; cbn; auto.
  specialize (IH params).
  destruct (pyx.bind_params params xs), (pyx.bind_params params xs'); cbn;
    try contradiction; auto.
Qed.

Lemma same_hashable k k' :
  same_up_to_wrappers k k' ->
  pyx.hashable k = pyx.hashable k' /\ (pyx.hashable k = pyx.Ok tt -> k = k').
Proof. destruct 1; cbn; split; congruence. Qed.

Lemma same_set_item items items' key v v' :
  dict_rel items items' -> same_up_to_wrappers v v' ->
  dict_rel (pyx.set_item items key v) (pyx.set_item items' key v').
Proof.
  unfold dict_rel.
  intros H Hv. induction H as [|[k x] [k' x'] items items' [Hk Hx] Hrest IH]; cbn in *.
  - constructor; [split; [reflexivity | exact Hv] | constructor].
  - subst k'. destruct (pyx.key_eqb k key); constructor; cbn; auto.
Qed.

Lemma same_get_item items items' key :
  dict_rel items items' ->
  match pyx.get_item items key, pyx.get_item items' key with
  | Some v, Some v' => same_up_to_wrappers v v'
  | None, None => True
  | _, _ => False
  end.
Proof.
  unfold dict_rel.
  induction 1 as [|[k x] [k' x'] items items' [Hk Hx] _ IH]; cbn in *; [exact I|].
  subst k'. destruct (pyx.key_eqb k key); assumption.
Qed.

Lemma same_build_map pairs pairs' :
  Forall2 (fun kv kv' : pyx.value * pyx.value =>
             same_up_to_wrappers kv.1 kv'.1 /\ same_up_to_wrappers kv.2 kv'.2)
    pairs pairs' ->
  forall items items', dict_rel items items' ->
    result_rel dict_rel (pyx.build_map pairs items) (pyx.build_map pairs' items').
Proof.
  induction 1 as [|[k x] [k' x'] pairs pairs' [Hk Hx] _ IH]; intros items items' Hitems;
    cbn in *; [exact Hitems|].
  unfold pyx.dict_set. destruct (same_hashable _ _ Hk) as [Hh Heq]. rewrite <- Hh.
  destruct (pyx.hashable k) as [[]| |] eqn:Hhk; cbn; auto.
  rewrite <- (Heq eq_refl). apply IH, same_set_item; assumption.
Qed.

Lemma same_index xs xs' i :
  Forall2 same_up_to_wrappers xs xs' ->
  result_rel same_up_to_wrappers (pyx.index xs i) (pyx.index xs' i).
Proof.
  intros H. unfold pyx.index. rewrite <- (Forall2_length _ _ _ H).
  destruct ((0 <=? _) && _); [|reflexivity].
  generalize (Z.to_nat (if i <? 0 then i + Z.of_nat (length xs) else i)). intros n.
  revert n. induction H as [|x x' xs xs' Hx _ IH]; intros [|n]; cbn; auto.
Qed.

Lemma same_subscript c c' k k' :
  same_up_to_wrappers c c' -> same_up_to_wrappers k k' ->
  result_rel same_up_to_wrappers (pyx.subscript c k) (pyx.subscript c' k').
Proof.
  intros Hc Hk. destruct Hc; cbn; auto.
  - rewrite <- (same_as_int _ _ Hk). destruct (pyx.as_int k); [|reflexivity].
    apply same_index; assumption.
  - rewrite <- (same_as_int _ _ Hk). destruct (pyx.as_int k); [|reflexivity].
    apply same_index; assumption.
  - unfold pyx.dict_get. destruct (same_hashable _ _ Hk) as [Hh Heq]. rewrite <- Hh.
    destruct (pyx.hashable k) as [[]| |]; cbn; auto.
    rewrite <- (Heq eq_refl).
    pose proof (same_get_item _ _ k H) as Hg.
    destruct (pyx.get_item xs k), (pyx.get_item ys k); cbn; try contradiction; auto.
Qed.

Section OperandsRel.
Variables ev ev' : ast_ext.expr -> pyx.result pyx.value.
Hypothesis ev_rel :
  forall e e', wrapped e e' -> result_rel same_up_to_wrappers (ev e) (ev' e').

Lemma same_eval_list es es' :
  Forall2 wrapped es es' ->
  result_rel (Forall2 same_up_to_wrappers) (pyx.eval_list ev es) (pyx.eval_list ev' es').
Proof.
  induction 1 as [|e e' es es' He _ IH]; cbn; [constructor|].
  eapply result_rel_bind; [apply ev_rel, He|]. intros v v' Hv.
  eapply result_rel_bind; [apply IH|]. intros vs vs' Hvs. cbn. constructor; assumption.
Qed.

Lemma same_eval_operands op es es' :
  Forall2 wrapped es es' ->
  result_rel same_up_to_wrappers
    (pyx.eval_operands ev op es) (pyx.eval_operands ev' op es').
Proof.
  induction 1 as [|e e' es es' He Hes IH]; cbn [pyx.eval_operands]; [reflexivity|].
  destruct Hes as [|e2 e2' es es' He2 Hes]; [apply ev_rel, He|].
  eapply result_rel_bind; [apply ev_rel, He|]. intros v v' Hv.
  unfold pyx.decides. rewrite <- (same_truthy _ _ Hv).
  destruct op, (pyx.truthy v); cbn [negb]; try exact Hv; apply IH.
Qed.

Lemma same_eval_pairs ks ks' :
  Forall2 wrapped ks ks' ->
  forall vs vs', Forall2 wrapped vs vs' ->
    result_rel
      (Forall2 (fun kv kv' : pyx.value * pyx.value =>
                  same_up_to_wrappers kv.1 kv'.1 /\ same_up_to_wrappers kv.2 kv'.2))
      (pyx.eval_pairs ev ks vs) (pyx.eval_pairs ev' ks' vs').
Proof.
  induction 1 as [|k k' ks ks' Hk _ IH]; intros vs vs' Hvs;
    destruct Hvs as [|v v' vs vs' Hv Hvs]; cbn [pyx.eval_pairs]; try reflexivity.
  - constructor.
  - eapply result_rel_bind; [apply ev_rel, Hk|]. intros a a' Ha.
    eapply result_rel_bind; [apply ev_rel, Hv|]. intros b b' Hb.
    eapply result_rel_bind; [apply IH, Hvs|]. intros rest rest' Hrest.
    cbn. constructor; [split; assumption | assumption].
Qed.

End OperandsRel.

Lemma env_rel_refl b : env_rel b b.
Proof. apply Forall2_same, Forall_forall. intros kv _. split; auto using same_refl. Qed.

(** Evaluation respects wrapping: wrapped leaves cost three more levels. *)
Lemma wrapped_eval f :
  forall b b' e e',
    wrapped e e' -> env_rel b b' ->
    result_rel same_up_to_wrappers (pyx.eval f b e) (pyx.eval (3 + f) b' e').
Proof.
  induction f as [|f IH]; intros b b' e e' He Hb; [exact I|].
  change (3 + S f)%nat with (S (3 + f)).
  assert (Hev : forall e0 e0', wrapped e0 e0' ->
            result_rel same_up_to_wrappers (pyx.eval f b e0) (pyx.eval (3 + f) b' e0'))
    by (intros; apply IH; assumption).
  assert (Hleaf : forall e0, is_leaf e0 = true ->
            result_rel same_up_to_wrappers (pyx.eval (S f) b e0) (pyx.eval (S f) b' e0)
            /\ pyx.eval (S f) b' e0 <> pyx.OutOfFuel).
  { intros e0 H0. destruct e0; try discriminate.
    - split; [apply result_rel_refl | discriminate].
    - rewrite !eval_Name. pose proof (same_lookup _ _ id Hb) as Hl.
      destruct (pyx.lookup b id), (pyx.lookup b' id); cbn; try contradiction;
        split; auto; discriminate. }
  destruct He as [strat e Hl | c | id ctx | op vs vs' Hvs | l l' op r r' Hl Hr
                 | op e e' He | l l' op r r' Hl Hr | t t' bo bo' o o' Ht Hbo Ho
                 | args bo bo' Hbo | fn fn' args args' kws kws' Hfn Hargs Hkws
                 | es es' ctx Hes | es es' ctx Hes | ks ks' vs vs' Hks Hvs
                 | c c' k k' ctx Hc Hk].
  - destruct (Hleaf e Hl) as [Hrel Hne].
    change (S (3 + f)) with (S (S (S (S f)))). rewrite plain_wrap_eval by exact Hne.
    exact Hrel.
  - apply result_rel_refl.
  - rewrite !eval_Name. pose proof (same_lookup _ _ id Hb) as Hl.
    destruct (pyx.lookup b id), (pyx.lookup b' id); cbn; try contradiction; auto.
  - rewrite !eval_BoolOp. apply same_eval_operands; assumption.
  - rewrite !eval_BinOp. eapply result_rel_bind; [apply Hev; assumption|].
    intros x x' Hx. eapply result_rel_bind; [apply Hev; assumption|].
    intros y y' Hy. apply same_binop; assumption.
  - rewrite !eval_UnaryOp. eapply result_rel_bind; [apply Hev; assumption|].
    intros x x' Hx. apply same_unop; assumption.
  - rewrite !eval_Compare. eapply result_rel_bind; [apply Hev; assumption|].
    intros x x' Hx. eapply result_rel_bind; [apply Hev; assumption|].
    intros y y' Hy. apply same_compare; assumption.
  - rewrite !eval_IfExp. eapply result_rel_bind; [apply Hev; assumption|].
    intros c c' Hc. rewrite <- (same_truthy _ _ Hc).
    destruct (pyx.truthy c); apply Hev; assumption.
  - rewrite !eval_Lambda.
    destruct (ast.posonlyargs args), (ast.kwonlyargs args); cbn; auto.
    constructor; assumption.
  - destruct Hkws as [|kw kw' kws kws' Hkw Hkws]; [|reflexivity].
    rewrite !eval_Call. eapply result_rel_bind; [apply Hev; assumption|].
    intros g g' Hg.
    eapply result_rel_bind; [apply same_eval_list; [exact Hev | assumption]|].
    intros xs xs' Hxs. destruct Hg; try reflexivity.
    pose proof (same_bind_params params _ _ Hxs) as Hp.
    destruct (pyx.bind_params params xs), (pyx.bind_params params xs'); cbn;
      try contradiction; [|reflexivity].
    apply IH; [assumption|]. apply Forall2_app; assumption.
  - rewrite !eval_List.
    eapply result_rel_bind; [apply same_eval_list; [exact Hev | assumption]|].
    intros vs vs' Hvs. cbn. constructor; assumption.
  - rewrite !eval_Tuple.
    eapply result_rel_bind; [apply same_eval_list; [exact Hev | assumption]|].
    intros vs vs' Hvs. cbn. constructor; assumption.
  - rewrite !eval_Dict.
    eapply result_rel_bind; [apply same_eval_pairs; [exact Hev | assumption..]|].
    intros ps ps' Hps.
    eapply result_rel_bind; [apply same_build_map; [exact Hps | constructor]|].
    intros items items' Hitems. cbn. constructor; assumption.
  - rewrite !eval_Subscript. eapply result_rel_bind; [apply Hev; assumption|].
    intros x x' Hx. eapply result_rel_bind; [apply Hev; assumption|].
    intros y y' Hy. apply same_subscript; assumption.
Qed.

Lemma maybe_wrap_wrapped self e r :
  is_leaf e = true -> wrapped e (IdentityFuncInjector.maybe_wrap self e r).1.
Proof.
  intros Hleaf. unfold IdentityFuncInjector.maybe_wrap.
  destruct (random.random r) as [x r1].
  destruct (x <? IdentityFuncInjector.chance self); [|apply wrapped_refl].
  unfold identity_wrap.
  destruct (IdentityFuncInjector.strategy self);
    try (apply wrapped_leaf; exact Hleaf).
  destruct (random.choice OrIdentityStrategy mixed_choices r1) as [chosen r2].
  apply wrapped_leaf; exact Hleaf.
Qed.

Lemma visit_list_wrapped (visit : ast_ext.expr -> random.rng -> ast_ext.expr * random.rng)
    es :
  Forall (fun e => forall r, wrapped e (visit e r).1) es ->
  forall r, Forall2 wrapped es (IdentityFuncInjector.visit_list visit es r).1.
Proof.
  induction 1 as [|e es He _ IH]; intros r; cbn; [constructor|].
  specialize (He r). destruct (visit e r) as [e' r1]. specialize (IH r1).
  destruct (IdentityFuncInjector.visit_list visit es r1) as [es' r2].
  constructor; assumption.
Qed.

Lemma visit_keywords_wrapped
    (visit : ast_ext.expr -> random.rng -> ast_ext.expr * random.rng) kws :
  Forall (fun kw : string * ast_ext.expr => forall r, wrapped kw.2 (visit kw.2 r).1) kws ->
  forall r,
    Forall2 (fun kw kw' : string * ast_ext.expr => kw.1 = kw'.1 /\ wrapped kw.2 kw'.2)
      kws (IdentityFuncInjector.visit_keywords visit kws r).1.
Proof.
  induction 1 as [|[k e] kws He _ IH]; intros r; cbn; [constructor|].
  specialize (He r). cbn in He. destruct (visit e r) as [e' r1]. specialize (IH r1).
  destruct (IdentityFuncInjector.visit_keywords visit kws r1) as [kws' r2].
  constructor; [split; [reflexivity | assumption] | assumption].
Qed.

Ltac visit_step :=
  match goal with
  | IH : forall r, wrapped ?e (IdentityFuncInjector.visit ?self ?e r).1
    |- context [IdentityFuncInjector.visit ?self ?e ?r0] =>
      let H := fresh "Hw" in
      pose proof (IH r0) as H;
      destruct (IdentityFuncInjector.visit self e r0) as [? ?]; cbn [fst] in H
  | IH : Forall (fun e => forall r, wrapped e (IdentityFuncInjector.visit ?self e r).1) ?es
    |- context [IdentityFuncInjector.visit_list _ ?es ?r0] =>
      let H := fresh "Hw" in
      pose proof (visit_list_wrapped _ es IH r0) as H;
      destruct (IdentityFuncInjector.visit_list (IdentityFuncInjector.visit self) es r0)
        as [? ?]; cbn [fst] in H
  | IH : Forall _ ?kws
    |- context [IdentityFuncInjector.visit_keywords
                  (IdentityFuncInjector.visit ?self) ?kws ?r0] =>
      let H := fresh "Hw" in
      pose proof (visit_keywords_wrapped _ kws IH r0) as H;
      destruct (IdentityFuncInjector.visit_keywords (IdentityFuncInjector.visit self) kws r0)
        as [? ?]; cbn [fst] in H
  end.

(** What the injector returns is the tree with some leaves wrapped. *)
Lemma visit_wrapped self e :
  forall r, wrapped e (IdentityFuncInjector.visit self e r).1.
Proof.
  induction e using ext_expr_ind_nested; intros r; cbn [IdentityFuncInjector.visit].
  - apply maybe_wrap_wrapped. reflexivity.
  - destruct ctx; [apply maybe_wrap_wrapped; reflexivity | apply wrapped_refl].
  - repeat visit_step. constructor; assumption.
  - repeat visit_step. constructor; assumption.
  - repeat visit_step. constructor; assumption.
  - repeat visit_step. constructor; assumption.
  - repeat visit_step. constructor; assumption.
  - repeat visit_step. constructor; assumption.
  - repeat visit_step. constructor; assumption.
  - repeat visit_step. constructor; assumption.
  - repeat visit_step. constructor; assumption.
  - repeat visit_step. constructor; assumption.
  - repeat visit_step. constructor; assumption.
Qed.

Lemma closure_free_same v :
  pyx.closure_free v = true -> forall v', same_up_to_wrappers v v' -> v' = v.
Proof.
  induction v using value_ind_nested; intros Hfree v' Hv'; inversion Hv'; subst;
    try reflexivity; try discriminate.
  - f_equal. cbn in Hfree. clear Hv'.
    match goal with Hall : Forall2 _ items ?ys |- _ =>
      revert Hfree; induction Hall as [|x y xs ys Hxy _ IHl]; intros Hfree;
        [reflexivity|] end.
    cbn in Hfree. apply andb_true_iff in Hfree as [Hx Hxs].
    inversion H; subst. f_equal; auto.
  - f_equal. cbn in Hfree. clear Hv'.
    match goal with Hall : Forall2 _ items ?ys |- _ =>
      revert Hfree; induction Hall as [|x y xs ys Hxy _ IHl]; intros Hfree;
        [reflexivity|] end.
    cbn in Hfree. apply andb_true_iff in Hfree as [Hx Hxs].
    inversion H; subst. f_equal; auto.
  - f_equal. cbn in Hfree. clear Hv'.
    match goal with Hall : Forall2 _ items ?ys |- _ =>
      revert Hfree; induction Hall as [|[k x] [k' y] xs ys [Hk Hxy] _ IHl]; intros Hfree;
        [reflexivity|] end.
    cbn in *. apply andb_true_iff in Hfree as [Hx Hxs].
    apply andb_true_iff in Hx as [_ Hx].
    inversion H as [|? ? [_ Hy] Hrest]; subst. f_equal; [f_equal|]; auto.
Qed.

(** X22.  Identity injection keeps the result of an expression: whatever the
    strategy, the chance and the draws, the visited expression raises the
    exception the original raises, or has its value (for a value that
    holds no lambda; a lambda's body is visited too). *)
Theorem identity_injection_same_result self e r bindings fuel :
  pyx.first_order (pyx.eval fuel bindings e) = true ->
  pyx.eval (fuel + 3) bindings (IdentityFuncInjector.visit self e r).1
  = pyx.eval fuel bindings e.
Proof.
  intros Hfo. rewrite Nat.add_comm.
  pose proof (wrapped_eval fuel bindings bindings e _ (visit_wrapped self e r)
                (env_rel_refl bindings)) as H.
  destruct (pyx.eval fuel bindings e) as [v|x|];
    destruct (pyx.eval (3 + fuel) bindings (IdentityFuncInjector.visit self e r).1)
      as [v'|x'|]; cbn in *; try contradiction; try discriminate.
  - f_equal. apply closure_free_same; assumption.
  - congruence.
Qed.

Lemma identity_injection_same_result_witness :
  pyx.first_order
    (pyx.eval 2 [("n", pyx.VInt 4)]
       (ast_ext.BinOp (ast_ext.Name "n" ast.Load) ast.Add
          (ast_ext.Constant (ast.CInt 1)))) = true
  /\ (IdentityFuncInjector.visit
        {| IdentityFuncInjector.strategy := MixedIdentityStrategy;
           IdentityFuncInjector.chance := 500 |}
        (ast_ext.BinOp (ast_ext.Name "n" ast.Load) ast.Add
           (ast_ext.Constant (ast.CInt 1)))
        [100; 2; 900]%nat).1
     = ast_ext.BinOp
         (ast_ext.Call
            (ast_ext.Lambda (ast.plain_args ["x"]) (ast_ext.Name "x" ast.Load))
            [ast_ext.Name "n" ast.Load] [])
         ast.Add (ast_ext.Constant (ast.CInt 1))
  /\ pyx.eval 5 [("n", pyx.VInt 4)]
       (IdentityFuncInjector.visit
          {| IdentityFuncInjector.strategy := MixedIdentityStrategy;
             IdentityFuncInjector.chance := 500 |}
          (ast_ext.BinOp (ast_ext.Name "n" ast.Load) ast.Add
             (ast_ext.Constant (ast.CInt 1)))
          [100; 2; 900]%nat).1
     = pyx.Ok (pyx.VInt 5).
Proof.
  split; [reflexivity|]. split; [reflexivity|].
  apply (identity_injection_same_result
           {| IdentityFuncInjector.strategy := MixedIdentityStrategy;
              IdentityFuncInjector.chance := 500 |}
           (ast_ext.BinOp (ast_ext.Name "n" ast.Load) ast.Add
              (ast_ext.Constant (ast.CInt 1)))
           [100; 2; 900]%nat [("n", pyx.VInt 4)] 2).
  reflexivity.
Defined.

(* ===================================================================== *)
(** ** Renaming keeps what a module does *)
(* ===================================================================== *)

Section Equivariance.

Variable M : gmap string string.
Context {M_inj : Inj (=) (=) (Renamer.subst M)}.
Hypothesis M_print : Renamer.subst M "print" = "print".
Hypothesis M_range : Renamer.subst M "range" = "range".

Local Notation "'rho'" := (Renamer.subst M).
Local Notation "'rv'" := (renamed_value M).
Local Notation "'rst'" := (renamed_state M).
Local Notation "'rfr'" := (option_map (renamed_frame M)).
Local Notation "'rres'" := (renamed_result M).

Lemma renamed_lookup (b : gmap string py.value) id :
  renamed_bindings M b !! rho id = rv <$> (b !! id).
Proof. unfold renamed_bindings. rewrite lookup_kmap by exact M_inj. rewrite lookup_fmap. reflexivity. Qed.

Lemma renamed_insert (b : gmap string py.value) id v :
  renamed_bindings M (<[id := v]> b) = <[rho id := rv v]> (renamed_bindings M b).
Proof.
  unfold renamed_bindings. rewrite fmap_insert. rewrite kmap_insert by exact M_inj.
  reflexivity.
Qed.

Lemma renamed_elem id (names : list string) :
  rho id ∈ map rho names <-> id ∈ names.
Proof.
  split.
  - intros H. apply list_elem_of_fmap in H as (y & Hy & Hin).
    apply M_inj in Hy. subst. exact Hin.
  - intros H. apply list_elem_of_fmap. eauto.
Qed.

Lemma renamed_load fr st id :
  py.load (rfr fr) (rst st) (rho id) = rres rv (py.load fr st id).
Proof.
  destruct fr as [f|]; cbn [py.load option_map renamed_frame renamed_state
    py.local_names py.locals py.globals].
  - rewrite (bool_decide_ext _ _ (renamed_elem id (py.local_names f))).
    destruct (bool_decide (id ∈ py.local_names f)); rewrite renamed_lookup;
      [destruct (py.locals f !! id) | destruct (py.globals st !! id)]; reflexivity.
  - rewrite renamed_lookup. destruct (py.globals st !! id); reflexivity.
Qed.

Lemma renamed_store fr st id v :
  py.store (rfr fr) (rst st) (rho id) (rv v)
  = (rfr (py.store fr st id v).1, rst (py.store fr st id v).2).
Proof.
  destruct fr as [f|]; cbn; unfold renamed_frame, renamed_state; cbn;
    rewrite renamed_insert; reflexivity.
Qed.

Lemma renamed_write st v : py.write (rst st) (rv v) = rst (py.write st v).
Proof. unfold py.write, renamed_state. cbn. rewrite map_app. reflexivity. Qed.

Lemma renamed_as_int v : py.as_int (rv v) = py.as_int v.
Proof. destruct v; reflexivity. Qed.

Lemma renamed_truthy v : py.truthy (rv v) = py.truthy v.
Proof. destruct v; reflexivity. Qed.

Lemma renamed_binop op x y :
  py.binop op (rv x) (rv y) = rres rv (py.binop op x y).
Proof.
  unfold py.binop. rewrite !renamed_as_int.
  destruct (py.as_int x) as [a|], (py.as_int y) as [b|]; try reflexivity.
  destruct op; cbn; try reflexivity;
    match goal with |- context [if ?c then _ else _] => destruct c end; reflexivity.
Qed.

Lemma renamed_compare op x y :
  py.compare op (rv x) (rv y) = rres rv (py.compare op x y).
Proof.
  unfold py.compare. rewrite !renamed_as_int.
  destruct (py.as_int x) as [a|], (py.as_int y) as [b|]; reflexivity.
Qed.

Lemma renamed_unop op x : py.unop op (rv x) = rres rv (py.unop op x).
Proof.
  unfold py.unop. rewrite renamed_as_int, renamed_truthy.
  destruct op; [destruct (py.as_int x)|]; reflexivity.
Qed.

Lemma renamed_as_ints xs : py.as_ints (map rv xs) = py.as_ints xs.
Proof.
  induction xs as [|x xs IH]; [reflexivity|]. cbn. rewrite renamed_as_int, IH.
  reflexivity.
Qed.

Lemma renamed_range_items xs :
  py.range_items (map rv xs) = rres (fun items => items) (py.range_items xs).
Proof.
  unfold py.range_items. rewrite renamed_as_ints.
  destruct (py.as_ints xs) as [[|a [|b [|c [|d l]]]]|]; try reflexivity.
  cbn. destruct (c =? 0); reflexivity.
Qed.

Lemma renamed_is_builtin name func :
  rho name = name ->
  py.is_builtin name (Renamer.rewrite_expr M func) = py.is_builtin name func.
Proof.
  intros Hname. destruct func; try reflexivity. cbn.
  destruct (String.eqb_spec id name) as [->|Hne].
  - rewrite Hname. apply String.eqb_refl.
  - apply String.eqb_neq. intros Heq. apply Hne, M_inj. congruence.
Qed.

Lemma renamed_bound_names s :
  py.bound_names (Renamer.rewrite_stmt M s) = map rho (py.bound_names s).
Proof.
  induction s using stmt_ind_nested; cbn [Renamer.rewrite_stmt py.bound_names];
    try reflexivity.
  - destruct target; reflexivity.
  - destruct target; reflexivity.
  - rewrite !map_app, !flat_map_concat_map, !concat_map, !map_map.
    f_equal; [destruct target; reflexivity|].
    f_equal; f_equal; apply map_ext_Forall; assumption.
  - rewrite !map_app, !flat_map_concat_map, !concat_map, !map_map.
    f_equal; f_equal; apply map_ext_Forall; assumption.
  - rewrite !map_app, !flat_map_concat_map, !concat_map, !map_map.
    f_equal; f_equal; apply map_ext_Forall; assumption.
Qed.

Lemma renamed_empty : renamed_bindings M ∅ = ∅.
Proof. unfold renamed_bindings. rewrite fmap_empty. apply kmap_empty. Qed.

Lemma renamed_bind_params params xs :
  py.bind_params (map rho params) (map rv xs)
  = renamed_bindings M <$> py.bind_params params xs.
Proof.
  revert xs. induction params as [|p params IH]; intros [|x xs];
    cbn [map py.bind_params]; try reflexivity.
  rewrite IH. destruct (py.bind_params params xs) as [b|]; [|reflexivity].
  change (Some (<[rho p := rv x]> (renamed_bindings M b))
          = Some (renamed_bindings M (<[p := x]> b))).
  rewrite renamed_insert. reflexivity.
Qed.

Lemma renamed_call_frame fargs body xs :
  py.call_frame (Renamer.rewrite_args M fargs) (map (Renamer.rewrite_stmt M) body)
    (map rv xs)
  = rfr (py.call_frame fargs body xs).
Proof.
  unfold py.call_frame. cbn [Renamer.rewrite_args ast.posonlyargs ast.kwonlyargs ast.args].
  destruct (ast.posonlyargs fargs); [|reflexivity].
  destruct (ast.kwonlyargs fargs); [|reflexivity].
  rewrite renamed_bind_params. destruct (py.bind_params (ast.args fargs) xs); cbn;
    [|reflexivity].
  unfold renamed_frame. cbn. f_equal. f_equal.
  rewrite map_app. f_equal.
  rewrite !flat_map_concat_map, concat_map, !map_map. f_equal.
  apply map_ext. intros s. apply renamed_bound_names.
Qed.

Lemma renamed_bind {A B} (f : A -> A) (g : B -> B) (m : py.result A)
    (k k' : A -> py.result B) :
  (forall a, k' (f a) = rres g (k a)) ->
  py.bind (rres f m) k' = rres g (py.bind m k).
Proof. intros Hk. destruct m; cbn; auto. Qed.

Local Notation "'on_value'" :=
  (fun p : py.value * py.state => (rv p.1, rst p.2)).
Local Notation "'on_values'" :=
  (fun p : list py.value * py.state => (map rv p.1, rst p.2)).
Local Notation "'on_outcome'" :=
  (fun p : py.outcome * option py.frame * py.state =>
     (renamed_outcome M p.1.1, rfr p.1.2, rst p.2)).

Definition equivariant_at (fuel : nat) : Prop :=
  (forall fr st e,
     py.eval_expr fuel (rfr fr) (rst st) (Renamer.rewrite_expr M e)
     = rres on_value (py.eval_expr fuel fr st e))
  /\ (forall fr st es,
     py.eval_args fuel (rfr fr) (rst st) (map (Renamer.rewrite_expr M) es)
     = rres on_values (py.eval_args fuel fr st es))
  /\ (forall fr st s,
     py.exec_stmt fuel (rfr fr) (rst st) (Renamer.rewrite_stmt M s)
     = rres on_outcome (py.exec_stmt fuel fr st s))
  /\ (forall fr st id items body orelse,
     py.exec_for fuel (rfr fr) (rst st) (rho id) items
       (map (Renamer.rewrite_stmt M) body) (map (Renamer.rewrite_stmt M) orelse)
     = rres on_outcome (py.exec_for fuel fr st id items body orelse))
  /\ (forall fr st ss,
     py.exec_block fuel (rfr fr) (rst st) (map (Renamer.rewrite_stmt M) ss)
     = rres on_outcome (py.exec_block fuel fr st ss)).

(** The interpreter commutes with a one-to-one renaming that keeps [print]
    and [range]. *)
Lemma equivariant_all fuel : equivariant_at fuel.
Proof.
  induction fuel as [|fuel (IHe & IHa & IHs & IHf & IHb)].
  { repeat split; reflexivity. }
  repeat split.
  - (* eval_expr *)
    intros fr st e.
    destruct e as [c|id ctx|op operand|lhs op rhs|lhs op rhs|func args keywords|largs lbody];
      cbn [Renamer.rewrite_expr py.eval_expr].
    + destruct c; reflexivity.
    + rewrite renamed_load. destruct (py.load fr st id); reflexivity.
    + rewrite IHe. apply renamed_bind. intros [x st1]. cbn [fst snd].
      rewrite renamed_unop. destruct (py.unop op x); reflexivity.
    + rewrite IHe. apply renamed_bind. intros [x st1]. cbn [fst snd].
      rewrite IHe. apply renamed_bind. intros [y st2]. cbn [fst snd].
      rewrite renamed_binop. destruct (py.binop op x y); reflexivity.
    + rewrite IHe. apply renamed_bind. intros [x st1]. cbn [fst snd].
      rewrite IHe. apply renamed_bind. intros [y st2]. cbn [fst snd].
      rewrite renamed_compare. destruct (py.compare op x y); reflexivity.
    + destruct keywords as [|kw kws]; [|reflexivity]. cbn [map].
      rewrite (renamed_is_builtin "print" func M_print).
      destruct (py.is_builtin "print" func).
      * destruct args as [|a [|b args]]; cbn [map]; try reflexivity.
        rewrite IHe. apply renamed_bind. intros [x st1]. cbn [fst snd].
        rewrite renamed_write. reflexivity.
      * rewrite IHe. apply renamed_bind. intros [f st1]. cbn [fst snd].
        rewrite IHa. apply renamed_bind. intros [xs st2]. cbn [fst snd].
        destruct f as [| | | |fargs body]; try reflexivity. cbn [renamed_value].
        rewrite renamed_call_frame.
        destruct (py.call_frame fargs body xs) as [callee|]; [|reflexivity].
        cbn [option_map].
        change (Some (renamed_frame M callee)) with (rfr (Some callee)).
        rewrite IHb. apply renamed_bind. intros [[o fr1] st3]. cbn [fst snd].
        destruct o; reflexivity.
    + reflexivity.
  - (* eval_args *)
    intros fr st es. destruct es as [|e es]; cbn [map py.eval_args]; [reflexivity|].
    rewrite IHe. apply renamed_bind. intros [x st1]. cbn [fst snd].
    rewrite IHa. apply renamed_bind. intros [xs st2]. reflexivity.
  - (* exec_stmt *)
    intros fr st s.
    destruct s as [name fargs body|name body|value|target value|target op value
                  |target iter body orelse|test body orelse|test body orelse|value|];
      cbn [Renamer.rewrite_stmt py.exec_stmt].
    + (* FunctionDef *)
      change (py.VFunction (Renamer.rewrite_args M fargs) (map (Renamer.rewrite_stmt M) body))
        with (rv (py.VFunction fargs body)).
      rewrite renamed_store. destruct (py.store fr st name (py.VFunction fargs body)).
      reflexivity.
    + reflexivity.
    + destruct value as [e|]; cbn [option_map]; [|reflexivity].
      rewrite IHe. apply renamed_bind. intros [v st1]. reflexivity.
    + destruct target as [|id ctx| | | | |]; try reflexivity. cbn [Renamer.rewrite_expr].
      rewrite IHe. apply renamed_bind. intros [v st1]. cbn [fst snd].
      rewrite renamed_store. destruct (py.store fr st1 id v). reflexivity.
    + destruct target as [|id ctx| | | | |]; try reflexivity. cbn [Renamer.rewrite_expr].
      rewrite renamed_load. apply renamed_bind. intros x.
      rewrite IHe. apply renamed_bind. intros [y st1]. cbn [fst snd].
      rewrite renamed_binop. apply renamed_bind. intros v.
      rewrite renamed_store. destruct (py.store fr st1 id v). reflexivity.
    + (* For *)
      destruct target as [|id ctx| | | | |]; try reflexivity. cbn [Renamer.rewrite_expr].
      destruct iter as [| | | | |func args keywords|]; try reflexivity.
      cbn [Renamer.rewrite_expr].
      destruct keywords as [|kw kws]; [|reflexivity]. cbn [map].
      rewrite (renamed_is_builtin "range" func M_range).
      destruct (py.is_builtin "range" func); [|reflexivity].
      rewrite IHa. apply renamed_bind. intros [xs st1]. cbn [fst snd].
      rewrite renamed_range_items. apply renamed_bind. intros items.
      apply IHf.
    + (* While *)
      rewrite IHe. apply renamed_bind. intros [c st1]. cbn [fst snd].
      rewrite renamed_truthy. destruct (py.truthy c); [|apply IHb].
      rewrite IHb. apply renamed_bind. intros [[o fr1] st2]. cbn [fst snd].
      destruct o; [|reflexivity]. cbn [renamed_outcome].
      apply (IHs fr1 st2 (ast.While test body orelse)).
    + (* If *)
      rewrite IHe. apply renamed_bind. intros [c st1]. cbn [fst snd].
      rewrite renamed_truthy. destruct (py.truthy c); apply IHb.
    + rewrite IHe. apply renamed_bind. intros [v st1]. reflexivity.
    + reflexivity.
  - (* exec_for *)
    intros fr st id items body orelse. destruct items as [|x items];
      cbn [py.exec_for]; [apply IHb|].
    change (py.VInt x) with (rv (py.VInt x)) at 1.
    rewrite renamed_store. destruct (py.store fr st id (py.VInt x)) as [fr1 st1].
    cbn [fst snd].
    rewrite IHb. apply renamed_bind. intros [[o fr2] st2]. cbn [fst snd].
    destruct o; [apply IHf | reflexivity].
  - (* exec_block *)
    intros fr st ss. destruct ss as [|s ss]; cbn [map py.exec_block]; [reflexivity|].
    rewrite IHs. apply renamed_bind. intros [[o fr1] st1]. cbn [fst snd].
    destruct o; [apply IHb | reflexivity].
Qed.

End Equivariance.

(** *** A mapping with fresh replacements extends to an exchange of names *)

Section Exchange.

Variable m : gmap string string.
Hypothesis m_one : one_to_one m.
Hypothesis m_fresh : forall k v, m !! k = Some v -> m !! v = None.

Lemma inverse_lookup v k :
  (list_to_map (prod_swap <$> map_to_list m) : gmap string string) !! v = Some k
  <-> m !! k = Some v.
Proof.
  rewrite <- elem_of_list_to_map.
  - rewrite list_elem_of_fmap. split.
    + intros ([k' v'] & Heq & Hin). injection Heq as -> ->.
      apply elem_of_map_to_list, Hin.
    + intros H. exists (k, v). split; [reflexivity | apply elem_of_map_to_list, H].
  - rewrite <- list_fmap_compose.
    apply NoDup_fmap_2_strong; [|apply NoDup_map_to_list].
    intros [k1 v1] [k2 v2] H1 H2 Heq. cbn in Heq. subst v2.
    apply elem_of_map_to_list in H1, H2. f_equal. exact (m_one _ _ _ H1 H2).
Qed.

Lemma exchange_lookup x :
  Renamer.subst (exchange m) x
  = match m !! x with
    | Some v => v
    | None =>
        default x ((list_to_map (prod_swap <$> map_to_list m) : gmap string string) !! x)
    end.
Proof.
  unfold Renamer.subst, exchange. destruct (m !! x) as [v|] eqn:Hx.
  - erewrite lookup_union_Some_l; [reflexivity | exact Hx].
  - rewrite lookup_union_r by exact Hx. reflexivity.
Qed.

Lemma exchange_involutive x :
  Renamer.subst (exchange m) (Renamer.subst (exchange m) x) = x.
Proof.
  rewrite (exchange_lookup x). destruct (m !! x) as [v|] eqn:Hx.
  - rewrite exchange_lookup, (m_fresh _ _ Hx).
    rewrite (proj2 (inverse_lookup v x) Hx). reflexivity.
  - destruct (list_to_map (prod_swap <$> map_to_list m) !! x) as [k|] eqn:Hi; cbn.
    + apply inverse_lookup in Hi. rewrite exchange_lookup, Hi. reflexivity.
    + rewrite exchange_lookup, Hx, Hi. reflexivity.
Qed.

Lemma exchange_inj : Inj (=) (=) (Renamer.subst (exchange m)).
Proof.
  intros x y H. rewrite <- (exchange_involutive x), <- (exchange_involutive y), H.
  reflexivity.
Qed.

Lemma exchange_agrees x :
  (forall k, m !! k <> Some x) ->
  Renamer.subst (exchange m) x = Renamer.subst m x.
Proof.
  intros Hx. rewrite exchange_lookup. unfold Renamer.subst.
  destruct (m !! x) as [v|]; [reflexivity|].
  destruct (list_to_map (prod_swap <$> map_to_list m) !! x) as [k|] eqn:Hi;
    [|reflexivity].
  apply inverse_lookup in Hi. exfalso. exact (Hx k Hi).
Qed.

End Exchange.

(** *** The replacements have eight characters *)

Lemma generate_name_length fuel : forall self r name self' r',
  Renamer._generate_name fuel self r = Some (name, self', r') ->
  String.length name = 8%nat.
Proof.
  induction fuel as [|fuel IH]; intros self r name self' r' H; [discriminate|].
  cbn [Renamer._generate_name] in H.
  pose proof (proj1 (random_name_shape r)) as Hlen.
  destruct (Renamer.random_name r) as [cand r1]. cbn [fst] in Hlen.
  destruct (_ && _ && _); [|eauto].
  injection H as <- <- <-. exact Hlen.
Qed.

Lemma build_mapping_lengths fuel order : forall self r self' r',
  (forall k v, Renamer.mapping self !! k = Some v -> String.length v = 8%nat) ->
  Renamer.build_mapping fuel order self r = Some (self', r') ->
  forall k v, Renamer.mapping self' !! k = Some v -> String.length v = 8%nat.
Proof.
  induction order as [|old rest IH]; intros self r self' r' Hlen H.
  - injection H as <- <-. exact Hlen.
  - cbn [Renamer.build_mapping] in H.
    destruct (Renamer._generate_name fuel self r) as [[[name self1] r1]|] eqn:G;
      [|discriminate].
    pose proof (generate_name_length _ _ _ _ _ _ G) as Hname.
    apply generate_name_spec in G. destruct G as (_ & _ & _ & Hmap & _ & _).
    refine (IH _ _ _ _ _ H). cbn [Renamer.mapping].
    intros k v Hk. destruct (decide (k = old)) as [->|Hne].
    + rewrite lookup_insert_eq in Hk. injection Hk as <-. exact Hname.
    + rewrite lookup_insert_ne in Hk by congruence. rewrite Hmap in Hk. eauto.
Qed.

Lemma renamer_mapping_lengths fuel tree ns r out self r' :
  Renamer.apply fuel tree (Renamer.init ns) r = Some (out, self, r') ->
  forall k v, Renamer.mapping self !! k = Some v -> String.length v = 8%nat.
Proof.
  unfold Renamer.apply. intros H.
  destruct (Renamer.build_mapping _ _ _ r) as [[self1 r1]|] eqn:B; [|discriminate].
  injection H as <- <- <-.
  refine (build_mapping_lengths _ _ _ _ _ _ _ B).
  cbn. intros k v Hk. rewrite lookup_empty in Hk. discriminate.
Qed.

(** *** Rewriting depends on the mapping only through the names rewritten *)

Section RewriteExt.

Variables M m : gmap string string.

Local Notation "'agree'" := (fun x : string => Renamer.subst M x = Renamer.subst m x).

Lemma rewrite_expr_ext e :
  Forall agree (expr_names e) -> Forall agree (Renamer.collect_expr e) ->
  Renamer.rewrite_expr M e = Renamer.rewrite_expr m e.
Proof.
  induction e as [c|id ctx|op operand IH|lhs op rhs IHl IHr|lhs op rhs IHl IHr
                 |func args kws IHf IHa IHk|largs body IH] using expr_ind_nested;
    cbn [expr_names Renamer.collect_expr Renamer.rewrite_expr];
    rewrite ?Forall_app, ?Forall_flat_map; intros Hn Hc.
  - reflexivity.
  - apply Forall_inv in Hn. cbn in Hn. rewrite Hn. reflexivity.
  - rewrite IH by assumption. reflexivity.
  - destruct Hn, Hc. rewrite IHl, IHr by assumption. reflexivity.
  - destruct Hn, Hc. rewrite IHl, IHr by assumption. reflexivity.
  - destruct Hn as (Hn1 & Hn2 & Hn3), Hc as (Hc1 & Hc2 & Hc3).
    rewrite IHf by assumption. f_equal.
    + apply map_ext_Forall.
      pose proof (conj IHa (conj Hn2 Hc2)) as H. rewrite <- !Forall_and in H.
      eapply Forall_impl; [exact H|]. cbn. intros a (Ha & Ha1 & Ha2). auto.
    + apply map_ext_Forall.
      pose proof (conj IHk (conj Hn3 Hc3)) as H. rewrite <- !Forall_and in H.
      eapply Forall_impl; [exact H|]. cbn. intros a (Ha & Ha1 & Ha2).
      rewrite Ha by assumption. reflexivity.
  - destruct Hc as [Hc1 Hc2]. rewrite IH by assumption. f_equal.
    unfold Renamer.rewrite_args. f_equal. apply map_ext_Forall, Hc1.
Qed.

Lemma rewrite_stmt_ext s :
  Forall agree (stmt_names s) -> Forall agree (Renamer.collect_stmt s) ->
  Renamer.rewrite_stmt M s = Renamer.rewrite_stmt m s.
Proof.
  assert (Hbody : forall body : list ast.stmt,
    Forall (fun s => Forall agree (stmt_names s) -> Forall agree (Renamer.collect_stmt s) ->
                     Renamer.rewrite_stmt M s = Renamer.rewrite_stmt m s) body ->
    Forall (fun s => Forall agree (stmt_names s)) body ->
    Forall (fun s => Forall agree (Renamer.collect_stmt s)) body ->
    map (Renamer.rewrite_stmt M) body = map (Renamer.rewrite_stmt m) body).
  { intros body H1 H2 H3. apply map_ext_Forall.
    pose proof (conj H1 (conj H2 H3)) as H. rewrite <- !Forall_and in H.
    eapply Forall_impl; [exact H|]. cbn. intros a (Ha & Ha1 & Ha2). auto. }
  induction s as [name fargs body IH|name body IH|value|target value|target op value
                 |target iter body orelse IHb IHo|test body orelse IHb IHo
                 |test body orelse IHb IHo|value|] using stmt_ind_nested;
    cbn [stmt_names Renamer.collect_stmt Renamer.rewrite_stmt];
    rewrite ?Forall_cons, ?Forall_app, ?Forall_flat_map; intros Hn Hc.
  - destruct Hn as (Hn1 & Hn2 & Hn3), Hc as (Hc1 & Hc2 & Hc3).
    rewrite Hn1, (Hbody body) by assumption. f_equal.
    unfold Renamer.rewrite_args. f_equal. apply map_ext_Forall, Hn2.
  - destruct Hn as (Hn1 & Hn2), Hc as (Hc1 & Hc2).
    rewrite Hn1, (Hbody body) by assumption. reflexivity.
  - destruct value as [e|]; [|reflexivity]. cbn [option_map].
    rewrite rewrite_expr_ext by assumption. reflexivity.
  - destruct Hn, Hc. rewrite !rewrite_expr_ext by assumption. reflexivity.
  - destruct Hn, Hc. rewrite !rewrite_expr_ext by assumption. reflexivity.
  - destruct Hn as (? & ? & ? & ?), Hc as (? & ? & ? & ?).
    rewrite !rewrite_expr_ext, (Hbody body), (Hbody orelse) by assumption. reflexivity.
  - destruct Hn as (? & ? & ?), Hc as (? & ? & ?).
    rewrite !rewrite_expr_ext, (Hbody body), (Hbody orelse) by assumption. reflexivity.
  - destruct Hn as (? & ? & ?), Hc as (? & ? & ?).
    rewrite !rewrite_expr_ext, (Hbody body), (Hbody orelse) by assumption. reflexivity.
  - rewrite rewrite_expr_ext by assumption. reflexivity.
  - reflexivity.
Qed.

End RewriteExt.



(* ===================================================================== *)
(** ** Arithmetic junk *)
(* ===================================================================== *)

Lemma eval_binop_raise fuel fr st lhs op rhs x y e st1 st2 :
  py.eval_expr fuel fr st lhs = py.Ok (x, st1) ->
  py.eval_expr fuel fr st1 rhs = py.Ok (y, st2) ->
  py.binop op x y = py.Raise e ->
  py.eval_expr (S fuel) fr st (ast.BinOp lhs op rhs) = py.Raise e.
Proof.
  intros H1 H2 H3. cbn [py.eval_expr]. rewrite H1. cbn [py.bind]. rewrite H2.
  cbn [py.bind]. rewrite H3. reflexivity.
Qed.

Lemma eval_binop_left_raise fuel fr st lhs op rhs e :
  py.eval_expr fuel fr st lhs = py.Raise e ->
  py.eval_expr (S fuel) fr st (ast.BinOp lhs op rhs) = py.Raise e.
Proof. intros H. cbn [py.eval_expr]. rewrite H. reflexivity. Qed.

Lemma exec_assign_raise fuel fr st id ctx e x :
  py.eval_expr fuel fr st e = py.Raise x ->
  py.exec_stmt (S fuel) fr st (ast.Assign (ast.Name id ctx) e) = py.Raise x.
Proof. intros H. cbn [py.exec_stmt]. rewrite H. reflexivity. Qed.

Lemma exec_block_raise fuel fr st s ss x :
  py.exec_stmt fuel fr st s = py.Raise x ->
  py.exec_block (S fuel) fr st (s :: ss) = py.Raise x.
Proof. intros H. cbn [py.exec_block]. rewrite H. reflexivity. Qed.

(** [_wrap] of a scratch variable: its value, negated or doubled. *)
Lemma wrap_eval v z st r fuel :
  py.globals st !! v = Some (py.VInt z) ->
  exists z',
    py.eval_expr (S (S fuel)) None st
      (ArithmeticStrategy._wrap (ast.Name v ast.Load) r).1 = py.Ok (py.VInt z', st)
    /\ (z' = 0 <-> z = 0).
Proof.
  intros Hv. unfold ArithmeticStrategy._wrap.
  destruct (random.choice ArithmeticStrategy.none _ r) as [c r']. cbn [fst].
  destruct c.
  - exists z. split; [|reflexivity]. apply eval_name, load_global, Hv.
  - exists (- z). split; [|lia]. cbn [py.eval_expr py.load]. rewrite Hv. reflexivity.
  - exists (z * 2). split; [|lia]. cbn [py.eval_expr py.load]. rewrite Hv. reflexivity.
Qed.

Lemma arithmetic_op_total op a b :
  In op ArithmeticStrategy.OPS -> (op = ast.FloorDiv -> b <> 0) ->
  exists z, py.binop op (py.VInt a) (py.VInt b) = py.Ok (py.VInt z).
Proof.
  intros Hop Hb. cbn in Hop. destruct Hop as [<-|[<-|[<-|[<-|[]]]]]; cbn; eauto.
  destruct (Z.eqb_spec b 0) as [->|_]; [exfalso; apply Hb; reflexivity | eauto].
Qed.

(** X24.  The junk of [ArithmeticStrategy], run at module level with every
    scratch variable holding an integer: it raises [ZeroDivisionError]
    exactly when the first operator drawn is [//] and the second variable
    sampled holds 0; in every other case it runs to completion, prints
    nothing, leaves integers in the scratch variables and changes no other
    global. *)
Theorem arithmetic_junk_outcome (junk_vars : list string) (r : random.rng)
    (st : py.state) :
  (2 <= length junk_vars)%nat ->
  pool_ints junk_vars st ->
  let v2 := (sample2 junk_vars r).1.2 in
  let op1 := (random.choice ast.Add ArithmeticStrategy.OPS (sample2 junk_vars r).2).1 in
  let junk := (get_junk ArithmeticStrategy junk_vars r).1 in
  (op1 = ast.FloorDiv -> py.globals st !! v2 = Some (py.VInt 0) ->
   py.exec_block 6 None st junk = py.Raise py.ZeroDivisionError)
  /\ (op1 <> ast.FloorDiv \/ py.globals st !! v2 <> Some (py.VInt 0) ->
      exists st',
        py.exec_block 6 None st junk = py.Ok (py.Normal, None, st')
        /\ py.stdout st' = py.stdout st
        /\ pool_ints junk_vars st'
        /\ forall id, id ∉ junk_vars -> py.globals st' !! id = py.globals st !! id).
Proof.
  intros Hl Hpool. cbn zeta.
  pose proof (sample2_in junk_vars r Hl) as [H1 H2].
  cbn [get_junk]. unfold ArithmeticStrategy.get_junk.
  destruct (sample2 junk_vars r) as [[v1 v2] r1]. cbn [fst snd] in *.
  pose proof (choice_in ast.Add ArithmeticStrategy.OPS r1 ltac:(discriminate)) as Hop1.
  destruct (random.choice ast.Add ArithmeticStrategy.OPS r1) as [op1 r2].
  pose proof (choice_in ast.Add ArithmeticStrategy.OPS r2 ltac:(discriminate)) as Hop2.
  destruct (random.choice ast.Add ArithmeticStrategy.OPS r2) as [op2 r3].
  cbn [fst] in *.
  destruct (Hpool v1 H1) as (a & Ha). destruct (Hpool v2 H2) as (b & Hb).
  destruct (wrap_eval v1 a st r3 0 Ha) as (a' & Ea & _).
  destruct (ArithmeticStrategy._wrap (ast.Name v1 ast.Load) r3) as [lhs r4].
  destruct (wrap_eval v2 b st r4 0 Hb) as (b' & Eb & Hb0).
  destruct (ArithmeticStrategy._wrap (ast.Name v2 ast.Load) r4) as [rhs r5].
  unfold random.randint. destruct (random.next r5) as [d r6]. cbn [fst] in *.
  pose proof (Z.mod_pos_bound (Z.of_nat d) (5 - 1 + 1) ltac:(lia)) as Hd.
  split.
  - intros -> Hzero. rewrite Hb in Hzero. injection Hzero as ->.
    apply exec_block_raise, exec_assign_raise, eval_binop_left_raise.
    eapply eval_binop_raise; [exact Ea | exact Eb |].
    rewrite (proj2 Hb0 eq_refl). reflexivity.
  - intros Hsafe.
    assert (Hb' : op1 = ast.FloorDiv -> b' <> 0).
    { intros -> Hz. apply Hb0 in Hz. subst b. destruct Hsafe as [Hs|Hs]; congruence. }
    destruct (arithmetic_op_total op1 a' b' Hop1 Hb') as (x & Ex).
    destruct (arithmetic_op_total op2 x (1 + Z.of_nat d mod (5 - 1 + 1)) Hop2
                ltac:(intros _; lia)) as (y & Ey).
    eexists. split.
    + erewrite exec_block_cons;
        [| eapply exec_assign, eval_binop;
           [eapply eval_binop; [exact Ea | exact Eb | exact Ex]
           | apply eval_constant | exact Ey]].
      apply exec_block_nil.
    + cbn [py.store fst snd py.stdout py.globals].
      split; [reflexivity|]. split; [apply pool_ints_store, Hpool|].
      intros id Hid. apply lookup_insert_ne. intros <-. contradiction.
Qed.

Lemma arithmetic_junk_outcome_witness :
  py.exec_block 6 None
    {| py.globals := <["junk1" := py.VInt 0]> (<["junk0" := py.VInt 7]> ∅);
       py.stdout := [] |}
    (get_junk ArithmeticStrategy ["junk0"; "junk1"] [0; 0; 3]%nat).1
  = py.Raise py.ZeroDivisionError.
Proof.
  apply (arithmetic_junk_outcome ["junk0"; "junk1"] [0; 0; 3]%nat
           {| py.globals := <["junk1" := py.VInt 0]> (<["junk0" := py.VInt 7]> ∅);
              py.stdout := [] |}).
  - cbn. lia.
  - intros v Hv. apply list_elem_of_In in Hv. cbn in Hv.
    destruct Hv as [<-|[<-|[]]]; eexists; reflexivity.
  - reflexivity.
  - reflexivity.
Defined.

